(* ===== verification/_CoqProject ===== *)
-Q . S2P
Prelude.v
CLib.v
Common.v
Dns.v
Message.v
Layout.v
Descriptor.v
Schema.v
Codec.v
Wire.v
Ini.v
Config.v
Protobuf.v
Server.v
Fifo.v
LogLine.v
Stdio.v
Logfile.v
Syslog.v
Bounds.v
Clients.v
Sql.v
Sqlite.v
Background.v
Engines.v
Pipeline.v
Main.v
