(* ===== verification/Prelude.v ===== *)
(** * pdns-logger: a verification development

    pdns-logger is a daemon that receives DNS query logs from the PowerDNS recursor over
    TCP, as length-prefixed protobuf messages, and writes them to a file, to syslog and to
    an SQLite database.  This library models its C sources (under src/src/) as executable
    functions on explicit state and proves what each part promises, from the bytes on the
    socket to the lines and rows that come out.

    ** The program and the files that model it

    - Prelude: faults and the [outcome] monad, the build type, machine integers, bytes.
    - CLib: the C and POSIX library functions the sources call (C strings, [snprintf],
      [strncat], [atoi], [inet_ntop], byte order).
    - Common (pdns-logger.h.in): status codes, [zstr], the daemon's settings [globals_t],
      the table of an engine's operations [pdns_logger_t].
    - Dns (pdns-logger-dns.c, .h): the name tables and the three lookups.
    - Message (dnsmessage.pb-c.h, .c): the decoded message and its initial values.
    - Layout (dnsmessage.pb-c.h): the C structures, and how a compiler lays them out.
    - Descriptor (dnsmessage.pb-c.c, 47-603): the descriptor and index tables, entry by
      entry; Schema (dnsmessage.proto): the schema, and how the tables are read as one.
    - Codec (dnsmessage.pb-c.c, 10-45): the generated functions that pack and unpack, on
      structures in memory; Wire: an implementation of the protobuf wire format, which
      shows that what is assumed of libprotobuf-c can hold.
    - Ini (inih/ini.c, .h): the INI parser, every function of it.
    - Config (pdns-logger-ini.c): the handler of section [globals], [parse_config_file].
    - Protobuf (pdns-logger-protobuf.c, first half): one client connection,
      [socket_thread_exec] with [protobuf_extract] and [protobuf_parse].
    - Server (pdns-logger-protobuf.c, second half): [socket_start], [socket_loop],
      [pdns_socket_run] and the hand-over of a connection to its thread.
    - Fifo (pdns-logger-queue.c): the queue on an explicit heap, its lock and its wait.
    - LogLine: the line buffer and the fields of a message, the code the two text backends
      have twice; Stdio: streams and the file system underneath the file backend.
    - Logfile (pdns-logger-file.c) and Syslog (pdns-logger-syslog.c): the text backends,
      each with its settings as a record and its own copy of the logging code.
    - Bounds: how long a line can get, from what the message contains; Clients: several
      connection threads and a rotation sharing the stream, call by call.
    - Sql, Sqlite (pdns-logger-sqlite.c): the SQL text; the backend, its batching of
      commits and its background thread; Background: that thread, the main thread and the
      loggers as a state machine.
    - Engines (pdns-logger.c, 27-81): the table of engines and the loops over it.
    - Pipeline: the connection with the generated decoder, feeding the engines.
    - Main (pdns-logger.c, 83-243): command line, background, signals, [main].

    A C function becomes a Rocq function of the same name.  Static variables of a file are
    a record ([logfile_t], [syslog_t], [sqlite_t], [globals_t]) passed in and out; a loop is
    a recursive function; undefined behaviour, a failed assertion and a model bound that is
    too small are faults of [outcome], so that "returns [Ok]" includes memory safety.

    ** How the parts interact, and the interfaces

    A connection thread hands every message to [pdns_loggers_log].  Protobuf is verified
    against the interface [LogSink] (and the decoder's interface [Decoder]); Engines
    discharges [LogSink] with the dispatch to the three backends, Pipeline discharges
    [Decoder] with the generated [pbdnsmessage__unpack].  libprotobuf-c is the class
    [ProtobufC], its documented behaviour the class [ProtobufCLaws], both on structures
    accessed through the descriptors; Wire has an instance.  The platform's sizes and
    alignments are the class [Abi].  The sqlite backend puts
    statements into the queue through the interface [Mailbox], discharged by Fifo.  SQLite
    is the class [Sqlite].  Most theorems of the backend hold for any answers it gives;
    those about committed rows use the class [SqliteLaws], which states what SQLite
    documents of the program's own statements, whether they succeed or fail.  The database
    in memory at the end of Sqlite satisfies both, and has failing statements.  [Build] says
    whether assert(0) aborts (the CMake default) or is compiled out (the Debian package);
    theorems hold for both builds.

    ** What the theorems show

    - Connection: framing refines a specification on the whole byte stream, for every way
      the kernel cuts it; round trip with an encoder; oversized and malformed messages.
    - End to end: messages packed by a client come out of the enabled backends as exactly
      their documented lines and rows; whatever bytes a client sends, the backends only get
      well-formed messages, and a debug build stops at the first frame that is none.
    - Messages: packing and unpacking give every member back; the descriptor tables fit the
      structures on every platform, can be searched, and give every field number the meaning
      the schema gives it.
    - File backend: what a message appends; the exact condition under which building a
      line stays within its 1024 bytes, and a simple sufficient one for messages whose textual
      data is terminated; no line lost across
      rotations, nor when several clients log at once; failed rotations.
    - Syslog: the two copies of the logging code agree; facilities; what the settings do.
    - Queue: refinement of a one-place mailbox; order under every interleaving; the lock.
    - Sqlite: INSERT statements read back to their rows, column by column; what batching
      hands to SQLite and keeps, with and without errors; termination of the mutual
      recursion; the pipeline under every interleaving and every answer; what rotation loses;
      stopping the thread returns, unless it comes before the thread has begun; when a
      rotation closes the database under the thread.
    - INI and settings: parser round trip, string and file parsing agree, the shipped
      configuration file.
    - Names: for which codes the tables are indexed correctly.
    - Daemon: accept loop, socket set-up, hand-over race, command line, background mode,
      shutdown.

    Where the code has a defect the theorem states what it does: the overflow of a long
    line, unterminated record data, the queue of one place, rows rolled back by SIGHUP,
    the missing thread in the background, options without effect.

    ** Bounds and fuel

    The receive loop gets one unit of fuel more than the bytes the client sends (every
    read takes at least one), message extraction one more than the bytes buffered, the INI
    loop one more than the length of the file, [getopt] the number of words; [db_exec] two
    levels.  That these are enough is part of the theorems or of the lemmas before them;
    running out is the fault [OutOfFuel], or is excluded by a fuel-independence lemma.
    Decimal conversion prints up to twenty digits, enough for 64 bits.  Lines whose fields
    exceed 2^30 bytes are excluded where [sz] is treated as an unbounded integer.

    ** What is not modelled

    libprotobuf-c and SQLite are parameters.  The memory they and the backends allocate is
    not freed in the model, except for the cells of the queue and the database handle.
    Output on standard error, the usage text, usleep, freeing memory at exit and descriptors
    other than the listening socket are left out.  Concurrency is modelled as interleavings
    of the calls the C library makes atomic (Clients), of the regions the mutex makes atomic
    (Fifo, Background), of whole statements (Sqlite) and of whole events (Main); a reopening
    that fails while another thread is between its test of the stream and its output, and
    data races on the settings, are not interleaved further.  Signal handlers run between
    calls: that SIGHUP may be delivered to a client thread inside a call of the C library or
    of SQLite, neither of which may be called again from a handler, is not modelled.  The
    output of [%ld] for a negative [int] is left open.  The compile-time options of
    inih/ini.h have the values the build gives them.

    ** Plan

    Next: the remaining pieces of the threads' interplay (a failing rotation under running
    clients, the hand-over of descriptors composed with the connections); the options of
    inih/ini.h as a parameter of the parser; the syslog and database backends under several
    clients. *)

From stdpp Require Export base tactics decidable option list numbers sets strings.
From Stdlib Require Export Strings.Byte.

(** The development's hint database. *)
Create HintDb pdns.

(** ** Faults and outcomes

    C code either produces a value or runs into behaviour the language leaves
    undefined (or that the program turns into an abort).  [outcome] keeps the two
    apart; the monad threads the first fault outwards. *)

Inductive fault :=
  | OutOfBoundsWrite     (* a store past the end of an array *)
  | OutOfBoundsRead      (* a load past the end of an allocation *)
  | NullDereference
  | UninitialisedRead
  | AssertionFailed      (* assert(0) reached in a build without NDEBUG *)
  | BadThreadHandle      (* pthread_join on a thread that was never created *)
  | OutOfFuel.           (* the model's own bound on a loop was too small *)

Inductive outcome (A : Type) :=
  | Ok (a : A)
  | Fault (f : fault).
Arguments Ok {A} a.
Arguments Fault {A} f.

#[global] Instance fault_eq_dec : EqDecision fault.
Proof. solve_decision. Defined.
#[global] Instance outcome_eq_dec {A} `{EqDecision A} : EqDecision (outcome A).
Proof. solve_decision. Defined.

#[global] Instance outcome_ret : MRet outcome := @Ok.
#[global] Instance outcome_bind : MBind outcome := λ A B k m,
  match m with Ok a => k a | Fault f => Fault f end.
#[global] Instance outcome_fmap : FMap outcome := λ A B g m,
  match m with Ok a => Ok (g a) | Fault f => Fault f end.

(** Inversion of equations between outcomes. *)
Ltac ok_inv := unfold mret, outcome_ret in *; simplify_eq/=.

(** The build decides what [assert(0)] does: the CMake default build (Debug)
    aborts, a Release build defines NDEBUG and carries on. *)
Class Build := { ndebug : bool }.

Definition debug_build : Build := {| ndebug := false |}.
Definition release : Build := {| ndebug := true |}.

Definition assert0 `{Build} : outcome unit :=
  if ndebug then Ok () else Fault AssertionFailed.

Section outcome_lemmas.
Context {A B C : Type}.

Lemma outcome_bind_assoc (m : outcome A) (k : A → outcome B) (h : B → outcome C) :
  (m ≫= k) ≫= h = m ≫= (λ a, k a ≫= h).
Proof. by destruct m. Qed.

Lemma outcome_bind_ok (m : outcome A) (k : A → outcome B) b :
  m ≫= k = Ok b ↔ ∃ a, m = Ok a ∧ k a = Ok b.
Proof. destruct m; simpl; naive_solver. Qed.

Lemma outcome_bind_ext (m : outcome A) (k h : A → outcome B) :
  (∀ a, k a = h a) → m ≫= k = m ≫= h.
Proof. destruct m; simpl; auto. Qed.

Lemma outcome_bind_ret (m : outcome A) : m ≫= Ok = m.
Proof. by destruct m. Qed.
End outcome_lemmas.

(** Monadic iteration over a list, left to right. *)
Fixpoint foldM {A S} (f : A → S → outcome S) (l : list A) (s : S) : outcome S :=
  match l with
  | [] => mret s
  | x :: l => s ← f x s; foldM f l s
  end.

Lemma foldM_app {A S} (f : A → S → outcome S) l k s :
  foldM f (l ++ k) s = foldM f l s ≫= foldM f k.
Proof.
  revert s; induction l as [|x l IH]; intros s; [done|]; simpl.
  rewrite outcome_bind_assoc. by apply outcome_bind_ext.
Qed.

(** ** Bytes *)

#[global] Instance byte_eq_dec : EqDecision byte := Byte.byte_eq_dec.
#[global] Instance byte_inhabited : Inhabited byte := populate x00.

Definition bytes := list byte.

(** A string literal of the source, without its terminating NUL. *)
Definition bs (s : string) : list byte := String.list_byte_of_string s.

Definition byte_val (b : byte) : Z := Z.of_N (Byte.to_N b).

Definition byte_of_Z (z : Z) : byte :=
  default x00 (Byte.of_N (Z.to_N (z mod 256))).

Definition NUL : byte := x00.
Definition LF : byte := x0a.

Lemma byte_val_range b : (0 ≤ byte_val b < 256)%Z.
Proof. unfold byte_val. pose proof (Byte.to_N_bounded b). lia. Qed.

Lemma byte_val_of_Z z : (0 ≤ z < 256)%Z → byte_val (byte_of_Z z) = z.
Proof.
  intros Hz. unfold byte_val, byte_of_Z. rewrite Z.mod_small by done.
  destruct (Byte.of_N (Z.to_N z)) as [b|] eqn:E; simpl.
  - apply Byte.to_of_N in E. lia.
  - apply Byte.of_N_None_iff in E. lia.
Qed.

(** ** Machine integers: the wrap-around of the C types the sources use *)

Definition u16 (z : Z) : Z := z mod 2 ^ 16.
Definition s32 (z : Z) : Z := (z + 2 ^ 31) mod 2 ^ 32 - 2 ^ 31.
Definition size_t (z : Z) : Z := z mod 2 ^ 64.

Lemma s32_small z : (- 2 ^ 31 ≤ z < 2 ^ 31)%Z → s32 z = z.
Proof. unfold s32. intros. rewrite Z.mod_small by lia. lia. Qed.

Lemma size_t_small z : (0 ≤ z < 2 ^ 64)%Z → size_t z = z.
Proof. apply Z.mod_small. Qed.

Lemma size_t_neg z : (- 2 ^ 63 ≤ z < 0)%Z → (2 ^ 63 ≤ size_t z)%Z.
Proof.
  intros. unfold size_t. rewrite <- (Z.mod_add z 1) by lia.
  rewrite Z.mod_small; lia.
Qed.

(** ** Lists *)

Lemma exists_last' {A} (l : list A) : l = [] ∨ ∃ k x, l = k ++ [x].
Proof. induction l as [|x l _] using rev_ind; eauto. Qed.
