(* ===== verification/CLib.v ===== *)
(** * The C and POSIX library functions the sources call

    Executable models, on bytes, of the functions of the C library the program
    relies on: C strings and [strncmp]/[strncat]/[snprintf], decimal and
    hexadecimal conversions, [atoi], [isspace], byte-order conversion and
    [inet_ntop].  Where the C library used on the program's platform (glibc)
    fixes what the standard leaves open ([%s] of a null pointer, [atoi] out of
    range), the model follows it. *)

From S2P Require Import Prelude.

(** ** Pointers to characters

    A [char *] is null or points into an allocation; the list holds the bytes
    from the pointer to the end of that allocation. *)
Definition cptr := option (list byte).

(** The characters before the terminating NUL; [None] when the allocation has no
    NUL from the pointer on, so that reading the string runs off its end. *)
Fixpoint cstr (blk : list byte) : option (list byte) :=
  match blk with
  | [] => None
  | b :: blk => if Byte.eqb b NUL then Some [] else (b ::.) <$> cstr blk
  end.

Definition read_cstr (p : cptr) : outcome (list byte) :=
  match p with
  | None => Fault NullDereference
  | Some blk => match cstr blk with Some s => Ok s | None => Fault OutOfBoundsRead end
  end.

(** The argument of a [%s] conversion; glibc prints a null pointer as "(null)". *)
Definition fmt_s (p : cptr) : outcome (list byte) :=
  match p with None => Ok (bs "(null)") | Some _ => read_cstr p end.

(** A string literal, or a copy made by [strdup], as a pointer. *)
Definition lit (s : list byte) : cptr := Some (s ++ [NUL]).

(** A [char *] that is null or points to a properly terminated string, given by
    the characters before its NUL. *)
Definition cstring := option (list byte).

(** [%s] of such a pointer. *)
Definition fmt_cs (p : cstring) : list byte := default (bs "(null)") p.

(** A list of bytes that can be the contents of a C string. *)
Definition nul_free (s : list byte) : Prop := NUL ∉ s.
#[global] Instance nul_free_dec s : Decision (nul_free s).
Proof. unfold nul_free. apply _. Defined.

(** ** Conversions *)

Definition digit (n : Z) : byte := byte_of_Z (48 + n).

Fixpoint udec_loop (fuel : nat) (n : Z) (acc : list byte) : list byte :=
  match fuel with
  | O => acc
  | S fuel =>
      let acc := digit (n mod 10) :: acc in
      if (n <? 10)%Z then acc else udec_loop fuel (n / 10) acc
  end.

(** [%u], [%zu]: 20 digits are enough for every 64-bit value. *)
Definition udec (n : Z) : list byte := udec_loop 20 n [].

(** [%d] of a value of type [int]. *)
Definition dec (n : Z) : list byte :=
  if (n <? 0)%Z then bs "-" ++ udec (- n) else udec n.

Definition hex_digit (n : Z) : byte :=
  if (n <? 10)%Z then byte_of_Z (48 + n) else byte_of_Z (87 + n).

Fixpoint hex_loop (fuel : nat) (n : Z) (acc : list byte) : list byte :=
  match fuel with
  | O => acc
  | S fuel =>
      let acc := hex_digit (n mod 16) :: acc in
      if (n <? 16)%Z then acc else hex_loop fuel (n / 16) acc
  end.

(** [%x] of a 16-bit value. *)
Definition hex16 (n : Z) : list byte := hex_loop 4 n [].

Definition isspace (b : byte) : bool :=
  let c := byte_val b in ((9 <=? c) && (c <=? 13) || (c =? 32))%Z.

Definition isdigit (b : byte) : bool :=
  let c := byte_val b in ((48 <=? c) && (c <=? 57))%Z.

Fixpoint skip_space (s : list byte) : list byte :=
  match s with
  | b :: s' => if isspace b then skip_space s' else s
  | [] => []
  end.

Fixpoint read_digits (s : list byte) (acc : Z) : Z :=
  match s with
  | b :: s => if isdigit b then read_digits s (10 * acc + (byte_val b - 48)) else acc
  | [] => acc
  end.

(** [strtol] in base 10: the value saturates at the limits of [long]. *)
Definition strtol (s : list byte) : Z :=
  let clamp z := Z.max (- 2 ^ 63) (Z.min (2 ^ 63 - 1) z)%Z in
  match skip_space s with
  | x2b :: s => clamp (read_digits s 0)      (* '+' *)
  | x2d :: s => clamp (- read_digits s 0)%Z    (* '-' *)
  | s => clamp (read_digits s 0)
  end.

(** glibc: [atoi] is [(int) strtol]. *)
Definition atoi (s : list byte) : Z := s32 (strtol s).

(** ** String functions *)

(** [!strncmp(a, b, n)] on the contents of two C strings. *)
Definition strncmp_eq (a b : list byte) (n : nat) : bool :=
  bool_decide (take n a = take n b).

(** [sizeof("...")] of a literal. *)
Definition sizeof_lit (s : list byte) : nat := S (length s).

Definition strchr (chars : list byte) (c : byte) : bool := bool_decide (c ∈ chars).

(** [snprintf(dst, size, ...)] whose conversions produce [out]: what is stored in
    the array (its terminating NUL left out) and the value returned. *)
Definition snprintf (size : nat) (out : list byte) : list byte * Z :=
  (take (pred size) out, Z.of_nat (length out)).

(** [strncat(dst, src, n)] on an array of [cap] bytes holding the string [dst].
    At most [n] characters of [src] are copied and a NUL is stored after them. *)
Definition strncat (cap : nat) (dst src : list byte) (n : Z) : outcome (list byte) :=
  let k := if (Z.of_nat (length src) <=? n)%Z then length src else Z.to_nat n in
  if length dst + k + 1 <=? cap then Ok (dst ++ take k src) else Fault OutOfBoundsWrite.

(** [strncpy] followed by storing a NUL in the last byte: [strncpy0]'s effect on
    an array of [size] bytes, as the string the array then holds. *)
Definition trunc_str (size : nat) (s : list byte) : list byte := take (pred size) s.

(** ** Byte order and addresses *)

Definition ntohs (hi lo : byte) : Z := 256 * byte_val hi + byte_val lo.
Definition htons (z : Z) : Z := u16 z.    (* the port as the network sees it *)

Inductive af := AF_INET | AF_INET6.

(** [INET6_ADDRSTRLEN] *)
Definition INET6_ADDRSTRLEN : nat := 46.

Definition ntop4 (a b c d : byte) : list byte :=
  udec (byte_val a) ++ bs "." ++ udec (byte_val b) ++ bs "." ++
  udec (byte_val c) ++ bs "." ++ udec (byte_val d).

Fixpoint words (l : list byte) : list Z :=
  match l with
  | hi :: lo :: l => ntohs hi lo :: words l
  | _ => []
  end.

(** The run of zero words that "::" replaces: the first of the longest runs. *)
Definition better (cur best : option (nat * nat)) : option (nat * nat) :=
  match cur, best with
  | None, _ => best
  | Some _, None => cur
  | Some (_, n), Some (_, m) => if m <? n then cur else best
  end.

Fixpoint zero_run (ws : list Z) (i : nat) (cur best : option (nat * nat)) :
    option (nat * nat) :=
  match ws with
  | [] => better cur best
  | w :: ws =>
      if (w =? 0)%Z
      then zero_run ws (S i) (Some (match cur with None => (i, 1) | Some (b, n) => (b, S n) end)) best
      else zero_run ws (S i) None (better cur best)
  end.

Definition best_run (ws : list Z) : option (nat * nat) :=
  match zero_run ws 0 None None with
  | Some (b, n) => if n <? 2 then None else Some (b, n)
  | None => None
  end.

(** Word [i] lies inside the chosen run. *)
Definition in_run (r : option (nat * nat)) (i : nat) : bool :=
  match r with Some (b, n) => (b <=? i) && (i <? b + n) | None => false end.

Definition v4_tail (r : option (nat * nat)) (ws : list Z) : bool :=
  match r with
  | Some (0, n) => (n =? 6) || ((n =? 5) && bool_decide (ws !! 5 = Some 65535%Z))
  | _ => false
  end.

(** The loop that writes the words from index [i] on; [tail4] are the last four
    bytes, for an embedded IPv4 address. *)
Fixpoint ntop6_loop (r : option (nat * nat)) (v4 : bool) (tail4 : list byte)
    (ws : list Z) (i : nat) : list byte :=
  match ws with
  | [] => []
  | w :: ws =>
      if in_run r i then
        (if bool_decide (fst <$> r = Some i) then bs ":" else []) ++ ntop6_loop r v4 tail4 ws (S i)
      else
        (if i =? 0 then [] else bs ":") ++
        (if v4 && (i =? 6)
         then match tail4 with [a; b; c; d] => ntop4 a b c d | _ => [] end
         else hex16 w ++ ntop6_loop r v4 tail4 ws (S i))
  end.

Definition ntop6 (l : list byte) : list byte :=
  let ws := words l in
  let r := best_run ws in
  ntop6_loop r (v4_tail r ws) (drop 12 l) ws 0 ++
  match r with Some (b, n) => if b + n =? 8 then bs ":" else [] | None => [] end.

(** [inet_ntop(af, src, dst, INET6_ADDRSTRLEN)]: the string stored in [dst]. *)
Definition inet_ntop (f : af) (src : cptr) : outcome (list byte) :=
  match src with
  | None => Fault NullDereference
  | Some blk =>
      match f with
      | AF_INET =>
          match take 4 blk with
          | [a; b; c; d] => Ok (ntop4 a b c d)
          | _ => Fault OutOfBoundsRead
          end
      | AF_INET6 =>
          if length blk <? 16 then Fault OutOfBoundsRead else Ok (ntop6 (take 16 blk))
      end
  end.

(** ** Lemmas on C strings *)

Lemma cstr_app s r : nul_free s → cstr (s ++ NUL :: r) = Some s.
Proof.
  induction s as [|b s IH]; intros Hs; [done|]; simpl.
  apply not_elem_of_cons in Hs as [Hb Hs].
  destruct (Byte.eqb b NUL) eqn:E; [by apply Byte.byte_dec_bl in E|].
  by rewrite IH.
Qed.

Lemma cstr_lit s : nul_free s → read_cstr (lit s) = Ok s.
Proof. intros. unfold read_cstr, lit. by rewrite cstr_app. Qed.

Lemma cstr_None blk : cstr blk = None ↔ nul_free blk.
Proof.
  induction blk as [|b blk IH]; simpl; unfold nul_free in *.
  { split; [intros _; apply not_elem_of_nil|done]. }
  rewrite not_elem_of_cons.
  destruct (Byte.eqb b NUL) eqn:E.
  - apply Byte.byte_dec_bl in E as ->. naive_solver.
  - rewrite fmap_None, IH. split; [|naive_solver]. intros ?. split; [|done].
    intros <-. by rewrite Byte.byte_dec_lb in E.
Qed.

Lemma cstr_nul_free blk s : cstr blk = Some s → nul_free s.
Proof.
  revert s; induction blk as [|b blk IH]; intros s; simpl; [done|].
  destruct (Byte.eqb b NUL) eqn:E; [intros [= <-]; apply not_elem_of_nil|].
  intros (s' & Hs & ->)%fmap_Some. apply not_elem_of_cons. split; [|by apply IH].
  intros <-. by rewrite Byte.byte_dec_lb in E.
Qed.

(** Comparing with [sizeof] of a literal covers its NUL: it is string equality. *)
Lemma strncmp_lit a b : strncmp_eq a b (sizeof_lit b) = bool_decide (a = b).
Proof.
  unfold strncmp_eq, sizeof_lit. apply bool_decide_ext.
  rewrite (take_ge b) by lia. split; [|intros ->; apply take_ge; lia].
  intros H. assert (length a ≤ length b) as Hl.
  { apply (f_equal length) in H. rewrite length_take in H. lia. }
  by rewrite take_ge in H by lia.
Qed.

(** ** Lemmas on bounded appends *)

Lemma strncat_ok cap dst src n :
  (0 ≤ n)%Z → (Z.of_nat (length dst) + n + 1 ≤ Z.of_nat cap)%Z →
  strncat cap dst src n = Ok (dst ++ take (Z.to_nat n) src).
Proof.
  intros Hn Hcap. unfold strncat.
  destruct (Z.leb_spec (Z.of_nat (length src)) n).
  - rewrite (proj2 (Nat.leb_le _ _)) by lia. by rewrite !take_ge by lia.
  - by rewrite (proj2 (Nat.leb_le _ _)) by lia.
Qed.

(** A length limit of at least the source's length is no limit at all. *)
Lemma strncat_unlimited cap dst src n :
  (Z.of_nat (length src) ≤ n)%Z → cap < length dst + length src + 1 →
  strncat cap dst src n = Fault OutOfBoundsWrite.
Proof.
  intros Hn Hcap. unfold strncat.
  rewrite (proj2 (Z.leb_le _ _)) by done. by rewrite (proj2 (Nat.leb_gt _ _)) by lia.
Qed.

(** ** Lemmas on decimal conversion *)

Lemma digit_val n : (0 ≤ n < 10)%Z → byte_val (digit n) = (48 + n)%Z.
Proof. intros. unfold digit. rewrite byte_val_of_Z; lia. Qed.

Lemma isdigit_digit n : (0 ≤ n < 10)%Z → isdigit (digit n) = true.
Proof. intros. unfold isdigit. rewrite digit_val by done. lia. Qed.

Lemma digits_not_nul s : Forall (λ b, isdigit b = true) s → nul_free s.
Proof. intros H Hin. by rewrite Forall_forall in H; specialize (H _ Hin). Qed.

Lemma udec_loop_digits fuel n acc :
  (0 ≤ n)%Z → Forall (λ b, isdigit b = true) acc →
  Forall (λ b, isdigit b = true) (udec_loop fuel n acc).
Proof.
  revert n acc; induction fuel as [|fuel IH]; intros n acc Hn Hacc; [done|]; simpl.
  assert (Forall (λ b, isdigit b = true) (digit (n mod 10) :: acc)).
  { constructor; [|done]. apply isdigit_digit, Z.mod_pos_bound; lia. }
  destruct (Z.ltb_spec n 10); [done|]. apply IH; [|done]. by apply Z.div_pos.
Qed.

Lemma udec_loop_length fuel n acc :
  length (udec_loop fuel n acc) ≤ fuel + length acc.
Proof.
  revert n acc; induction fuel as [|fuel IH]; intros n acc; simpl; [lia|].
  destruct (n <? 10)%Z; simpl; [lia|]. specialize (IH (n / 10)%Z (digit (n mod 10) :: acc)).
  simpl in IH. lia.
Qed.

(** More fuel than digits changes nothing. *)
Lemma udec_loop_fuel k fuel n acc :
  (0 ≤ n < 10 ^ Z.of_nat k)%Z → (0 < k)%nat → k ≤ fuel →
  udec_loop fuel n acc = udec_loop k n acc.
Proof.
  revert fuel n acc; induction k as [|k IH]; intros fuel n acc Hn Hk Hf; [lia|].
  destruct fuel as [|fuel]; [lia|]; simpl.
  destruct (Z.ltb_spec n 10) as [|Hge]; [done|].
  destruct k as [|k]; [simpl in Hn; lia|].
  apply IH; [|lia|lia]. rewrite Nat2Z.inj_succ, Z.pow_succ_r in Hn by lia.
  split; [apply Z.div_pos; lia|]. apply Z.div_lt_upper_bound; lia.
Qed.

Lemma udec_length k n :
  (0 < k ≤ 20)%nat → (0 ≤ n < 10 ^ Z.of_nat k)%Z → length (udec n) ≤ k.
Proof.
  intros Hk Hn. unfold udec. rewrite (udec_loop_fuel k) by lia.
  pose proof (udec_loop_length k n []) as H. simpl in H. lia.
Qed.

Lemma udec_digits n : (0 ≤ n)%Z → Forall (λ b, isdigit b = true) (udec n).
Proof. intros. by apply udec_loop_digits. Qed.

Lemma udec_loop_acc fuel n acc : udec_loop fuel n acc = udec_loop fuel n [] ++ acc.
Proof.
  revert n acc; induction fuel as [|fuel IH]; intros n acc; [done|]; simpl.
  destruct (n <? 10)%Z; [done|].
  rewrite (IH _ (_ :: acc)), (IH _ [_]). by rewrite <- app_assoc.
Qed.

Lemma read_digits_app s r acc :
  Forall (λ b, isdigit b = true) s → read_digits (s ++ r) acc = read_digits r (read_digits s acc).
Proof.
  intros Hs; revert acc; induction Hs as [|b s Hb Hs IH]; intros acc; [done|]; simpl.
  by rewrite Hb, IH.
Qed.

Lemma read_udec_loop fuel n :
  (0 ≤ n < 10 ^ Z.of_nat fuel)%Z → read_digits (udec_loop fuel n []) 0 = n.
Proof.
  revert n; induction fuel as [|fuel IH]; intros n Hn; [simpl in *; lia|].
  rewrite Nat2Z.inj_succ, Z.pow_succ_r in Hn by lia. simpl.
  pose proof (Z.mod_pos_bound n 10 eq_refl) as Hm.
  destruct (Z.ltb_spec n 10).
  - cbn [read_digits]. rewrite isdigit_digit, digit_val by done.
    rewrite Z.mod_small by lia. lia.
  - rewrite udec_loop_acc, read_digits_app.
    + rewrite IH by (split; [apply Z.div_pos; lia|apply Z.div_lt_upper_bound; lia]).
      cbn [read_digits]. rewrite isdigit_digit, digit_val by done.
      pose proof (Z.div_mod n 10). lia.
    + apply udec_loop_digits; [apply Z.div_pos; lia|done].
Qed.

Lemma udec_loop_ge fuel n acc : length acc < length (udec_loop (S fuel) n acc).
Proof.
  cbn [udec_loop]. destruct (n <? 10)%Z; [simpl; lia|].
  rewrite udec_loop_acc, length_app. simpl. lia.
Qed.

Lemma udec_cons n : (0 ≤ n)%Z → ∃ b s, udec n = b :: s ∧ isdigit b = true.
Proof.
  intros Hn. pose proof (udec_digits n Hn) as Hd.
  destruct (udec n) as [|b s] eqn:E.
  - pose proof (udec_loop_ge 19 n []) as H. fold (udec n) in H. rewrite E in H. simpl in H. lia.
  - exists b, s. by apply Forall_cons in Hd as [? _].
Qed.

(** [atoi] reads back what [%u] of a non-negative [int] printed. *)
Lemma atoi_udec n : (0 ≤ n < 2 ^ 31)%Z → atoi (udec n) = n.
Proof.
  intros Hn. destruct (udec_cons n) as (b & s & E & Hb); [lia|].
  assert (read_digits (udec n) 0 = n) as Hr.
  { apply read_udec_loop. simpl. lia. }
  unfold atoi, strtol. rewrite E in *. simpl skip_space.
  assert (isspace b = false) as ->.
  { unfold isdigit in Hb. unfold isspace. lia. }
  assert (read_digits (b :: s) 0 = n) as Hr' by done.
  destruct b; try discriminate Hb; cbv beta iota; rewrite Hr'; rewrite s32_small; lia.
Qed.

(** ** Lemmas on addresses *)

Lemma ntop4_length a b c d : length (ntop4 a b c d) ≤ 15.
Proof.
  assert (∀ x, length (udec (byte_val x)) ≤ 3) as H.
  { intros x. apply udec_length; [lia|]. pose proof (byte_val_range x). simpl. lia. }
  unfold ntop4. rewrite !length_app. simpl.
  pose proof (H a); pose proof (H b); pose proof (H c); pose proof (H d). lia.
Qed.

Lemma hex_loop_length fuel n acc : length (hex_loop fuel n acc) ≤ fuel + length acc.
Proof.
  revert n acc; induction fuel as [|fuel IH]; intros n acc; simpl; [lia|].
  destruct (n <? 16)%Z; simpl; [lia|]. specialize (IH (n / 16)%Z (hex_digit (n mod 16) :: acc)).
  simpl in IH. lia.
Qed.

Lemma hex16_length n : length (hex16 n) ≤ 4.
Proof. exact (hex_loop_length 4 n []). Qed.

(** Without an embedded IPv4 address every word takes at most five characters. *)
Lemma ntop6_loop_length r tail4 ws i :
  length (ntop6_loop r false tail4 ws i) ≤ 5 * length ws.
Proof.
  revert i; induction ws as [|w ws IH]; intros i; simpl; [lia|].
  specialize (IH (S i)). pose proof (hex16_length w).
  destruct (in_run r i); [|destruct (i =? 0)]; rewrite ?length_app; simpl;
    [case_bool_decide|..]; rewrite ?length_app; simpl; lia.
Qed.

Lemma words_length l : length (words l) ≤ length l / 2.
Proof.
  assert (∀ n l, length l ≤ n → 2 * length (words l) ≤ length l) as H.
  { induction n as [|n IH]; intros [|a [|b k]] Hl; simpl in *; try lia.
    specialize (IH k). lia. }
  specialize (H (length l) l (Nat.le_refl _)). apply Nat.div_le_lower_bound; lia.
Qed.

(** With an embedded IPv4 address the first five words are the "::". *)
Lemma ntop6_loop_v4_length ws n tail4 :
  n = 5 ∨ n = 6 → length (ntop6_loop (Some (0, n)) true tail4 ws 0) ≤ 39.
Proof.
  intros Hn.
  assert (∀ l : list byte, length (match l with [a; b; c; d] => ntop4 a b c d | _ => [] end) ≤ 15)
    as Ht.
  { intros [|a [|b [|c [|d [|]]]]]; simpl; try lia. apply ntop4_length. }
  specialize (Ht tail4).
  destruct Hn as [-> | ->];
    destruct ws as [|w0 [|w1 [|w2 [|w3 [|w4 [|w5 [|w6 ws]]]]]]]; cbn -[ntop4 hex16];
    rewrite ?length_app; simpl; rewrite ?length_app; try pose proof (hex16_length w5);
    simpl; lia.
Qed.

(** What [inet_ntop] stores fits in an array of [INET6_ADDRSTRLEN] characters. *)
Lemma inet_ntop_length f p s :
  inet_ntop f p = Ok s → length s + 1 ≤ INET6_ADDRSTRLEN.
Proof.
  unfold inet_ntop, INET6_ADDRSTRLEN. destruct p as [blk|]; [|done]. destruct f.
  - destruct (take 4 blk) as [|a [|b [|c [|d [|]]]]]; try done.
    intros [= <-]. pose proof (ntop4_length a b c d). lia.
  - destruct (length blk <? 16) eqn:E; [done|]. apply Nat.ltb_ge in E. intros [= <-].
    unfold ntop6. set (l := take 16 blk). set (r := best_run (words l)).
    assert (length (words l) ≤ 8) as Hw.
    { etrans; [apply words_length|]. unfold l. rewrite length_take.
      apply Nat.Div0.div_le_upper_bound. lia. }
    rewrite length_app.
    assert (length (match r with Some (b, n) => if b + n =? 8 then bs ":" else [] | None => [] end) ≤ 1).
    { destruct r as [[b n]|]; [destruct (b + n =? 8)|]; simpl; lia. }
    destruct (v4_tail r (words l)) eqn:Hv.
    + destruct r as [[[|b] n]|]; try done. simpl in Hv.
      assert (n = 5 ∨ n = 6) as Hn.
      { apply orb_true_iff in Hv as [Hv|Hv]; [apply Nat.eqb_eq in Hv; auto|].
        apply andb_true_iff in Hv as [Hv _]. apply Nat.eqb_eq in Hv; auto. }
      pose proof (ntop6_loop_v4_length (words l) n (drop 12 l) Hn). lia.
    + pose proof (ntop6_loop_length r (drop 12 l) (words l) 0). lia.
Qed.

(** Reading four (sixteen) bytes of an allocation that has them succeeds. *)
Lemma inet_ntop_ok f blk :
  (match f with AF_INET => 4 | AF_INET6 => 16 end ≤ length blk)%nat →
  ∃ s, inet_ntop f (Some blk) = Ok s.
Proof.
  destruct f; simpl; intros Hl.
  - destruct blk as [|a [|b [|c [|d blk]]]]; simpl in *; try lia. eauto.
  - rewrite (proj2 (Nat.ltb_ge _ _)) by done. eauto.
Qed.

(** An address as text is a C string. *)
Lemma nul_free_app s t : nul_free s → nul_free t → nul_free (s ++ t).
Proof. unfold nul_free. rewrite elem_of_app. tauto. Qed.

Lemma nul_free_bs s : bool_decide (NUL ∈ bs s) = false → nul_free (bs s).
Proof. by intros H%bool_decide_eq_false. Qed.

Lemma udec_nul_free n : (0 ≤ n)%Z → nul_free (udec n).
Proof. intros. by apply digits_not_nul, udec_digits. Qed.

Lemma ntop4_nul_free a b c d : nul_free (ntop4 a b c d).
Proof.
  assert (∀ x, nul_free (udec (byte_val x))).
  { intros x. apply udec_nul_free. pose proof (byte_val_range x). lia. }
  unfold ntop4. repeat apply nul_free_app; auto; by apply nul_free_bs.
Qed.

Lemma hex_digit_not_nul n : (0 ≤ n < 16)%Z → hex_digit n ≠ NUL.
Proof.
  intros Hn E. apply (f_equal byte_val) in E. unfold hex_digit in E.
  destruct (n <? 10)%Z; rewrite byte_val_of_Z in E by lia; change (byte_val NUL) with 0%Z in E; lia.
Qed.

Lemma hex_loop_nul_free fuel n acc : nul_free acc → nul_free (hex_loop fuel n acc).
Proof.
  revert n acc; induction fuel as [|fuel IH]; intros n acc Hacc; simpl; [done|].
  assert (nul_free (hex_digit (n mod 16) :: acc)).
  { apply not_elem_of_cons. split; [|done].
    intros E. by apply (hex_digit_not_nul (n mod 16)); [apply Z.mod_pos_bound|]. }
  destruct (n <? 16)%Z; auto.
Qed.

Lemma ntop6_loop_nul_free r v4 tail4 ws i : nul_free (ntop6_loop r v4 tail4 ws i).
Proof.
  assert (nul_free []) by apply not_elem_of_nil.
  assert (nul_free (bs ":")) by (by apply nul_free_bs).
  revert i; induction ws as [|w ws IH]; intros i; cbn [ntop6_loop]; [done|].
  assert (nul_free (hex16 w)) by (by apply hex_loop_nul_free).
  destruct (in_run r i); [case_bool_decide|destruct (i =? 0), (v4 && (i =? 6))];
    repeat apply nul_free_app; auto; repeat case_match; auto using ntop4_nul_free.
Qed.

Lemma inet_ntop_nul_free f p t : inet_ntop f p = Ok t → nul_free t.
Proof.
  unfold inet_ntop. destruct p as [blk|]; [|done]. destruct f.
  - destruct (take 4 blk) as [|a [|b [|c [|d [|]]]]]; try done.
    intros [= <-]. apply ntop4_nul_free.
  - destruct (length blk <? 16); [done|]. intros [= <-]. unfold ntop6.
    apply nul_free_app; [apply ntop6_loop_nul_free|].
    destruct (best_run _) as [[b n]|]; [destruct (b + n =? 8)|];
      try apply not_elem_of_nil. by apply nul_free_bs.
Qed.

(** [%s] of the buffer [inet_ntop] filled. *)
Lemma read_inet_ntop f p t : inet_ntop f p = Ok t → read_cstr (lit t) = Ok t.
Proof. intros H. by eapply cstr_lit, inet_ntop_nul_free. Qed.

#[export] Hint Resolve cstr_lit inet_ntop_ok digits_not_nul : pdns.
