(* ===== verification/Common.v ===== *)
(** * Shared declarations: src/pdns-logger.h.in

    The status codes every operation returns, the [zstr] test and the daemon's
    global settings. *)

From S2P Require Import Prelude CLib.

Inductive pdns_status := PDNS_NO | PDNS_OK | PDNS_FORK | PDNS_RETRY.

#[global] Instance pdns_status_eq_dec : EqDecision pdns_status.
Proof. solve_decision. Defined.

(** [zstr(x)]: a null pointer or an empty string. *)
Definition zstr (x : cstring) : bool :=
  match x with None | Some [] => true | Some (_ :: _) => false end.

(** [struct globals_s]; [char] flags hold 0 or 1 only. *)
Record globals_t := {
  g_user : cstring;
  g_group : cstring;
  g_config_file : cstring;
  g_bind_ip : cstring;
  g_bind_port : Z;          (* int *)
  g_allow_root : bool;
  g_foreground : bool;
  g_running : bool;
  g_verbose : bool;
  g_socket : Z;             (* int *)
}.

(** [memset(&globals, 0, sizeof(globals_t))] *)
Definition globals_zero : globals_t := {|
  g_user := None; g_group := None; g_config_file := None; g_bind_ip := None;
  g_bind_port := 0; g_allow_root := false; g_foreground := false;
  g_running := false; g_verbose := false; g_socket := 0 |}.

(** [!strncmp(name, "...", sizeof("..."))] *)
Definition opt_is (name : list byte) (s : string) : bool :=
  strncmp_eq name (bs s) (sizeof_lit (bs s)).

(** [atoi(value) ? 1 : 0] *)
Definition opt_flag (value : list byte) : bool := negb (atoi value =? 0)%Z.

(** [pdns_logger_t]: the operations of a logging engine on a state [S]; an entry
    may be a null function pointer. *)
Record pdns_logger_t (M S : Type) := {
  start : option (cstring → S → outcome (pdns_status * S));
  rotate : option (S → outcome (pdns_status * S));
  stop : option (S → outcome (pdns_status * S));
  log : option (M → S → outcome (pdns_status * S));
}.
Arguments start {M S} _.
Arguments rotate {M S} _.
Arguments stop {M S} _.
Arguments log {M S} _.

(** The option tests are equality with the option's name. *)
Lemma opt_is_eq name s : opt_is name s = bool_decide (name = bs s).
Proof. apply strncmp_lit. Qed.
