(* ===== verification/Dns.v ===== *)
(** * Names of DNS classes, types and response codes: src/pdns-logger-dns.c, .h

    Three tables of (value, name) pairs and the three lookups.  A lookup takes the
    numeric code as an index into its table; the theorems compare that with
    searching the table for the code. *)

From S2P Require Import Prelude CLib.

(** ** The enumerations of pdns-logger-dns.h *)

Inductive dns_section_e := DNS_S_NONE | DNS_S_ANSWERS | DNS_S_AUTHORITY | DNS_S_ADDITIONAL.

Inductive dns_class_e := DNS_C_INVALID | DNS_C_IN | DNS_C_CH | DNS_C_HS | DNS_C_ANY.

Definition class_val (c : dns_class_e) : Z :=
  match c with
  | DNS_C_INVALID => 0 | DNS_C_IN => 1 | DNS_C_CH => 3 | DNS_C_HS => 4 | DNS_C_ANY => 255
  end.

Inductive dns_type_e :=
  | DNS_T_INVALID | DNS_T_A | DNS_T_NS | DNS_T_MD | DNS_T_MF | DNS_T_CNAME | DNS_T_SOA
  | DNS_T_MB | DNS_T_MG | DNS_T_MR | DNS_T_NULL | DNS_T_WKS | DNS_T_PTR | DNS_T_HINFO
  | DNS_T_MINFO | DNS_T_MX | DNS_T_TXT | DNS_T_RP | DNS_T_AFSDB | DNS_T_X25 | DNS_T_ISDN
  | DNS_T_RT | DNS_T_NSAP | DNS_T_NSAP_PTR | DNS_T_SIG | DNS_T_KEY | DNS_T_PX | DNS_T_GPOS
  | DNS_T_AAAA | DNS_T_LOC | DNS_T_NXT | DNS_T_EID | DNS_T_NIMLOC | DNS_T_SRV | DNS_T_ATMA
  | DNS_T_NAPTR | DNS_T_KX | DNS_T_CERT | DNS_T_A6 | DNS_T_DNAME | DNS_T_SINK | DNS_T_OPT
  | DNS_T_TSIG | DNS_T_IXFR | DNS_T_AXFR | DNS_T_MAILB | DNS_T_MAILA | DNS_T_ANY
  | DNS_T_ZXFR | DNS_T_MAX.

Definition type_val (t : dns_type_e) : Z :=
  match t with
  | DNS_T_INVALID => 0 | DNS_T_A => 1 | DNS_T_NS => 2 | DNS_T_MD => 3 | DNS_T_MF => 4
  | DNS_T_CNAME => 5 | DNS_T_SOA => 6 | DNS_T_MB => 7 | DNS_T_MG => 8 | DNS_T_MR => 9
  | DNS_T_NULL => 10 | DNS_T_WKS => 11 | DNS_T_PTR => 12 | DNS_T_HINFO => 13
  | DNS_T_MINFO => 14 | DNS_T_MX => 15 | DNS_T_TXT => 16 | DNS_T_RP => 17
  | DNS_T_AFSDB => 18 | DNS_T_X25 => 19 | DNS_T_ISDN => 20 | DNS_T_RT => 21
  | DNS_T_NSAP => 22 | DNS_T_NSAP_PTR => 23 | DNS_T_SIG => 24 | DNS_T_KEY => 25
  | DNS_T_PX => 26 | DNS_T_GPOS => 27 | DNS_T_AAAA => 28 | DNS_T_LOC => 29
  | DNS_T_NXT => 30 | DNS_T_EID => 31 | DNS_T_NIMLOC => 32 | DNS_T_SRV => 33
  | DNS_T_ATMA => 34 | DNS_T_NAPTR => 35 | DNS_T_KX => 36 | DNS_T_CERT => 37
  | DNS_T_A6 => 38 | DNS_T_DNAME => 39 | DNS_T_SINK => 40 | DNS_T_OPT => 41
  | DNS_T_TSIG => 250 | DNS_T_IXFR => 251 | DNS_T_AXFR => 252 | DNS_T_MAILB => 253
  | DNS_T_MAILA => 254 | DNS_T_ANY => 255 | DNS_T_ZXFR => 256 | DNS_T_MAX => 65536
  end.

Inductive dns_rcode_e :=
  | DNS_R_NOERROR | DNS_R_FORMERR | DNS_R_SERVFAIL | DNS_R_NXDOMAIN | DNS_R_NOTIMPL
  | DNS_R_REFUSED | DNS_R_YXDOMAIN | DNS_R_YXRRSET | DNS_R_NXRRSET | DNS_R_NOTAUTH
  | DNS_R_NOTZONE | DNS_R_BADSIG | DNS_R_BADKEY | DNS_R_BADTIME.

Definition rcode_val (r : dns_rcode_e) : Z :=
  match r with
  | DNS_R_NOERROR => 0 | DNS_R_FORMERR => 1 | DNS_R_SERVFAIL => 2 | DNS_R_NXDOMAIN => 3
  | DNS_R_NOTIMPL => 4 | DNS_R_REFUSED => 5 | DNS_R_YXDOMAIN => 6 | DNS_R_YXRRSET => 7
  | DNS_R_NXRRSET => 8 | DNS_R_NOTAUTH => 9 | DNS_R_NOTZONE => 10 | DNS_R_BADSIG => 16
  | DNS_R_BADKEY => 17 | DNS_R_BADTIME => 18
  end.

(** ** The tables of pdns-logger-dns.c, each closed by the entry {0,0} *)

Record dns_nameval := { val : Z; name : cstring }.

Definition entry (v : Z) (s : string) : dns_nameval := {| val := v; name := Some (bs s) |}.
Definition entry0 : dns_nameval := {| val := 0; name := None |}.

Definition dns_classtab : list dns_nameval :=
  [ entry (class_val DNS_C_INVALID) "INVALID"; entry (class_val DNS_C_IN) "IN";
    entry (class_val DNS_C_CH) "CH"; entry (class_val DNS_C_HS) "HS";
    entry (class_val DNS_C_ANY) "ANY"; entry0 ].

Definition dns_typetab : list dns_nameval :=
  [ entry (type_val DNS_T_INVALID) "INVALID"; entry (type_val DNS_T_A) "A";
    entry (type_val DNS_T_NS) "NS"; entry (type_val DNS_T_MD) "MD";
    entry (type_val DNS_T_MF) "MF"; entry (type_val DNS_T_CNAME) "CNAME";
    entry (type_val DNS_T_SOA) "SOA"; entry (type_val DNS_T_MB) "MB";
    entry (type_val DNS_T_MG) "MG"; entry (type_val DNS_T_MR) "MR";
    entry (type_val DNS_T_NULL) "NULL"; entry (type_val DNS_T_WKS) "WKS";
    entry (type_val DNS_T_PTR) "PTR"; entry (type_val DNS_T_HINFO) "HINFO";
    entry (type_val DNS_T_MINFO) "MINFO"; entry (type_val DNS_T_MX) "MX";
    entry (type_val DNS_T_TXT) "TXT"; entry (type_val DNS_T_RP) "RP";
    entry (type_val DNS_T_AFSDB) "AFSDB"; entry (type_val DNS_T_X25) "X25";
    entry (type_val DNS_T_ISDN) "ISDN"; entry (type_val DNS_T_RT) "RT";
    entry (type_val DNS_T_NSAP) "NSAP"; entry (type_val DNS_T_NSAP_PTR) "NSAP_PTR";
    entry (type_val DNS_T_SIG) "SIG"; entry (type_val DNS_T_KEY) "KEY";
    entry (type_val DNS_T_PX) "PX"; entry (type_val DNS_T_GPOS) "GPOS";
    entry (type_val DNS_T_AAAA) "AAAA"; entry (type_val DNS_T_LOC) "LOC";
    entry (type_val DNS_T_NXT) "NXT"; entry (type_val DNS_T_EID) "EID";
    entry (type_val DNS_T_NIMLOC) "NIMLOC"; entry (type_val DNS_T_SRV) "SRV";
    entry (type_val DNS_T_ATMA) "ATMA"; entry (type_val DNS_T_NAPTR) "NAPTR";
    entry (type_val DNS_T_KX) "KX"; entry (type_val DNS_T_CERT) "CERT";
    entry (type_val DNS_T_A6) "A6"; entry (type_val DNS_T_DNAME) "DNAME";
    entry (type_val DNS_T_SINK) "SINK"; entry (type_val DNS_T_OPT) "OPT";
    entry (type_val DNS_T_TSIG) "TSIG"; entry (type_val DNS_T_IXFR) "IXFR";
    entry (type_val DNS_T_AXFR) "AXFR"; entry (type_val DNS_T_MAILB) "MAILB";
    entry (type_val DNS_T_MAILA) "MAILA"; entry (type_val DNS_T_ANY) "ANY";
    entry (type_val DNS_T_ZXFR) "ZXFR"; entry (type_val DNS_T_MAX) "MAX"; entry0 ].

Definition dns_rcodetab : list dns_nameval :=
  [ entry (rcode_val DNS_R_NOERROR) "NOERROR"; entry (rcode_val DNS_R_FORMERR) "FORMERR";
    entry (rcode_val DNS_R_SERVFAIL) "SERVFAIL"; entry (rcode_val DNS_R_NXDOMAIN) "NXDOMAIN";
    entry (rcode_val DNS_R_NOTIMPL) "NOTIMPL"; entry (rcode_val DNS_R_REFUSED) "REFUSED";
    entry (rcode_val DNS_R_YXDOMAIN) "YXDOMAIN"; entry (rcode_val DNS_R_YXRRSET) "YXRRSET";
    entry (rcode_val DNS_R_NXRRSET) "NXRRSET"; entry (rcode_val DNS_R_NOTAUTH) "NOTAUTH";
    entry (rcode_val DNS_R_NOTZONE) "NOTZONE"; entry (rcode_val DNS_R_BADSIG) "BADSIG";
    entry (rcode_val DNS_R_BADKEY) "BADKEY"; entry (rcode_val DNS_R_BADTIME) "BADTIME"; entry0 ].

(** ** The lookups: [i] is the code, an unsigned 32-bit value *)

Definition pdns_logger_rcode2p (i : Z) : cstring :=
  if (i <? Z.of_nat (length dns_rcodetab))%Z
  then dns_rcodetab !! Z.to_nat i ≫= name else None.

Definition pdns_logger_type2p (i : Z) : cstring :=
  if (i <? Z.of_nat (length dns_typetab))%Z
  then dns_typetab !! Z.to_nat i ≫= name else None.

Definition pdns_logger_class2p (i : Z) : cstring :=
  if (i <? Z.of_nat (length dns_classtab))%Z
  then dns_classtab !! Z.to_nat i ≫= name else None.

(** ** The reference: the name the table gives to a code *)

Fixpoint name_of (tab : list dns_nameval) (i : Z) : cstring :=
  match tab with
  | [] => None
  | e :: tab =>
      match name e with
      | Some s => if (val e =? i)%Z then Some s else name_of tab i
      | None => None      (* the closing entry *)
      end
  end.

(** ** Comparison of the lookups with the reference *)

(** A boolean statement about all codes below a bound is decided by testing each. *)
Fixpoint all_below (n : nat) (P : Z → bool) : bool :=
  match n with O => true | S n => P (Z.of_nat n) && all_below n P end.

Lemma all_below_spec n P i :
  all_below n P = true → (0 ≤ i < Z.of_nat n)%Z → P i = true.
Proof.
  induction n as [|n IH]; simpl; intros H Hi; [lia|].
  apply andb_true_iff in H as [H1 H2].
  destruct (decide (i = Z.of_nat n)) as [->|]; [done|apply IH; [done|lia]].
Qed.

(** A code that no entry carries has no name in the reference. *)
Lemma name_of_absent tab i : Forall (λ e, val e ≠ i) tab → name_of tab i = None.
Proof.
  intros Hall; induction Hall as [|e tab He Hall IH]; [done|]; simpl.
  destruct (name e); [|done]. by rewrite (proj2 (Z.eqb_neq _ _)).
Qed.

(** Two lookups tested against a predicate on every code below a bound. *)
Lemma agree_below n (f g : Z → cstring) (ok : Z → bool) i :
  all_below n (λ j, Bool.eqb (bool_decide (f j = g j)) (ok j)) = true →
  (0 ≤ i < Z.of_nat n)%Z → f i = g i ↔ ok i = true.
Proof.
  intros H Hi. pose proof (all_below_spec _ _ _ H Hi) as E. simpl in E.
  apply Bool.eqb_prop in E. rewrite <- E. symmetry. apply bool_decide_eq_true.
Qed.

(** Above the table and its codes both lookups answer null. *)
Lemma agree_above (vals : list Z) tab (f : Z → cstring) i :
  Forall (λ e, val e ∈ vals) tab → f i = None → i ∉ vals → f i = name_of tab i.
Proof.
  intros Htab -> Hi. symmetry. apply name_of_absent.
  eapply Forall_impl; [exact Htab|]. intros e He <-. done.
Qed.

(** ** The properties *)

(** Codes outside a table's range index nothing. *)
Lemma lookup_above (tab : list dns_nameval) i :
  (Z.of_nat (length tab) ≤ i)%Z →
  (if (i <? Z.of_nat (length tab))%Z then tab !! Z.to_nat i ≫= name else None) = None.
Proof. intros. by rewrite (proj2 (Z.ltb_ge _ _)). Qed.

#[local] Ltac agree n vals ok i :=
  destruct (Z.lt_ge_cases i (Z.of_nat n));
  [ rewrite (agree_below n _ _ ok) by first [lia | vm_compute; reflexivity]; lia
  | split; [lia|intros Hno]; apply (agree_above vals);
    [ refine (bool_decide_unpack _ _); vm_compute; exact I
    | apply lookup_above; simpl; lia
    | set_unfold; lia ] ].

(** A response code is printed with the name its table gives it exactly when it
    is not in 11..13 or 16..18.  The lookup indexes the table by the code; the entries
    after NOTZONE (10) are BADSIG, BADKEY and BADTIME (16, 17, 18), so 11..13 print
    those names and 16..18 print as a null pointer. *)
Theorem rcode2p_agrees i :
  (0 ≤ i < 2 ^ 32)%Z →
  pdns_logger_rcode2p i = name_of dns_rcodetab i ↔ ¬ (11 ≤ i ≤ 13)%Z ∧ ¬ (16 ≤ i ≤ 18)%Z.
Proof.
  intros Hi.
  agree 20 [0;1;2;3;4;5;6;7;8;9;10;16;17;18]%Z
    (λ i, negb ((11 <=? i) && (i <=? 13) || (16 <=? i) && (i <=? 18)))%Z i.
Qed.

Lemma rcode2p_agrees_witness :
  (0 ≤ 3 < 2 ^ 32)%Z ∧ pdns_logger_rcode2p 3 = name_of dns_rcodetab 3.
Proof. split; [lia|]. apply (rcode2p_agrees 3); lia. Defined.

(** A record or query type is printed with the name its table gives it exactly
    when it is none of 42..49, 250..256 and 65536: TSIG (250) to MAX follow OPT (41) in
    the table, so 42..49 print their names and their own codes print as null. *)
Theorem type2p_agrees i :
  (0 ≤ i < 2 ^ 32)%Z →
  pdns_logger_type2p i = name_of dns_typetab i
  ↔ ¬ (42 ≤ i ≤ 49)%Z ∧ ¬ (250 ≤ i ≤ 256)%Z ∧ i ≠ 65536%Z.
Proof.
  intros Hi. destruct (decide (i = 65536%Z)) as [->|Hmax].
  { split; [by vm_compute|naive_solver]. }
  agree 257 (65536 :: (Z.of_nat <$> seq 0 42) ++ [250;251;252;253;254;255;256])%Z
    (λ i, negb ((42 <=? i) && (i <=? 49) || (250 <=? i) && (i <=? 256)))%Z i.
Qed.

Lemma type2p_agrees_witness :
  (0 ≤ 28 < 2 ^ 32)%Z ∧ pdns_logger_type2p 28 = name_of dns_typetab 28.
Proof. split; [lia|]. apply (type2p_agrees 28); lia. Defined.

(** A class is printed with the name its table gives it exactly when it is none
    of 2, 3, 4 and 255: the class values have gaps, so CHAOS (3) prints as HS, HESIOD
    (4) as ANY and the wildcard (255) as null. *)
Theorem class2p_agrees i :
  (0 ≤ i < 2 ^ 32)%Z →
  pdns_logger_class2p i = name_of dns_classtab i ↔ ¬ (2 ≤ i ≤ 4)%Z ∧ i ≠ 255%Z.
Proof.
  intros Hi.
  agree 256 [0;1;3;4;255]%Z (λ i, negb ((2 <=? i) && (i <=? 4) || (i =? 255)))%Z i.
Qed.

Lemma class2p_agrees_witness :
  (0 ≤ 1 < 2 ^ 32)%Z ∧ pdns_logger_class2p 1 = name_of dns_classtab 1.
Proof. split; [lia|]. apply (class2p_agrees 1); lia. Defined.

(** C37: For which codes the names printed are the right ones: the lookups take the code as an
    index into their table, which is what searching the table for the code finds except for
    the codes listed here, where the tables have gaps.  Class CH (3) is printed as HS, HS (4)
    as ANY; types 42..49 get the names of TSIG (250) to MAX; response codes 11..13 those of
    16..18; the codes that lie beyond the gaps are printed as a null pointer. *)
Theorem lookups_agree i :
  (0 ≤ i < 2 ^ 32)%Z →
  (pdns_logger_rcode2p i = name_of dns_rcodetab i ↔ ¬ (11 ≤ i ≤ 13)%Z ∧ ¬ (16 ≤ i ≤ 18)%Z) ∧
  (pdns_logger_type2p i = name_of dns_typetab i ↔
     ¬ (42 ≤ i ≤ 49)%Z ∧ ¬ (250 ≤ i ≤ 256)%Z ∧ i ≠ 65536%Z) ∧
  (pdns_logger_class2p i = name_of dns_classtab i ↔ ¬ (2 ≤ i ≤ 4)%Z ∧ i ≠ 255%Z).
Proof.
  intros Hi. split_and!; [by apply rcode2p_agrees|by apply type2p_agrees|by apply class2p_agrees].
Qed.

Lemma lookups_agree_witness :
  (0 ≤ 5 < 2 ^ 32)%Z ∧ pdns_logger_rcode2p 5 = name_of dns_rcodetab 5 ∧
  pdns_logger_type2p 5 = name_of dns_typetab 5 ∧ pdns_logger_class2p 5 = name_of dns_classtab 5.
Proof.
  split; [lia|]. destruct (lookups_agree 5) as (H1 & H2 & H3); [lia|].
  split_and!; [apply H1|apply H2|apply H3]; lia.
Defined.

(** Names are at most ten characters: the tables only hold short literals. *)
Lemma table_name_length (tab : list dns_nameval) i s :
  Forall (λ e, length (default [] (name e)) ≤ 10) tab → tab !! i ≫= name = Some s →
  length s ≤ 10.
Proof.
  intros Htab H. destruct (tab !! i) as [e|] eqn:E; [|done]. simpl in H.
  rewrite Forall_lookup in Htab. specialize (Htab _ _ E). by rewrite H in Htab.
Qed.

#[local] Ltac short_name :=
  intros H;
  match type of H with (if ?c then _ else _) = _ => destruct c; [|done] end;
  eapply table_name_length; [|exact H]; refine (bool_decide_unpack _ _); vm_compute; exact I.

Lemma rcode2p_length i s : pdns_logger_rcode2p i = Some s → length s ≤ 10.
Proof. unfold pdns_logger_rcode2p. short_name. Qed.
Lemma type2p_length i s : pdns_logger_type2p i = Some s → length s ≤ 10.
Proof. unfold pdns_logger_type2p. short_name. Qed.
Lemma class2p_length i s : pdns_logger_class2p i = Some s → length s ≤ 10.
Proof. unfold pdns_logger_class2p. short_name. Qed.
