(* ===== verification/Message.v ===== *)
(** * The decoded message: src/dnsmessage.pb-c.h, dnsmessage.pb-c.c

    The structures protobuf-c decodes a message into, with their initial values and
    what its decoder guarantees of them.  Codec has the functions that pack and unpack
    them. *)

From S2P Require Import Prelude CLib.

(** [ProtobufCBinaryData]: a length and a pointer to that many bytes.  Unlike a
    string field, the bytes are not followed by a NUL. *)
Record ProtobufCBinaryData := { bin_len : Z; bin_data : cptr }.

Definition bin_null : ProtobufCBinaryData := {| bin_len := 0; bin_data := None |}.

Inductive PBDNSMessage__Type :=
  | DNSQueryType | DNSResponseType | DNSOutgoingQueryType | DNSIncomingResponseType.
Inductive PBDNSMessage__SocketFamily := INET | INET6.
Inductive PBDNSMessage__SocketProtocol := UDP | TCP.

Record PBDNSMessage__DNSQuestion := {
  q_qname : cstring;
  q_has_qtype : bool; q_qtype : Z;
  q_has_qclass : bool; q_qclass : Z;
}.

Record PBDNSMessage__DNSResponse__DNSRR := {
  rr_name : cstring;
  rr_has_type : bool; rr_type : Z;
  rr_has_class : bool; rr_class : Z;
  rr_has_ttl : bool; rr_ttl : Z;
  rr_has_rdata : bool; rr_rdata : ProtobufCBinaryData;
}.

(** [n_rrs] and [n_tags] are the lengths of the lists. *)
Record PBDNSMessage__DNSResponse := {
  r_has_rcode : bool; r_rcode : Z;
  r_rrs : list PBDNSMessage__DNSResponse__DNSRR;
  r_appliedpolicy : cstring;
  r_tags : list cstring;
  r_has_querytimesec : bool; r_querytimesec : Z;
  r_has_querytimeusec : bool; r_querytimeusec : Z;
}.

(** The enumerations are stored as [int]s; an absent optional one is 0. *)
Record PBDNSMessage := {
  m_type : Z;
  m_has_messageid : bool; m_messageid : ProtobufCBinaryData;
  m_has_serveridentity : bool; m_serveridentity : ProtobufCBinaryData;
  m_has_socketfamily : bool; m_socketfamily : Z;
  m_has_socketprotocol : bool; m_socketprotocol : Z;
  m_has_from : bool; m_from : ProtobufCBinaryData;
  m_has_to : bool; m_to : ProtobufCBinaryData;
  m_has_inbytes : bool; m_inbytes : Z;
  m_has_timesec : bool; m_timesec : Z;
  m_has_timeusec : bool; m_timeusec : Z;
  m_has_id : bool; m_id : Z;
  m_question : option PBDNSMessage__DNSQuestion;
  m_response : option PBDNSMessage__DNSResponse;
  m_has_originalrequestorsubnet : bool; m_originalrequestorsubnet : ProtobufCBinaryData;
  m_requestorid : cstring;
  m_has_initialrequestid : bool; m_initialrequestid : ProtobufCBinaryData;
}.

(** The initial values ([..._INIT]) and the functions that store them. *)
Definition pbdnsmessage__dnsquestion__init : PBDNSMessage__DNSQuestion := {|
  q_qname := None; q_has_qtype := false; q_qtype := 0; q_has_qclass := false; q_qclass := 0 |}.

Definition pbdnsmessage__dnsresponse__dnsrr__init : PBDNSMessage__DNSResponse__DNSRR := {|
  rr_name := None; rr_has_type := false; rr_type := 0; rr_has_class := false; rr_class := 0;
  rr_has_ttl := false; rr_ttl := 0; rr_has_rdata := false; rr_rdata := bin_null |}.

Definition pbdnsmessage__dnsresponse__init : PBDNSMessage__DNSResponse := {|
  r_has_rcode := false; r_rcode := 0; r_rrs := []; r_appliedpolicy := None; r_tags := [];
  r_has_querytimesec := false; r_querytimesec := 0;
  r_has_querytimeusec := false; r_querytimeusec := 0 |}.

Definition pbdnsmessage__init : PBDNSMessage := {|
  m_type := 0;
  m_has_messageid := false; m_messageid := bin_null;
  m_has_serveridentity := false; m_serveridentity := bin_null;
  m_has_socketfamily := false; m_socketfamily := 0;
  m_has_socketprotocol := false; m_socketprotocol := 0;
  m_has_from := false; m_from := bin_null;
  m_has_to := false; m_to := bin_null;
  m_has_inbytes := false; m_inbytes := 0;
  m_has_timesec := false; m_timesec := 0;
  m_has_timeusec := false; m_timeusec := 0;
  m_has_id := false; m_id := 0;
  m_question := None; m_response := None;
  m_has_originalrequestorsubnet := false; m_originalrequestorsubnet := bin_null;
  m_requestorid := None;
  m_has_initialrequestid := false; m_initialrequestid := bin_null |}.

(** ** What the decoder guarantees: lengths match allocations *)

Definition bin_wf (b : ProtobufCBinaryData) : Prop :=
  match bin_data b with
  | None => bin_len b = 0%Z
  | Some blk => bin_len b = Z.of_nat (length blk) ∧ blk ≠ []
  end.
#[global] Instance bin_wf_dec b : Decision (bin_wf b).
Proof. unfold bin_wf. destruct (bin_data b); apply _. Defined.

Definition u32_range (z : Z) : Prop := (0 ≤ z < 2 ^ 32)%Z.
#[global] Instance u32_range_dec z : Decision (u32_range z).
Proof. unfold u32_range. apply _. Defined.

Record rr_wf (rr : PBDNSMessage__DNSResponse__DNSRR) : Prop := {
  rr_wf_rdata : bin_wf (rr_rdata rr);
  rr_wf_type : u32_range (rr_type rr);
  rr_wf_class : u32_range (rr_class rr);
  rr_wf_ttl : u32_range (rr_ttl rr);
}.

Record msg_wf (m : PBDNSMessage) : Prop := {
  msg_wf_from : bin_wf (m_from m);
  msg_wf_id : u32_range (m_id m);
  msg_wf_timesec : u32_range (m_timesec m);
  msg_wf_rrs : ∀ r, m_response m = Some r → Forall rr_wf (r_rrs r);
  msg_wf_count : ∀ r, m_response m = Some r → (Z.of_nat (length (r_rrs r)) < 2 ^ 31)%Z;
}.

(** Data of a known length can be passed to [inet_ntop]. *)
Lemma bin_wf_ntop f b :
  bin_wf b → bin_len b = (match f with AF_INET => 4 | AF_INET6 => 16 end)%Z →
  ∃ s, inet_ntop f (bin_data b) = Ok s.
Proof.
  intros Hwf Hlen. unfold bin_wf in Hwf. destruct (bin_data b) as [blk|].
  - apply inet_ntop_ok. destruct f, Hwf; lia.
  - destruct f; lia.
Qed.
#[export] Hint Resolve bin_wf_ntop : pdns.
