(* ===== verification/Layout.v ===== *)
(** * The memory layout of the message structures: src/dnsmessage.pb-c.h

    The generated code describes its structures to libprotobuf-c by [sizeof] and
    [offsetof]; the library reads and writes their members through these numbers.  This
    file has the structures' members in order and the way a C compiler lays members out,
    for every platform: the sizes and alignments of the C types are a class ([Abi]).  *)

From S2P Require Import Prelude.

(** The messages of the schema; each is a C structure, a descriptor and an initialiser. *)
Inductive msg_sym := Dnsquestion | Dnsrr | Dnsresponse | Pbdnsmessage.
Inductive enum_sym := Type_ | SocketFamily | SocketProtocol.

#[global] Instance msg_sym_eq_dec : EqDecision msg_sym.
Proof. solve_decision. Defined.
#[global] Instance enum_sym_eq_dec : EqDecision enum_sym.
Proof. solve_decision. Defined.

(** The types of the members. *)
Inductive ctype :=
  | Tbase                        (* ProtobufCMessage *)
  | Tbool                        (* protobuf_c_boolean *)
  | Tuint32 | Tuint64 | Tsize
  | Tenum (e : enum_sym)
  | Tbin                         (* ProtobufCBinaryData *)
  | Tstr                         (* char * *)
  | Tstrs                        (* char ** *)
  | Tmsg (m : msg_sym)           (* a pointer to a message *)
  | Tmsgs (m : msg_sym).         (* a pointer to pointers to messages *)

#[global] Instance ctype_eq_dec : EqDecision ctype.
Proof. solve_decision. Defined.

(** What the platform and the header of protobuf-c fix. *)
Class Abi := {
  size_of : ctype → Z;
  align_of : ctype → Z;
  size_pos t : (0 < size_of t)%Z;
  align_pos t : (0 < align_of t)%Z;
  message_magic : Z;             (* PROTOBUF_C__MESSAGE_DESCRIPTOR_MAGIC *)
  enum_magic : Z;                (* PROTOBUF_C__ENUM_DESCRIPTOR_MAGIC *)
}.

(** The members of a structure: names and types. *)
Definition struct := list (string * ctype).

Definition struct_dnsquestion : struct := [
  ("base", Tbase);
  ("qname", Tstr);
  ("has_qtype", Tbool); ("qtype", Tuint32);
  ("has_qclass", Tbool); ("qclass", Tuint32)].

Definition struct_dnsrr : struct := [
  ("base", Tbase);
  ("name", Tstr);
  ("has_type", Tbool); ("type", Tuint32);
  ("has_class_", Tbool); ("class_", Tuint32);
  ("has_ttl", Tbool); ("ttl", Tuint32);
  ("has_rdata", Tbool); ("rdata", Tbin)].

Definition struct_dnsresponse : struct := [
  ("base", Tbase);
  ("has_rcode", Tbool); ("rcode", Tuint32);
  ("n_rrs", Tsize); ("rrs", Tmsgs Dnsrr);
  ("appliedpolicy", Tstr);
  ("n_tags", Tsize); ("tags", Tstrs);
  ("has_querytimesec", Tbool); ("querytimesec", Tuint32);
  ("has_querytimeusec", Tbool); ("querytimeusec", Tuint32)].

Definition struct_pbdnsmessage : struct := [
  ("base", Tbase);
  ("type", Tenum Type_);
  ("has_messageid", Tbool); ("messageid", Tbin);
  ("has_serveridentity", Tbool); ("serveridentity", Tbin);
  ("has_socketfamily", Tbool); ("socketfamily", Tenum SocketFamily);
  ("has_socketprotocol", Tbool); ("socketprotocol", Tenum SocketProtocol);
  ("has_from", Tbool); ("from", Tbin);
  ("has_to", Tbool); ("to", Tbin);
  ("has_inbytes", Tbool); ("inbytes", Tuint64);
  ("has_timesec", Tbool); ("timesec", Tuint32);
  ("has_timeusec", Tbool); ("timeusec", Tuint32);
  ("has_id", Tbool); ("id", Tuint32);
  ("question", Tmsg Dnsquestion);
  ("response", Tmsg Dnsresponse);
  ("has_originalrequestorsubnet", Tbool); ("originalrequestorsubnet", Tbin);
  ("requestorid", Tstr);
  ("has_initialrequestid", Tbool); ("initialrequestid", Tbin)].

Definition struct_of (m : msg_sym) : struct :=
  match m with
  | Dnsquestion => struct_dnsquestion
  | Dnsrr => struct_dnsrr
  | Dnsresponse => struct_dnsresponse
  | Pbdnsmessage => struct_pbdnsmessage
  end.

(** ** How a C compiler lays a structure out *)

(** The least multiple of [a] from [pos] on. *)
Definition align_up (pos a : Z) : Z := ((pos + a - 1) / a * a)%Z.

Section layout.
Context `{Abi}.

(** Each member at the next position its alignment allows. *)
Fixpoint offsets_from (pos : Z) (st : struct) : list Z :=
  match st with
  | [] => []
  | (_, t) :: st =>
      let o := align_up pos (align_of t) in o :: offsets_from (o + size_of t) st
  end.

Fixpoint end_from (pos : Z) (st : struct) : Z :=
  match st with
  | [] => pos
  | (_, t) :: st => end_from (align_up pos (align_of t) + size_of t) st
  end.

Definition offsets (st : struct) : list Z := offsets_from 0 st.

(** The structure's alignment is that of its most aligned member. *)
Definition struct_align (st : struct) : Z := foldr (λ m a, Z.max (align_of m.2) a) 1%Z st.

Definition sizeof (st : struct) : Z := align_up (end_from 0 st) (struct_align st).

(** The position of a member among the members. *)
Fixpoint index_of (st : struct) (n : string) : option nat :=
  match st with
  | [] => None
  | (m, _) :: st => if String.eqb m n then Some 0 else S <$> index_of st n
  end.

(** [offsetof(st, n)]; a name that is no member does not compile. *)
Definition offsetof (st : struct) (n : string) : Z :=
  default 0%Z (index_of st n ≫= λ i, offsets st !! i).

(** The member at an offset. *)
Definition member_at (st : struct) (o : Z) : option (string * ctype) :=
  list_find (λ x, x = o) (offsets st) ≫= λ '(i, _), st !! i.

(** ** Lemmas *)

Lemma align_up_spec pos a : (0 < a)%Z → (pos ≤ align_up pos a)%Z ∧ (a | align_up pos a)%Z.
Proof.
  intros Ha. unfold align_up. split; [|by apply Z.divide_factor_r].
  pose proof (Z.div_mod (pos + a - 1) a). pose proof (Z.mod_pos_bound (pos + a - 1) a). lia.
Qed.

Lemma length_offsets_from pos st : length (offsets_from pos st) = length st.
Proof. revert pos; induction st as [|[? t] st IH]; intros pos; simpl; auto. Qed.

Lemma end_from_ge pos st : (pos ≤ end_from pos st)%Z.
Proof.
  revert pos; induction st as [|[? t] st IH]; intros pos; simpl; [done|].
  pose proof (align_up_spec pos _ (align_pos t)). pose proof (size_pos t).
  specialize (IH (align_up pos (align_of t) + size_of t)%Z). lia.
Qed.

(** Members come after the position laid out so far, aligned, and end before the end. *)
Lemma offsets_from_lookup pos st i n t o :
  st !! i = Some (n, t) → offsets_from pos st !! i = Some o →
  (pos ≤ o ∧ (align_of t | o) ∧ o + size_of t ≤ end_from pos st)%Z.
Proof.
  revert pos i; induction st as [|[m u] st IH]; intros pos [|i] Hst Ho; simplify_eq/=.
  - pose proof (align_up_spec pos _ (align_pos t)) as [? ?]. split_and!; [done|done|].
    apply end_from_ge.
  - destruct (IH _ _ Hst Ho) as (? & ? & ?).
    pose proof (align_up_spec pos _ (align_pos u)). pose proof (size_pos u). split_and!; [lia|done|done].
Qed.

(** Earlier members end before later ones begin. *)
Lemma offsets_from_ordered pos st i j n t oi oj :
  i < j → st !! i = Some (n, t) → offsets_from pos st !! i = Some oi →
  offsets_from pos st !! j = Some oj → (oi + size_of t ≤ oj)%Z.
Proof.
  revert pos i j; induction st as [|[m u] st IH]; intros pos i [|j] Hij Hst Hi Hj; try lia; [done|].
  destruct i as [|i]; simplify_eq/=.
  - destruct (lookup_lt_is_Some_2 st j) as [[n' t'] Hj'].
    { apply lookup_lt_Some in Hj. by rewrite length_offsets_from in Hj. }
    by destruct (offsets_from_lookup _ _ _ _ _ _ Hj' Hj).
  - eapply (IH _ i j); eauto. lia.
Qed.

Lemma offsets_NoDup st : NoDup (offsets st).
Proof.
  apply NoDup_alt. intros i j o Hi Hj. unfold offsets in *.
  destruct (lt_eq_lt_dec i j) as [[Hij| ->]|Hij]; [|done|]; exfalso.
  - destruct (lookup_lt_is_Some_2 st i) as [[n t] Hn].
    { apply lookup_lt_Some in Hi. by rewrite length_offsets_from in Hi. }
    pose proof (offsets_from_ordered 0 st i j n t o o Hij Hn Hi Hj). pose proof (size_pos t). lia.
  - destruct (lookup_lt_is_Some_2 st j) as [[n t] Hn].
    { apply lookup_lt_Some in Hj. by rewrite length_offsets_from in Hj. }
    pose proof (offsets_from_ordered 0 st j i n t o o Hij Hn Hj Hi). pose proof (size_pos t). lia.
Qed.

(** A member's offset is a position in the layout, which leads back to the member. *)
Lemma offsetof_lookup st n i : index_of st n = Some i → offsets st !! i = Some (offsetof st n).
Proof.
  intros Hi. unfold offsetof. rewrite Hi. cbn [mbind option_bind].
  destruct (lookup_lt_is_Some_2 (offsets st) i) as [o ->]; [|done].
  unfold offsets. rewrite length_offsets_from.
  revert i Hi; induction st as [|[m t] st IH]; intros i; simpl; [done|].
  destruct (String.eqb m n); [intros [= <-]; lia|].
  intros (j & Hj & ->)%fmap_Some. specialize (IH j Hj). lia.
Qed.

Lemma list_find_offset l i (o : Z) :
  NoDup l → l !! i = Some o → list_find (λ x, x = o) l = Some (i, o).
Proof.
  intros Hnd Hi. apply list_find_Some. split_and!; [done|done|].
  intros j y Hj Hlt ->. pose proof (NoDup_lookup _ _ _ _ Hnd Hi Hj). lia.
Qed.

Lemma member_at_offsetof st n i t :
  index_of st n = Some i → st !! i = Some (n, t) → member_at st (offsetof st n) = Some (n, t).
Proof.
  intros Hi Ht. unfold member_at.
  rewrite (list_find_offset _ i) by auto using offsets_NoDup, offsetof_lookup. done.
Qed.

(** Where a member lies. *)
Lemma member_at_region st o n t :
  member_at st o = Some (n, t) → (0 ≤ o ∧ (align_of t | o) ∧ o + size_of t ≤ sizeof st)%Z.
Proof.
  unfold member_at. intros Hm. apply bind_Some in Hm as ([i x] & Hf & Hi).
  apply list_find_Some in Hf as (Ho & -> & _).
  destruct (offsets_from_lookup 0 st i n t o Hi Ho) as (? & ? & ?). split_and!; [done|done|].
  unfold sizeof. pose proof (align_up_spec (end_from 0 st) (struct_align st)) as [? _]; [|lia].
  unfold struct_align. clear. induction st as [|[? t'] st IH]; simpl; lia.
Qed.

(** Two members do not overlap. *)
Lemma member_at_disjoint st o o' n n' t t' :
  member_at st o = Some (n, t) → member_at st o' = Some (n', t') → o ≠ o' →
  (o + size_of t ≤ o' ∨ o' + size_of t' ≤ o)%Z.
Proof.
  unfold member_at. intros Hm Hm' Hne. apply bind_Some in Hm as ([i x] & Hf & Hi).
  apply bind_Some in Hm' as ([j y] & Hf' & Hj).
  apply list_find_Some in Hf as (Ho & -> & _). apply list_find_Some in Hf' as (Ho' & -> & _).
  destruct (lt_eq_lt_dec i j) as [[Hij| ->]|Hij]; [left| |right].
  - eapply offsets_from_ordered; eauto.
  - congruence.
  - eapply offsets_from_ordered; eauto.
Qed.
End layout.

(** 64-bit Linux: the platform the witnesses are computed on. *)
Definition lp64_size (t : ctype) : Z :=
  match t with
  | Tbase => 24 | Tbool | Tuint32 | Tenum _ => 4 | Tbin => 16
  | Tuint64 | Tsize | Tstr | Tstrs | Tmsg _ | Tmsgs _ => 8
  end%Z.
Definition lp64_align (t : ctype) : Z :=
  match t with Tbool | Tuint32 | Tenum _ => 4 | _ => 8 end%Z.

Definition lp64 : Abi.
Proof.
  refine {| size_of := lp64_size; align_of := lp64_align;
            message_magic := 682290937; enum_magic := 289609135 |}.
  - intros []; reflexivity.
  - intros []; reflexivity.
Defined.
