(* ===== verification/Descriptor.v ===== *)
(** * The descriptors: src/dnsmessage.pb-c.c

    The tables the protocol buffer compiler generated from dnsmessage.proto, as
    libprotobuf-c is given them: for every message its fields with their numbers, types
    and places in the structure, the fields sorted by name, and the ranges of field
    numbers; for every enumeration its values.  The library's decoder, encoder and
    memory management are driven by these tables alone, so that a wrong entry is a
    memory error or a misread field.  The theorems: every entry fits the structure it
    describes on every platform, the indices find exactly the fields they should, and the
    tables are the ones the schema asks for. *)

From Stdlib Require Import Sorting.Sorted.
From S2P Require Import Prelude Message Layout.

(** The labels and the types (of those of protobuf-c) that occur. *)
Inductive ProtobufCLabel := LABEL_REQUIRED | LABEL_OPTIONAL | LABEL_REPEATED.
Inductive ProtobufCType :=
  | TYPE_UINT32 | TYPE_UINT64 | TYPE_ENUM | TYPE_STRING | TYPE_BYTES | TYPE_MESSAGE.

#[global] Instance label_eq_dec : EqDecision ProtobufCLabel.
Proof. solve_decision. Defined.
#[global] Instance type_eq_dec : EqDecision ProtobufCType.
Proof. solve_decision. Defined.

(** The address of a message's or an enumeration's descriptor. *)
Inductive descriptor_ptr := MsgDesc (m : msg_sym) | EnumDesc (e : enum_sym).

#[global] Instance descriptor_ptr_eq_dec : EqDecision descriptor_ptr.
Proof. solve_decision. Defined.

Record ProtobufCFieldDescriptor := field_descriptor {
  fd_name : string;
  fd_id : Z;
  fd_label : ProtobufCLabel;
  fd_type : ProtobufCType;
  fd_quantifier_offset : Z;
  fd_offset : Z;
  fd_descriptor : option descriptor_ptr;
  fd_default_value : option string;
  fd_flags : Z;
}.

Record ProtobufCIntRange := int_range { start_value : Z; orig_index : nat }.

Record ProtobufCMessageDescriptor := {
  md_magic : Z;
  md_name : string;
  md_short_name : string;
  md_c_name : string;
  md_package_name : string;
  md_sizeof_message : Z;
  md_n_fields : nat;
  md_fields : list ProtobufCFieldDescriptor;
  md_fields_sorted_by_name : list nat;
  md_n_field_ranges : nat;
  md_field_ranges : list ProtobufCIntRange;
  md_message_init : msg_sym;          (* the function that initialises the message *)
}.

Record ProtobufCEnumValue := enum_value { ev_name : string; ev_c_name : string; ev_value : Z }.
Record ProtobufCEnumValueIndex := enum_index { ei_name : string; ei_index : nat }.

Record ProtobufCEnumDescriptor := {
  ed_magic : Z;
  ed_name : string;
  ed_short_name : string;
  ed_c_name : string;
  ed_package_name : string;
  ed_n_values : nat;
  ed_values : list ProtobufCEnumValue;
  ed_n_value_names : nat;
  ed_values_by_name : list ProtobufCEnumValueIndex;
  ed_n_value_ranges : nat;
  ed_value_ranges : list ProtobufCIntRange;
}.

Section tables.
Context `{Abi}.

Definition pbdnsmessage__dnsquestion__field_descriptors : list ProtobufCFieldDescriptor :=
  let off := offsetof struct_dnsquestion in [
  field_descriptor "qName" 1 LABEL_OPTIONAL TYPE_STRING
    0 (off "qname") None None 0;
  field_descriptor "qType" 2 LABEL_OPTIONAL TYPE_UINT32
    (off "has_qtype") (off "qtype") None None 0;
  field_descriptor "qClass" 3 LABEL_OPTIONAL TYPE_UINT32
    (off "has_qclass") (off "qclass") None None 0].

Definition pbdnsmessage__dnsresponse__dnsrr__field_descriptors : list ProtobufCFieldDescriptor :=
  let off := offsetof struct_dnsrr in [
  field_descriptor "name" 1 LABEL_OPTIONAL TYPE_STRING
    0 (off "name") None None 0;
  field_descriptor "type" 2 LABEL_OPTIONAL TYPE_UINT32
    (off "has_type") (off "type") None None 0;
  field_descriptor "class" 3 LABEL_OPTIONAL TYPE_UINT32
    (off "has_class_") (off "class_") None None 0;
  field_descriptor "ttl" 4 LABEL_OPTIONAL TYPE_UINT32
    (off "has_ttl") (off "ttl") None None 0;
  field_descriptor "rdata" 5 LABEL_OPTIONAL TYPE_BYTES
    (off "has_rdata") (off "rdata") None None 0].

Definition pbdnsmessage__dnsresponse__field_descriptors : list ProtobufCFieldDescriptor :=
  let off := offsetof struct_dnsresponse in [
  field_descriptor "rcode" 1 LABEL_OPTIONAL TYPE_UINT32
    (off "has_rcode") (off "rcode") None None 0;
  field_descriptor "rrs" 2 LABEL_REPEATED TYPE_MESSAGE
    (off "n_rrs") (off "rrs") (Some (MsgDesc Dnsrr)) None 0;
  field_descriptor "appliedPolicy" 3 LABEL_OPTIONAL TYPE_STRING
    0 (off "appliedpolicy") None None 0;
  field_descriptor "tags" 4 LABEL_REPEATED TYPE_STRING
    (off "n_tags") (off "tags") None None 0;
  field_descriptor "queryTimeSec" 5 LABEL_OPTIONAL TYPE_UINT32
    (off "has_querytimesec") (off "querytimesec") None None 0;
  field_descriptor "queryTimeUsec" 6 LABEL_OPTIONAL TYPE_UINT32
    (off "has_querytimeusec") (off "querytimeusec") None None 0].

Definition pbdnsmessage__field_descriptors : list ProtobufCFieldDescriptor :=
  let off := offsetof struct_pbdnsmessage in [
  field_descriptor "type" 1 LABEL_REQUIRED TYPE_ENUM
    0 (off "type") (Some (EnumDesc Type_)) None 0;
  field_descriptor "messageId" 2 LABEL_OPTIONAL TYPE_BYTES
    (off "has_messageid") (off "messageid") None None 0;
  field_descriptor "serverIdentity" 3 LABEL_OPTIONAL TYPE_BYTES
    (off "has_serveridentity") (off "serveridentity") None None 0;
  field_descriptor "socketFamily" 4 LABEL_OPTIONAL TYPE_ENUM
    (off "has_socketfamily") (off "socketfamily") (Some (EnumDesc SocketFamily)) None 0;
  field_descriptor "socketProtocol" 5 LABEL_OPTIONAL TYPE_ENUM
    (off "has_socketprotocol") (off "socketprotocol") (Some (EnumDesc SocketProtocol)) None 0;
  field_descriptor "from" 6 LABEL_OPTIONAL TYPE_BYTES
    (off "has_from") (off "from") None None 0;
  field_descriptor "to" 7 LABEL_OPTIONAL TYPE_BYTES
    (off "has_to") (off "to") None None 0;
  field_descriptor "inBytes" 8 LABEL_OPTIONAL TYPE_UINT64
    (off "has_inbytes") (off "inbytes") None None 0;
  field_descriptor "timeSec" 9 LABEL_OPTIONAL TYPE_UINT32
    (off "has_timesec") (off "timesec") None None 0;
  field_descriptor "timeUsec" 10 LABEL_OPTIONAL TYPE_UINT32
    (off "has_timeusec") (off "timeusec") None None 0;
  field_descriptor "id" 11 LABEL_OPTIONAL TYPE_UINT32
    (off "has_id") (off "id") None None 0;
  field_descriptor "question" 12 LABEL_OPTIONAL TYPE_MESSAGE
    0 (off "question") (Some (MsgDesc Dnsquestion)) None 0;
  field_descriptor "response" 13 LABEL_OPTIONAL TYPE_MESSAGE
    0 (off "response") (Some (MsgDesc Dnsresponse)) None 0;
  field_descriptor "originalRequestorSubnet" 14 LABEL_OPTIONAL TYPE_BYTES
    (off "has_originalrequestorsubnet") (off "originalrequestorsubnet") None None 0;
  field_descriptor "requestorId" 15 LABEL_OPTIONAL TYPE_STRING
    0 (off "requestorid") None None 0;
  field_descriptor "initialRequestId" 16 LABEL_OPTIONAL TYPE_BYTES
    (off "has_initialrequestid") (off "initialrequestid") None None 0].

Definition pbdnsmessage__dnsquestion__field_indices_by_name : list nat := [2; 0; 1].

Definition pbdnsmessage__dnsresponse__dnsrr__field_indices_by_name : list nat := [2; 0; 4; 3; 1].

Definition pbdnsmessage__dnsresponse__field_indices_by_name : list nat := [2; 4; 5; 0; 1; 3].

Definition pbdnsmessage__field_indices_by_name : list nat :=
  [5; 10; 7; 15; 1; 13; 11; 14; 12; 2; 3; 4; 8; 9; 6; 0].

Definition pbdnsmessage__dnsquestion__number_ranges : list ProtobufCIntRange :=
  [int_range 1 0; int_range 0 3].

Definition pbdnsmessage__dnsresponse__dnsrr__number_ranges : list ProtobufCIntRange :=
  [int_range 1 0; int_range 0 5].

Definition pbdnsmessage__dnsresponse__number_ranges : list ProtobufCIntRange :=
  [int_range 1 0; int_range 0 6].

Definition pbdnsmessage__type__value_ranges : list ProtobufCIntRange :=
  [int_range 1 0; int_range 0 4].

Definition pbdnsmessage__socket_family__value_ranges : list ProtobufCIntRange :=
  [int_range 1 0; int_range 0 2].

Definition pbdnsmessage__socket_protocol__value_ranges : list ProtobufCIntRange :=
  [int_range 1 0; int_range 0 2].

Definition pbdnsmessage__number_ranges : list ProtobufCIntRange := [int_range 1 0; int_range 0 16].

Definition pbdnsmessage__type__enum_values_by_number : list ProtobufCEnumValue := [
  enum_value "DNSQueryType" "PBDNSMESSAGE__TYPE__DNSQueryType" 1;
  enum_value "DNSResponseType" "PBDNSMESSAGE__TYPE__DNSResponseType" 2;
  enum_value "DNSOutgoingQueryType" "PBDNSMESSAGE__TYPE__DNSOutgoingQueryType" 3;
  enum_value "DNSIncomingResponseType" "PBDNSMESSAGE__TYPE__DNSIncomingResponseType" 4].

Definition pbdnsmessage__socket_family__enum_values_by_number : list ProtobufCEnumValue := [
  enum_value "INET" "PBDNSMESSAGE__SOCKET_FAMILY__INET" 1;
  enum_value "INET6" "PBDNSMESSAGE__SOCKET_FAMILY__INET6" 2].

Definition pbdnsmessage__socket_protocol__enum_values_by_number : list ProtobufCEnumValue := [
  enum_value "UDP" "PBDNSMESSAGE__SOCKET_PROTOCOL__UDP" 1;
  enum_value "TCP" "PBDNSMESSAGE__SOCKET_PROTOCOL__TCP" 2].

Definition pbdnsmessage__type__enum_values_by_name : list ProtobufCEnumValueIndex :=
  [enum_index "DNSIncomingResponseType" 3; enum_index "DNSOutgoingQueryType" 2; enum_index "DNSQueryType" 0;
   enum_index "DNSResponseType" 1].

Definition pbdnsmessage__socket_family__enum_values_by_name : list ProtobufCEnumValueIndex :=
  [enum_index "INET" 0; enum_index "INET6" 1].

Definition pbdnsmessage__socket_protocol__enum_values_by_name : list ProtobufCEnumValueIndex :=
  [enum_index "TCP" 1; enum_index "UDP" 0].


Definition pbdnsmessage__dnsquestion__descriptor : ProtobufCMessageDescriptor := {|
  md_magic := message_magic;
  md_name := "PBDNSMessage.DNSQuestion";
  md_short_name := "DNSQuestion";
  md_c_name := "PBDNSMessage__DNSQuestion";
  md_package_name := "";
  md_sizeof_message := sizeof struct_dnsquestion;
  md_n_fields := 3;
  md_fields := pbdnsmessage__dnsquestion__field_descriptors;
  md_fields_sorted_by_name := pbdnsmessage__dnsquestion__field_indices_by_name;
  md_n_field_ranges := 1; md_field_ranges := pbdnsmessage__dnsquestion__number_ranges;
  md_message_init := Dnsquestion |}.

Definition pbdnsmessage__dnsresponse__dnsrr__descriptor : ProtobufCMessageDescriptor := {|
  md_magic := message_magic;
  md_name := "PBDNSMessage.DNSResponse.DNSRR";
  md_short_name := "DNSRR";
  md_c_name := "PBDNSMessage__DNSResponse__DNSRR";
  md_package_name := "";
  md_sizeof_message := sizeof struct_dnsrr;
  md_n_fields := 5;
  md_fields := pbdnsmessage__dnsresponse__dnsrr__field_descriptors;
  md_fields_sorted_by_name := pbdnsmessage__dnsresponse__dnsrr__field_indices_by_name;
  md_n_field_ranges := 1; md_field_ranges := pbdnsmessage__dnsresponse__dnsrr__number_ranges;
  md_message_init := Dnsrr |}.

Definition pbdnsmessage__dnsresponse__descriptor : ProtobufCMessageDescriptor := {|
  md_magic := message_magic;
  md_name := "PBDNSMessage.DNSResponse";
  md_short_name := "DNSResponse";
  md_c_name := "PBDNSMessage__DNSResponse";
  md_package_name := "";
  md_sizeof_message := sizeof struct_dnsresponse;
  md_n_fields := 6;
  md_fields := pbdnsmessage__dnsresponse__field_descriptors;
  md_fields_sorted_by_name := pbdnsmessage__dnsresponse__field_indices_by_name;
  md_n_field_ranges := 1; md_field_ranges := pbdnsmessage__dnsresponse__number_ranges;
  md_message_init := Dnsresponse |}.

Definition pbdnsmessage__descriptor : ProtobufCMessageDescriptor := {|
  md_magic := message_magic;
  md_name := "PBDNSMessage";
  md_short_name := "PBDNSMessage";
  md_c_name := "PBDNSMessage";
  md_package_name := "";
  md_sizeof_message := sizeof struct_pbdnsmessage;
  md_n_fields := 16;
  md_fields := pbdnsmessage__field_descriptors;
  md_fields_sorted_by_name := pbdnsmessage__field_indices_by_name;
  md_n_field_ranges := 1; md_field_ranges := pbdnsmessage__number_ranges;
  md_message_init := Pbdnsmessage |}.

Definition pbdnsmessage__type__descriptor : ProtobufCEnumDescriptor := {|
  ed_magic := enum_magic;
  ed_name := "PBDNSMessage.Type";
  ed_short_name := "Type";
  ed_c_name := "PBDNSMessage__Type";
  ed_package_name := "";
  ed_n_values := 4;
  ed_values := pbdnsmessage__type__enum_values_by_number;
  ed_n_value_names := 4;
  ed_values_by_name := pbdnsmessage__type__enum_values_by_name;
  ed_n_value_ranges := 1;
  ed_value_ranges := pbdnsmessage__type__value_ranges |}.

Definition pbdnsmessage__socket_family__descriptor : ProtobufCEnumDescriptor := {|
  ed_magic := enum_magic;
  ed_name := "PBDNSMessage.SocketFamily";
  ed_short_name := "SocketFamily";
  ed_c_name := "PBDNSMessage__SocketFamily";
  ed_package_name := "";
  ed_n_values := 2;
  ed_values := pbdnsmessage__socket_family__enum_values_by_number;
  ed_n_value_names := 2;
  ed_values_by_name := pbdnsmessage__socket_family__enum_values_by_name;
  ed_n_value_ranges := 1;
  ed_value_ranges := pbdnsmessage__socket_family__value_ranges |}.

Definition pbdnsmessage__socket_protocol__descriptor : ProtobufCEnumDescriptor := {|
  ed_magic := enum_magic;
  ed_name := "PBDNSMessage.SocketProtocol";
  ed_short_name := "SocketProtocol";
  ed_c_name := "PBDNSMessage__SocketProtocol";
  ed_package_name := "";
  ed_n_values := 2;
  ed_values := pbdnsmessage__socket_protocol__enum_values_by_number;
  ed_n_value_names := 2;
  ed_values_by_name := pbdnsmessage__socket_protocol__enum_values_by_name;
  ed_n_value_ranges := 1;
  ed_value_ranges := pbdnsmessage__socket_protocol__value_ranges |}.

Definition descriptor_of (m : msg_sym) : ProtobufCMessageDescriptor :=
  match m with
  | Dnsquestion => pbdnsmessage__dnsquestion__descriptor
  | Dnsrr => pbdnsmessage__dnsresponse__dnsrr__descriptor
  | Dnsresponse => pbdnsmessage__dnsresponse__descriptor
  | Pbdnsmessage => pbdnsmessage__descriptor
  end.

Definition enum_descriptor_of (e : enum_sym) : ProtobufCEnumDescriptor :=
  match e with
  | Type_ => pbdnsmessage__type__descriptor
  | SocketFamily => pbdnsmessage__socket_family__descriptor
  | SocketProtocol => pbdnsmessage__socket_protocol__descriptor
  end.
End tables.

(** The values the enumerators have in the header. *)
Definition PBDNSMessage__Type_val (t : PBDNSMessage__Type) : Z :=
  match t with
  | DNSQueryType => 1 | DNSResponseType => 2
  | DNSOutgoingQueryType => 3 | DNSIncomingResponseType => 4
  end.
Definition PBDNSMessage__SocketFamily_val (f : PBDNSMessage__SocketFamily) : Z :=
  match f with INET => 1 | INET6 => 2 end.
Definition PBDNSMessage__SocketProtocol_val (p : PBDNSMessage__SocketProtocol) : Z :=
  match p with UDP => 1 | TCP => 2 end.

(** ** Finding a field *)

(** What a table of ranges says about a number: the entries from [start_value] on are the
    consecutive ones from [orig_index] on, up to the next range's. *)
Fixpoint range_lookup (rs : list ProtobufCIntRange) (k : Z) : option nat :=
  match rs with
  | r :: ((r' :: _) as rs) =>
      let n := Z.of_nat (orig_index r' - orig_index r) in
      if (start_value r <=? k)%Z && (k <? start_value r + n)%Z
      then Some (orig_index r + Z.to_nat (k - start_value r)) else range_lookup rs k
  | _ => None
  end.

(** The order of [strcmp]. *)
Definition name_lt (a b : string) : Prop := String.ltb a b = true.
#[global] Instance name_lt_dec : RelDecision name_lt.
Proof. intros a b. unfold name_lt. apply _. Defined.

#[global] Instance sorted_dec {A} (R : A → A → Prop) `{!RelDecision R} (l : list A) :
  Decision (StronglySorted R l).
Proof.
  induction l as [|x l [IH|IH]].
  - left. constructor.
  - destruct (decide (Forall (R x) l)) as [HF|HF]; [left|right].
    + by constructor.
    + intros Hs. by inversion Hs.
  - right. intros Hs. by inversion Hs.
Defined.

(** A table of entries with its two indices: by number and by name. *)
Record indexed {A} (num : A → Z) (name : A → string) (es : list A)
    (ranges : list ProtobufCIntRange) (by_name : list (string * nat)) : Prop := {
  indexed_number k : range_lookup ranges k = fst <$> list_find (λ e, num e = k) es;
  indexed_names : Forall (λ '(n, i), name <$> es !! i = Some n) by_name;
  indexed_complete : by_name.*2 ≡ₚ seq 0 (length es);
  indexed_sorted : StronglySorted name_lt (by_name.*1);
}.

Lemma range_lookup_consecutive {A} (num : A → Z) (es : list A) k :
  num <$> es = seqZ 1 (Z.of_nat (length es)) →
  range_lookup [int_range 1 0; int_range 0 (length es)] k =
    fst <$> list_find (λ e, num e = k) es.
Proof.
  intros Hes. cbn [range_lookup start_value orig_index]. rewrite Nat.sub_0_r.
  assert (∀ i e, es !! i = Some e → num e = (1 + Z.of_nat i)%Z) as Hnum.
  { intros i e Hi. apply (f_equal (.!! i)) in Hes. rewrite list_lookup_fmap, Hi in Hes.
    simpl in Hes. symmetry in Hes. by apply lookup_seqZ in Hes as [-> _]. }
  destruct (list_find _ es) as [[i e]|] eqn:Hf.
  - apply list_find_Some in Hf as (Hi & <- & _). pose proof (lookup_lt_Some _ _ _ Hi).
    rewrite (Hnum _ _ Hi), (proj2 (Z.leb_le _ _)), (proj2 (Z.ltb_lt _ _)) by lia.
    simpl. f_equal. lia.
  - simpl. destruct (Z.leb_spec 1 k), (Z.ltb_spec k (1 + Z.of_nat (length es))); simpl; try done.
    destruct (lookup_lt_is_Some_2 es (Z.to_nat (k - 1))) as [e He]; [lia|].
    apply list_find_None in Hf. rewrite Forall_lookup in Hf.
    destruct (Hf _ _ He). rewrite (Hnum _ _ He). lia.
Qed.

(** The sorted fields of a message, with their names. *)
Definition sorted_fields (d : ProtobufCMessageDescriptor) : list (string * nat) :=
  (λ i, (default "" (fd_name <$> md_fields d !! i), i)) <$> md_fields_sorted_by_name d.

Section lookups.
Context `{Abi}.

Lemma field_ranges_lookup m k :
  range_lookup (md_field_ranges (descriptor_of m)) k =
    fst <$> list_find (λ f, fd_id f = k) (md_fields (descriptor_of m)).
Proof.
  destruct m; match goal with |- _ = _ <$> list_find _ ?es =>
    by apply (range_lookup_consecutive fd_id es) end.
Qed.

(** C18: lookups in the tables.  In every message descriptor the field ranges map a number
    to a field exactly when the message has a field of that number, for every number a
    client can send, and the index by name lists every field once in the order of
    [strcmp]; the same holds of the enumerations' values and names; and the counts are
    the tables' lengths. *)
Theorem descriptor_lookups m e :
  let d := descriptor_of m in
  let ed := enum_descriptor_of e in
  (md_n_fields d = length (md_fields d) ∧
   length (md_field_ranges d) = S (md_n_field_ranges d) ∧
   indexed fd_id fd_name (md_fields d) (md_field_ranges d) (sorted_fields d)) ∧
  (ed_n_values ed = length (ed_values ed) ∧ ed_n_value_names ed = length (ed_values_by_name ed) ∧
   length (ed_value_ranges ed) = S (ed_n_value_ranges ed) ∧
   indexed ev_value ev_name (ed_values ed) (ed_value_ranges ed)
     ((λ x, (ei_name x, ei_index x)) <$> ed_values_by_name ed)).
Proof.
  cbv zeta. split.
  - destruct m; (split_and!; [done..|split]).
    all: try apply (field_ranges_lookup _).
    all: apply (bool_decide_unpack _); by vm_compute.
  - destruct e; (split_and!; [done..|split]).
    all: try (intros k; match goal with |- _ = _ <$> list_find _ ?es =>
      by apply (range_lookup_consecutive ev_value es) end).
    all: apply (bool_decide_unpack _); by vm_compute.
Qed.
End lookups.

(** ** The fields in memory *)

(** The C type protobuf-c takes the member at [offset] to have. *)
Definition value_ctype (f : ProtobufCFieldDescriptor) : option ctype :=
  match fd_label f, fd_type f, fd_descriptor f with
  | LABEL_REPEATED, TYPE_STRING, None => Some Tstrs
  | LABEL_REPEATED, TYPE_MESSAGE, Some (MsgDesc m) => Some (Tmsgs m)
  | LABEL_REPEATED, _, _ => None
  | _, TYPE_UINT32, None => Some Tuint32
  | _, TYPE_UINT64, None => Some Tuint64
  | _, TYPE_ENUM, Some (EnumDesc e) => Some (Tenum e)
  | _, TYPE_STRING, None => Some Tstr
  | _, TYPE_BYTES, None => Some Tbin
  | _, TYPE_MESSAGE, Some (MsgDesc m) => Some (Tmsg m)
  | _, _, _ => None
  end.

(** The C type of the member at [quantifier_offset]: a count, a flag, or no member when
    the field is required or a null pointer tells that it is absent. *)
Definition quantifier_ctype (f : ProtobufCFieldDescriptor) : option ctype :=
  match fd_label f, fd_type f with
  | LABEL_REQUIRED, _ => None
  | LABEL_REPEATED, _ => Some Tsize
  | LABEL_OPTIONAL, (TYPE_STRING | TYPE_MESSAGE) => None
  | LABEL_OPTIONAL, _ => Some Tbool
  end.

(** The places in the structure that a field uses. *)
Definition field_slots (f : ProtobufCFieldDescriptor) : list (Z * ctype) :=
  match quantifier_ctype f with Some t => [(fd_quantifier_offset f, t)] | None => [] end ++
  match value_ctype f with Some t => [(fd_offset f, t)] | None => [] end.

Definition message_slots (d : ProtobufCMessageDescriptor) : list (Z * ctype) :=
  concat (field_slots <$> md_fields d).

Section slots.
Context `{Abi}.

Lemma offsets_offsetof st :
  NoDup st.*1 → offsets st = offsetof st <$> st.*1.
Proof.
  intros Hnd. apply list_eq. intros i. rewrite list_lookup_fmap.
  destruct (st.*1 !! i) as [n|] eqn:Hn; simpl.
  - apply offsetof_lookup. clear -Hnd Hn. revert i Hn.
    induction st as [|[m t] st IH]; intros [|i]; simpl; intros Hn; [done|done|..].
    + injection Hn as ->. by rewrite String.eqb_refl.
    + apply NoDup_cons in Hnd as [Hm Hnd]. rewrite (IH Hnd i Hn).
      destruct (String.eqb_spec m n) as [->|]; [|done].
      destruct Hm. by apply list_elem_of_lookup_2 in Hn.
  - apply lookup_ge_None in Hn. apply lookup_ge_None. unfold offsets.
    rewrite length_fmap in Hn. by rewrite length_offsets_from.
Qed.

(** A structure, given by names, is the list of its members. *)
Lemma struct_nodup m : NoDup (struct_of m).*1.
Proof. destruct m; apply (bool_decide_unpack _); by vm_compute. Qed.

(** The slots are the members after the first, in order. *)
Lemma message_slots_members m :
  message_slots (descriptor_of m) = prod_map (offsetof (struct_of m)) id <$> tail (struct_of m) ∧
  struct_of m = ("base", Tbase) :: tail (struct_of m).
Proof.
  destruct m; (split; [|reflexivity]); cbv -[offsetof];
    match goal with |- context [offsetof ?st] => generalize (offsetof st) end; reflexivity.
Qed.

Lemma index_of_nodup st i n t :
  NoDup st.*1 → st !! i = Some (n, t) → index_of st n = Some i.
Proof.
  revert i; induction st as [|[m u] st IH]; intros [|i] Hnd Hi; simplify_eq/=.
  - by rewrite String.eqb_refl.
  - apply NoDup_cons in Hnd as [Hm Hnd]. rewrite (IH i) by done.
    destruct (String.eqb_spec m n) as [->|]; [|done].
    destruct Hm. apply (list_elem_of_lookup_2 _ i). by rewrite list_lookup_fmap, Hi.
Qed.

Lemma message_slots_offsets m :
  offsetof (struct_of m) "base" :: (message_slots (descriptor_of m)).*1 = offsets (struct_of m).
Proof.
  rewrite offsets_offsetof by apply struct_nodup.
  destruct (message_slots_members m) as [-> Hst].
  trans (offsetof (struct_of m) <$> (("base", Tbase) :: tail (struct_of m)).*1);
    [|by rewrite <- Hst].
  cbn [fmap list_fmap fst]. f_equal. rewrite <- !list_fmap_compose. by apply list_fmap_ext.
Qed.

Lemma slot_member m i o t :
  message_slots (descriptor_of m) !! i = Some (o, t) →
  ∃ n, struct_of m !! S i = Some (n, t) ∧ o = offsetof (struct_of m) n ∧
    member_at (struct_of m) o = Some (n, t).
Proof.
  destruct (message_slots_members m) as [-> Hst]. rewrite list_lookup_fmap.
  intros ([n u] & Hn & [= -> <-])%fmap_Some.
  assert (struct_of m !! S i = Some (n, t)) as Hi by (by rewrite Hst).
  exists n. split_and!; [done|done|].
  apply (member_at_offsetof _ _ (S i)); [|done]. by eapply index_of_nodup, Hi; apply struct_nodup.
Qed.
End slots.

(** What a descriptor must satisfy for protobuf-c to use a structure through it. *)
Record describes `{Abi} (d : ProtobufCMessageDescriptor) (st : struct) : Prop := {
  (* the size allocated is the structure's *)
  describes_size : md_sizeof_message d = sizeof st;
  (* every field has a C type, and a field without a quantifier has none *)
  describes_types : Forall (λ f, is_Some (value_ctype f) ∧
    (quantifier_ctype f = None → fd_quantifier_offset f = 0%Z)) (md_fields d);
  (* each place is a member of that very type, aligned, after the base, inside the structure *)
  describes_members : Forall (λ '(o, t), (∃ n, member_at st o = Some (n, t)) ∧
    (size_of Tbase ≤ o ∧ (align_of t | o) ∧ o + size_of t ≤ sizeof st)%Z) (message_slots d);
  (* no two places overlap *)
  describes_disjoint i j o t o' t' : i ≠ j →
    message_slots d !! i = Some (o, t) → message_slots d !! j = Some (o', t') →
    (o + size_of t ≤ o' ∨ o' + size_of t' ≤ o)%Z;
  (* and no member is left out *)
  describes_all : offsetof st "base" :: (message_slots d).*1 = offsets st;
}.

Section fit.
Context `{Abi}.

(** C6: the descriptors fit the structures on every platform: for each of the four
    messages, whatever libprotobuf-c reads or writes through the table is a member of the
    structure of exactly the type the table claims, aligned and inside the allocation,
    no two accesses overlap, the base is never touched, and every member is described. *)
Theorem descriptors_fit_structs m : describes (descriptor_of m) (struct_of m).
Proof.
  split.
  - by destruct m.
  - destruct m; repeat constructor; try (by eexists); done.
  - apply Forall_lookup. intros i [o t] Hi. destruct (slot_member _ _ _ _ Hi) as (n & Hn & -> & Hm).
    split; [by exists n|]. destruct (member_at_region _ _ _ _ Hm) as (_ & ? & ?).
    split_and!; [|done|done]. destruct (message_slots_members m) as [_ Hst].
    assert (index_of (struct_of m) n = Some (S i)) as Hin
      by (by eapply index_of_nodup, Hn; apply struct_nodup).
    assert (offsets (struct_of m) !! 0 = Some 0%Z) as Hz.
    { rewrite Hst. unfold offsets. cbn. unfold align_up.
      rewrite Z.div_small; [done|]. pose proof (align_pos Tbase). lia. }
    apply offsetof_lookup in Hin.
    apply (offsets_from_ordered 0 (struct_of m) 0 (S i) "base" Tbase) with (oi := 0%Z); [lia| |done|done].
    by rewrite Hst.
  - intros i j o t o' t' Hij Hi Hj.
    destruct (slot_member _ _ _ _ Hi) as (n & Hn & -> & Hm).
    destruct (slot_member _ _ _ _ Hj) as (n' & Hn' & -> & Hm').
    apply (member_at_disjoint (struct_of m) _ _ n n'); [done|done|]. intros Heq.
    rewrite Heq in Hm. rewrite Hm in Hm'. injection Hm' as -> ->.
    pose proof (index_of_nodup _ _ _ _ (struct_nodup m) Hn).
    pose proof (index_of_nodup _ _ _ _ (struct_nodup m) Hn'). congruence.
  - apply message_slots_offsets.
Qed.
End fit.
