(* ===== verification/Schema.v ===== *)
(** * The schema: src/dnsmessage.proto

    The protocol description the recursor and the daemon share, and the proof that the
    generated C tables, read as a decoder reads them, describe the same messages. *)

From S2P Require Import Prelude Message Layout Descriptor.

Inductive ptype :=
  | Pstring | Pbytes | Puint32 | Puint64 | Penum (e : enum_sym) | Pmessage (m : msg_sym).

(** [optional uint32 qType = 2;] *)
Record pfield := pf { p_label : ProtobufCLabel; p_type : ptype; p_name : string; p_number : Z }.

Definition required := pf LABEL_REQUIRED.
Definition optional := pf LABEL_OPTIONAL.
Definition repeated := pf LABEL_REPEATED.

(** The fields in the order of the file. *)
Definition message_schema (m : msg_sym) : list pfield :=
  match m with
  | Pbdnsmessage => [
      required (Penum Type_) "type" 1;
      optional Pbytes "messageId" 2;
      optional Pbytes "serverIdentity" 3;
      optional (Penum SocketFamily) "socketFamily" 4;
      optional (Penum SocketProtocol) "socketProtocol" 5;
      optional Pbytes "from" 6;
      optional Pbytes "to" 7;
      optional Puint64 "inBytes" 8;
      optional Puint32 "timeSec" 9;
      optional Puint32 "timeUsec" 10;
      optional Puint32 "id" 11;
      optional (Pmessage Dnsquestion) "question" 12;
      optional (Pmessage Dnsresponse) "response" 13;
      optional Pbytes "originalRequestorSubnet" 14;
      optional Pstring "requestorId" 15;
      optional Pbytes "initialRequestId" 16]
  | Dnsquestion => [
      optional Pstring "qName" 1;
      optional Puint32 "qType" 2;
      optional Puint32 "qClass" 3]
  | Dnsresponse => [
      repeated (Pmessage Dnsrr) "rrs" 2;
      repeated Pstring "tags" 4;
      optional Puint32 "rcode" 1;
      optional Pstring "appliedPolicy" 3;
      optional Puint32 "queryTimeSec" 5;
      optional Puint32 "queryTimeUsec" 6]
  | Dnsrr => [
      optional Pstring "name" 1;
      optional Puint32 "type" 2;
      optional Puint32 "class" 3;
      optional Puint32 "ttl" 4;
      optional Pbytes "rdata" 5]
  end.

Definition enum_schema (e : enum_sym) : list (string * Z) :=
  match e with
  | Type_ => [("DNSQueryType", 1); ("DNSResponseType", 2);
              ("DNSOutgoingQueryType", 3); ("DNSIncomingResponseType", 4)]
  | SocketFamily => [("INET", 1); ("INET6", 2)]
  | SocketProtocol => [("UDP", 1); ("TCP", 2)]
  end%Z.

(** Where a declaration stands in the file: the names around it and its own. *)
Definition message_scope (m : msg_sym) : list string :=
  match m with
  | Pbdnsmessage => ["PBDNSMessage"]
  | Dnsquestion => ["PBDNSMessage"; "DNSQuestion"]
  | Dnsresponse => ["PBDNSMessage"; "DNSResponse"]
  | Dnsrr => ["PBDNSMessage"; "DNSResponse"; "DNSRR"]
  end.
Definition enum_scope (e : enum_sym) : list string :=
  match e with
  | Type_ => ["PBDNSMessage"; "Type"]
  | SocketFamily => ["PBDNSMessage"; "SocketFamily"]
  | SocketProtocol => ["PBDNSMessage"; "SocketProtocol"]
  end.

(** ** Reading the tables as a schema *)

(** The schema's type of an entry: for enumerations and messages the descriptor says which. *)
Definition read_type (t : ProtobufCType) (d : option descriptor_ptr) : option ptype :=
  match t, d with
  | TYPE_STRING, None => Some Pstring
  | TYPE_BYTES, None => Some Pbytes
  | TYPE_UINT32, None => Some Puint32
  | TYPE_UINT64, None => Some Puint64
  | TYPE_ENUM, Some (EnumDesc e) => Some (Penum e)
  | TYPE_MESSAGE, Some (MsgDesc m) => Some (Pmessage m)
  | _, _ => None
  end.

(** The schema declares no default values, so an entry may have none. *)
Definition read_field (f : ProtobufCFieldDescriptor) : option pfield :=
  if fd_default_value f is Some _ then None
  else t ← read_type (fd_type f) (fd_descriptor f); Some (pf (fd_label f) t (fd_name f) (fd_id f)).

(** The field a number on the wire selects: through the ranges to the entry, whose meaning
    is read off. *)
Definition selected (d : ProtobufCMessageDescriptor) (k : Z) : option pfield :=
  range_lookup (md_field_ranges d) k ≫= λ i, md_fields d !! i ≫= read_field.

Lemma read_field_number f g : read_field f = Some g → p_number g = fd_id f.
Proof.
  unfold read_field. destruct (fd_default_value f); [done|].
  destruct (read_type _ _); [|done]. by intros [= <-].
Qed.

#[global] Instance ptype_eq_dec : EqDecision ptype.
Proof. solve_decision. Defined.
#[global] Instance pfield_eq_dec : EqDecision pfield.
Proof. solve_decision. Defined.

Section tables.
Context `{Abi}.

(** The entries of a table are the fields of the message, each once. *)
Lemma read_fields m :
  ∃ fs, mapM read_field (md_fields (descriptor_of m)) = Some fs ∧ fs ≡ₚ message_schema m.
Proof.
  destruct m; eexists; (split; [reflexivity|]); apply (bool_decide_unpack _); by vm_compute.
Qed.

Lemma ids_nodup m : NoDup (fd_id <$> md_fields (descriptor_of m)).
Proof. destruct m; apply (bool_decide_unpack _); by vm_compute. Qed.

Lemma fields_read m f :
  f ∈ message_schema m ↔ ∃ i e, md_fields (descriptor_of m) !! i = Some e ∧ read_field e = Some f.
Proof.
  destruct (read_fields m) as (fs & Hfs%mapM_Some & <-). split.
  - intros [i Hi]%list_elem_of_lookup. destruct (Forall2_lookup_r _ _ _ _ _ Hfs Hi) as (e & He & Hr).
    by exists i, e.
  - intros (i & e & He & Hr). destruct (Forall2_lookup_l _ _ _ _ _ Hfs He) as (f' & Hf' & Hr').
    assert (f' = f) as -> by congruence. by eapply list_elem_of_lookup_2.
Qed.

(** C17: The generated tables are those of the schema.  For every message of dnsmessage.proto
    a number on the wire selects, through the message's table of ranges and its table of
    fields, exactly the field the schema gives that number, with its name, its label
    (required, optional or repeated) and its type, down to the right enumeration or
    sub-message, and no default value; every other number selects nothing.  The values of
    the enumerations have the schema's names and numbers, which are also those of the
    enumerators in the header, and the qualified names are the schema's. *)
Theorem tables_match_schema m e :
  (∀ k f, selected (descriptor_of m) k = Some f ↔ f ∈ message_schema m ∧ p_number f = k) ∧
  md_n_fields (descriptor_of m) = length (message_schema m) ∧
  md_name (descriptor_of m) = String.concat "." (message_scope m) ∧
  (λ v, (ev_name v, ev_value v)) <$> ed_values (enum_descriptor_of e) = enum_schema e ∧
  ed_name (enum_descriptor_of e) = String.concat "." (enum_scope e) ∧
  (enum_schema e).*2 =
    match e with
    | Type_ => PBDNSMessage__Type_val <$>
        [DNSQueryType; DNSResponseType; DNSOutgoingQueryType; DNSIncomingResponseType]
    | SocketFamily => PBDNSMessage__SocketFamily_val <$> [INET; INET6]
    | SocketProtocol => PBDNSMessage__SocketProtocol_val <$> [UDP; TCP]
    end.
Proof.
  split; [|destruct m, e; by split_and!]. intros k f. unfold selected.
  rewrite field_ranges_lookup, fields_read. split.
  - destruct (list_find _ _) as [[i d]|] eqn:Hf; [|done]. simpl.
    apply list_find_Some in Hf as (Hi & <- & _). rewrite Hi. simpl. intros Hr.
    split; [by exists i, d|by apply read_field_number].
  - intros [(i & d & Hi & Hr) <-]. rewrite (read_field_number _ _ Hr).
    assert (list_find (λ x, fd_id x = fd_id d) (md_fields (descriptor_of m)) = Some (i, d)) as ->;
      [|simpl; by rewrite Hi].
    apply list_find_Some. split_and!; [done|done|]. intros j d' Hj Hlt Heq.
    assert (j = i); [|lia]. eapply (NoDup_lookup _ j i (fd_id d)); [apply (ids_nodup m)|..];
      rewrite list_lookup_fmap; [by rewrite Hj, <- Heq|by rewrite Hi].
Qed.
End tables.
