(* ===== verification/Codec.v ===== *)
(** * Packing and unpacking: src/dnsmessage.pb-c.c, lines 10-45

    The generated functions are thin: they hand a structure and its descriptor to
    libprotobuf-c.  The library is the class [ProtobufC]; what the program relies on of
    its documentation is the class [ProtobufCLaws].  Both are about structures in memory,
    accessed at the offsets the descriptors give: the members of the C structures are read
    and stored at the offsets the compiler gives them, so that a message survives packing
    and unpacking only if the tables and the structures agree. *)

From S2P Require Import Prelude CLib Message Layout Descriptor.

(** ** Structures in memory *)

(** The contents of a member; [A] stands for the messages it points to. *)
Inductive cell (A : Type) :=
  | CBool (b : bool)
  | CU32 (z : Z) | CU64 (z : Z) | CEnum (z : Z)
  | CSize (n : nat)
  | CBin (b : ProtobufCBinaryData)
  | CStr (s : cstring)
  | CStrs (l : list cstring)
  | CMsg (o : option A)
  | CMsgs (l : list A).
Arguments CBool {A}. Arguments CU32 {A}. Arguments CU64 {A}. Arguments CEnum {A}.
Arguments CSize {A}. Arguments CBin {A}. Arguments CStr {A}. Arguments CStrs {A}.
Arguments CMsg {A}. Arguments CMsgs {A}.

(** A message: the descriptor its base points to, and its members by offset. *)
Inductive ProtobufCMessage :=
  Msg (descriptor : msg_sym) (members : list (Z * cell ProtobufCMessage)).

Definition base_descriptor (m : ProtobufCMessage) : msg_sym := let '(Msg d _) := m in d.
Definition members (m : ProtobufCMessage) : list (Z * cell ProtobufCMessage) :=
  let '(Msg _ cs) := m in cs.

Definition cell_map {A B} (f : A → B) (c : cell A) : cell B :=
  match c with
  | CBool b => CBool b
  | CU32 z => CU32 z | CU64 z => CU64 z | CEnum z => CEnum z
  | CSize n => CSize n
  | CBin b => CBin b
  | CStr s => CStr s
  | CStrs l => CStrs l
  | CMsg o => CMsg (match o with Some a => Some (f a) | None => None end)
  | CMsgs l => CMsgs (List.map f l)
  end.
Definition entry_map {A B} (f : A → B) (e : Z * cell A) : Z * cell B := (e.1, cell_map f e.2).

(** The member at an offset. *)
Fixpoint get {A} (cs : list (Z * cell A)) (o : Z) : option (cell A) :=
  match cs with
  | [] => None
  | (o', c) :: cs => if (o' =? o)%Z then Some c else get cs o
  end.

(** The members a field uses: its quantifier, if it has one, and its value. *)
Definition field_cells {A} (cs : list (Z * cell A)) (f : ProtobufCFieldDescriptor) :
    list (cell A) :=
  omap (get cs) (field_slots f).*1.

(** What the program gives to the library: its tables and its initialisers. *)
Record pb_program := {
  pb_descriptor : msg_sym → ProtobufCMessageDescriptor;
  pb_init : msg_sym → ProtobufCMessage;
}.

(** ** Valid messages *)

(** The value of a member that is absent. *)
Definition default_cell {A} (t : ctype) : cell A :=
  match t with
  | Tbool | Tbase => CBool false
  | Tuint32 => CU32 0 | Tuint64 => CU64 0 | Tenum _ => CEnum 0
  | Tsize => CSize 0
  | Tbin => CBin bin_null
  | Tstr => CStr None | Tstrs => CStrs []
  | Tmsg _ => CMsg None | Tmsgs _ => CMsgs []
  end.

Definition terminated (s : list byte) : bool := bool_decide (nul_free s).

(** A value of its type, and one that is present.  [A] tells of a message pointed to
    whether it is a valid one of a given type. *)
Definition value_ok (t : ctype) (c : cell (msg_sym → bool)) : bool :=
  match t, c with
  | Tuint32, CU32 z => (0 <=? z)%Z && (z <? 2 ^ 32)%Z
  | Tuint64, CU64 z => (0 <=? z)%Z && (z <? 2 ^ 64)%Z
  | Tenum _, CEnum z => (- 2 ^ 31 <=? z)%Z && (z <? 2 ^ 31)%Z
  | Tbin, CBin b => bool_decide (bin_wf b)
  | Tstr, CStr (Some s) => terminated s
  | Tmsg s, CMsg (Some v) => v s
  | _, _ => false
  end.

Definition is_default (t : ctype) (c : cell (msg_sym → bool)) : bool :=
  match t, c with
  | Tuint32, CU32 z | Tuint64, CU64 z | Tenum _, CEnum z => (z =? 0)%Z
  | Tbin, CBin b => (bin_len b =? 0)%Z && match bin_data b with None => true | _ => false end
  | Tstr, CStr None | Tmsg _, CMsg None => true
  | _, _ => false
  end.

(** The members of one field. *)
Definition field_valid (f : ProtobufCFieldDescriptor) (cs : list (cell (msg_sym → bool))) : bool :=
  match value_ctype f, fd_label f, cs with
  | Some t, LABEL_REQUIRED, [c] => value_ok t c
  | Some t, LABEL_OPTIONAL, [c] => value_ok t c || is_default t c
  | Some t, LABEL_OPTIONAL, [CBool b; c] => if b then value_ok t c else is_default t c
  | Some Tstrs, LABEL_REPEATED, [CSize n; CStrs l] =>
      (n =? length l) && forallb (λ s, match s with Some s => terminated s | None => false end) l
  | Some (Tmsgs s), LABEL_REPEATED, [CSize n; CMsgs l] => (n =? length l) && forallb (λ v, v s) l
  | _, _, _ => false
  end.

(** A message of a given type whose members are as the library keeps them: those of the
    descriptor in order, each of its type and range, absent values zero, counts right. *)
Fixpoint valid (D : msg_sym → ProtobufCMessageDescriptor) (m : ProtobufCMessage) (s : msg_sym) : bool :=
  match m with
  | Msg d cs =>
      bool_decide (d = s) && bool_decide (List.map fst cs = (message_slots (D s)).*1) &&
      let vs := List.map (entry_map (valid D)) cs in
      forallb (λ f, field_valid f (field_cells vs f)) (md_fields (D s))
  end.

(** The number of elements of repeated fields in a message, nested ones included. *)
Definition cell_elements (c : cell nat) : nat :=
  match c with
  | CStrs l => length l
  | CMsg (Some n) => n
  | CMsgs l => length l + list_sum l
  | _ => 0
  end.

Fixpoint elements (m : ProtobufCMessage) : nat :=
  match m with
  | Msg _ cs => list_sum (List.map (λ e, cell_elements (cell_map elements e.2)) cs)
  end.

(** ** What the library asks of the tables, and what it promises *)

Record table_ok (P : pb_program) (s : msg_sym) : Prop := {
  ok_numbers k : range_lookup (md_field_ranges (pb_descriptor P s)) k =
    fst <$> list_find (λ f, fd_id f = k) (md_fields (pb_descriptor P s));
  ok_distinct : NoDup (fd_id <$> md_fields (pb_descriptor P s));
  ok_numbered : Forall (λ f, 1 ≤ fd_id f < 2 ^ 29)%Z (md_fields (pb_descriptor P s));
  ok_types : Forall (λ f, is_Some (value_ctype f)) (md_fields (pb_descriptor P s));
  ok_default : Forall (λ f, field_valid f ((λ t, default_cell t) <$> (field_slots f).*2) = true)
    (md_fields (pb_descriptor P s));
  ok_places : NoDup (message_slots (pb_descriptor P s)).*1;
  ok_init : pb_init P (md_message_init (pb_descriptor P s)) =
    Msg s ((λ '(o, t), (o, default_cell t)) <$> message_slots (pb_descriptor P s));
}.

Class ProtobufC := {
  protobuf_c_message_unpack : pb_program → msg_sym → list byte → option ProtobufCMessage;
  protobuf_c_message_pack : pb_program → ProtobufCMessage → list byte;
  protobuf_c_message_get_packed_size : pb_program → ProtobufCMessage → nat;
}.

(** Documented: unpacking what was packed (of at most 2 GB) gives the same message, the
    packed size is the number of bytes written, an unpacked message is a valid one, and
    every element of a repeated field takes some of the data. *)
Class ProtobufCLaws `{ProtobufC} := {
  unpack_pack_law P s m : (∀ s, table_ok P s) → valid (pb_descriptor P) m s = true →
    (Z.of_nat (length (protobuf_c_message_pack P m)) < 2 ^ 31)%Z →
    protobuf_c_message_unpack P s (protobuf_c_message_pack P m) = Some m;
  packed_size_law P m :
    protobuf_c_message_get_packed_size P m = length (protobuf_c_message_pack P m);
  unpack_valid_law P s data m : (∀ s, table_ok P s) →
    protobuf_c_message_unpack P s data = Some m → valid (pb_descriptor P) m s = true;
  unpack_elements_law P s data m : (∀ s, table_ok P s) →
    protobuf_c_message_unpack P s data = Some m → elements m ≤ length data;
}.

(** ** The structures of the program in memory *)

Section structures.
Context `{Abi}.

(** A structure with the given members after its base. *)
Definition place (st : struct) (cs : list (cell ProtobufCMessage)) :
    list (Z * cell ProtobufCMessage) := zip (tail (offsets st)) cs.

Definition store_dnsquestion (q : PBDNSMessage__DNSQuestion) : ProtobufCMessage :=
  Msg Dnsquestion (place struct_dnsquestion [
    CStr (q_qname q);
    CBool (q_has_qtype q); CU32 (q_qtype q);
    CBool (q_has_qclass q); CU32 (q_qclass q)]).

Definition store_dnsrr (rr : PBDNSMessage__DNSResponse__DNSRR) : ProtobufCMessage :=
  Msg Dnsrr (place struct_dnsrr [
    CStr (rr_name rr);
    CBool (rr_has_type rr); CU32 (rr_type rr);
    CBool (rr_has_class rr); CU32 (rr_class rr);
    CBool (rr_has_ttl rr); CU32 (rr_ttl rr);
    CBool (rr_has_rdata rr); CBin (rr_rdata rr)]).

Definition store_dnsresponse (r : PBDNSMessage__DNSResponse) : ProtobufCMessage :=
  Msg Dnsresponse (place struct_dnsresponse [
    CBool (r_has_rcode r); CU32 (r_rcode r);
    CSize (length (r_rrs r)); CMsgs (store_dnsrr <$> r_rrs r);
    CStr (r_appliedpolicy r);
    CSize (length (r_tags r)); CStrs (r_tags r);
    CBool (r_has_querytimesec r); CU32 (r_querytimesec r);
    CBool (r_has_querytimeusec r); CU32 (r_querytimeusec r)]).

Definition store_pbdnsmessage (m : PBDNSMessage) : ProtobufCMessage :=
  Msg Pbdnsmessage (place struct_pbdnsmessage [
    CEnum (m_type m);
    CBool (m_has_messageid m); CBin (m_messageid m);
    CBool (m_has_serveridentity m); CBin (m_serveridentity m);
    CBool (m_has_socketfamily m); CEnum (m_socketfamily m);
    CBool (m_has_socketprotocol m); CEnum (m_socketprotocol m);
    CBool (m_has_from m); CBin (m_from m);
    CBool (m_has_to m); CBin (m_to m);
    CBool (m_has_inbytes m); CU64 (m_inbytes m);
    CBool (m_has_timesec m); CU32 (m_timesec m);
    CBool (m_has_timeusec m); CU32 (m_timeusec m);
    CBool (m_has_id m); CU32 (m_id m);
    CMsg (store_dnsquestion <$> m_question m);
    CMsg (store_dnsresponse <$> m_response m);
    CBool (m_has_originalrequestorsubnet m); CBin (m_originalrequestorsubnet m);
    CStr (m_requestorid m);
    CBool (m_has_initialrequestid m); CBin (m_initialrequestid m)]).

(** The tables and initialisers of this program. *)
Definition program : pb_program := {|
  pb_descriptor := descriptor_of;
  pb_init s :=
    match s with
    | Dnsquestion => store_dnsquestion pbdnsmessage__dnsquestion__init
    | Dnsrr => store_dnsrr pbdnsmessage__dnsresponse__dnsrr__init
    | Dnsresponse => store_dnsresponse pbdnsmessage__dnsresponse__init
    | Pbdnsmessage => store_pbdnsmessage pbdnsmessage__init
    end |}.
End structures.

(** ** Members in the order of the fields *)

Section segments.
Context {A : Type}.
Implicit Types (cs : list (Z * cell A)).

(** Cutting a list into the pieces of the fields. *)
Fixpoint segments {B} (fs : list ProtobufCFieldDescriptor) (l : list B) : list (list B) :=
  match fs with
  | [] => []
  | f :: fs =>
      take (length (field_slots f)) l :: segments fs (drop (length (field_slots f)) l)
  end.

Lemma get_app_l cs cs' o : o ∉ cs.*1 → get (cs ++ cs') o = get cs' o.
Proof.
  induction cs as [|[o' c] cs IH]; simpl; [done|]. intros [Hne Hin]%not_elem_of_cons.
  rewrite IH by done. by rewrite (proj2 (Z.eqb_neq _ _)) by done.
Qed.

(** Reading all members of a piece. *)
Lemma omap_get_app (pre seg post : list (Z * cell A)) :
  NoDup (pre ++ seg ++ post).*1 → omap (get (pre ++ seg ++ post)) seg.*1 = seg.*2.
Proof.
  revert pre; induction seg as [|[o c] seg IH]; intros pre Hnd; [done|].
  cbn [fmap list_fmap fst snd omap list_omap].
  assert (o ∉ pre.*1) as Ho.
  { rewrite fmap_app in Hnd. apply NoDup_app in Hnd as (_ & Hnd & _).
    intros Hin. apply (Hnd o Hin). by left. }
  rewrite get_app_l by done. simpl. rewrite Z.eqb_refl. f_equal.
  specialize (IH (pre ++ [(o, c)])). rewrite <- app_assoc in IH. by apply IH.
Qed.

Lemma field_cells_segments_from (pre : list (Z * cell A)) fs cs :
  cs.*1 = (concat (field_slots <$> fs)).*1 → NoDup (pre ++ cs).*1 →
  (λ f, field_cells (pre ++ cs) f) <$> fs = segments fs cs.*2.
Proof.
  revert pre cs; induction fs as [|f fs IH]; intros pre cs Hk Hnd; [done|].
  cbn [fmap list_fmap concat] in Hk. rewrite fmap_app in Hk.
  pose proof (take_drop (length (field_slots f)) cs) as Hcs.
  set (a := take (length (field_slots f)) cs) in *.
  set (b := drop (length (field_slots f)) cs) in *.
  assert (a.*1 = (field_slots f).*1) as Ha.
  { unfold a. rewrite fmap_take, Hk, take_app_length'; [done|by rewrite length_fmap]. }
  assert (b.*1 = (concat (field_slots <$> fs)).*1) as Hb.
  { unfold b. rewrite fmap_drop, Hk, drop_app_length'; [done|by rewrite length_fmap]. }
  cbn [fmap list_fmap segments]. f_equal.
  - unfold field_cells. rewrite <- fmap_take, <- Ha. fold a. rewrite <- Hcs. clearbody a b.
    apply omap_get_app. by rewrite Hcs.
  - rewrite <- fmap_drop. fold b. rewrite <- (IH (pre ++ a)); [|done|by rewrite <- app_assoc, Hcs].
    apply list_fmap_ext. intros _ g _. by rewrite <- app_assoc, Hcs.
Qed.

Lemma field_cells_segments fs cs :
  cs.*1 = (concat (field_slots <$> fs)).*1 → NoDup cs.*1 →
  field_cells cs <$> fs = segments fs cs.*2.
Proof. apply (field_cells_segments_from []). Qed.
End segments.

Lemma forallb_zip {B C} (g : B → C → bool) (h : B → C) l :
  forallb (λ x, g x (h x)) l = forallb (λ p, g p.1 p.2) (zip l (h <$> l)).
Proof. induction l as [|x l IH]; simpl; [done|]. by rewrite IH. Qed.

Lemma entry_map_fst {A B} (f : A → B) cs : (entry_map f <$> cs).*1 = cs.*1.
Proof. rewrite <- list_fmap_compose. by apply list_fmap_ext. Qed.
Lemma entry_map_snd {A B} (f : A → B) cs : (entry_map f <$> cs).*2 = cell_map f <$> cs.*2.
Proof. rewrite <- !list_fmap_compose. by apply list_fmap_ext. Qed.

(** [valid] on the members in order. *)
Lemma valid_segments D d cs s :
  NoDup (message_slots (D s)).*1 →
  valid D (Msg d cs) s = true ↔
    d = s ∧ cs.*1 = (message_slots (D s)).*1 ∧
    forallb (λ p, field_valid p.1 p.2)
      (zip (md_fields (D s)) (segments (md_fields (D s)) (cell_map (valid D) <$> cs.*2))) = true.
Proof.
  intros Hnd. cbn [valid]. rewrite !andb_true_iff, !bool_decide_eq_true.
  change (List.map fst cs) with cs.*1.
  change (List.map (entry_map (valid D)) cs) with (entry_map (valid D) <$> cs).
  split; [intros ((-> & Hk) & Hv)|intros (-> & Hk & Hv)]; (split_and!; [done|done|]).
  - rewrite forallb_zip, field_cells_segments, entry_map_snd in Hv; rewrite ?entry_map_fst, ?Hk; done.
  - rewrite forallb_zip, field_cells_segments, entry_map_snd; rewrite ?entry_map_fst, ?Hk; done.
Qed.

(** ** Reading the structures *)

(** The value of a member of a given C type. *)
Definition as_bool (c : option (cell ProtobufCMessage)) : option bool :=
  match c with Some (CBool b) => Some b | _ => None end.
Definition as_u32 (c : option (cell ProtobufCMessage)) : option Z :=
  match c with Some (CU32 z) => Some z | _ => None end.
Definition as_u64 (c : option (cell ProtobufCMessage)) : option Z :=
  match c with Some (CU64 z) => Some z | _ => None end.
Definition as_enum (c : option (cell ProtobufCMessage)) : option Z :=
  match c with Some (CEnum z) => Some z | _ => None end.
Definition as_bin (c : option (cell ProtobufCMessage)) : option ProtobufCBinaryData :=
  match c with Some (CBin b) => Some b | _ => None end.
Definition as_str (c : option (cell ProtobufCMessage)) : option cstring :=
  match c with Some (CStr s) => Some s | _ => None end.
Definition as_strs (c : option (cell ProtobufCMessage)) : option (list cstring) :=
  match c with Some (CStrs l) => Some l | _ => None end.

(** A pointer to a message that may be null, and the array of a repeated field. *)
Definition as_msg {B} (load : ProtobufCMessage → option B) (c : option (cell ProtobufCMessage)) :
    option (option B) :=
  match c with
  | Some (CMsg None) => Some None
  | Some (CMsg (Some m)) => Some <$> load m
  | _ => None
  end.
Definition as_msgs {B} (load : ProtobufCMessage → option B) (c : option (cell ProtobufCMessage)) :
    option (list B) :=
  match c with Some (CMsgs l) => mapM load l | _ => None end.

Section load.
Context `{Abi}.

(** [m->n] *)
Definition member (st : struct) (m : ProtobufCMessage) (n : string) : option (cell ProtobufCMessage) :=
  get (members m) (offsetof st n).

Definition load_dnsquestion (m : ProtobufCMessage) : option PBDNSMessage__DNSQuestion :=
  let g := member struct_dnsquestion m in
  qname ← as_str (g "qname");
  has_qtype ← as_bool (g "has_qtype"); qtype ← as_u32 (g "qtype");
  has_qclass ← as_bool (g "has_qclass"); qclass ← as_u32 (g "qclass");
  Some {| q_qname := qname; q_has_qtype := has_qtype; q_qtype := qtype;
          q_has_qclass := has_qclass; q_qclass := qclass |}.

Definition load_dnsrr (m : ProtobufCMessage) : option PBDNSMessage__DNSResponse__DNSRR :=
  let g := member struct_dnsrr m in
  name ← as_str (g "name");
  has_type ← as_bool (g "has_type"); type ← as_u32 (g "type");
  has_class ← as_bool (g "has_class_"); class ← as_u32 (g "class_");
  has_ttl ← as_bool (g "has_ttl"); ttl ← as_u32 (g "ttl");
  has_rdata ← as_bool (g "has_rdata"); rdata ← as_bin (g "rdata");
  Some {| rr_name := name; rr_has_type := has_type; rr_type := type;
          rr_has_class := has_class; rr_class := class; rr_has_ttl := has_ttl; rr_ttl := ttl;
          rr_has_rdata := has_rdata; rr_rdata := rdata |}.

Definition load_dnsresponse (m : ProtobufCMessage) : option PBDNSMessage__DNSResponse :=
  let g := member struct_dnsresponse m in
  has_rcode ← as_bool (g "has_rcode"); rcode ← as_u32 (g "rcode");
  rrs ← as_msgs load_dnsrr (g "rrs");
  appliedpolicy ← as_str (g "appliedpolicy");
  tags ← as_strs (g "tags");
  has_querytimesec ← as_bool (g "has_querytimesec"); querytimesec ← as_u32 (g "querytimesec");
  has_querytimeusec ← as_bool (g "has_querytimeusec"); querytimeusec ← as_u32 (g "querytimeusec");
  Some {| r_has_rcode := has_rcode; r_rcode := rcode; r_rrs := rrs;
          r_appliedpolicy := appliedpolicy; r_tags := tags;
          r_has_querytimesec := has_querytimesec; r_querytimesec := querytimesec;
          r_has_querytimeusec := has_querytimeusec; r_querytimeusec := querytimeusec |}.

Definition load_pbdnsmessage (m : ProtobufCMessage) : option PBDNSMessage :=
  let g := member struct_pbdnsmessage m in
  type ← as_enum (g "type");
  has_messageid ← as_bool (g "has_messageid"); messageid ← as_bin (g "messageid");
  has_serveridentity ← as_bool (g "has_serveridentity");
  serveridentity ← as_bin (g "serveridentity");
  has_socketfamily ← as_bool (g "has_socketfamily"); socketfamily ← as_enum (g "socketfamily");
  has_socketprotocol ← as_bool (g "has_socketprotocol");
  socketprotocol ← as_enum (g "socketprotocol");
  has_from ← as_bool (g "has_from"); from ← as_bin (g "from");
  has_to ← as_bool (g "has_to"); to ← as_bin (g "to");
  has_inbytes ← as_bool (g "has_inbytes"); inbytes ← as_u64 (g "inbytes");
  has_timesec ← as_bool (g "has_timesec"); timesec ← as_u32 (g "timesec");
  has_timeusec ← as_bool (g "has_timeusec"); timeusec ← as_u32 (g "timeusec");
  has_id ← as_bool (g "has_id"); id ← as_u32 (g "id");
  question ← as_msg load_dnsquestion (g "question");
  response ← as_msg load_dnsresponse (g "response");
  has_originalrequestorsubnet ← as_bool (g "has_originalrequestorsubnet");
  originalrequestorsubnet ← as_bin (g "originalrequestorsubnet");
  requestorid ← as_str (g "requestorid");
  has_initialrequestid ← as_bool (g "has_initialrequestid");
  initialrequestid ← as_bin (g "initialrequestid");
  Some {|
    m_type := type; m_has_messageid := has_messageid; m_messageid := messageid;
    m_has_serveridentity := has_serveridentity; m_serveridentity := serveridentity;
    m_has_socketfamily := has_socketfamily; m_socketfamily := socketfamily;
    m_has_socketprotocol := has_socketprotocol; m_socketprotocol := socketprotocol;
    m_has_from := has_from; m_from := from; m_has_to := has_to; m_to := to;
    m_has_inbytes := has_inbytes; m_inbytes := inbytes;
    m_has_timesec := has_timesec; m_timesec := timesec;
    m_has_timeusec := has_timeusec; m_timeusec := timeusec;
    m_has_id := has_id; m_id := id; m_question := question; m_response := response;
    m_has_originalrequestorsubnet := has_originalrequestorsubnet;
    m_originalrequestorsubnet := originalrequestorsubnet; m_requestorid := requestorid;
    m_has_initialrequestid := has_initialrequestid; m_initialrequestid := initialrequestid |}.
End load.

(** ** Reading back what was stored *)

Section load_store.
Context `{Abi}.

Lemma get_zip ks (cs : list (cell ProtobufCMessage)) i k :
  NoDup ks → length ks = length cs → ks !! i = Some k → get (zip ks cs) k = cs !! i.
Proof.
  revert cs i; induction ks as [|k' ks IH]; intros [|c cs] [|i] Hnd Hl Hk; simplify_eq/=.
  - by rewrite Z.eqb_refl.
  - apply NoDup_cons in Hnd as [Hk' Hnd]. rewrite (proj2 (Z.eqb_neq _ _)); [by apply IH|].
    intros ->. destruct Hk'. by apply list_elem_of_lookup_2 in Hk.
Qed.

Lemma tail_offsets_NoDup st : NoDup (tail (offsets st)).
Proof.
  pose proof (offsets_NoDup st) as Hnd. destruct (offsets st); [done|].
  by apply NoDup_cons in Hnd as [_ ?].
Qed.

(** A member of a structure with the given contents. *)
Lemma member_place d st cs n i c :
  index_of st n = Some (S i) → length st = S (length cs) → cs !! i = Some c →
  member st (Msg d (place st cs)) n = Some c.
Proof.
  intros Hi Hl Hc. unfold member, place. cbn [members].
  rewrite (get_zip _ _ i); [done|apply tail_offsets_NoDup|..].
  - assert (length (offsets st) = length st) as Hlo by apply length_offsets_from.
    destruct (offsets st); simpl in *; lia.
  - apply offsetof_lookup in Hi. by destruct (offsets st).
Qed.

Ltac read_members :=
  repeat (erewrite member_place; [|reflexivity|reflexivity|reflexivity]; simpl).

Lemma load_store_dnsquestion q : load_dnsquestion (store_dnsquestion q) = Some q.
Proof. unfold load_dnsquestion, store_dnsquestion. read_members. by destruct q. Qed.

Lemma load_store_dnsrr rr : load_dnsrr (store_dnsrr rr) = Some rr.
Proof. unfold load_dnsrr, store_dnsrr. read_members. by destruct rr. Qed.

Lemma mapM_load_store {B} (load : ProtobufCMessage → option B) store l :
  (∀ x, load (store x) = Some x) → mapM load (store <$> l) = Some l.
Proof.
  intros Hls. apply mapM_Some, Forall2_fmap_l, Forall_Forall2_diag, Forall_forall. naive_solver.
Qed.

Lemma load_store_dnsresponse r : load_dnsresponse (store_dnsresponse r) = Some r.
Proof.
  unfold load_dnsresponse, store_dnsresponse. read_members.
  rewrite (mapM_load_store _ _ _ load_store_dnsrr). simpl. read_members. by destruct r.
Qed.

Lemma load_store_pbdnsmessage m : load_pbdnsmessage (store_pbdnsmessage m) = Some m.
Proof.
  unfold load_pbdnsmessage, store_pbdnsmessage. read_members.
  destruct m as [????????????????????? q r ?????]; simpl.
  destruct q; simpl; rewrite ?load_store_dnsquestion; simpl; read_members;
    (destruct r; simpl; rewrite ?load_store_dnsresponse; simpl; by read_members).
Qed.

(** ** The tables of the program *)

Lemma message_slots_tail s : (message_slots (descriptor_of s)).*1 = tail (offsets (struct_of s)).
Proof. by rewrite <- message_slots_offsets. Qed.

Lemma message_slots_NoDup s : NoDup (message_slots (descriptor_of s)).*1.
Proof. rewrite message_slots_tail. apply tail_offsets_NoDup. Qed.

Lemma init_place s cs :
  cs = (λ t, default_cell t) <$> (message_slots (descriptor_of s)).*2 →
  place (struct_of s) cs = (λ '(o, t), (o, default_cell t)) <$> message_slots (descriptor_of s).
Proof.
  intros ->. unfold place. rewrite <- message_slots_tail.
  induction (message_slots (descriptor_of s)) as [|[o t] l IH]; [done|]. csimpl. by rewrite IH.
Qed.

Lemma program_tables s : table_ok program s.
Proof.
  split.
  - intros k. apply field_ranges_lookup.
  - destruct s; apply (bool_decide_unpack _); by vm_compute.
  - destruct s; repeat constructor; simpl; lia.
  - destruct s; repeat constructor; by eexists.
  - destruct s; by repeat constructor.
  - apply message_slots_NoDup.
  - destruct s; cbn [pb_init program md_message_init pb_descriptor descriptor_of
      pbdnsmessage__dnsquestion__descriptor pbdnsmessage__dnsresponse__dnsrr__descriptor
      pbdnsmessage__dnsresponse__descriptor pbdnsmessage__descriptor].
    + apply (f_equal (Msg Dnsquestion)). by apply (init_place Dnsquestion).
    + apply (f_equal (Msg Dnsrr)). by apply (init_place Dnsrr).
    + apply (f_equal (Msg Dnsresponse)). by apply (init_place Dnsresponse).
    + apply (f_equal (Msg Pbdnsmessage)). by apply (init_place Pbdnsmessage).
Qed.
End load_store.

(** ** Valid messages as the program's records *)

Definition str_ok (s : cstring) : bool := match s with None => true | Some s => terminated s end.
Definition tag_ok (s : cstring) : bool := match s with None => false | Some s => terminated s end.
Definition u32_ok (has : bool) (z : Z) : bool :=
  if has then (0 <=? z)%Z && (z <? 2 ^ 32)%Z else (z =? 0)%Z.
Definition u64_ok (has : bool) (z : Z) : bool :=
  if has then (0 <=? z)%Z && (z <? 2 ^ 64)%Z else (z =? 0)%Z.
Definition enum_ok (has : bool) (z : Z) : bool :=
  if has then (- 2 ^ 31 <=? z)%Z && (z <? 2 ^ 31)%Z else (z =? 0)%Z.
Definition bin_ok (has : bool) (b : ProtobufCBinaryData) : bool :=
  if has then bool_decide (bin_wf b)
  else (bin_len b =? 0)%Z && match bin_data b with None => true | _ => false end.

Definition question_ok (q : PBDNSMessage__DNSQuestion) : bool :=
  str_ok (q_qname q) && u32_ok (q_has_qtype q) (q_qtype q) && u32_ok (q_has_qclass q) (q_qclass q).

Definition rr_ok (rr : PBDNSMessage__DNSResponse__DNSRR) : bool :=
  str_ok (rr_name rr) && u32_ok (rr_has_type rr) (rr_type rr) &&
  u32_ok (rr_has_class rr) (rr_class rr) && u32_ok (rr_has_ttl rr) (rr_ttl rr) &&
  bin_ok (rr_has_rdata rr) (rr_rdata rr).

Definition response_ok (r : PBDNSMessage__DNSResponse) : bool :=
  u32_ok (r_has_rcode r) (r_rcode r) && forallb rr_ok (r_rrs r) && str_ok (r_appliedpolicy r) &&
  forallb tag_ok (r_tags r) && u32_ok (r_has_querytimesec r) (r_querytimesec r) &&
  u32_ok (r_has_querytimeusec r) (r_querytimeusec r).

Definition message_ok (m : PBDNSMessage) : bool :=
  enum_ok true (m_type m) && bin_ok (m_has_messageid m) (m_messageid m) &&
  bin_ok (m_has_serveridentity m) (m_serveridentity m) &&
  enum_ok (m_has_socketfamily m) (m_socketfamily m) &&
  enum_ok (m_has_socketprotocol m) (m_socketprotocol m) &&
  bin_ok (m_has_from m) (m_from m) && bin_ok (m_has_to m) (m_to m) &&
  u64_ok (m_has_inbytes m) (m_inbytes m) && u32_ok (m_has_timesec m) (m_timesec m) &&
  u32_ok (m_has_timeusec m) (m_timeusec m) && u32_ok (m_has_id m) (m_id m) &&
  match m_question m with Some q => question_ok q | None => true end &&
  match m_response m with Some r => response_ok r | None => true end &&
  bin_ok (m_has_originalrequestorsubnet m) (m_originalrequestorsubnet m) &&
  str_ok (m_requestorid m) && bin_ok (m_has_initialrequestid m) (m_initialrequestid m).

Section valid_records.
Context `{Abi}.

Lemma place_fst s cs :
  length (struct_of s) = S (length cs) →
  (place (struct_of s) cs).*1 = (message_slots (descriptor_of s)).*1 ∧ (place (struct_of s) cs).*2 = cs.
Proof.
  intros Hl. rewrite message_slots_tail. unfold place.
  assert (length (tail (offsets (struct_of s))) = length cs) as Hl'.
  { assert (length (offsets (struct_of s)) = length (struct_of s)) by apply length_offsets_from.
    destruct (offsets (struct_of s)); simpl in *; lia. }
  split; [by apply fst_zip; lia|by apply snd_zip; lia].
Qed.

(** A structure is valid when its fields are, one after the other. *)
Lemma valid_place s cs :
  length (struct_of s) = S (length cs) →
  valid descriptor_of (Msg s (place (struct_of s) cs)) s =
    forallb (λ p, field_valid p.1 p.2)
      (zip (md_fields (descriptor_of s))
        (segments (md_fields (descriptor_of s)) (cell_map (valid descriptor_of) <$> cs))).
Proof.
  intros Hl. destruct (place_fst s cs Hl) as [Hk Hc]. apply eq_iff_eq_true.
  rewrite (valid_segments _ _ _ _ (message_slots_NoDup s)), Hc. naive_solver.
Qed.

(** Evaluates the fields one by one and compares the conjunctions. *)
Ltac valid_fields :=
  cbn -[Z.leb Z.ltb Z.pow terminated]; unfold str_ok, u32_ok, u64_ok, enum_ok, bin_ok;
  rewrite ?orb_false_r, ?andb_true_r, ?andb_assoc.

Lemma str_valid s :
  value_ok Tstr (CStr s) || is_default Tstr (CStr s) = str_ok s.
Proof. destruct s; simpl; by rewrite ?orb_false_r. Qed.

Lemma valid_dnsquestion q :
  valid descriptor_of (store_dnsquestion q) Dnsquestion = question_ok q.
Proof.
  etrans; [by apply (valid_place Dnsquestion)|].
  unfold question_ok. rewrite <- str_valid. by valid_fields.
Qed.

Lemma valid_dnsrr rr : valid descriptor_of (store_dnsrr rr) Dnsrr = rr_ok rr.
Proof.
  etrans; [by apply (valid_place Dnsrr)|].
  unfold rr_ok. rewrite <- str_valid. by valid_fields.
Qed.

Lemma valid_dnsresponse r : valid descriptor_of (store_dnsresponse r) Dnsresponse = response_ok r.
Proof.
  etrans; [by apply (valid_place Dnsresponse)|].
  assert (forallb (λ v, v Dnsrr) (valid descriptor_of <$> (store_dnsrr <$> r_rrs r)) =
    forallb rr_ok (r_rrs r)) as Hrrs.
  { induction (r_rrs r) as [|rr rrs IH]; [done|].
    cbn [fmap list_fmap forallb]. by rewrite IH, valid_dnsrr. }
  unfold response_ok. rewrite <- str_valid, <- Hrrs. valid_fields.
  by rewrite !length_fmap, !Nat.eqb_refl, !andb_true_r.
Qed.

Lemma valid_pbdnsmessage m : valid descriptor_of (store_pbdnsmessage m) Pbdnsmessage = message_ok m.
Proof.
  etrans; [by apply (valid_place Pbdnsmessage)|].
  unfold message_ok. rewrite <- str_valid. valid_fields. f_equal. f_equal. f_equal.
  destruct (m_question m) as [q|], (m_response m) as [r|]; cbn [fmap option_fmap option_map];
    by rewrite ?valid_dnsquestion, ?valid_dnsresponse, ?orb_false_r, ?orb_true_l, ?andb_true_r.
Qed.

(** Conversely, a valid message in memory is one of the program's structures. *)
Lemma valid_is_place m s :
  valid descriptor_of m s = true →
  ∃ cs, m = Msg s (place (struct_of s) cs) ∧ length (struct_of s) = S (length cs) ∧
    forallb (λ p, field_valid p.1 p.2)
      (zip (md_fields (descriptor_of s))
        (segments (md_fields (descriptor_of s)) (cell_map (valid descriptor_of) <$> cs))) = true.
Proof.
  destruct m as [d cs]. intros Hv.
  apply (valid_segments _ _ _ _ (message_slots_NoDup s)) in Hv as (-> & Hk & Hv).
  exists cs.*2. split_and!; [|..|done].
  - unfold place. rewrite <- message_slots_tail, <- Hk. f_equal. symmetry. apply zip_fst_snd.
  - apply (f_equal length) in Hk. rewrite length_fmap, message_slots_tail in Hk.
    assert (length (offsets (struct_of s)) = length (struct_of s)) by apply length_offsets_from.
    rewrite length_fmap. destruct (offsets (struct_of s)); destruct s; simpl in *; lia.
Qed.

(** The constructor of a member of a given type. *)
Definition shaped (t : ctype) (c : cell ProtobufCMessage) : Prop :=
  match t with
  | Tuint32 => ∃ z, c = CU32 z
  | Tuint64 => ∃ z, c = CU64 z
  | Tenum _ => ∃ z, c = CEnum z
  | Tbin => ∃ b, c = CBin b
  | Tstr => ∃ s, c = CStr s
  | Tmsg s => ∃ o, c = CMsg o ∧ match o with Some m => valid descriptor_of m s = true | None => True end
  | _ => False
  end.

Lemma value_shaped t c :
  value_ok t (cell_map (valid descriptor_of) c) || is_default t (cell_map (valid descriptor_of) c) = true →
  shaped t c.
Proof.
  destruct t, c as [| | | | | | | |[m'|]|]; simpl; try done; eauto; intros Hv.
  - exists (Some m'). by rewrite orb_false_r in Hv.
  - by exists None.
Qed.

Lemma field_flag f t c1 c2 :
  value_ctype f = Some t → fd_label f = LABEL_OPTIONAL →
  field_valid f (cell_map (valid descriptor_of) <$> [c1; c2]) = true →
  ∃ b, c1 = CBool b ∧ shaped t c2.
Proof.
  intros Ht Hl. unfold field_valid. rewrite Ht, Hl. destruct c1 as [b| | | | | | | | |]; try by destruct t.
  intros Hv. exists b. split; [done|]. apply value_shaped.
  destruct t; apply orb_true_iff; destruct b; simpl in *; auto.
Qed.

Lemma field_single f t c :
  value_ctype f = Some t → fd_label f ≠ LABEL_REPEATED →
  field_valid f (cell_map (valid descriptor_of) <$> [c]) = true → shaped t c.
Proof.
  intros Ht Hl. unfold field_valid. rewrite Ht. intros Hv. apply value_shaped, orb_true_iff.
  destruct (fd_label f); [destruct t; auto| |done].
  destruct t, c; apply orb_true_iff in Hv; auto.
Qed.

Lemma field_strs f c1 c2 :
  value_ctype f = Some Tstrs → fd_label f = LABEL_REPEATED →
  field_valid f (cell_map (valid descriptor_of) <$> [c1; c2]) = true →
  ∃ l, c1 = CSize (length l) ∧ c2 = CStrs l.
Proof.
  intros Ht Hl. unfold field_valid. rewrite Ht, Hl. destruct c1, c2; simpl; try done.
  intros [Hn%Nat.eqb_eq _]%andb_true_iff. subst. eauto.
Qed.

Lemma field_msgs f s c1 c2 :
  value_ctype f = Some (Tmsgs s) → fd_label f = LABEL_REPEATED →
  field_valid f (cell_map (valid descriptor_of) <$> [c1; c2]) = true →
  ∃ l, c1 = CSize (length l) ∧ c2 = CMsgs l ∧ Forall (λ m, valid descriptor_of m s = true) l.
Proof.
  intros Ht Hl. unfold field_valid. rewrite Ht, Hl. destruct c1, c2; simpl; try done.
  rewrite length_map. intros [Hn%Nat.eqb_eq Hv]%andb_true_iff. subst. eexists; split_and!; [done|done|].
  apply Forall_forall. intros m Hm. rewrite forallb_forall in Hv. apply (Hv (valid descriptor_of m)).
  apply in_map. by apply list_elem_of_In.
Qed.

Lemma segments_fmap {B C} (g : B → C) fs (l : list B) :
  segments fs (g <$> l) = (λ seg : list B, g <$> seg) <$> segments fs l.
Proof.
  revert l; induction fs as [|f fs IH]; intros l; [done|]. cbn [segments fmap list_fmap].
  by rewrite <- fmap_take, <- fmap_drop, IH.
Qed.

Lemma length_segments {B} fs (l : list B) : length (segments fs l) = length fs.
Proof. revert l; induction fs as [|f fs IH]; intros l; simpl; [done|]. by rewrite IH. Qed.

(** A valid structure, as a list of fields with their members. *)
Lemma valid_fields m s :
  valid descriptor_of m s = true →
  ∃ cs, m = Msg s (place (struct_of s) cs) ∧ length (struct_of s) = S (length cs) ∧
    Forall2 (λ f seg, field_valid f (cell_map (valid descriptor_of) <$> seg) = true)
      (md_fields (descriptor_of s)) (segments (md_fields (descriptor_of s)) cs).
Proof.
  intros Hv. apply valid_is_place in Hv as (cs & -> & Hl & Hv). exists cs. split_and!; [done|done|].
  rewrite segments_fmap in Hv. revert Hv. generalize (length_segments (md_fields (descriptor_of s)) cs).
  generalize (segments (md_fields (descriptor_of s)) cs) as segs. clear.
  induction (md_fields (descriptor_of s)) as [|f fs IH]; intros [|seg segs]; simpl; try done.
  intros [= Hl] [Hv Hvs]%andb_true_iff. constructor; [done|]. by apply IH.
Qed.

(** Names the [n] members of a structure. *)
Tactic Notation "name_members" integer(n) ident(cs) hyp(Hl) :=
  do n (destruct cs as [|? cs]; [discriminate Hl|]); destruct cs; [|discriminate Hl]; clear Hl.

(** Takes a valid structure apart, field by field. *)
Ltac split_fields H :=
  cbn -[field_valid offsetof cell_map valid fmap] in H;
  unfold pbdnsmessage__dnsquestion__field_descriptors,
    pbdnsmessage__dnsresponse__dnsrr__field_descriptors,
    pbdnsmessage__dnsresponse__field_descriptors, pbdnsmessage__field_descriptors in H;
  cbv zeta in H;
  repeat match type of H with
  | Forall2 _ (_ :: _) (_ :: _) =>
      let Hf := fresh "Hf" in
      apply Forall2_cons in H as [Hf H]; cbv beta in Hf;
      first
        [ eapply field_flag in Hf; [|reflexivity|reflexivity]; destruct Hf as (? & -> & Hf)
        | eapply field_single in Hf; [|reflexivity|discriminate]
        | eapply field_strs in Hf; [|reflexivity|reflexivity]; destruct Hf as (? & -> & ->)
        | eapply field_msgs in Hf; [|reflexivity|reflexivity]; destruct Hf as (? & -> & -> & Hf) ];
      try (cbn [shaped] in Hf; first [destruct Hf as (? & -> & Hf) | destruct Hf as [? ->]])
  end.

Lemma dnsquestion_of_valid m :
  valid descriptor_of m Dnsquestion = true → ∃ q, m = store_dnsquestion q.
Proof.
  intros Hv. apply valid_fields in Hv as (cs & -> & Hl & Hv).
  name_members 5 cs Hl. split_fields Hv. by eexists (Build_PBDNSMessage__DNSQuestion _ _ _ _ _).
Qed.

Lemma dnsrr_of_valid m : valid descriptor_of m Dnsrr = true → ∃ rr, m = store_dnsrr rr.
Proof.
  intros Hv. apply valid_fields in Hv as (cs & -> & Hl & Hv).
  name_members 9 cs Hl. split_fields Hv.
  by eexists (Build_PBDNSMessage__DNSResponse__DNSRR _ _ _ _ _ _ _ _ _).
Qed.

Lemma stored_list {B} (store : B → ProtobufCMessage) (Q : ProtobufCMessage → Prop) l :
  (∀ m, Q m → ∃ x, m = store x) → Forall Q l → ∃ xs, l = store <$> xs.
Proof.
  intros HQ. induction 1 as [|m l Hm _ [xs ->]]; [by exists []|].
  destruct (HQ m Hm) as [x ->]. by exists (x :: xs).
Qed.

Lemma stored_option {B} (store : B → ProtobufCMessage) (Q : ProtobufCMessage → Prop) o :
  (∀ m, Q m → ∃ x, m = store x) → match o with Some m => Q m | None => True end →
  ∃ x, o = store <$> x.
Proof.
  intros HQ Ho. destruct o as [m|]; [|by exists None].
  destruct (HQ m Ho) as [x ->]. by exists (Some x).
Qed.

Lemma dnsresponse_of_valid m :
  valid descriptor_of m Dnsresponse = true → ∃ r, m = store_dnsresponse r.
Proof.
  intros Hv. apply valid_fields in Hv as (cs & -> & Hl & Hv).
  name_members 11 cs Hl. split_fields Hv.
  match goal with Hrrs : Forall _ _ |- _ =>
    apply (stored_list _ _ _ dnsrr_of_valid) in Hrrs as [rrs ->] end. rewrite length_fmap.
  by eexists (Build_PBDNSMessage__DNSResponse _ _ _ _ _ _ _ _ _).
Qed.

Lemma pbdnsmessage_of_valid m :
  valid descriptor_of m Pbdnsmessage = true → ∃ msg, m = store_pbdnsmessage msg.
Proof.
  intros Hv. apply valid_fields in Hv as (cs & -> & Hl & Hv).
  name_members 28 cs Hl. split_fields Hv.
  apply (stored_option _ _ _ dnsquestion_of_valid) in Hf as [q ->].
  apply (stored_option _ _ _ dnsresponse_of_valid) in Hf0 as [r ->].
  by eexists (Build_PBDNSMessage _ _ _ _ _ _ _ _ _ _ _ _ _ _ _ _ _ _ _ _ _ _ _ _ _ _ _ _).
Qed.

(** What the library hands to the program is a message with matching lengths. *)
Lemma bin_ok_wf has b : bin_ok has b = true → bin_wf b.
Proof.
  unfold bin_ok, bin_wf. destruct has; [by intros ?%bool_decide_eq_true|].
  intros [Hz%Z.eqb_eq Hn]%andb_true_iff. by destruct (bin_data b).
Qed.

Lemma u32_ok_range has z : u32_ok has z = true → u32_range z.
Proof. unfold u32_ok, u32_range. destruct has; lia. Qed.

Lemma rr_ok_wf rr : rr_ok rr = true → rr_wf rr.
Proof.
  unfold rr_ok. rewrite !andb_true_iff. intros ((((_ & ?) & ?) & ?) & ?).
  split; eauto using bin_ok_wf, u32_ok_range.
Qed.

Lemma message_ok_wf m :
  message_ok m = true →
  (∀ r, m_response m = Some r → (Z.of_nat (length (r_rrs r)) < 2 ^ 31)%Z) → msg_wf m.
Proof.
  unfold message_ok. rewrite !andb_true_iff. intros Hok Hcount. destruct_and?.
  split; eauto using bin_ok_wf, u32_ok_range. intros r Hr.
  rewrite Hr in *. unfold response_ok in *. rewrite !andb_true_iff in *. destruct_and?.
  apply Forall_forall. intros rr Hrr. apply rr_ok_wf.
  match goal with Hrrs : forallb rr_ok _ = true |- _ => rewrite forallb_forall in Hrrs; apply Hrrs end.
  by apply list_elem_of_In.
Qed.
End valid_records.

(** ** The generated functions *)

Section generated.
Context `{Abi, Build, ProtobufC}.

(** [assert(message->base.descriptor == &pbdnsmessage__descriptor)] *)
Definition assert_descriptor (message : ProtobufCMessage) : outcome unit :=
  if bool_decide (base_descriptor message = Pbdnsmessage) then mret () else assert0.

Definition pbdnsmessage__get_packed_size (message : ProtobufCMessage) : outcome nat :=
  _ ← assert_descriptor message; mret (protobuf_c_message_get_packed_size program message).

(** [out] is the array the caller gives; the number of bytes written is returned. *)
Definition pbdnsmessage__pack (message : ProtobufCMessage) (out : list byte) :
    outcome (nat * list byte) :=
  _ ← assert_descriptor message;
  let data := protobuf_c_message_pack program message in
  if length data <=? length out then mret (length data, data ++ drop (length data) out)
  else Fault OutOfBoundsWrite.

(** A [ProtobufCBuffer] is what has been appended to it. *)
Definition pbdnsmessage__pack_to_buffer (message : ProtobufCMessage) (buffer : list byte) :
    outcome (nat * list byte) :=
  _ ← assert_descriptor message;
  let data := protobuf_c_message_pack program message in mret (length data, buffer ++ data).

Definition pbdnsmessage__unpack (data : list byte) : option ProtobufCMessage :=
  protobuf_c_message_unpack program Pbdnsmessage data.

(** Only the assertion, which reads [message->base] when it is compiled in; freed memory,
    and what the library does with a null pointer, are not modelled. *)
Definition pbdnsmessage__free_unpacked (message : option ProtobufCMessage) : outcome unit :=
  match message with
  | None => if ndebug then mret () else Fault NullDereference
  | Some message => assert_descriptor message
  end.

(** What the rest of the program sees of an unpacked message. *)
Definition unpack_message (data : list byte) : option PBDNSMessage :=
  pbdnsmessage__unpack data ≫= load_pbdnsmessage.

Lemma assert_stored m : assert_descriptor (store_pbdnsmessage m) = Ok ().
Proof. done. Qed.
End generated.

Section roundtrip.
Context `{Abi, Build, ProtobufCLaws}.

Lemma unpack_packed m :
  message_ok m = true →
  (Z.of_nat (length (protobuf_c_message_pack program (store_pbdnsmessage m))) < 2 ^ 31)%Z →
  unpack_message (protobuf_c_message_pack program (store_pbdnsmessage m)) = Some m.
Proof.
  intros Hok Hlen. unfold unpack_message, pbdnsmessage__unpack.
  rewrite unpack_pack_law;
    [|apply program_tables|by rewrite <- Hok, <- valid_pbdnsmessage|done].
  apply load_store_pbdnsmessage.
Qed.

Lemma elements_member d st cs c :
  length st = S (length cs) → c ∈ cs → cell_elements (cell_map elements c) ≤ elements (Msg d (place st cs)).
Proof.
  intros Hl Hc. cbn [elements]. unfold place.
  assert (length (tail (offsets st)) = length cs) as Hl'.
  { assert (length (offsets st) = length st) by apply length_offsets_from.
    destruct (offsets st); simpl in *; lia. }
  revert Hl'. generalize (tail (offsets st)) as ks. clear -Hc.
  induction cs as [|c' cs IH]; intros [|k ks] Hl; simplify_eq/=; [by apply not_elem_of_nil in Hc|].
  apply elem_of_cons in Hc as [<-|Hc]; [lia|]. specialize (IH Hc ks Hl). lia.
Qed.

Lemma elements_rrs r : length (r_rrs r) ≤ elements (store_dnsresponse r).
Proof.
  etrans; [|apply (elements_member _ _ _ (CMsgs (store_dnsrr <$> r_rrs r)))].
  - simpl. rewrite length_map, length_fmap. lia.
  - done.
  - set_solver.
Qed.

Lemma elements_response m r :
  m_response m = Some r → elements (store_dnsresponse r) ≤ elements (store_pbdnsmessage m).
Proof.
  intros Hr. etrans; [|apply (elements_member _ _ _ (CMsg (store_dnsresponse <$> m_response m)))].
  - by rewrite Hr.
  - done.
  - by apply (list_elem_of_lookup_2 _ 22).
Qed.

Lemma unpacked_stored data raw :
  pbdnsmessage__unpack data = Some raw →
  ∃ m, raw = store_pbdnsmessage m ∧ unpack_message data = Some m ∧ message_ok m = true ∧
    ∀ r, m_response m = Some r → length (r_rrs r) ≤ length data.
Proof.
  intros Hu. pose proof Hu as Hv. apply unpack_valid_law in Hv; [|apply program_tables].
  destruct (pbdnsmessage_of_valid _ Hv) as [m ->]. exists m. split_and!; [done|..].
  - unfold unpack_message. rewrite Hu. apply load_store_pbdnsmessage.
  - rewrite <- valid_pbdnsmessage. exact Hv.
  - intros r Hr. apply unpack_elements_law in Hu; [|apply program_tables].
    etrans; [|exact Hu]. etrans; [|by apply elements_response]. apply elements_rrs.
Qed.

(** C3: Packing and unpacking. A message whose members are in range and whose packed form
    has less than 2 GB is packed into exactly [get_packed_size] bytes at the start of the
    caller's array, the rest of which is left alone; a shorter array is overrun. Unpacking
    these bytes and reading the members of the structure that results gives every member of
    the message back. *)
Theorem pack_unpack_roundtrip m out :
  message_ok m = true →
  (Z.of_nat (protobuf_c_message_get_packed_size program (store_pbdnsmessage m)) < 2 ^ 31)%Z →
  ∃ n data,
    pbdnsmessage__get_packed_size (store_pbdnsmessage m) = Ok n ∧ length data = n ∧
    unpack_message data = Some m ∧
    pbdnsmessage__pack (store_pbdnsmessage m) out =
      (if n <=? length out then Ok (n, data ++ drop n out) else Fault OutOfBoundsWrite) ∧
    pbdnsmessage__pack_to_buffer (store_pbdnsmessage m) out = Ok (n, out ++ data).
Proof.
  intros Hok Hlen. rewrite packed_size_law in Hlen.
  exists (length (protobuf_c_message_pack program (store_pbdnsmessage m))),
    (protobuf_c_message_pack program (store_pbdnsmessage m)). split_and!.
  - unfold pbdnsmessage__get_packed_size. rewrite assert_stored. simpl. by rewrite packed_size_law.
  - done.
  - by apply unpack_packed.
  - done.
  - done.
Qed.

(** C19: whatever bytes (less than 2 GB) a client sends, what the decoder accepts is a
    structure of the type the program takes it for: every member can be read, lengths
    match their data, numbers are in the range of their C types and strings are
    terminated, so that it is well formed in the sense the backends rely on; and freeing
    it passes its assertion. *)
Theorem unpack_well_formed data raw :
  (Z.of_nat (length data) < 2 ^ 31)%Z → pbdnsmessage__unpack data = Some raw →
  ∃ m, raw = store_pbdnsmessage m ∧ unpack_message data = Some m ∧ message_ok m = true ∧
    msg_wf m ∧ pbdnsmessage__free_unpacked (Some raw) = Ok ().
Proof.
  intros Hlen Hu. destruct (unpacked_stored _ _ Hu) as (m & -> & Hm & Hok & Hr).
  exists m. split_and!; [done|done|done| |done].
  apply message_ok_wf; [done|]. intros r Hr'. specialize (Hr r Hr'). lia.
Qed.
End roundtrip.
