(* ===== verification/Wire.v ===== *)
(** * The wire format: an implementation of the interface to libprotobuf-c

    The protocol buffer encoding as its documentation describes it, driven by descriptor
    tables alone: base-128 varints, keys made of a field number and a wire type,
    length-delimited strings and nested messages, unknown fields skipped, the last value
    of a field kept, repeated fields collected, nested messages merged, required fields
    demanded.  It satisfies the laws of [ProtobufCLaws] for every set of tables that
    passes [table_ok]: the theorems proved against that interface are about something,
    and the tables of the program are enough to drive a decoder. *)

From S2P Require Import Prelude CLib Message Layout Descriptor Codec.

(** ** Varints *)

Fixpoint varint (n : nat) (z : Z) : list byte :=
  match n with
  | O => []
  | S n =>
      if (z <? 128)%Z then [byte_of_Z z]
      else byte_of_Z (z mod 128 + 128) :: varint n (z / 128)
  end.

Fixpoint read_varint (n : nat) (l : list byte) : option (Z * list byte) :=
  match n, l with
  | S n, b :: l =>
      if (byte_val b <? 128)%Z then Some (byte_val b, l)
      else '(z, l) ← read_varint n l; Some (byte_val b - 128 + 128 * z, l)%Z
  | _, _ => None
  end.

Lemma read_varint_app n z l :
  0 < n → (0 ≤ z < 128 ^ Z.of_nat n)%Z → read_varint n (varint n z ++ l) = Some (z, l).
Proof.
  revert z; induction n as [|n IH]; intros z Hn Hz; [lia|].
  rewrite Nat2Z.inj_succ, Z.pow_succ_r in Hz by lia. cbn [varint].
  destruct (Z.ltb_spec z 128).
  - cbn [app read_varint]. rewrite byte_val_of_Z by lia. by rewrite (proj2 (Z.ltb_lt _ _)).
  - pose proof (Z.mod_pos_bound z 128 eq_refl). pose proof (Z.div_mod z 128).
    cbn [app read_varint]. rewrite byte_val_of_Z by lia. rewrite (proj2 (Z.ltb_ge _ _)) by lia.
    rewrite IH; [simpl; do 2 f_equal; lia|destruct n; simpl in Hz; lia|].
    split; [apply Z.div_pos; lia|apply Z.div_lt_upper_bound; lia].
Qed.

Lemma varint_length n z : 0 < n → 1 ≤ length (varint n z).
Proof. destruct n; [lia|]. simpl. destruct (z <? 128)%Z; simpl; lia. Qed.

(** Ten bytes hold 64 bits. *)
Definition varint64 : Z → list byte := varint 10.
Definition read_varint64 : list byte → option (Z * list byte) := read_varint 10.

Lemma read_varint64_app z l : (0 ≤ z < 2 ^ 64)%Z → read_varint64 (varint64 z ++ l) = Some (z, l).
Proof. intros. apply read_varint_app; [lia|]. simpl. lia. Qed.

(** ** Keys and values *)

Inductive raw_value :=
  | RVarint (z : Z)
  | RLen (data : list byte)
  | RFixed (data : list byte).      (* 64 and 32 bits, which no field here uses *)

Record raw := { r_number : Z; r_value : raw_value }.

Definition wire_type (v : raw_value) : Z := match v with RVarint _ => 0 | RLen _ => 2 | RFixed _ => 5 end.

Definition encode_raw (r : raw) : list byte :=
  varint64 (r_number r * 8 + wire_type (r_value r)) ++
  match r_value r with
  | RVarint z => varint64 z
  | RLen data => varint64 (Z.of_nat (length data)) ++ data
  | RFixed data => data
  end.

(** [n] bytes. *)
Definition read_bytes (n : nat) (l : list byte) : option (list byte * list byte) :=
  if n <=? length l then Some (take n l, drop n l) else None.

Definition read_raw (l : list byte) : option (raw * list byte) :=
  '(key, l) ← read_varint64 l;
  '(v, l) ←
    (if (key mod 8 =? 0)%Z then '(z, l) ← read_varint64 l; Some (RVarint z, l)
     else if (key mod 8 =? 1)%Z then '(d, l) ← read_bytes 8 l; Some (RFixed d, l)
     else if (key mod 8 =? 2)%Z then
       '(n, l) ← read_varint64 l; '(d, l) ← read_bytes (Z.to_nat n) l; Some (RLen d, l)
     else if (key mod 8 =? 5)%Z then '(d, l) ← read_bytes 4 l; Some (RFixed d, l)
     else None);
  Some ({| r_number := key / 8; r_value := v |}, l).

Fixpoint scan (fuel : nat) (l : list byte) : option (list raw) :=
  match fuel, l with
  | _, [] => Some []
  | O, _ => None
  | S fuel, l => '(r, l) ← read_raw l; rs ← scan fuel l; Some (r :: rs)
  end.

Definition raw_ok (r : raw) : Prop :=
  (0 ≤ r_number r < 2 ^ 29)%Z ∧
  match r_value r with
  | RVarint z => (0 ≤ z < 2 ^ 64)%Z
  | RLen data => (Z.of_nat (length data) < 2 ^ 64)%Z
  | RFixed _ => False
  end.

Lemma read_bytes_app d l : read_bytes (length d) (d ++ l) = Some (d, l).
Proof.
  unfold read_bytes. rewrite (proj2 (Nat.leb_le _ _)) by (rewrite length_app; lia).
  by rewrite take_app_length, drop_app_length.
Qed.

Lemma read_raw_app r l : raw_ok r → read_raw (encode_raw r ++ l) = Some (r, l).
Proof.
  destruct r as [k v]. intros [Hk Hv]. cbn [r_number r_value] in *. unfold read_raw, encode_raw.
  cbn [r_number r_value]. rewrite <- !app_assoc.
  destruct v as [z|d|d]; cbn [wire_type]; [..|done]; rewrite read_varint64_app by lia;
    cbn [mbind option_bind].
  - replace ((k * 8 + 0) mod 8)%Z with 0%Z by (rewrite Z.add_0_r, Z.mod_mul; lia).
    rewrite Z.eqb_refl, read_varint64_app by done. simpl.
    by replace ((k * 8 + 0) / 8)%Z with k by (rewrite Z.add_0_r, Z.div_mul; lia).
  - replace ((k * 8 + 2) mod 8)%Z with 2%Z
      by (rewrite Z.add_comm, Z.mod_add, Z.mod_small; lia).
    rewrite <- !app_assoc, read_varint64_app by lia. cbn [mbind option_bind Z.eqb Pos.eqb].
    rewrite Nat2Z.id, read_bytes_app. simpl.
    by replace ((k * 8 + 2) / 8)%Z with k by (rewrite Z.div_add_l by lia; change (2 / 8)%Z with 0%Z; lia).
Qed.

Lemma encode_raw_length r : 2 ≤ length (encode_raw r) ∨ ∃ d, r_value r = RFixed d.
Proof.
  unfold encode_raw. rewrite length_app.
  pose proof (varint_length 10 (r_number r * 8 + wire_type (r_value r))) as Hk.
  fold varint64 in Hk. destruct (r_value r) as [z|d|d]; [left..|eauto].
  - pose proof (varint_length 10 z). fold varint64 in *. lia.
  - rewrite length_app. pose proof (varint_length 10 (Z.of_nat (length d))). fold varint64 in *. lia.
Qed.

(** The data of a field is shorter than the message. *)
Lemma raw_shorter rs r p :
  r ∈ rs → r_value r = RLen p → length p + 2 ≤ length (concat (encode_raw <$> rs)).
Proof.
  intros Hr Hp. induction rs as [|r' rs IH]; [by apply not_elem_of_nil in Hr|].
  cbn [fmap list_fmap concat]. rewrite length_app. apply elem_of_cons in Hr as [<-|Hr]; [|specialize (IH Hr); lia].
  unfold encode_raw. rewrite Hp, !length_app.
  pose proof (varint_length 10 (r_number r * 8 + wire_type (RLen p))).
  pose proof (varint_length 10 (Z.of_nat (length p))). fold varint64 in *. lia.
Qed.

Lemma scan_encode fuel rs :
  Forall raw_ok rs → length (concat (encode_raw <$> rs)) ≤ fuel →
  scan fuel (concat (encode_raw <$> rs)) = Some rs.
Proof.
  intros Hrs; revert fuel; induction Hrs as [|r rs Hr Hrs IH]; intros fuel Hf; [by destruct fuel|].
  cbn [fmap list_fmap concat] in *. rewrite length_app in Hf.
  assert (2 ≤ length (encode_raw r)) as Hl.
  { destruct (encode_raw_length r) as [|[d Hd]]; [done|]. destruct Hr as [_ Hr]. by rewrite Hd in Hr. }
  destruct fuel as [|fuel]; [lia|].
  destruct (encode_raw r ++ concat (encode_raw <$> rs)) as [|b l] eqn:E.
  { apply (f_equal length) in E. rewrite length_app in E. simpl in E. lia. }
  cbn [scan]. rewrite <- E, read_raw_app by done. cbn [mbind option_bind].
  rewrite IH by lia. done.
Qed.

(** ** Encoding a message *)

Definition value_raw (c : cell (list byte)) : list raw_value :=
  match c with
  | CU32 z | CU64 z | CEnum z => [RVarint (z mod 2 ^ 64)]
  | CBin b => [RLen (default [] (bin_data b))]
  | CStr (Some s) => [RLen s]
  | CMsg (Some data) => [RLen data]
  | _ => []
  end.

(** The values of a field, given its members; nested messages are already encoded. *)
Definition field_values (cs : list (cell (list byte))) : list raw_value :=
  match cs with
  | [CBool b; c] => if b then value_raw c else []
  | [CSize _; CStrs l] => (λ s, RLen (default [] s)) <$> l
  | [CSize _; CMsgs l] => RLen <$> l
  | [c] => value_raw c
  | _ => []
  end.

Definition numbered_raws (f : ProtobufCFieldDescriptor) (vs : list raw_value) : list raw :=
  (λ v, {| r_number := fd_id f; r_value := v |}) <$> vs.

Fixpoint encode (D : msg_sym → ProtobufCMessageDescriptor) (m : ProtobufCMessage) : list byte :=
  match m with
  | Msg d cs =>
      let es := List.map (entry_map (encode D)) cs in
      concat (encode_raw <$>
        concat ((λ f, numbered_raws f (field_values (field_cells es f))) <$> md_fields (D d)))
  end.

(** ** Decoding *)

Notation cells := (list (Z * cell ProtobufCMessage)).

(** Stores a member. *)
Fixpoint set (cs : cells) (o : Z) (c : cell ProtobufCMessage) : cells :=
  match cs with
  | [] => []
  | (o', c') :: cs => if (o' =? o)%Z then (o', c) :: cs else (o', c') :: set cs o c
  end.

(** The string a C program sees in the given bytes. *)
Definition upto_nul (p : list byte) : list byte := default p (cstr p).

Definition read_value (t : ctype) (v : raw_value) : option (cell ProtobufCMessage) :=
  match t, v with
  | Tuint32, RVarint z => Some (CU32 (z mod 2 ^ 32))
  | Tuint64, RVarint z => Some (CU64 (z mod 2 ^ 64))
  | Tenum _, RVarint z => Some (CEnum (s32 z))
  | Tstr, RLen p => Some (CStr (Some (upto_nul p)))
  | Tbin, RLen p =>
      Some (CBin {| bin_len := Z.of_nat (length p);
                    bin_data := match p with [] => None | _ => Some p end |})
  | _, _ => None
  end.

Section decode.
Context (P : pb_program).
Implicit Types (cs : cells) (s : msg_sym) (f : ProtobufCFieldDescriptor).

Definition init_cells s : cells := members (pb_init P (md_message_init (pb_descriptor P s))).

Section store.
Context (sub : msg_sym → list byte → cells → option cells).

(** One value of a field: [sub] decodes into a nested message. *)
Definition store_value f (v : raw_value) cs : option cells :=
  match value_ctype f, v with
  | Some Tstrs, RLen p =>
      match get cs (fd_quantifier_offset f), get cs (fd_offset f) with
      | Some (CSize n), Some (CStrs l) =>
          Some (set (set cs (fd_quantifier_offset f) (CSize (S n)))
                 (fd_offset f) (CStrs (l ++ [Some (upto_nul p)])))
      | _, _ => None
      end
  | Some (Tmsgs s), RLen p =>
      match get cs (fd_quantifier_offset f), get cs (fd_offset f) with
      | Some (CSize n), Some (CMsgs l) =>
          ms ← sub s p (init_cells s);
          Some (set (set cs (fd_quantifier_offset f) (CSize (S n)))
                 (fd_offset f) (CMsgs (l ++ [Msg s ms])))
      | _, _ => None
      end
  | Some (Tmsg s), RLen p =>
      match get cs (fd_offset f) with
      | Some (CMsg o) =>
          ms ← sub s p (match o with Some m => members m | None => init_cells s end);
          Some (set cs (fd_offset f) (CMsg (Some (Msg s ms))))
      | _ => None
      end
  | Some t, v =>
      c ← read_value t v;
      let cs := if bool_decide (quantifier_ctype f = Some Tbool)
                then set cs (fd_quantifier_offset f) (CBool true) else cs in
      Some (set cs (fd_offset f) c)
  | None, _ => None
  end.

(** A field the descriptor does not have is skipped. *)
Definition store_raw (d : ProtobufCMessageDescriptor) (r : raw) cs : option cells :=
  match range_lookup (md_field_ranges d) (r_number r) with
  | None => Some cs
  | Some i => f ← md_fields d !! i; store_value f (r_value r) cs
  end.

Fixpoint store_all (d : ProtobufCMessageDescriptor) (rs : list raw) cs : option cells :=
  match rs with
  | [] => Some cs
  | r :: rs => cs ← store_raw d r cs; store_all d rs cs
  end.
End store.

Definition required_present (d : ProtobufCMessageDescriptor) (rs : list raw) : bool :=
  forallb (λ f, negb (bool_decide (fd_label f = LABEL_REQUIRED)) ||
                existsb (λ r, (r_number r =? fd_id f)%Z) rs) (md_fields d).

Fixpoint decode (fuel : nat) s (data : list byte) cs : option cells :=
  match fuel with
  | O => None
  | S fuel =>
      rs ← scan (length data) data;
      cs ← store_all (decode fuel) (pb_descriptor P s) rs cs;
      if required_present (pb_descriptor P s) rs then Some cs else None
  end.
End decode.

(** A nested message is shorter than the data around it: the fuel is never used up. *)
#[export] Instance wire : ProtobufC := {|
  protobuf_c_message_unpack P s data := Msg s <$> decode P (S (length data)) s data (init_cells P s);
  protobuf_c_message_pack P m := encode (pb_descriptor P) m;
  protobuf_c_message_get_packed_size P m := length (encode (pb_descriptor P) m) |}.

(** ** Induction on messages *)

Definition cell_all (Q : ProtobufCMessage → Prop) (c : cell ProtobufCMessage) : Prop :=
  match c with CMsg (Some m) => Q m | CMsgs l => Forall Q l | _ => True end.

Definition message_ind (Q : ProtobufCMessage → Prop)
    (step : ∀ d cs, Forall (λ e, cell_all Q e.2) cs → Q (Msg d cs)) : ∀ m, Q m :=
  fix all (m : ProtobufCMessage) : Q m :=
    match m with
    | Msg d cs =>
        step d cs ((fix entries (cs : cells) : Forall (λ e, cell_all Q e.2) cs :=
          match cs with
          | [] => List.Forall_nil _
          | (o, c) :: cs =>
              @List.Forall_cons _ (λ e, cell_all Q e.2) (o, c) cs
                (match c as c return cell_all Q c with
                 | CMsg (Some m) => all m
                 | CMsgs l =>
                     (fix list (l : list ProtobufCMessage) : Forall Q l :=
                        match l with
                        | [] => List.Forall_nil _
                        | m :: l => @List.Forall_cons _ Q m l (all m) (list l)
                        end) l
                 | _ => I
                 end) (entries cs)
          end) cs)
    end.

(** ** Storing members *)

Lemma set_mid pre o c c' post :
  o ∉ pre.*1 → set (pre ++ (o, c) :: post) o c' = pre ++ (o, c') :: post.
Proof.
  induction pre as [|[o' d] pre IH]; simpl; [by rewrite Z.eqb_refl|].
  intros [Hne Hin]%not_elem_of_cons. rewrite IH by done. by rewrite (proj2 (Z.eqb_neq _ _)).
Qed.

Lemma get_mid (pre : cells) o c post : o ∉ pre.*1 → get (pre ++ (o, c) :: post) o = Some c.
Proof. intros Ho. rewrite get_app_l by done. simpl. by rewrite Z.eqb_refl. Qed.

(** The second of two members. *)
Lemma set_second pre q o x c c' post :
  o ∉ pre.*1 → q ≠ o →
  set (pre ++ (q, x) :: (o, c) :: post) o c' = pre ++ (q, x) :: (o, c') :: post.
Proof.
  intros Ho Hne. rewrite (cons_middle _ pre), app_assoc.
  rewrite set_mid by (rewrite fmap_app; set_solver). by rewrite <- app_assoc.
Qed.

Lemma get_second (pre : cells) q o x c post :
  o ∉ pre.*1 → q ≠ o → get (pre ++ (q, x) :: (o, c) :: post) o = Some c.
Proof.
  intros Ho Hne. rewrite (cons_middle _ pre), app_assoc. apply get_mid. rewrite fmap_app. set_solver.
Qed.

Lemma NoDup_mid (pre : cells) o c post : NoDup (pre ++ (o, c) :: post).*1 → o ∉ pre.*1.
Proof.
  rewrite fmap_app, NoDup_app. intros (_ & Hnd & _) Hin. apply (Hnd o Hin). by left.
Qed.

Section roundtrip.
Context (P : pb_program) (Htab : ∀ s, table_ok P s).
Notation D := (pb_descriptor P).
Context (sub : msg_sym → list byte → cells → option cells) (N : nat).

(** What [sub] does to a nested message. *)
Definition decodes (m : ProtobufCMessage) : Prop :=
  ∀ s, valid D m s = true → length (encode D m) < N →
    sub s (encode D m) (init_cells P s) = Some (members m).

Definition small (v : raw_value) : Prop :=
  match v with RLen p => length p < N | _ => True end.

Lemma upto_nul_terminated s : terminated s = true → upto_nul s = s.
Proof.
  unfold terminated, upto_nul. intros Hs%bool_decide_eq_true. by apply cstr_None in Hs as ->.
Qed.

Lemma s32_mod z : (- 2 ^ 31 ≤ z < 2 ^ 31)%Z → s32 (z mod 2 ^ 64) = z.
Proof.
  intros Hz. unfold s32. replace (2 ^ 64)%Z with (2 ^ 32 * 2 ^ 32)%Z by done.
  rewrite Z.rem_mul_r by lia.
  replace (z mod 2 ^ 32 + 2 ^ 32 * ((z / 2 ^ 32) mod 2 ^ 32) + 2 ^ 31)%Z
    with (z mod 2 ^ 32 + 2 ^ 31 + (z / 2 ^ 32) mod 2 ^ 32 * 2 ^ 32)%Z by lia.
  rewrite Z.mod_add, Zplus_mod_idemp_l by lia. rewrite Z.mod_small; lia.
Qed.

(** A value that is present is encoded as one raw value and stored back. *)
Lemma store_present f t c st :
  value_ctype f = Some t → value_ok t (cell_map (valid D) c) = true → cell_all decodes c →
  get st (fd_offset f) = Some (default_cell t) →
  ∃ v, value_raw (cell_map (encode D) c) = [v] ∧
    (small v → store_value P sub f v st =
      Some (set (if bool_decide (quantifier_ctype f = Some Tbool)
                 then set st (fd_quantifier_offset f) (CBool true) else st) (fd_offset f) c)).
Proof.
  intros Ht Hok Hall Hget. unfold store_value. rewrite Ht.
  destruct t, c as [| | | | | |s'| |[m'|]|]; try discriminate Hok;
    cbn [value_ok cell_map] in Hok; cbn [cell_map value_raw].
  - eexists; split; [done|]. intros _. cbn [read_value mbind option_bind].
    by rewrite (Z.mod_small z), Z.mod_small by lia.
  - eexists; split; [done|]. intros _. cbn [read_value mbind option_bind].
    by rewrite (Z.mod_small z), Z.mod_small by lia.
  - eexists; split; [done|]. intros _. cbn [read_value mbind option_bind].
    rewrite s32_mod by lia. done.
  - eexists; split; [done|]. intros _. cbn. do 4 f_equal. apply bool_decide_eq_true in Hok.
    destruct b as [n [[|x l]|]]; cbn in *; [by destruct Hok|by destruct Hok as [-> _]|by subst].
  - destruct s' as [s'|]; [|done]. eexists; split; [done|]. intros _. cbn.
    by rewrite upto_nul_terminated.
  - eexists; split; [done|]. cbn. intros Hsm. rewrite Hget. cbn.
    rewrite (Hall _ Hok Hsm). cbn.
    assert (quantifier_ctype f ≠ Some Tbool) as Hq.
    { revert Ht. unfold value_ctype, quantifier_ctype.
      destruct (fd_label f), (fd_type f), (fd_descriptor f) as [[]|]; done. }
    rewrite bool_decide_false by done. destruct m' as [d cs]. cbn in *.
    apply andb_true_iff in Hok as [Hok _]. apply andb_true_iff in Hok as [->%bool_decide_eq_true _].
    done.
Qed.

(** The values of one field, one after the other. *)
Fixpoint store_values (f : ProtobufCFieldDescriptor) (vs : list raw_value) (cs : cells) :
    option cells :=
  match vs with
  | [] => Some cs
  | v :: vs => cs ← store_value P sub f v cs; store_values f vs cs
  end.

Definition default_slots (l : list (Z * ctype)) : cells := (λ '(o, t), (o, default_cell t)) <$> l.

Lemma value_slot f t :
  value_ctype f = Some t →
  field_slots f =
    match quantifier_ctype f with Some q => [(fd_quantifier_offset f, q)] | None => [] end ++
    [(fd_offset f, t)].
Proof. intros Ht. unfold field_slots. by rewrite Ht. Qed.

(** An initial value: a null pointer, or a number that is a value like any other. *)
Lemma default_value t c :
  is_default t (cell_map (valid D) c) = true →
  c = default_cell t ∧
  (value_ok t (cell_map (valid D) c) = true ∨ value_raw (cell_map (encode D) c) = []).
Proof.
  destruct t, c as [| | | | |b|[|]| |[|]|]; cbn; try done; auto.
  - intros ->%Z.eqb_eq. auto.
  - intros ->%Z.eqb_eq. auto.
  - intros ->%Z.eqb_eq. auto.
  - destruct b as [n [|]]; simpl; rewrite ?andb_false_r, ?andb_true_r; [done|].
    intros ->%Z.eqb_eq. auto.
Qed.

Lemma field_values_single c :
  (∀ b, c ≠ CBool b) → field_values [c] = value_raw c.
Proof. by destruct c. Qed.

(** A field without a flag: its value is there, or is the initial one. *)
Lemma store_values_single f t c pre post :
  value_ctype f = Some t → quantifier_ctype f = None → fd_offset f ∉ pre.*1 →
  value_ok t (cell_map (valid D) c) || is_default t (cell_map (valid D) c) = true →
  cell_all decodes c → Forall small (value_raw (cell_map (encode D) c)) →
  store_values f (value_raw (cell_map (encode D) c))
    (pre ++ (fd_offset f, default_cell t) :: post) = Some (pre ++ (fd_offset f, c) :: post).
Proof.
  intros Ht Hq Hpre Hok Hall Hsm.
  assert (value_ok t (cell_map (valid D) c) = true ∨
    c = default_cell t ∧ value_raw (cell_map (encode D) c) = []) as [Hv|[Hc Hr]];
    [|..|by rewrite Hr, Hc].
  { apply orb_true_iff in Hok as [Hok|Hdef%default_value]; [by left|]. destruct Hdef as [? [?|?]]; auto. }
  destruct (store_present f t c (pre ++ (fd_offset f, default_cell t) :: post)) as (v & Hr & Hst);
    [done..|by apply get_mid|].
  rewrite Hr in *. apply Forall_cons in Hsm as [Hsm _]. cbn [store_values]. rewrite (Hst Hsm).
  rewrite Hq, bool_decide_false by done. simpl. by rewrite set_mid.
Qed.

(** A field with a flag. *)
Lemma store_values_flag f t (b : bool) c (pre post : cells) :
  value_ctype f = Some t → quantifier_ctype f = Some Tbool →
  fd_quantifier_offset f ∉ pre.*1 → fd_offset f ∉ pre.*1 →
  fd_quantifier_offset f ≠ fd_offset f →
  (if b then value_ok t (cell_map (valid D) c) else is_default t (cell_map (valid D) c)) = true →
  cell_all decodes c → Forall small (if b then value_raw (cell_map (encode D) c) else []) →
  store_values f (if b then value_raw (cell_map (encode D) c) else [])
    (pre ++ (fd_quantifier_offset f, CBool false) :: (fd_offset f, default_cell t) :: post) =
  Some (pre ++ (fd_quantifier_offset f, CBool b) :: (fd_offset f, c) :: post).
Proof.
  intros Ht Hq Hpq Hpo Hne Hok Hall Hsm.
  destruct b; [|by destruct (default_value _ _ Hok) as [-> _]].
  destruct (store_present f t c (pre ++ (fd_quantifier_offset f, CBool false) ::
    (fd_offset f, default_cell t) :: post)) as (v & Hr & Hst); [done..| |].
  { by apply get_second. }
  rewrite Hr in *. apply Forall_cons in Hsm as [Hsm _]. cbn [store_values]. rewrite (Hst Hsm).
  rewrite Hq, bool_decide_true by done. simpl. by rewrite set_mid, set_second.
Qed.

(** Repeated fields collect their values. *)
Lemma store_values_strs f l n0 l0 (pre post : cells) :
  value_ctype f = Some Tstrs → fd_quantifier_offset f ∉ pre.*1 → fd_offset f ∉ pre.*1 →
  fd_quantifier_offset f ≠ fd_offset f → forallb tag_ok l = true →
  store_values f ((λ s, RLen (default [] s)) <$> l)
    (pre ++ (fd_quantifier_offset f, CSize n0) :: (fd_offset f, CStrs l0) :: post) =
  Some (pre ++ (fd_quantifier_offset f, CSize (n0 + length l)) :: (fd_offset f, CStrs (l0 ++ l)) :: post).
Proof.
  intros Ht Hpq Hpo Hne. revert n0 l0. induction l as [|[s|] l IH]; intros n0 l0 Hl; try done.
  { simpl. by rewrite Nat.add_0_r, app_nil_r. }
  simpl in Hl. apply andb_true_iff in Hl as [Hs Hl]. cbn [fmap list_fmap store_values default].
  unfold store_value at 1. rewrite Ht, get_mid, get_second by done.
  rewrite set_mid, set_second, upto_nul_terminated by done. cbn [mbind option_bind].
  rewrite IH by done. cbn [length]. by rewrite <- app_assoc, <- plus_n_Sm.
Qed.

Lemma store_values_msgs f s l n0 l0 (pre post : cells) :
  value_ctype f = Some (Tmsgs s) → fd_quantifier_offset f ∉ pre.*1 → fd_offset f ∉ pre.*1 →
  fd_quantifier_offset f ≠ fd_offset f → Forall (λ m, valid D m s = true) l →
  Forall decodes l → Forall small (RLen <$> (encode D <$> l)) →
  store_values f (RLen <$> (encode D <$> l))
    (pre ++ (fd_quantifier_offset f, CSize n0) :: (fd_offset f, CMsgs l0) :: post) =
  Some (pre ++ (fd_quantifier_offset f, CSize (n0 + length l)) :: (fd_offset f, CMsgs (l0 ++ l)) :: post).
Proof.
  intros Ht Hpq Hpo Hne Hv. revert n0 l0. induction Hv as [|m l Hm Hl IH]; intros n0 l0 Hd Hsm.
  { simpl. by rewrite Nat.add_0_r, app_nil_r. }
  apply Forall_cons in Hd as [Hdm Hd]. apply Forall_cons in Hsm as [Hsm' Hsm].
  cbn [fmap list_fmap store_values]. unfold store_value at 1. rewrite Ht, get_mid, get_second by done.
  rewrite (Hdm _ Hm Hsm'). cbn [mbind option_bind]. rewrite set_mid, set_second by done.
  destruct m as [d cs]. cbn [members].
  assert (d = s) as ->.
  { cbn in Hm. apply andb_true_iff in Hm as [Hm _].
    by apply andb_true_iff in Hm as [->%bool_decide_eq_true _]. }
  rewrite IH by done. cbn [length]. by rewrite <- app_assoc, <- plus_n_Sm.
Qed.

(** All members of a field, from their initial values. *)
Lemma store_values_field f (T pre post : cells) :
  is_Some (value_ctype f) → T.*1 = (field_slots f).*1 → NoDup (pre ++ T ++ post).*1 →
  field_valid f (cell_map (valid D) <$> T.*2) = true → Forall (λ e, cell_all decodes e.2) T →
  Forall small (field_values (cell_map (encode D) <$> T.*2)) →
  store_values f (field_values (cell_map (encode D) <$> T.*2))
    (pre ++ default_slots (field_slots f) ++ post) = Some (pre ++ T ++ post).
Proof.
  intros [t Ht] Hk Hnd Hv Hall Hsm. rewrite (value_slot _ _ Ht) in Hk |- *.
  destruct (quantifier_ctype f) as [q|] eqn:Hq; cbn [app fmap list_fmap fst] in Hk.
  - destruct T as [|[o1 c1] [|[o2 c2] [|]]]; try discriminate Hk. injection Hk as -> ->.
    cbn [fmap list_fmap snd app default_slots] in *.
    assert (fd_quantifier_offset f ∉ pre.*1) as Hpq by (by eapply NoDup_mid).
    assert (fd_offset f ∉ pre.*1 ∧ fd_quantifier_offset f ≠ fd_offset f) as [Hpo Hne].
    { rewrite (cons_middle _ pre), app_assoc in Hnd. apply NoDup_mid in Hnd.
      rewrite fmap_app in Hnd. set_solver. }
    apply Forall_cons in Hall as [Hc1 Hall]. apply Forall_cons in Hall as [Hc2 _].
    unfold field_valid in Hv. rewrite Ht in Hv.
    destruct (fd_label f) eqn:Hl.
    + by destruct t, c1.
    + destruct c1 as [b| | | | | | | | |]; try by destruct t. 
      assert (q = Tbool) as ->.
      { revert Hq. unfold quantifier_ctype. rewrite Hl. by destruct (fd_type f); intros [= <-]. }
      apply store_values_flag; try done. by destruct t.
    + assert (q = Tsize) as ->.
      { revert Hq. unfold quantifier_ctype. rewrite Hl. by intros [= <-]. }
      destruct t; try done; destruct c1 as [| | | |n| | | | |]; try done;
        destruct c2 as [| | | | | | |l| |l]; try done; cbn [cell_map] in Hv;
        apply andb_true_iff in Hv as [Hn%Nat.eqb_eq Hv].
      * rewrite Hn. by apply (store_values_strs f l 0 []).
      * rewrite Hn, length_map. eapply (store_values_msgs f _ l 0 []); try done.
        apply Forall_forall. intros m' Hm. rewrite forallb_forall in Hv.
        apply (Hv (valid D m')), in_map. by apply list_elem_of_In.
  - destruct T as [|[o c] [|]]; try discriminate Hk. injection Hk as ->.
    cbn [fmap list_fmap snd app default_slots] in *.
    apply Forall_cons in Hall as [Hc _]. unfold field_valid in Hv. rewrite Ht in Hv.
    assert (value_ok t (cell_map (valid D) c) || is_default t (cell_map (valid D) c) = true) as Hok.
    { apply orb_true_iff. destruct (fd_label f); [left; by destruct t, c|..].
      - apply orb_true_iff. by destruct t, c.
      - by destruct t, c. }
    assert (field_values [cell_map (encode D) c] = value_raw (cell_map (encode D) c)) as Hfv.
    { apply field_values_single. intros b Hb. destruct c; try discriminate Hb. by destruct t. }
    rewrite Hfv in *. apply store_values_single; try done. by eapply NoDup_mid.
Qed.

(** Finding the field of a number. *)
Lemma find_field s f :
  f ∈ md_fields (D s) →
  range_lookup (md_field_ranges (D s)) (fd_id f) ≫= (md_fields (D s) !!.) = Some f.
Proof.
  intros [i Hi]%list_elem_of_lookup. rewrite (ok_numbers _ _ (Htab s)).
  assert (list_find (λ g, fd_id g = fd_id f) (md_fields (D s)) = Some (i, f)) as ->; [|done].
  apply list_find_Some. split_and!; [done|done|]. intros j g Hj Hlt Hid.
  assert (i = j); [|lia].
  apply (NoDup_lookup (fd_id <$> md_fields (D s)) i j (fd_id f));
    [apply (ok_distinct _ _ (Htab s))|..]; rewrite list_lookup_fmap.
  - by rewrite Hi.
  - rewrite Hj. simpl. by rewrite Hid.
Qed.

Lemma store_all_field s f vs rs cs :
  f ∈ md_fields (D s) →
  store_all P sub (D s) (numbered_raws f vs ++ rs) cs =
    store_values f vs cs ≫= store_all P sub (D s) rs.
Proof.
  intros Hf. revert cs; induction vs as [|v vs IH]; intros cs; [done|]. cbn.
  unfold store_raw at 1. cbn [r_number r_value]. pose proof (find_field s f Hf) as Hfind.
  destruct (range_lookup _ _) as [i|]; [|done]. cbn in Hfind. rewrite Hfind. cbn.
  destruct (store_value P sub f v cs); [|done]. cbn. apply IH.
Qed.

(** The raw fields of a message, by its members in order. *)
Definition message_raws (fs : list ProtobufCFieldDescriptor) (cs : list (cell (list byte))) : list raw :=
  concat (zip_with (λ f seg, numbered_raws f (field_values seg)) fs (segments fs cs)).

Lemma store_all_message s fs (pre T : cells) :
  Forall (λ f, f ∈ md_fields (D s) ∧ is_Some (value_ctype f)) fs →
  T.*1 = (concat (field_slots <$> fs)).*1 → NoDup (pre ++ T).*1 →
  forallb (λ p, field_valid p.1 p.2) (zip fs (segments fs (cell_map (valid D) <$> T.*2))) = true →
  Forall (λ e, cell_all decodes e.2) T →
  Forall (λ r, small (r_value r)) (message_raws fs (cell_map (encode D) <$> T.*2)) →
  store_all P sub (D s) (message_raws fs (cell_map (encode D) <$> T.*2))
    (pre ++ default_slots (concat (field_slots <$> fs))) = Some (pre ++ T).
Proof.
  intros Hfs; revert pre T. induction Hfs as [|f fs [Hf Ht] Hfs IH]; intros pre T Hk Hnd Hv Hd Hsm.
  { by destruct T. }
  cbn [fmap list_fmap concat] in Hk. rewrite fmap_app in Hk.
  set (n := length (field_slots f)) in *.
  pose proof (take_drop n T) as HT. set (A := take n T) in *. set (B := drop n T) in *.
  assert (A.*1 = (field_slots f).*1) as HA.
  { unfold A. rewrite fmap_take, Hk, take_app_length'; [done|by rewrite length_fmap]. }
  assert (B.*1 = (concat (field_slots <$> fs)).*1) as HB.
  { unfold B. rewrite fmap_drop, Hk, drop_app_length'; [done|by rewrite length_fmap]. }
  cbn [segments] in Hv. fold n in Hv. rewrite <- !fmap_take, <- !fmap_drop in Hv. fold A B in Hv.
  cbn [zip zip_with forallb fst snd] in Hv. apply andb_true_iff in Hv as [HvA HvB].
  unfold message_raws in *. cbn [segments] in *. fold n in Hsm |- *.
  rewrite <- !fmap_take, <- !fmap_drop in Hsm |- *. fold A B in Hsm |- *.
  cbn [zip_with concat] in Hsm |- *. apply Forall_app in Hsm as [HsA HsB].
  rewrite <- HT in Hd. apply Forall_app in Hd as [HdA HdB].
  rewrite store_all_field by done. cbn [fmap list_fmap concat].
  unfold default_slots. rewrite fmap_app. fold (default_slots (field_slots f)).
  rewrite store_values_field; try done.
  - cbn [mbind option_bind]. rewrite app_assoc. rewrite IH; [by rewrite <- app_assoc, HT|done| |done..].
    by rewrite <- app_assoc, HT.
  - assert (((λ '(o, t), (o, default_cell t)) <$> concat (field_slots <$> fs) : cells).*1 = B.*1) as Hk'.
    { rewrite HB, <- list_fmap_compose. apply list_fmap_ext. by intros _ [] _. }
    by rewrite !fmap_app, Hk', <- !fmap_app, HT.
  - revert HsA. unfold numbered_raws. by rewrite Forall_fmap.
Qed.

(** ** Decoding what was encoded *)

(** Every raw value of a field is within the format's limits. *)
Lemma field_values_ok (cs : list (cell (list byte))) :
  Forall (λ v, match v with RVarint z => (0 ≤ z < 2 ^ 64)%Z | RLen _ => True | RFixed _ => False end)
    (field_values cs).
Proof.
  assert (∀ c, Forall (λ v, match v with RVarint z => (0 ≤ z < 2 ^ 64)%Z | RLen _ => True
    | RFixed _ => False end) (value_raw c)) as Hraw.
  { intros c. destruct c as [| | | | | |[|]| |[|]|]; simpl; repeat constructor;
      by apply Z.mod_pos_bound. }
  destruct cs as [|c [|c' [|]]].
  - constructor.
  - destruct c; first [apply Hraw | constructor].
  - destruct c as [[]| | | | | | | | |]; try constructor; try apply Hraw.
    destruct c'; try constructor; by apply Forall_fmap, Forall_true.
  - by destruct c as [[]| | | | | | | | |], c'.
Qed.

Lemma message_raws_elem fs (cs : list (cell (list byte))) r :
  r ∈ message_raws fs cs →
  ∃ f seg v, f ∈ fs ∧ v ∈ field_values seg ∧ r = {| r_number := fd_id f; r_value := v |}.
Proof.
  unfold message_raws. intros Hr. apply list_elem_of_In, in_concat in Hr as (l & Hl & Hr).
  apply list_elem_of_In, list_elem_of_lookup in Hl as [i Hl]. apply list_elem_of_In in Hr.
  rewrite lookup_zip_with in Hl. apply bind_Some in Hl as (f & Hf & Hl).
  apply bind_Some in Hl as (seg & _ & [= <-]). apply list_elem_of_fmap in Hr as (v & -> & Hv).
  apply list_elem_of_lookup_2 in Hf. eauto 10.
Qed.

Lemma message_raws_ok fs (cs : list (cell (list byte))) :
  Forall (λ f, 1 ≤ fd_id f < 2 ^ 29)%Z fs →
  (Z.of_nat (length (concat (encode_raw <$> message_raws fs cs))) < 2 ^ 31)%Z →
  Forall raw_ok (message_raws fs cs).
Proof.
  intros Hfs Hlen. apply Forall_forall. intros r Hr.
  destruct (message_raws_elem _ _ _ Hr) as (f & seg & v & Hf & Hv & ->).
  rewrite Forall_forall in Hfs. pose proof (field_values_ok seg) as Hok.
  rewrite Forall_forall in Hok. specialize (Hfs f Hf). specialize (Hok v Hv). simpl in Hfs.
  split; cbn [r_number r_value]; [lia|]. destruct v as [z|p|]; [done| |done].
  pose proof (raw_shorter _ _ _ Hr eq_refl). lia.
Qed.
End roundtrip.

Section laws.
Context (P : pb_program) (Htab : ∀ s, table_ok P s).
Notation D := (pb_descriptor P).

Lemma init_cells_default s : init_cells P s = default_slots (message_slots (D s)).
Proof. unfold init_cells. by rewrite (ok_init _ _ (Htab s)). Qed.

(** The encoding of a valid message, by its members in order. *)
Lemma encode_raws s cs :
  cs.*1 = (message_slots (D s)).*1 →
  encode D (Msg s cs) =
    concat (encode_raw <$> message_raws (md_fields (D s)) (cell_map (encode D) <$> cs.*2)).
Proof.
  intros Hk. cbn [encode]. change (List.map (entry_map (encode D)) cs) with (entry_map (encode D) <$> cs).
  do 2 f_equal. unfold message_raws. f_equal.
  rewrite <- entry_map_snd, <- (field_cells_segments (md_fields (D s)));
    rewrite ?entry_map_fst, ?Hk; [|done|apply (ok_places _ _ (Htab s))].
  induction (md_fields (D s)) as [|f fs IH]; [done|]. csimpl. by rewrite IH.
Qed.

(** A required field of a valid message is always encoded. *)
Lemma required_encoded s cs :
  forallb (λ p, field_valid p.1 p.2)
    (zip (md_fields (D s)) (segments (md_fields (D s)) (cell_map (valid D) <$> cs))) = true →
  required_present (D s) (message_raws (md_fields (D s)) (cell_map (encode D) <$> cs)) = true.
Proof.
  unfold required_present, message_raws. rewrite !segments_fmap. intros Hv.
  apply forallb_forall. intros f Hf. apply orb_true_iff.
  destruct (decide (fd_label f = LABEL_REQUIRED)) as [Hl|Hl]; [right|left; by rewrite bool_decide_false].
  apply list_elem_of_In, list_elem_of_lookup in Hf as [i Hf].
  destruct (lookup_lt_is_Some_2 (segments (md_fields (D s)) cs) i) as [seg Hseg].
  { rewrite length_segments. by eapply lookup_lt_Some. }
  rewrite forallb_forall in Hv.
  assert (field_valid f (cell_map (valid D) <$> seg) = true) as Hfv.
  { refine (Hv (f, _) _). apply list_elem_of_In, (list_elem_of_lookup_2 _ i).
    rewrite lookup_zip_with, list_lookup_fmap, Hf, Hseg. done. }
  unfold field_valid in Hfv. rewrite Hl in Hfv.
  assert (∃ v, v ∈ field_values (cell_map (encode D) <$> seg)) as [v Hv'].
  { destruct (value_ctype f) as [t|]; [|done]. destruct seg as [|c [|]]; [by destruct t| |].
    - assert (value_ok t (cell_map (valid D) c) = true) as Hok by (by destruct t, c).
      destruct t, c as [| | | | | |[|]| |[|]|]; try discriminate Hok; simpl; set_solver.
    - destruct t, c, c0; done. }
  apply existsb_exists. exists {| r_number := fd_id f; r_value := v |}. split; [|by apply Z.eqb_refl].
  apply in_concat. exists (numbered_raws f (field_values (cell_map (encode D) <$> seg))).
  split; apply list_elem_of_In.
  - apply (list_elem_of_lookup_2 _ i). by rewrite lookup_zip_with, list_lookup_fmap, Hf, Hseg.
  - apply list_elem_of_fmap. eauto.
Qed.

Lemma decode_encode m : ∀ s fuel,
  valid D m s = true → (Z.of_nat (length (encode D m)) < 2 ^ 31)%Z → length (encode D m) < fuel →
  decode P fuel s (encode D m) (init_cells P s) = Some (members m).
Proof.
  induction m as [d cs IH] using message_ind. intros s fuel Hv Hlen Hfuel.
  apply (valid_segments _ _ _ _ (ok_places _ _ (Htab s))) in Hv as (-> & Hk & Hv).
  destruct fuel as [|fuel]; [lia|]. cbn [decode members].
  pose proof (encode_raws s cs Hk) as Henc. rewrite Henc in *.
  rewrite scan_encode; [|apply message_raws_ok; [apply (ok_numbered _ _ (Htab s))|done]|lia].
  cbn [mbind option_bind]. rewrite init_cells_default.
  pose proof (store_all_message P Htab (decode P fuel)
    (length (concat (encode_raw <$> message_raws (md_fields (D s)) (cell_map (encode D) <$> cs.*2))))
    s (md_fields (D s)) [] cs) as Hst. cbn [app] in Hst. fold (message_slots (D s)) in Hst.
  rewrite Hst; clear Hst.
  - cbn [mbind option_bind]. by rewrite required_encoded.
  - apply Forall_forall. intros f Hf. split; [done|].
    pose proof (ok_types _ _ (Htab s)) as Ht. rewrite Forall_forall in Ht. by apply Ht.
  - done.
  - rewrite Hk. apply (ok_places _ _ (Htab s)).
  - done.
  - eapply Forall_impl; [exact IH|]. intros [o c]. destruct c as [| | | | | | | |[m|]|l]; cbn; try done.
    + intros Hm s' Hv' Hl'. apply Hm; [done|lia|lia].
    + intros Hl. eapply Forall_impl; [exact Hl|]. intros m Hm s' Hv' Hl'. apply Hm; [done|lia|lia].
  - apply Forall_forall. intros r Hr. unfold small. destruct (r_value r) eqn:E; try done.
    pose proof (raw_shorter _ _ _ Hr E). lia.
Qed.

(** ** What is decoded is valid *)

Lemma set_fst cs o c : (set cs o c).*1 = cs.*1.
Proof.
  induction cs as [|[o' c'] cs IH]; [done|]. simpl. destruct (o' =? o)%Z; csimpl; [done|]. by rewrite IH.
Qed.

Lemma get_set cs o c o' :
  get (set cs o c) o' = if decide (o = o') then (λ _, c) <$> get cs o' else get cs o'.
Proof.
  induction cs as [|[o1 c1] cs IH]; simpl; [by case_decide|].
  destruct (Z.eqb_spec o1 o) as [->|Hne]; simpl.
  - case_decide as Ho; [by rewrite Ho, Z.eqb_refl|]. by rewrite (proj2 (Z.eqb_neq _ _)).
  - destruct (Z.eqb_spec o1 o') as [->|Hne']; [|done]. by rewrite decide_False.
Qed.

Lemma get_is_Some (cs : cells) o : o ∈ cs.*1 → ∃ c, get cs o = Some c.
Proof.
  induction cs as [|[o' c] cs IH]; csimpl; [by intros ?%not_elem_of_nil|].
  destruct (Z.eqb_spec o' o); [eauto|]. intros [?|?]%elem_of_cons; [done|auto].
Qed.

Lemma get_entry_map {A B} (g : A → B) (cs : list (Z * cell A)) o :
  get (entry_map g <$> cs) o = cell_map g <$> get cs o.
Proof. induction cs as [|[o' c] cs IH]; csimpl; [done|]. by destruct (o' =? o)%Z. Qed.

Lemma field_cells_entry_map {A B} (g : A → B) (cs : list (Z * cell A)) f :
  field_cells (entry_map g <$> cs) f = cell_map g <$> field_cells cs f.
Proof.
  unfold field_cells. induction ((field_slots f).*1) as [|o l IH]; csimpl; [done|].
  rewrite get_entry_map. destruct (get cs o); csimpl; by rewrite IH.
Qed.

(** The members of field [f] are right. *)
Definition field_ok (f : ProtobufCFieldDescriptor) (cs : cells) : Prop :=
  field_valid f (cell_map (valid D) <$> field_cells cs f) = true.

Lemma valid_fields_ok s cs :
  valid D (Msg s cs) s = true ↔
  cs.*1 = (message_slots (D s)).*1 ∧ Forall (λ f, field_ok f cs) (md_fields (D s)).
Proof.
  cbn [valid]. rewrite !andb_true_iff, !bool_decide_eq_true.
  change (List.map fst cs) with cs.*1.
  change (List.map (entry_map (valid D)) cs) with (entry_map (valid D) <$> cs).
  rewrite forallb_forall, Forall_forall. unfold field_ok.
  setoid_rewrite field_cells_entry_map. setoid_rewrite list_elem_of_In. naive_solver.
Qed.

Lemma concat_owner {B} (h : B → list Z) l x y o :
  NoDup (concat (h <$> l)) → x ∈ l → y ∈ l → o ∈ h x → o ∈ h y → x = y.
Proof.
  induction l as [|z l IH]; csimpl; intros Hnd Hx Hy Hox Hoy; [by apply not_elem_of_nil in Hx|].
  apply NoDup_app in Hnd as (_ & Hdis & Hnd).
  assert (∀ w, w ∈ l → o ∈ h w → o ∈ concat (h <$> l)) as Hin.
  { intros w Hw Ho. apply list_elem_of_In, in_concat. exists (h w).
    split; apply list_elem_of_In; [by apply list_elem_of_fmap_2|done]. }
  apply elem_of_cons in Hx as [->|Hx], Hy as [->|Hy]; [done|..|by apply IH].
  - destruct (Hdis o Hox). eauto.
  - destruct (Hdis o Hoy). eauto.
Qed.

(** A place belongs to one field only. *)
Lemma slot_owner s f g o :
  f ∈ md_fields (D s) → g ∈ md_fields (D s) →
  o ∈ (field_slots f).*1 → o ∈ (field_slots g).*1 → f = g.
Proof.
  apply (concat_owner (λ f, (field_slots f).*1)).
  replace (concat ((λ f, (field_slots f).*1) <$> md_fields (D s)))
    with ((message_slots (D s)).*1); [apply (ok_places _ _ (Htab s))|].
  unfold message_slots. induction (md_fields (D s)) as [|h fs IH]; [done|].
  csimpl. by rewrite fmap_app, IH.
Qed.

(** Storing into the places of [f] leaves the other fields alone. *)
Lemma field_ok_other s f g cs o c :
  f ∈ md_fields (D s) → g ∈ md_fields (D s) → f ≠ g → o ∈ (field_slots f).*1 →
  field_ok g cs → field_ok g (set cs o c).
Proof.
  intros Hf Hg Hne Ho. unfold field_ok.
  assert (field_cells (set cs o c) g = field_cells cs g) as ->; [|done].
  unfold field_cells. assert (Forall (λ o', o' ≠ o) (field_slots g).*1) as Hall.
  { apply Forall_forall. intros o' Ho' ->. by destruct Hne; eapply slot_owner. }
  induction Hall as [|o' l Ho' Hl IH]; [done|]. csimpl.
  rewrite get_set, decide_False by done. by rewrite IH.
Qed.

(** The members of a field by its places. *)
Lemma field_cells_get f t (cs : cells) :
  value_ctype f = Some t →
  field_cells cs f =
    match quantifier_ctype f with
    | Some _ => option_list (get cs (fd_quantifier_offset f))
    | None => []
    end ++ option_list (get cs (fd_offset f)).
Proof.
  intros Ht. unfold field_cells. rewrite (value_slot _ _ Ht).
  destruct (quantifier_ctype f); csimpl; destruct (get cs (fd_offset f));
    [destruct (get cs (fd_quantifier_offset f))..| |]; done.
Qed.

(** A value read from the wire is one of its type. *)
Lemma read_value_ok t v c : read_value t v = Some c → value_ok t (cell_map (valid D) c) = true.
Proof.
  destruct t, v; simpl; try done; intros [= <-]; cbn [cell_map value_ok].
  - pose proof (Z.mod_pos_bound z (2 ^ 32)). lia.
  - pose proof (Z.mod_pos_bound z (2 ^ 64)). lia.
  - unfold s32. pose proof (Z.mod_pos_bound (z + 2 ^ 31) (2 ^ 32)). lia.
  - apply bool_decide_eq_true. unfold bin_wf. by destruct data.
  - apply bool_decide_eq_true. unfold upto_nul. destruct (cstr data) as [s|] eqn:E; simpl.
    + by eapply cstr_nul_free.
    + by apply cstr_None.
Qed.

Lemma segments_concat {B} (h : ProtobufCFieldDescriptor → list B) fs :
  (∀ f, length (h f) = length (field_slots f)) → segments fs (concat (h <$> fs)) = h <$> fs.
Proof.
  intros Hh. induction fs as [|f fs IH]; [done|]. cbn [segments fmap list_fmap concat].
  by rewrite take_app_length', drop_app_length', IH by done.
Qed.

(** An initialised message is valid. *)
Lemma init_valid s : valid D (Msg s (init_cells P s)) s = true.
Proof.
  rewrite init_cells_default.
  assert ((default_slots (message_slots (D s))).*1 = (message_slots (D s)).*1) as Hk.
  { unfold default_slots. rewrite <- list_fmap_compose. apply list_fmap_ext. by intros _ [] _. }
  apply (valid_segments _ _ _ _ (ok_places _ _ (Htab s))). split_and!; [done|done|].
  replace (cell_map (valid D) <$> (default_slots (message_slots (D s))).*2)
    with (concat ((λ f, (λ t, default_cell (A := msg_sym → bool) t) <$> (field_slots f).*2) <$>
      md_fields (D s))).
  2: { unfold message_slots. induction (md_fields (D s)) as [|f fs IH]; [done|].
       csimpl. unfold default_slots in *. rewrite !fmap_app, <- IH. f_equal.
       rewrite <- !list_fmap_compose. apply list_fmap_ext. by intros _ [o []] _. }
  rewrite segments_concat by (intros f; by rewrite !length_fmap).
  pose proof (ok_default _ _ (Htab s)) as Hdef.
  induction Hdef as [|f fs Hf Hfs IH]; [done|]. csimpl. by rewrite Hf, IH.
Qed.

Section preserve.
Context (sub : msg_sym → list byte → cells → option cells).
Context (Hsub : ∀ s p ms ms', valid D (Msg s ms) s = true → sub s p ms = Some ms' →
  valid D (Msg s ms') s = true).

(** The places of a field of a valid message are there. *)
Lemma slot_present s f cs o :
  f ∈ md_fields (D s) → valid D (Msg s cs) s = true → o ∈ (field_slots f).*1 →
  ∃ c, get cs o = Some c.
Proof.
  intros Hf Hv Ho. apply valid_fields_ok in Hv as [Hk _]. apply get_is_Some. rewrite Hk.
  unfold message_slots. apply list_elem_of_fmap in Ho as ([o' t] & -> & Ho).
  apply list_elem_of_fmap. exists (o', t). split; [done|].
  apply list_elem_of_In, in_concat. exists (field_slots f).
  split; apply list_elem_of_In; [by apply list_elem_of_fmap_2|done].
Qed.

(** Storing right members for a field keeps a message valid. *)
Lemma valid_update s f cs cs' :
  f ∈ md_fields (D s) → valid D (Msg s cs) s = true → cs'.*1 = cs.*1 →
  (∀ g, g ∈ md_fields (D s) → f ≠ g → field_ok g cs → field_ok g cs') → field_ok f cs' →
  valid D (Msg s cs') s = true.
Proof.
  intros Hf Hv Hk Hother Hok. apply valid_fields_ok in Hv as [Hk' Hall].
  apply valid_fields_ok. split; [congruence|]. rewrite Forall_forall in Hall |- *.
  intros g Hg. destruct (decide (fd_id f = fd_id g)) as [Hid|Hid].
  - assert (f = g) as <-; [|done]. pose proof (find_field P Htab s f Hf) as H1.
    rewrite Hid, (find_field P Htab s g Hg) in H1. by injection H1.
  - apply Hother; [done| |by apply Hall]. intros ->. done.
Qed.

Lemma field_typed s f : f ∈ md_fields (D s) → ∃ t, value_ctype f = Some t.
Proof.
  intros Hf. pose proof (ok_types _ _ (Htab s)) as Hty. rewrite Forall_forall in Hty. by apply Hty.
Qed.

Lemma value_place f t : value_ctype f = Some t → fd_offset f ∈ (field_slots f).*1.
Proof. intros Ht. rewrite (value_slot _ _ Ht), fmap_app. set_solver. Qed.

Lemma quantifier_place f t q :
  value_ctype f = Some t → quantifier_ctype f = Some q → fd_quantifier_offset f ∈ (field_slots f).*1.
Proof. intros Ht Hq. rewrite (value_slot _ _ Ht), Hq. set_solver. Qed.

Lemma places_differ s f t q :
  f ∈ md_fields (D s) → value_ctype f = Some t → quantifier_ctype f = Some q →
  fd_quantifier_offset f ≠ fd_offset f.
Proof.
  intros Hf Ht Hq. pose proof (ok_places _ _ (Htab s)) as Hnd. unfold message_slots in Hnd.
  apply list_elem_of_lookup in Hf as [i Hi]. rewrite <- (take_drop_middle _ _ _ Hi) in Hnd.
  rewrite fmap_app, concat_app in Hnd. cbn [fmap list_fmap concat] in Hnd.
  rewrite (value_slot _ _ Ht), Hq, !fmap_app in Hnd. apply NoDup_app in Hnd as (_ & _ & Hnd).
  apply NoDup_app in Hnd as (Hnd & _). apply NoDup_cons in Hnd as [Hin _]. set_solver.
Qed.

(** Storing the value of a field that has no quantifier. *)
Lemma valid_set_value s f t cs c :
  f ∈ md_fields (D s) → value_ctype f = Some t → quantifier_ctype f = None →
  valid D (Msg s cs) s = true → field_valid f [cell_map (valid D) c] = true →
  valid D (Msg s (set cs (fd_offset f) c)) s = true.
Proof.
  intros Hf Ht Hq Hv Hc. pose proof (value_place _ _ Ht) as Hof.
  destruct (slot_present _ _ _ _ Hf Hv Hof) as [c0 Hc0].
  apply (valid_update s f cs); [done|done|by rewrite set_fst|..].
  - intros g Hg Hne. by apply (field_ok_other s f).
  - unfold field_ok. rewrite (field_cells_get _ _ _ Ht), Hq, get_set, decide_True by done.
    by rewrite Hc0.
Qed.

(** Storing both members of a field. *)
Lemma valid_set_both s f t q cs c1 c2 :
  f ∈ md_fields (D s) → value_ctype f = Some t → quantifier_ctype f = Some q →
  valid D (Msg s cs) s = true → field_valid f [cell_map (valid D) c1; cell_map (valid D) c2] = true →
  valid D (Msg s (set (set cs (fd_quantifier_offset f) c1) (fd_offset f) c2)) s = true.
Proof.
  intros Hf Ht Hq Hv Hc. pose proof (value_place _ _ Ht) as Hof.
  pose proof (quantifier_place _ _ _ Ht Hq) as Hqf. pose proof (places_differ _ _ _ _ Hf Ht Hq) as Hne.
  destruct (slot_present _ _ _ _ Hf Hv Hof) as [d2 Hd2].
  destruct (slot_present _ _ _ _ Hf Hv Hqf) as [d1 Hd1].
  apply (valid_update s f cs); [done|done|by rewrite !set_fst|..].
  - intros g Hg Hne' Hok. by do 2 (apply (field_ok_other s f); [done..|]).
  - unfold field_ok. rewrite (field_cells_get _ _ _ Ht), Hq, !get_set.
    rewrite (decide_False (P := fd_offset f = fd_quantifier_offset f)) by done.
    rewrite !decide_True, decide_False by done. by rewrite Hd1, Hd2.
Qed.

(** The members of a field of a valid message. *)
Lemma field_cells_valid s f t cs :
  f ∈ md_fields (D s) → value_ctype f = Some t → valid D (Msg s cs) s = true →
  field_valid f (cell_map (valid D) <$>
    (match quantifier_ctype f with
     | Some _ => option_list (get cs (fd_quantifier_offset f))
     | None => []
     end ++ option_list (get cs (fd_offset f)))) = true.
Proof.
  intros Hf Ht Hv. rewrite <- (field_cells_get _ _ _ Ht).
  apply valid_fields_ok in Hv as [_ Hall]. rewrite Forall_forall in Hall. by apply Hall.
Qed.

Lemma repeated_field f :
  match value_ctype f with Some (Tstrs | Tmsgs _) => True | _ => False end →
  fd_label f = LABEL_REPEATED ∧ quantifier_ctype f = Some Tsize.
Proof.
  unfold value_ctype, quantifier_ctype.
  by destruct (fd_label f), (fd_type f), (fd_descriptor f) as [[]|].
Qed.

(** Storing a scalar, with its quantifier if it has one. *)
Lemma store_scalar_valid s f t v c cs :
  f ∈ md_fields (D s) → value_ctype f = Some t → valid D (Msg s cs) s = true →
  read_value t v = Some c →
  valid D (Msg s (set (if bool_decide (quantifier_ctype f = Some Tbool)
    then set cs (fd_quantifier_offset f) (CBool true) else cs) (fd_offset f) c)) s = true.
Proof.
  intros Hf Ht Hv Hr. apply read_value_ok in Hr. destruct (quantifier_ctype f) as [q|] eqn:Hq.
  - assert (q = Tbool ∧ fd_label f = LABEL_OPTIONAL) as [-> Hl].
    { revert Ht Hq Hr. unfold value_ctype, quantifier_ctype.
      destruct (fd_label f), (fd_type f), (fd_descriptor f) as [[]|]; intros [= <-] [= <-]; try done.
      all: by destruct c. }
    rewrite bool_decide_true by done. eapply valid_set_both; try done.
    unfold field_valid. rewrite Ht, Hl. cbn [cell_map]. by destruct t.
  - rewrite bool_decide_false by done. eapply valid_set_value; try done.
    unfold field_valid. rewrite Ht. revert Hq. unfold quantifier_ctype.
    destruct (fd_label f); try done; intros _; destruct t, c; try discriminate Hr; try exact Hr.
    all: apply orb_true_iff; by left.
Qed.

Lemma store_value_valid s f v cs cs' :
  f ∈ md_fields (D s) → valid D (Msg s cs) s = true → store_value P sub f v cs = Some cs' →
  valid D (Msg s cs') s = true.
Proof.
  intros Hf Hv Hst. destruct (field_typed _ _ Hf) as [t Ht].
  pose proof (field_cells_valid _ _ _ _ Hf Ht Hv) as Hfv.
  unfold store_value in Hst. rewrite Ht in Hst.
  destruct t; try (apply bind_Some in Hst as (c & Hc & [= <-]); by eapply store_scalar_valid);
    destruct v as [|p|]; try discriminate Hst.
  - destruct (repeated_field f) as [Hl Hq]; [by rewrite Ht|]. rewrite Hq in Hfv.
    destruct (get cs (fd_quantifier_offset f)) as [[]|]; try discriminate Hst.
    destruct (get cs (fd_offset f)) as [[]|]; try discriminate Hst. injection Hst as <-.
    eapply valid_set_both; try done. revert Hfv. unfold field_valid. rewrite Ht, Hl. cbn.
    rewrite forallb_app, !andb_true_iff. intros [->%Nat.eqb_eq Htags].
    split; [by rewrite length_app; simpl; rewrite Nat.add_1_r, Nat.eqb_refl|]. split; [done|].
    simpl. rewrite andb_true_r. by apply (read_value_ok Tstr (RLen p) (CStr (Some (upto_nul p)))).
  - assert (quantifier_ctype f = None) as Hq.
    { revert Ht. unfold value_ctype, quantifier_ctype.
      by destruct (fd_label f), (fd_type f), (fd_descriptor f) as [[]|]. }
    rewrite Hq in Hfv. destruct (get cs (fd_offset f)) as [[| | | | | | | |o|]|]; try discriminate Hst.
    apply bind_Some in Hst as (ms & Hms & [= <-]). eapply valid_set_value; try done.
    assert (valid D (Msg m ms) m = true) as Hm.
    { eapply Hsub, Hms. destruct o as [[d ms0]|]; [|apply init_valid]. cbn [members].
      revert Hfv. unfold field_valid. rewrite Ht. cbn [fmap list_fmap app option_list cell_map].
      intros Hfv. assert (valid D (Msg d ms0) m = true) as Hd.
      { destruct (fd_label f); [exact Hfv| |discriminate Hfv].
        apply orb_true_iff in Hfv as [Hfv|Hfv]; [exact Hfv|discriminate Hfv]. }
      by destruct (proj1 (valid_segments _ _ _ _ (ok_places _ _ (Htab m))) Hd) as (-> & _). }
    revert Hfv. unfold field_valid. rewrite Ht. cbn [cell_map value_ok]. rewrite Hm.
    by destruct (fd_label f).
  - destruct (repeated_field f) as [Hl Hq]; [by rewrite Ht|]. rewrite Hq in Hfv.
    destruct (get cs (fd_quantifier_offset f)) as [[]|]; try discriminate Hst.
    destruct (get cs (fd_offset f)) as [[]|]; try discriminate Hst.
    apply bind_Some in Hst as (ms & Hms & [= <-]). eapply valid_set_both; try done.
    apply Hsub in Hms; [|apply init_valid]. revert Hfv. unfold field_valid. rewrite Ht, Hl.
    cbn -[valid Nat.eqb List.map]. rewrite map_app, forallb_app, !andb_true_iff.
    intros [->%Nat.eqb_eq Hall].
    split; [by rewrite length_app; simpl; rewrite Nat.add_1_r, Nat.eqb_refl|].
    split; [done|]. cbn [List.map forallb]. by rewrite Hms.
Qed.

Lemma store_all_valid s rs cs cs' :
  valid D (Msg s cs) s = true → store_all P sub (D s) rs cs = Some cs' →
  valid D (Msg s cs') s = true.
Proof.
  revert cs; induction rs as [|r rs IH]; intros cs Hv Hst; simpl in Hst; [by injection Hst as <-|].
  apply bind_Some in Hst as (cs1 & Hr & Hst). apply (IH cs1); [|done]. unfold store_raw in Hr.
  destruct (range_lookup _ _) as [i|]; [|by injection Hr as <-].
  apply bind_Some in Hr as (f & Hf & Hr). eapply store_value_valid; [|done|exact Hr].
  by eapply list_elem_of_lookup_2.
Qed.
End preserve.

Lemma decode_valid fuel s data cs cs' :
  valid D (Msg s cs) s = true → decode P fuel s data cs = Some cs' → valid D (Msg s cs') s = true.
Proof.
  revert s data cs cs'; induction fuel as [|fuel IH]; intros s data cs cs' Hv Hd; [done|].
  cbn [decode] in Hd. apply bind_Some in Hd as (rs & _ & Hd). apply bind_Some in Hd as (cs1 & Hst & Hd).
  destruct (required_present _ _); [|done]. injection Hd as <-.
  eapply (store_all_valid (decode P fuel)); [|exact Hv|exact Hst]. intros. by eapply IH.
Qed.
End laws.

(** ** Counting the elements of repeated fields *)

Definition cells_elements (cs : cells) : nat := elements (Msg Pbdnsmessage cs).
Definition weight (v : raw_value) : nat := match v with RLen p => S (length p) | _ => 0 end.

Lemma elements_cells s cs : elements (Msg s cs) = cells_elements cs.
Proof. done. Qed.

Lemma set_elements cs o c c' :
  get cs o = Some c →
  cells_elements (set cs o c') + cell_elements (cell_map elements c) =
  cells_elements cs + cell_elements (cell_map elements c').
Proof.
  unfold cells_elements. induction cs as [|[o' d] cs IH]; [done|].
  cbn [get set]. destruct (o' =? o)%Z; [intros [= ->]; simpl; lia|].
  intros Hg. specialize (IH Hg). cbn [elements List.map list_sum foldr snd] in *. unfold list_sum in *.
  cbn [foldr]. lia.
Qed.

Lemma read_varint_shorter n l z l' : read_varint n l = Some (z, l') → length l' < length l.
Proof.
  revert l z; induction n as [|n IH]; intros [|b l] z; simpl; try done.
  destruct (byte_val b <? 128)%Z; [intros [= _ <-]; lia|].
  intros ([z1 l1] & Hr & [= _ <-])%bind_Some. apply IH in Hr. lia.
Qed.

Lemma read_bytes_length n l d l' : read_bytes n l = Some (d, l') → length l = length d + length l'.
Proof.
  unfold read_bytes. destruct (Nat.leb_spec n (length l)); [|done]. intros [= <- <-].
  rewrite length_take, length_drop. lia.
Qed.

Lemma read_raw_weight l r l' : read_raw l = Some (r, l') → weight (r_value r) + length l' < length l.
Proof.
  unfold read_raw. intros ([key l1] & Hk & Hr)%bind_Some. apply read_varint_shorter in Hk.
  apply bind_Some in Hr as ([v l2] & Hv & [= <- <-]). cbn [r_value].
  assert (weight v + length l2 ≤ length l1); [|lia].
  repeat case_match; try discriminate Hv; apply bind_Some in Hv as ([a l3] & Ha & Hv).
  - injection Hv as <- <-. apply read_varint_shorter in Ha. simpl. lia.
  - injection Hv as <- <-. apply read_bytes_length in Ha. simpl. lia.
  - apply read_varint_shorter in Ha. apply bind_Some in Hv as ([d l4] & Hd & [= <- <-]).
    apply read_bytes_length in Hd. simpl. lia.
  - injection Hv as <- <-. apply read_bytes_length in Ha. simpl. lia.
Qed.

Lemma scan_weight fuel l rs :
  scan fuel l = Some rs → list_sum (List.map (λ r, weight (r_value r)) rs) ≤ length l.
Proof.
  revert l rs; induction fuel as [|fuel IH]; intros [|b l] rs; cbn [scan];
    try (intros [= <-]; simpl; lia).
  intros ([r l1] & Hr & Hs)%bind_Some. apply bind_Some in Hs as (rs1 & Hs & [= <-]).
  apply read_raw_weight in Hr. apply IH in Hs. unfold list_sum in *. simpl in *. lia.
Qed.

Section elements.
Context (P : pb_program) (Htab : ∀ s, table_ok P s).

Lemma init_elements s : cells_elements (init_cells P s) = 0.
Proof.
  rewrite (init_cells_default _ Htab). unfold cells_elements, default_slots.
  induction (message_slots _) as [|[o []] l IH]; simpl in *; done.
Qed.

Section store.
Context (sub : msg_sym → list byte → cells → option cells).
Context (Hsub : ∀ s p ms ms', sub s p ms = Some ms' →
  cells_elements ms' ≤ cells_elements ms + length p).

Lemma set_elements_le cs o c' n :
  (∀ c, get cs o = Some c → cell_elements (cell_map elements c') ≤ cell_elements (cell_map elements c) + n) →
  cells_elements (set cs o c') ≤ cells_elements cs + n.
Proof.
  intros Hc. destruct (get cs o) as [c|] eqn:E.
  - pose proof (set_elements cs o c c' E). specialize (Hc c eq_refl). lia.
  - assert (set cs o c' = cs) as ->; [|lia]. clear Hc. revert E.
    induction cs as [|[o' d] cs IH]; simpl; [done|]. destruct (o' =? o)%Z; [done|].
    intros Hg. by rewrite IH.
Qed.

(** A repeated field grows. *)
Lemma append_elements cs q o c c' n k :
  q ≠ o → get cs o = Some c →
  cell_elements (cell_map elements c') ≤ cell_elements (cell_map elements c) + k →
  cells_elements (set (set cs q (CSize n)) o c') ≤ cells_elements cs + k.
Proof.
  intros Hne Hg Hc.
  etrans; [apply (set_elements_le _ _ _ k)|].
  - rewrite get_set, decide_False, Hg by done. by intros ? [= <-].
  - apply Nat.add_le_mono_r. rewrite <- (Nat.add_0_r (cells_elements cs)).
    apply set_elements_le. intros; simpl; lia.
Qed.

Lemma store_value_elements f v cs cs' :
  store_value P sub f v cs = Some cs' → cells_elements cs' ≤ cells_elements cs + weight v.
Proof.
  unfold store_value. destruct (value_ctype f) as [t|]; [|done].
  assert (∀ c, read_value t v = Some c →
    Some (set (if bool_decide (quantifier_ctype f = Some Tbool)
      then set cs (fd_quantifier_offset f) (CBool true) else cs) (fd_offset f) c) = Some cs' →
    cells_elements cs' ≤ cells_elements cs + weight v) as Hscalar.
  { intros c Hr [= <-].
    assert (cell_elements (cell_map elements c) = 0) as Hc.
    { destruct t, v; simplify_eq/=; done. }
    etrans; [apply (set_elements_le _ _ _ 0); intros; lia|].
    destruct (bool_decide _); [|lia].
    etrans; [apply Nat.add_le_mono_r, (set_elements_le _ _ _ 0); intros; simpl; lia|lia]. }
  intros Hst.
  destruct t; try (apply bind_Some in Hst as (c & Hc & Hst); by apply (Hscalar c));
    destruct v as [|p|]; try discriminate Hst; clear Hscalar; cbn [weight].
  - destruct (get cs (fd_quantifier_offset f)) as [[]|] eqn:Eq; try discriminate Hst.
    destruct (get cs (fd_offset f)) as [[]|] eqn:Eo; try discriminate Hst. injection Hst as <-.
    apply append_elements with (c := CStrs l); [congruence|done|].
    simpl. rewrite length_app. simpl. lia.
  - destruct (get cs (fd_offset f)) as [[| | | | | | | |o|]|] eqn:Eo; try discriminate Hst.
    apply bind_Some in Hst as (ms & Hms & [= <-]). apply Hsub in Hms.
    apply set_elements_le. rewrite Eo. intros c [= <-]. cbn [cell_map cell_elements].
    rewrite elements_cells. destruct o as [[d ms0]|]; simpl in *; [|rewrite init_elements in Hms; lia].
    unfold cells_elements in *. simpl in *. lia.
  - destruct (get cs (fd_quantifier_offset f)) as [[]|] eqn:Eq; try discriminate Hst.
    destruct (get cs (fd_offset f)) as [[]|] eqn:Eo; try discriminate Hst.
    apply bind_Some in Hst as (ms & Hms & [= <-]). apply Hsub in Hms. rewrite init_elements in Hms.
    apply append_elements with (c := CMsgs l); [congruence|done|].
    cbn [cell_map cell_elements]. rewrite map_app, list_sum_app, length_app. cbn [List.map length].
    rewrite elements_cells. unfold list_sum. simpl. lia.
Qed.

Lemma store_all_elements d rs cs cs' :
  store_all P sub d rs cs = Some cs' →
  cells_elements cs' ≤ cells_elements cs + list_sum (List.map (λ r, weight (r_value r)) rs).
Proof.
  revert cs; induction rs as [|r rs IH]; intros cs Hst; simpl in Hst; [injection Hst as <-; lia|].
  apply bind_Some in Hst as (cs1 & Hr & Hst). apply IH in Hst. unfold list_sum in *. simpl.
  assert (cells_elements cs1 ≤ cells_elements cs + weight (r_value r)); [|lia].
  unfold store_raw in Hr. destruct (range_lookup _ _) as [i|]; [|injection Hr as <-; lia].
  apply bind_Some in Hr as (f & _ & Hr). by apply store_value_elements in Hr.
Qed.
End store.

Lemma decode_elements fuel s data cs cs' :
  decode P fuel s data cs = Some cs' → cells_elements cs' ≤ cells_elements cs + length data.
Proof.
  revert s data cs cs'; induction fuel as [|fuel IH]; intros s data cs cs' Hd; [done|].
  cbn [decode] in Hd. apply bind_Some in Hd as (rs & Hsc & Hd). apply bind_Some in Hd as (cs1 & Hst & Hd).
  destruct (required_present _ _); [|done]. injection Hd as <-.
  apply scan_weight in Hsc. apply (store_all_elements (decode P fuel)) in Hst; [lia|]. apply IH.
Qed.
End elements.

#[export] Instance wire_laws : ProtobufCLaws.
Proof.
  split.
  - intros P s [d cs] Htab Hv Hlen. cbn [protobuf_c_message_unpack protobuf_c_message_pack wire] in *.
    rewrite (decode_encode P Htab (Msg d cs)) by (done || lia). cbn [members fmap option_fmap option_map].
    by destruct (proj1 (valid_segments _ _ _ _ (ok_places _ _ (Htab s))) Hv) as (-> & _).
  - done.
  - intros P s data m Htab Hu. cbn [protobuf_c_message_unpack wire] in Hu.
    apply fmap_Some in Hu as (cs & Hd & ->). eapply decode_valid; [done|by apply init_valid|exact Hd].
  - intros P s data m Htab Hu. cbn [protobuf_c_message_unpack wire] in Hu.
    apply fmap_Some in Hu as (cs & Hd & ->). apply (decode_elements P Htab) in Hd.
    rewrite (init_elements P Htab) in Hd. by rewrite elements_cells.
Qed.

(** ** Witnesses on 64-bit Linux *)

(** A response for www.example.org with one address record. *)
Definition sample_rr : PBDNSMessage__DNSResponse__DNSRR := {|
  rr_name := Some (bs "www.example.org"); rr_has_type := true; rr_type := 1;
  rr_has_class := true; rr_class := 1; rr_has_ttl := true; rr_ttl := 300;
  rr_has_rdata := true;
  rr_rdata := {| bin_len := 4; bin_data := Some [xc0; x00; x02; x01] |} |}.

Definition sample_response : PBDNSMessage__DNSResponse := {|
  r_has_rcode := true; r_rcode := 0; r_rrs := [sample_rr]; r_appliedpolicy := Some (bs "rpz");
  r_tags := [Some (bs "t")]; r_has_querytimesec := false; r_querytimesec := 0;
  r_has_querytimeusec := false; r_querytimeusec := 0 |}.

Definition sample_message : PBDNSMessage := {|
  m_type := PBDNSMessage__Type_val DNSResponseType;
  m_has_messageid := false; m_messageid := bin_null;
  m_has_serveridentity := false; m_serveridentity := bin_null;
  m_has_socketfamily := true; m_socketfamily := PBDNSMessage__SocketFamily_val INET;
  m_has_socketprotocol := false; m_socketprotocol := 0;
  m_has_from := true; m_from := {| bin_len := 4; bin_data := Some [x7f; x00; x00; x01] |};
  m_has_to := false; m_to := bin_null;
  m_has_inbytes := false; m_inbytes := 0;
  m_has_timesec := true; m_timesec := 1500000000;
  m_has_timeusec := false; m_timeusec := 0;
  m_has_id := true; m_id := 4711;
  m_question := Some {| q_qname := Some (bs "www.example.org"); q_has_qtype := true; q_qtype := 1;
                        q_has_qclass := true; q_qclass := 1 |};
  m_response := Some sample_response;
  m_has_originalrequestorsubnet := false; m_originalrequestorsubnet := bin_null;
  m_requestorid := None;
  m_has_initialrequestid := false; m_initialrequestid := bin_null |}.

#[local] Existing Instance lp64.

Definition sample_data : list byte := encode descriptor_of (store_pbdnsmessage sample_message).

(** The first bytes, as a dump of the recursor's stream shows them: type, socket family,
    address, time, identifier, question. *)
Example sample_data_prefix :
  take 23 sample_data =
    [x08; x02; x20; x01; x32; x04; x7f; x00; x00; x01; x48; x80; xde; xa0; xcb; x05; x58; xe7; x24;
     x62; x15; x0a; x0f].
Proof. by vm_compute. Qed.

Lemma pack_unpack_roundtrip_witness :
  message_ok sample_message = true ∧
  ∃ n data,
    @pbdnsmessage__get_packed_size lp64 debug_build wire (store_pbdnsmessage sample_message) = Ok n ∧
    length data = n ∧ unpack_message data = Some sample_message ∧
    @pbdnsmessage__pack lp64 debug_build wire (store_pbdnsmessage sample_message) (replicate 8 x00) =
      (if n <=? 8 then Ok (n, data ++ drop n (replicate 8 x00)) else Fault OutOfBoundsWrite) ∧
    @pbdnsmessage__pack_to_buffer lp64 debug_build wire (store_pbdnsmessage sample_message)
      (replicate 8 x00) = Ok (n, replicate 8 x00 ++ data).
Proof.
  split; [by vm_compute|].
  apply (@pack_unpack_roundtrip lp64 debug_build wire wire_laws sample_message (replicate 8 x00)).
  - by vm_compute.
  - by vm_compute.
Defined.

Lemma unpack_well_formed_witness :
  ∃ raw m, @pbdnsmessage__unpack lp64 wire sample_data = Some raw ∧
    raw = store_pbdnsmessage m ∧ unpack_message sample_data = Some m ∧ message_ok m = true ∧
    msg_wf m ∧ @pbdnsmessage__free_unpacked debug_build (Some raw) = Ok ().
Proof.
  destruct (@pbdnsmessage__unpack lp64 wire sample_data) as [raw|] eqn:E.
  - destruct (@unpack_well_formed lp64 debug_build wire wire_laws sample_data raw) as (m & Hm).
    + by vm_compute.
    + exact E.
    + exists raw, m. split; [reflexivity|exact Hm].
  - exfalso. revert E. vm_compute. discriminate.
Defined.
