(* ===== verification/Ini.v ===== *)
(** * The INI parser: src/inih/ini.c, ini.h (as configured by its defaults)

    Lines are read with an [fgets]-style reader into a 200-byte array, stripped, and
    classified as comment, continuation, section or name/value pair; for each value
    the handler is called.  A C string is given by its contents, a position in it by
    what precedes and what follows it; the handler's user data is threaded through. *)

From S2P Require Import Prelude CLib.

Definition MAX_SECTION : nat := 50.
Definition MAX_NAME : nat := 50.
Definition INI_MAX_LINE : nat := 200.
Definition INI_INLINE_COMMENT_PREFIXES : list byte := bs ";".

(** [ini_handler]: nonzero ([true]) on success. *)
Definition ini_handler (U : Type) := list byte → list byte → list byte → Z → U → bool * U.

(** ** String helpers *)

(** The loop of [rstrip], [p] being the offset the pointer has. *)
Fixpoint rstrip_loop (p : nat) (s : list byte) : list byte :=
  match p with
  | O => s
  | S p =>
      match s !! p with
      | Some b => if isspace b then rstrip_loop p (take p s) else s
      | None => s
      end
  end.
Definition rstrip (s : list byte) : list byte := rstrip_loop (length s) s.

Fixpoint lskip (s : list byte) : list byte :=
  match s with
  | b :: s' => if isspace b then lskip s' else s
  | [] => []
  end.

(** [find_chars_or_comment(s, chars)]: the characters before the position it returns
    and those from it on; [chars] may be null. *)
Fixpoint find_chars_or_comment (chars : option (list byte)) (was_space : bool) (s : list byte) :
    list byte * list byte :=
  match s with
  | [] => ([], [])
  | b :: s' =>
      if match chars with Some cs => strchr cs b | None => false end
         || was_space && strchr INI_INLINE_COMMENT_PREFIXES b
      then ([], s)
      else let '(pre, suf) := find_chars_or_comment chars (isspace b) s' in (b :: pre, suf)
  end.

(** The string in [dest] after [strncpy0(dest, src, size)]. *)
Definition strncpy0 (src : list byte) (size : nat) : list byte := trunc_str size src.

(** ** Readers: the line stored in the array, and the rest of the stream *)

Definition ini_reader := nat → list byte → option (list byte * list byte).

(** The loop of [ini_reader_string]: [num] characters of room, the NUL included. *)
Fixpoint reader_loop (num : nat) (rest : list byte) : list byte * list byte :=
  match num, rest with
  | S (S num), c :: rest =>
      if Byte.eqb c LF then ([c], rest)
      else let '(str, rest) := reader_loop (S num) rest in (c :: str, rest)
  | _, _ => ([], rest)
  end.

Definition ini_reader_string : ini_reader := λ num rest,
  match rest with
  | [] => None
  | _ => if num <? 2 then None else Some (reader_loop num rest)
  end.

(** The offset just past the first line feed, or the end. *)
Fixpoint line_end (s : list byte) : nat :=
  match s with
  | [] => 0
  | c :: s => if Byte.eqb c LF then 1 else S (line_end s)
  end.

(** [fgets(str, num, file)] *)
Definition fgets : ini_reader := λ num s,
  if (num <? 2) || (length s =? 0) then None
  else let k := pred num `min` line_end s in Some (take k s, drop k s).

(** ** One line *)

Record ini_state (U : Type) := {
  i_section : list byte;
  i_prev_name : list byte;
  i_error : Z;
  i_user : U;
}.
Arguments i_section {U} _.
Arguments i_prev_name {U} _.
Arguments i_error {U} _.
Arguments i_user {U} _.

Definition first_is (s : list byte) (cs : list byte) : bool :=
  match s with b :: _ => bool_decide (b ∈ cs) | [] => false end.

Definition nonempty (s : list byte) : bool := match s with [] => false | _ => true end.

Section ini.
Context {U : Type} (handler : ini_handler U).

Definition set_error (ok : bool) (lineno : Z) (st : ini_state U) : ini_state U :=
  {| i_section := i_section st; i_prev_name := i_prev_name st;
     i_error := if negb ok && (i_error st =? 0)%Z then lineno else i_error st;
     i_user := i_user st |}.

Definition call_handler (name value : list byte) (lineno : Z) (st : ini_state U) : ini_state U :=
  let '(ok, u) := handler (i_section st) name value lineno (i_user st) in
  set_error ok lineno
    {| i_section := i_section st; i_prev_name := i_prev_name st; i_error := i_error st; i_user := u |}.

(** The UTF-8 byte order mark at the start of the first line. *)
Definition skip_bom (lineno : Z) (line : list byte) : list byte :=
  match line with
  | xef :: xbb :: xbf :: rest => if (lineno =? 1)%Z then rest else line
  | _ => line
  end.

(** The body of the loop of [ini_parse_stream] on the string [line]. *)
Definition parse_line (lineno : Z) (line : list byte) (st : ini_state U) : ini_state U :=
  let start := lskip (rstrip (skip_bom lineno line)) in
  (* start > line *)
  let moved := length (skip_bom lineno line) <? length line in
  let moved := moved || (length start <? length (rstrip (skip_bom lineno line))) in
  if first_is start (bs ";#") then st
  else if nonempty (i_prev_name st) && nonempty start && moved then
    call_handler (i_prev_name st) start lineno st
  else if first_is start (bs "[") then
    let '(pre, suf) := find_chars_or_comment (Some (bs "]")) false (tail start) in
    if first_is suf (bs "]") then
      {| i_section := strncpy0 pre MAX_SECTION; i_prev_name := [];
         i_error := i_error st; i_user := i_user st |}
    else set_error false lineno st
  else if nonempty start then
    let '(pre, suf) := find_chars_or_comment (Some (bs "=:")) false start in
    if first_is suf (bs "=:") then
      let name := rstrip pre in
      let value := (find_chars_or_comment None false (tail suf)).1 in
      let value := rstrip (lskip value) in
      call_handler name value lineno
        {| i_section := i_section st; i_prev_name := strncpy0 name MAX_NAME;
           i_error := i_error st; i_user := i_user st |}
    else set_error false lineno st
  else st.

(** What the string functions see of a line that contains a NUL. *)
Definition line_str (line : list byte) : list byte := default line (cstr line).

Fixpoint stream_loop (fuel : nat) (reader : ini_reader) (stream : list byte) (lineno : Z)
    (st : ini_state U) : ini_state U :=
  match fuel with
  | O => st
  | S fuel =>
      match reader INI_MAX_LINE stream with
      | None => st
      | Some (line, stream) =>
          let lineno := (lineno + 1)%Z in
          stream_loop fuel reader stream lineno (parse_line lineno (line_str line) st)
      end
  end.

Definition ini_init (user : U) : ini_state U :=
  {| i_section := []; i_prev_name := []; i_error := 0; i_user := user |}.

(** Every line takes at least one byte of the stream. *)
Definition ini_parse_stream (reader : ini_reader) (stream : list byte) (user : U) : Z * U :=
  let st := stream_loop (S (length stream)) reader stream 0 (ini_init user) in
  (i_error st, i_user st).

Definition ini_parse_file (file : list byte) (user : U) : Z * U := ini_parse_stream fgets file user.

(** [file]: the bytes of the file, [None] when it cannot be opened. *)
Definition ini_parse (file : option (list byte)) (user : U) : Z * U :=
  match file with
  | None => ((-1)%Z, user)
  | Some file => ini_parse_file file user
  end.

Definition ini_parse_string (s : list byte) (user : U) : Z * U :=
  ini_parse_stream ini_reader_string s user.
End ini.

(** ** Lemmas on the helpers *)

(** No whitespace at the end (at the start) of a string. *)
Definition rstripped (s : list byte) : Prop :=
  match last s with Some b => isspace b = false | None => True end.
Definition lstripped (s : list byte) : Prop :=
  match s with b :: _ => isspace b = false | [] => True end.

Lemma rstrip_snoc s b : isspace b = true → rstrip (s ++ [b]) = rstrip s.
Proof.
  intros Hb. unfold rstrip. rewrite length_app, Nat.add_1_r. cbn [rstrip_loop].
  rewrite lookup_app_r, Nat.sub_diag by lia. simpl. by rewrite Hb, take_app_length.
Qed.

Lemma rstrip_id s : rstripped s → rstrip s = s.
Proof.
  unfold rstripped, rstrip. destruct (exists_last' s) as [->|[k [b ->]]]; [done|].
  rewrite last_snoc. intros Hb. rewrite length_app, Nat.add_1_r. cbn [rstrip_loop].
  rewrite lookup_app_r, Nat.sub_diag by lia. simpl. by rewrite Hb.
Qed.

Lemma lskip_id s : lstripped s → lskip s = s.
Proof. destruct s as [|b s]; simpl; [done|]. by intros ->. Qed.

(** A string without the sought characters and without a comment character. *)
Definition free_of (cs s : list byte) : Prop := Forall (λ b, b ∉ cs) s.

Lemma find_chars_spec cs w pre c suf :
  free_of (cs ++ INI_INLINE_COMMENT_PREFIXES) pre → c ∈ cs →
  find_chars_or_comment (Some cs) w (pre ++ c :: suf) = (pre, c :: suf).
Proof.
  intros Hpre Hc; revert w; induction Hpre as [|b pre Hb Hpre IH]; intros w; simpl.
  - unfold strchr. by rewrite bool_decide_true by done.
  - unfold strchr. apply not_elem_of_app in Hb as [Hb1 Hb2].
    rewrite !bool_decide_false, andb_false_r by done. simpl. by rewrite IH.
Qed.

Lemma find_none_spec w s :
  free_of INI_INLINE_COMMENT_PREFIXES s → find_chars_or_comment None w s = (s, []).
Proof.
  intros Hs; revert w; induction Hs as [|b s Hb Hs IH]; intros w; [done|]; simpl.
  unfold strchr. rewrite bool_decide_false, andb_false_r by done. by rewrite IH.
Qed.

(** ** Lemmas on the readers *)

Lemma line_end_pos c s : 0 < line_end (c :: s).
Proof. simpl. destruct (Byte.eqb c LF); lia. Qed.

Lemma line_end_app s t : LF ∉ s → line_end (s ++ LF :: t) = S (length s).
Proof.
  induction s as [|c s IH]; intros Hs; simpl; [done|].
  apply not_elem_of_cons in Hs as [Hc Hs].
  destruct (Byte.eqb c LF) eqn:E; [by apply Byte.byte_dec_bl in E|]. by rewrite IH.
Qed.

Lemma reader_loop_spec num s :
  reader_loop num s = (take (pred num `min` line_end s) s, drop (pred num `min` line_end s) s).
Proof.
  revert num; induction s as [|c s IH]; intros num.
  { by destruct num as [|[|num]]; simpl; rewrite ?take_nil, ?drop_nil. }
  destruct num as [|[|num]]; [done|done|]. cbn [reader_loop line_end pred].
  destruct (Byte.eqb c LF); [by rewrite Nat.min_r by lia|].
  rewrite IH. simpl. done.
Qed.

Lemma reader_fgets num s : ini_reader_string num s = fgets num s.
Proof.
  unfold ini_reader_string, fgets. destruct s as [|c s]; [by rewrite orb_true_r|].
  rewrite orb_false_r. destruct (num <? 2); [done|]. by rewrite reader_loop_spec.
Qed.

(** A reader that shortens the stream needs no more turns than the stream has bytes. *)
Lemma stream_loop_fuel {U} (h : ini_handler U) n s lineno st :
  length s < n → stream_loop h n fgets s lineno st = stream_loop h (S (length s)) fgets s lineno st.
Proof.
  enough (∀ n m s lineno st, length s < n → length s < m →
    stream_loop h n fgets s lineno st = stream_loop h m fgets s lineno st) as Hen.
  { intros. apply Hen; lia. }
  clear. induction n as [|n IH]; intros [|m] s lineno st Hn Hm; [lia|lia|lia|].
  cbn [stream_loop]. unfold fgets. destruct s as [|c s]; [done|].
  cbn [length Nat.eqb]. rewrite orb_false_r.
  destruct (INI_MAX_LINE <? 2) eqn:E; [done|]. apply IH; rewrite length_drop;
    pose proof (line_end_pos c s); simpl length in *; unfold INI_MAX_LINE in *; lia.
Qed.

(** Reading a line that fits. *)
(** What every call of the handler preserves, parsing preserves. *)
Lemma ini_parse_invariant {U} (h : ini_handler U) (P : U → Prop) text u :
  (∀ sec n v l u, P u → P (h sec n v l u).2) → P u → P (ini_parse h (Some text) u).2.
Proof.
  intros Hh Hu. unfold ini_parse, ini_parse_file, ini_parse_stream. cbn [snd].
  assert (∀ n v l st, P (i_user st) → P (i_user (call_handler h n v l st))) as Hc.
  { intros n v l st Hst. unfold call_handler. specialize (Hh (i_section st) n v l _ Hst).
    by destruct (h _ _ _ _ _). }
  assert (∀ fuel str l st, P (i_user st) → P (i_user (stream_loop h fuel fgets str l st))) as Hs.
  { induction fuel as [|fuel IH]; intros str l st Hst; [done|]. simpl.
    destruct (fgets INI_MAX_LINE str) as [[line str']|]; [|done].
    apply IH. unfold parse_line. repeat case_match; auto. }
  by apply Hs.
Qed.

Lemma fgets_line s t :
  LF ∉ s → length s + 2 ≤ INI_MAX_LINE → fgets INI_MAX_LINE (s ++ LF :: t) = Some (s ++ [LF], t).
Proof.
  intros Hs Hl. unfold fgets.
  destruct (INI_MAX_LINE <? 2) eqn:E; [done|]. rewrite length_app. simpl length.
  rewrite (proj2 (Nat.eqb_neq _ _)) by lia. cbn [orb].
  rewrite line_end_app, Nat.min_r by (done || lia).
  replace (s ++ LF :: t) with ((s ++ [LF]) ++ t) by (by rewrite <- app_assoc).
  rewrite take_app_length', drop_app_length' by (rewrite length_app; simpl; lia). done.
Qed.

Lemma stream_loop_line {U} (h : ini_handler U) n s t lineno st :
  LF ∉ s → nul_free s → length s + 2 ≤ INI_MAX_LINE →
  stream_loop h (S n) fgets (s ++ LF :: t) lineno st =
  stream_loop h n fgets t (lineno + 1) (parse_line h (lineno + 1) (s ++ [LF]) st).
Proof.
  intros Hs Hnul Hl. cbn [stream_loop]. rewrite fgets_line by done. cbv zeta.
  assert (line_str (s ++ [LF]) = s ++ [LF]) as ->; [|done].
  unfold line_str. rewrite (proj2 (cstr_None _)); [done|].
  apply not_elem_of_app. split; [done|]. by intros ?%list_elem_of_singleton.
Qed.

(** ** Configurations and their text *)

(** Sections in order, each with its name/value pairs in order. *)
Definition config := list (list byte * list (list byte * list byte)).

Definition print_pair (kv : list byte * list byte) : list byte := kv.1 ++ bs "=" ++ kv.2.
Definition print_header (sec : list byte) : list byte := bs "[" ++ sec ++ bs "]".
Definition print_section (s : list byte * list (list byte * list byte)) : list (list byte) :=
  print_header s.1 :: (print_pair <$> s.2).
Definition print_ini (cfg : config) : list byte :=
  concat ((λ l, l ++ [LF]) <$> concat (print_section <$> cfg)).

(** The handler calls a configuration stands for, with the line numbers of its text. *)
Fixpoint call_pairs {U} (h : ini_handler U) (sec : list byte) (kvs : list (list byte * list byte))
    (lineno : Z) (u : U) : U :=
  match kvs with
  | [] => u
  | (n, v) :: kvs => call_pairs h sec kvs (lineno + 1) (h sec n v (lineno + 1)%Z u).2
  end.
Fixpoint call_sections {U} (h : ini_handler U) (cfg : config) (lineno : Z) (u : U) : U :=
  match cfg with
  | [] => u
  | (sec, kvs) :: cfg =>
      call_sections h cfg (lineno + 1 + Z.of_nat (length kvs))
        (call_pairs h sec kvs (lineno + 1) u)
  end.

(** What a name, a value and a section may be for the text to say what is meant. *)
Record pair_ok (kv : list byte * list byte) : Prop := {
  ok_name : kv.1 ≠ [] ∧ lstripped kv.1 ∧ rstripped kv.1;
  ok_first : first_is kv.1 (bs ";#[") = false;
  ok_name_chars : free_of (bs "=:" ++ INI_INLINE_COMMENT_PREFIXES) kv.1;
  ok_value : lstripped kv.2 ∧ rstripped kv.2;
  ok_value_chars : free_of INI_INLINE_COMMENT_PREFIXES kv.2;
  ok_text : LF ∉ kv.1 ++ kv.2 ∧ nul_free (kv.1 ++ kv.2);
  ok_length : length kv.1 + length kv.2 + 3 ≤ INI_MAX_LINE;
}.

Record section_ok (sec : list byte) : Prop := {
  ok_sec_chars : free_of (bs "]" ++ INI_INLINE_COMMENT_PREFIXES) sec;
  ok_sec_text : LF ∉ sec ∧ nul_free sec;
  ok_sec_length : length sec < MAX_SECTION;
}.

Section lines.
Context {U : Type} (h : ini_handler U).

(** A line whose first character is not blank, read with its line feed. *)
Lemma start_of_line lineno b s :
  isspace b = false → rstripped (b :: s) → (lineno ≠ 1)%Z ∨ b ≠ xef →
  skip_bom lineno ((b :: s) ++ [LF]) = (b :: s) ++ [LF] ∧
  rstrip ((b :: s) ++ [LF]) = b :: s ∧ lskip (b :: s) = b :: s.
Proof.
  intros Hb Hr Hbom. split_and!; [|by rewrite rstrip_snoc, rstrip_id|by apply lskip_id].
  simpl. destruct b; try done. destruct Hbom as [Hl|]; [|done].
  rewrite (proj2 (Z.eqb_neq _ _)) by done.
  destruct (s ++ [LF]) as [|b1 l]; [done|]. destruct b1; try done.
  destruct l as [|b2 l]; [done|]. by destruct b2.
Qed.

Lemma parse_line_header lineno sec st :
  section_ok sec →
  parse_line h lineno (print_header sec ++ [LF]) st =
    {| i_section := sec; i_prev_name := []; i_error := i_error st; i_user := i_user st |}.
Proof.
  intros [Hc Ht Hl]. unfold parse_line, print_header.
  change (bs "[" ++ sec ++ bs "]") with (x5b :: sec ++ [x5d]).
  destruct (start_of_line lineno x5b (sec ++ [x5d])) as (-> & -> & ->); [done| |by right|].
  { unfold rstripped. by rewrite app_comm_cons, last_snoc. }
  rewrite !Nat.ltb_irrefl, andb_false_r. cbn -[find_chars_or_comment strncpy0].
  rewrite (find_chars_spec [x5d]) by (done || by apply list_elem_of_singleton).
  cbn -[strncpy0]. f_equal. apply take_ge. unfold MAX_SECTION in *. simpl. lia.
Qed.

Lemma parse_line_pair lineno kv st :
  pair_ok kv → (lineno ≠ 1)%Z →
  (h (i_section st) kv.1 kv.2 lineno (i_user st)).1 = true →
  parse_line h lineno (print_pair kv ++ [LF]) st =
    {| i_section := i_section st; i_prev_name := strncpy0 kv.1 MAX_NAME;
       i_error := i_error st;
       i_user := (h (i_section st) kv.1 kv.2 lineno (i_user st)).2 |}.
Proof.
  destruct kv as [[|b n] v]; intros [(Hne & Hls & Hrs) Hf Hc (Hvl & Hvr) Hvc _ _] Hl Hh; [done|].
  simpl fst in *. simpl snd in *.
  unfold parse_line, print_pair. simpl fst. simpl snd. rewrite <- app_comm_cons.
  destruct (start_of_line lineno b (n ++ bs "=" ++ v)) as (-> & -> & ->); [done| |by left|].
  { unfold rstripped in *. change (bs "=") with [x3d].
    rewrite app_comm_cons, app_assoc. destruct (exists_last' v) as [->|[v' [c ->]]].
    - by rewrite app_nil_r, last_snoc.
    - by rewrite last_snoc in Hvr; rewrite app_assoc, last_snoc. }
  rewrite !Nat.ltb_irrefl, andb_false_r.
  assert (first_is (b :: n ++ bs "=" ++ v) (bs ";#") = false ∧
          first_is (b :: n ++ bs "=" ++ v) (bs "[") = false) as [-> ->].
  { unfold first_is, bs in *. cbn in *. apply bool_decide_eq_false in Hf.
    rewrite !not_elem_of_cons in Hf.
    split; apply bool_decide_eq_false; rewrite !not_elem_of_cons; naive_solver. }
  cbn [nonempty]. rewrite app_comm_cons. change (bs "=" ++ v) with (x3d :: v).
  rewrite (find_chars_spec (bs "=:") false (b :: n)) by (done || by apply list_elem_of_here).
  change (first_is (x3d :: v) (bs "=:")) with true. cbn [tail]. cbv iota zeta.
  rewrite find_none_spec, rstrip_id by done. cbn [fst].
  rewrite lskip_id, rstrip_id by done. unfold call_handler. cbn [i_section i_user i_prev_name i_error].
  destruct (h _ _ _ _ _) as [ok u]. simpl in Hh. subst ok. done.
Qed.
End lines.

Section roundtrip.
Context {U : Type} (h : ini_handler U) (h_ok : ∀ sec n v l u, (h sec n v l u).1 = true).

Lemma stream_pairs kvs n t lineno st :
  Forall pair_ok kvs → (1 ≤ lineno)%Z →
  ∃ pn, stream_loop h (length kvs + n) fgets
      (concat ((λ l, l ++ [LF]) <$> (print_pair <$> kvs)) ++ t) lineno st =
    stream_loop h n fgets t (lineno + Z.of_nat (length kvs))
      {| i_section := i_section st; i_prev_name := pn; i_error := i_error st;
         i_user := call_pairs h (i_section st) kvs lineno (i_user st) |}.
Proof.
  intros Hkvs; revert lineno st; induction Hkvs as [|kv kvs Hkv Hkvs IH]; intros lineno st Hl.
  { exists (i_prev_name st). simpl. rewrite Z.add_0_r. by destruct st. }
  rewrite !fmap_cons. cbn [concat length Nat.add]. rewrite <- !app_assoc. cbn [app].
  pose proof Hkv as [_ _ _ _ _ (Hlf & Hnul) Hlen].
  apply not_elem_of_app in Hlf as [Hlf1 Hlf2]. apply not_elem_of_app in Hnul as [Hn1 Hn2].
  rewrite stream_loop_line.
  - rewrite parse_line_pair by (done || lia || apply h_ok).
    destruct (IH (lineno + 1)%Z {| i_section := i_section st; i_prev_name := strncpy0 kv.1 MAX_NAME;
      i_error := i_error st; i_user := (h (i_section st) kv.1 kv.2 (lineno + 1)%Z (i_user st)).2 |})
      as [pn ->]; [lia|].
    exists pn. destruct kv as [k v]. simpl. f_equal. lia.
  - unfold print_pair. change (bs "=") with [x3d].
    rewrite !not_elem_of_app, list_elem_of_singleton. done.
  - unfold print_pair, nul_free. change (bs "=") with [x3d].
    rewrite !not_elem_of_app, list_elem_of_singleton. done.
  - unfold print_pair. rewrite !length_app. simpl. lia.
Qed.

Lemma stream_sections cfg n lineno st :
  Forall (λ s, section_ok s.1 ∧ Forall pair_ok s.2) cfg → (0 ≤ lineno)%Z → 
  let lines := concat (print_section <$> cfg) in
  ∃ sec pn, stream_loop h (length lines + S n) fgets (print_ini cfg) lineno st =
    {| i_section := sec; i_prev_name := pn; i_error := i_error st;
       i_user := call_sections h cfg lineno (i_user st) |}.
Proof.
  intros Hcfg; revert lineno st; induction Hcfg as [|[sec kvs] cfg [Hsec Hkvs] _ IH];
    intros lineno st Hl; cbn [fst snd] in *.
  { exists (i_section st), (i_prev_name st). by destruct st. }
  unfold print_ini. rewrite fmap_cons. cbn [concat]. unfold print_section at 1 3. cbn [fst snd].
  rewrite length_app, <- Nat.add_assoc. cbn [length Nat.add]. rewrite fmap_app, concat_app.
  rewrite fmap_cons. cbn [concat]. rewrite <- !app_assoc. cbn [app].
  pose proof Hsec as [Hc (Hlf & Hnul) Hlen].
  rewrite stream_loop_line.
  - rewrite parse_line_header, length_fmap by done.
    destruct (stream_pairs kvs (length (concat (print_section <$> cfg)) + S n)
      (print_ini cfg) (lineno + 1)%Z {| i_section := sec; i_prev_name := [];
        i_error := i_error st; i_user := i_user st |} Hkvs) as [pn Hp]; [lia|].
    unfold print_ini in Hp at 1. rewrite Hp. cbn [i_section i_error i_user].
    edestruct (IH (lineno + 1 + Z.of_nat (length kvs))%Z) as (sec' & pn' & ->); [lia|].
    exists sec', pn'. done.
  - unfold print_header. change (bs "[") with [x5b]. change (bs "]") with [x5d].
    rewrite !not_elem_of_app, !list_elem_of_singleton. done.
  - unfold print_header, nul_free. change (bs "[") with [x5b]. change (bs "]") with [x5d].
    rewrite !not_elem_of_app, !list_elem_of_singleton. done.
  - unfold print_header. rewrite !length_app. unfold INI_MAX_LINE, MAX_SECTION in *. simpl. lia.
Qed.
End roundtrip.

Lemma print_ini_length cfg : length (concat (print_section <$> cfg)) ≤ length (print_ini cfg).
Proof.
  unfold print_ini. induction (concat (print_section <$> cfg)) as [|l ls IH]; [simpl; lia|].
  rewrite fmap_cons. cbn [concat length]. rewrite !length_app. simpl length. lia.
Qed.

(** ** The properties *)

(** Parsing what was printed. *)
Lemma ini_parse_printed {U} (h : ini_handler U) cfg u :
  (∀ sec n v l u, (h sec n v l u).1 = true) →
  Forall (λ s, section_ok s.1 ∧ Forall pair_ok s.2) cfg →
  ini_parse h (Some (print_ini cfg)) u = (0%Z, call_sections h cfg 0 u).
Proof.
  intros Hh Hcfg. unfold ini_parse, ini_parse_file, ini_parse_stream.
  pose proof (print_ini_length cfg) as Hle.
  destruct (stream_sections h Hh cfg (length (print_ini cfg) - length (concat (print_section <$> cfg)))
    0 (ini_init u) Hcfg) as (sec & pn & Hs); [lia|]. simpl in Hs.
  rewrite stream_loop_fuel in Hs by lia. rewrite Hs. done.
Qed.

(** C16: parsing the text of a configuration calls the handler exactly once for every
    name/value pair, in order, with its section and line number, and reports no error,
    for any sections, names and values that fit the buffers (sections of less than 50,
    lines of less than 199 characters) and do not contain the separators. *)
Theorem ini_roundtrip {U} (h : ini_handler U) cfg u :
  (∀ sec n v l u, (h sec n v l u).1 = true) →
  Forall (λ s, section_ok s.1 ∧ Forall pair_ok s.2) cfg →
  ini_parse h (Some (print_ini cfg)) u = (0%Z, call_sections h cfg 0 u).
Proof. apply ini_parse_printed. Qed.

(** Reading the INI text from a string is reading it from a file with the same
    bytes: [ini_reader_string] is [fgets]. *)
Theorem ini_string_is_file {U} (h : ini_handler U) s u :
  ini_parse_string h s u = ini_parse_file h s u ∧ ∀ num, ini_reader_string num s = fgets num s.
Proof.
  split; [|intros; apply reader_fgets]. unfold ini_parse_string, ini_parse_file, ini_parse_stream.
  assert (∀ n s lineno st, stream_loop h n ini_reader_string s lineno st =
    stream_loop h n fgets s lineno st) as ->; [|done].
  clear. induction n as [|n IH]; intros s lineno st; [done|]. cbn [stream_loop].
  rewrite reader_fgets. destruct (fgets INI_MAX_LINE s) as [[line rest]|]; [|done]. apply IH.
Qed.

(** ** Concrete configurations *)

Ltac by_computation := refine (bool_decide_unpack _ _); vm_compute; exact I.

(** Checks that a concrete section or pair is fit for printing. *)
Ltac check_text :=
  split; simpl fst; simpl snd;
  repeat match goal with
  | |- _ ∧ _ => split
  | |- _ ≠ [] => discriminate
  | |- lstripped _ => vm_compute; exact eq_refl || exact I
  | |- rstripped _ => vm_compute; exact eq_refl || exact I
  | |- free_of _ _ => unfold free_of; by_computation
  | |- nul_free _ => by_computation
  | |- _ ∉ _ => by_computation
  | |- _ = _ => vm_compute; reflexivity
  | |- _ => vm_compute; lia
  end.

Ltac check_config :=
  repeat match goal with
  | |- Forall _ (_ :: _) => constructor
  | |- Forall _ [] => constructor
  | |- section_ok _ ∧ _ => split
  | |- section_ok _ => check_text
  | |- pair_ok _ => check_text
  | |- _ => progress simpl fst
  | |- _ => progress simpl snd
  end.

(** A handler that records its calls. *)
Definition recorder : ini_handler (list (list byte * list byte * list byte * Z)) :=
  λ sec n v l u, (true, u ++ [(sec, n, v, l)]).

Definition demo_cfg : config :=
  [(bs "globals", [(bs "bind-ip", bs "127.0.0.1"); (bs "bind-port", bs "4242")]);
   (bs "logfile", [(bs "disabled", bs "0")])].

Lemma ini_roundtrip_witness :
  ini_parse recorder (Some (print_ini demo_cfg)) [] =
  (0%Z, [(bs "globals", bs "bind-ip", bs "127.0.0.1", 2%Z);
         (bs "globals", bs "bind-port", bs "4242", 3%Z);
         (bs "logfile", bs "disabled", bs "0", 5%Z)]).
Proof.
  rewrite (ini_roundtrip recorder demo_cfg []); [reflexivity|done|].
  unfold demo_cfg. check_config.
Defined.
