(* ===== verification/Config.v ===== *)
(** * The daemon's own settings: src/pdns-logger-ini.c

    The INI handler of section [globals] and [parse_config_file].  Messages on
    standard error are not modelled. *)

From S2P Require Import Prelude CLib Common Ini.

Definition set_bind_ip (v : cstring) (g : globals_t) : globals_t :=
  {| g_user := g_user g; g_group := g_group g; g_config_file := g_config_file g;
     g_bind_ip := v; g_bind_port := g_bind_port g; g_allow_root := g_allow_root g;
     g_foreground := g_foreground g; g_running := g_running g; g_verbose := g_verbose g;
     g_socket := g_socket g |}.
Definition set_bind_port (v : Z) (g : globals_t) : globals_t :=
  {| g_user := g_user g; g_group := g_group g; g_config_file := g_config_file g;
     g_bind_ip := g_bind_ip g; g_bind_port := v; g_allow_root := g_allow_root g;
     g_foreground := g_foreground g; g_running := g_running g; g_verbose := g_verbose g;
     g_socket := g_socket g |}.
Definition set_allow_root (v : bool) (g : globals_t) : globals_t :=
  {| g_user := g_user g; g_group := g_group g; g_config_file := g_config_file g;
     g_bind_ip := g_bind_ip g; g_bind_port := g_bind_port g; g_allow_root := v;
     g_foreground := g_foreground g; g_running := g_running g; g_verbose := g_verbose g;
     g_socket := g_socket g |}.
Definition set_foreground (v : bool) (g : globals_t) : globals_t :=
  {| g_user := g_user g; g_group := g_group g; g_config_file := g_config_file g;
     g_bind_ip := g_bind_ip g; g_bind_port := g_bind_port g; g_allow_root := g_allow_root g;
     g_foreground := v; g_running := g_running g; g_verbose := g_verbose g;
     g_socket := g_socket g |}.

Definition opt_handler : ini_handler globals_t := λ section name value lineno globals,
  if zstr (Some section) || zstr (Some name) || zstr (Some value) then (true, globals)
  else if opt_is section "globals" then
    if opt_is name "bind-ip" then (true, set_bind_ip (Some value) globals)
    else if opt_is name "bind-port" then (true, set_bind_port (atoi value) globals)
    else if opt_is name "allow-root" then (true, set_allow_root (opt_flag value) globals)
    else if opt_is name "foreground" then (true, set_foreground (opt_flag value) globals)
    else (true, globals)
  else (true, globals).

(** [files] gives the contents of the file a path names, if it can be opened. *)
Definition parse_config_file (files : list byte → option (list byte)) (cf : cstring)
    (globals : globals_t) : pdns_status * globals_t :=
  match cf with
  | None | Some [] => (PDNS_NO, globals)
  | Some path =>
      let '(r, globals) := ini_parse opt_handler (files path) globals in
      if (r =? 0)%Z then (PDNS_OK, globals) else (PDNS_NO, globals)
  end.

(** ** Lemmas *)

Lemma opt_handler_ok sec n v l g : (opt_handler sec n v l g).1 = true.
Proof. unfold opt_handler. by repeat case_match. Qed.

(** Options of other sections leave the settings alone. *)
Lemma opt_handler_other sec n v l g :
  sec ≠ bs "globals" → (opt_handler sec n v l g).2 = g.
Proof.
  intros Hs. unfold opt_handler. rewrite opt_is_eq, bool_decide_false by done. by case_match.
Qed.

Lemma call_pairs_other sec kvs lineno g :
  sec ≠ bs "globals" → call_pairs opt_handler sec kvs lineno g = g.
Proof.
  intros Hs. revert lineno g. induction kvs as [|[n v] kvs IH]; intros lineno g; [done|]. simpl.
  by rewrite opt_handler_other, IH.
Qed.

Lemma call_sections_other cfg lineno g :
  Forall (λ s, s.1 ≠ bs "globals") cfg → call_sections opt_handler cfg lineno g = g.
Proof.
  intros Hc; revert lineno. induction Hc as [|[sec kvs] cfg Hs Hc IH]; intros lineno; [done|].
  simpl. by rewrite call_pairs_other.
Qed.

(** ** The properties *)

(** The [globals] section for the given settings. *)
Definition bool_text (b : bool) : list byte := bs (if b then "1" else "0").
Definition globals_section (ip : list byte) (port : Z) (root fg : bool) :=
  (bs "globals", [(bs "bind-ip", ip); (bs "bind-port", udec port);
                  (bs "allow-root", bool_text root); (bs "foreground", bool_text fg)]).

Lemma digits_pair_ok name port :
  pair_ok (name, bs "0") → (0 ≤ port < 2 ^ 31)%Z → length name ≤ 50 → pair_ok (name, udec port).
Proof.
  intros [Hn Hf Hc _ _ (Hlf & Hnul) _] Hp Hl. simpl in *.
  pose proof (udec_digits port) as Hd. specialize (Hd (proj1 Hp)).
  pose proof (udec_length 10 port) as Hlen.
  destruct (udec_cons port) as (b & s & E & Hb); [lia|].
  assert (∀ c, isdigit c = true → isspace c = false ∧ c ≠ LF ∧ c ≠ NUL ∧ c ≠ x3b) as Hdig.
  { intros c Hc'. split_and!; [|intros ->; done..]. unfold isdigit in Hc'. unfold isspace. lia. }
  apply not_elem_of_app in Hlf as [Hlf _]. apply not_elem_of_app in Hnul as [Hnul _].
  rewrite Forall_forall in Hd.
  split; simpl fst; simpl snd; [done|done|done|..].
  - split.
    + rewrite E. simpl. by apply Hdig.
    + unfold rstripped. destruct (last (udec port)) as [c|] eqn:El; [|done].
      apply Hdig, Hd. apply last_Some_elem_of in El. done.
  - apply Forall_forall. intros c Hc' Hin. apply list_elem_of_singleton in Hin as ->.
    by apply (Hdig x3b); [apply Hd|].
  - unfold nul_free. rewrite !not_elem_of_app.
    split_and!; [done| |done|]; intros Hin%Hd; by apply Hdig in Hin as (? & ? & ? & ?).
  - unfold INI_MAX_LINE. specialize (Hlen ltac:(lia)). simpl in Hlen. lia.
Qed.

(** C26: the settings file.  Whatever other sections the file has after it, a [globals]
    section with an address, a port below 2^31 and two flags sets exactly those four
    fields and parsing succeeds. *)
Theorem globals_parse files path ip port root fg rest g :
  files path = Some (print_ini (globals_section ip port root fg :: rest)) →
  path ≠ [] → ip ≠ [] → pair_ok (bs "bind-ip", ip) → (0 ≤ port < 2 ^ 31)%Z →
  Forall (λ s, section_ok s.1 ∧ Forall pair_ok s.2) rest →
  Forall (λ s, s.1 ≠ bs "globals") rest →
  parse_config_file files (Some path) g =
    (PDNS_OK, set_foreground fg (set_allow_root root (set_bind_port port (set_bind_ip (Some ip) g)))).
Proof.
  intros Hf Hpath Hip Hok Hport Hrest Hother. unfold parse_config_file.
  destruct path as [|b path]; [done|]. rewrite Hf.
  rewrite ini_parse_printed; [|intros; apply opt_handler_ok|].
  - simpl Z.eqb. cbv iota. f_equal. cbn [call_sections globals_section].
    rewrite call_sections_other by done. cbn [call_pairs].
    destruct (udec_cons port) as (d & ds & E & _); [lia|].
    unfold opt_handler at 4. destruct ip as [|c ip]; [done|]. cbn [zstr orb].
    rewrite !opt_is_eq. cbn [bs]. rewrite !bool_decide_true by done. cbn [snd].
    unfold opt_handler at 3. rewrite E at 1. cbn [zstr orb]. rewrite !opt_is_eq.
    rewrite (bool_decide_true (bs "globals" = _)), (bool_decide_false (bs "bind-port" = bs "bind-ip")),
      (bool_decide_true (bs "bind-port" = _)) by done. cbn [snd]. rewrite atoi_udec by done.
    by destruct root, fg; vm_compute.
  - constructor; [|done]. unfold globals_section. simpl. split; [check_text|].
    repeat apply Forall_cons_2; [done| | | |by apply Forall_nil_2].
    + apply digits_pair_ok; [check_text|done|simpl; lia].
    + destruct root; check_text.
    + destruct fg; check_text.
Qed.

Lemma globals_parse_witness :
  parse_config_file
    (λ _, Some (print_ini [globals_section (bs "127.0.0.1") 4242 false true;
                           (bs "logfile", [(bs "disabled", bs "0")])]))
    (Some (bs "/etc/x.ini")) globals_zero =
  (PDNS_OK, {| g_user := None; g_group := None; g_config_file := None;
     g_bind_ip := Some (bs "127.0.0.1"); g_bind_port := 4242; g_allow_root := false;
     g_foreground := true; g_running := false; g_verbose := false; g_socket := 0 |}).
Proof.
  rewrite (globals_parse _ _ (bs "127.0.0.1") 4242 false true [(bs "logfile", [(bs "disabled", bs "0")])]).
  - reflexivity.
  - reflexivity.
  - discriminate.
  - discriminate.
  - check_text.
  - lia.
  - check_config.
  - constructor; [discriminate|constructor].
Defined.
