(* ===== verification/Protobuf.v ===== *)
(** * The client connection: src/pdns-logger-protobuf.c (first half)

    A client sends messages, each preceded by its length as a 16-bit big-endian
    integer.  [socket_thread_exec] reads whatever the socket has into an 8192-byte
    buffer, and [protobuf_extract] takes the complete messages out of it, hands each
    to the decoder and the loggers and moves the remaining bytes to the front.

    The decoder (libprotobuf-c) and the loggers are interfaces ([Decoder],
    [LogSink]); everything here holds for every implementation of them. *)

From S2P Require Import Prelude CLib Common Message.

(** libprotobuf-c's [protobuf_c_message_unpack] for this message type; [None] is the
    null pointer it returns for bytes that are not a message. *)
Class Decoder := { unpack : list byte → option PBDNSMessage }.

(** What the connection asks of the loggers: [pdns_loggers_log]. *)
Class LogSink (St : Type) := { pdns_loggers_log : PBDNSMessage → St → outcome St }.

Definition MAX_BUFFER_SIZE : nat := Z.to_nat 8192.

(** ** Array accesses, with their bounds *)

Definition load_u16be (buf : list byte) : outcome Z :=
  match buf with
  | hi :: lo :: _ => Ok (ntohs hi lo)
  | _ => Fault OutOfBoundsRead
  end.

Definition load_bytes (buf : list byte) (off n : nat) : outcome (list byte) :=
  if off + n <=? length buf then Ok (take n (drop off buf)) else Fault OutOfBoundsRead.

Definition memmove (buf : list byte) (dst src n : nat) : outcome (list byte) :=
  if (src + n <=? length buf) && (dst + n <=? length buf)
  then Ok (take dst buf ++ take n (drop src buf) ++ drop (dst + n) buf)
  else Fault OutOfBoundsWrite.

Definition store (buf : list byte) (off : nat) (data : list byte) : outcome (list byte) :=
  if off + length data <=? length buf
  then Ok (take off buf ++ data ++ drop (off + length data) buf)
  else Fault OutOfBoundsWrite.

(** ** The socket *)

Inductive ending := PeerClosed | PeerError.

(** What a client will send, in the pieces the kernel delivers, and how it ends. *)
Record sock := { sk_chunks : list (list byte); sk_ending : ending }.

Inductive read_result := RData (data : list byte) | REof | RErr.

(** [read(socket, p, count)]: at most [count] bytes of the next piece; what does not
    fit stays for the next call. *)
Definition sock_read (count : nat) (s : sock) : read_result * sock :=
  match sk_chunks s with
  | [] => (match sk_ending s with PeerClosed => REof | PeerError => RErr end, s)
  | c :: cs =>
      if count <? length c
      then (RData (take count c), {| sk_chunks := drop count c :: cs; sk_ending := sk_ending s |})
      else (RData c, {| sk_chunks := cs; sk_ending := sk_ending s |})
  end.

(** Why the connection ended. *)
Inductive disconnect := BufferFull | ReadError | ReadEof | ExtractFailed.

Record conn_end (St : Type) := {
  ce_state : St; ce_reason : disconnect; ce_bsize : nat; }.
Arguments ce_state {St} _.
Arguments ce_reason {St} _.
Arguments ce_bsize {St} _.

(** The thread either gives up before serving the client, the socket left open, or
    serves it with the given descriptor flags and closes it. *)
Inductive thread_result (St : Type) :=
  | NotServed (st : St)
  | Served (flags : Z) (c : conn_end St).
Arguments NotServed {St} st.
Arguments Served {St} flags c.

Definition O_NONBLOCK : Z := 2048.

Section connection.
Context `{Build, Decoder} {St : Type} `{LogSink St}.

Definition protobuf_parse (buf : list byte) (st : St) : outcome (pdns_status * St) :=
  match unpack buf with
  | None => _ ← assert0; mret (PDNS_NO, st)
  | Some msg => st ← pdns_loggers_log msg st; mret (PDNS_OK, st)
  end.

(** The [while (1)] of [protobuf_extract]: the status, the buffer, [*blen]. *)
Fixpoint extract_loop (fuel : nat) (buf : list byte) (blen : nat) (st : St) :
    outcome (pdns_status * list byte * nat * St) :=
  match fuel with
  | O => Fault OutOfFuel
  | S fuel =>
      plen ← load_u16be buf;
      let plen := Z.to_nat plen in
      if plen + 2 <=? blen then
        pbuf ← load_bytes buf 2 plen;
        '(_, st) ← protobuf_parse pbuf st;
        buf ← memmove buf 0 (plen + 2) (blen - plen - 2);
        let blen := blen - plen - 2 in
        if blen =? 0 then mret (PDNS_OK, buf, blen, st) else extract_loop fuel buf blen st
      else mret (PDNS_RETRY, buf, blen, st)
  end.

Definition protobuf_extract (buf : list byte) (blen : nat) (st : St) :
    outcome (pdns_status * list byte * nat * St) :=
  if blen <? 2 then mret (PDNS_RETRY, buf, blen, st) else extract_loop (S blen) buf blen st.

(** The [while (1)] of [socket_thread_exec]. *)
Fixpoint recv_loop (fuel : nat) (buffer : list byte) (bsize : nat) (s : sock) (st : St) :
    outcome (conn_end St) :=
  match fuel with
  | O => Fault OutOfFuel
  | S fuel =>
      if bsize =? MAX_BUFFER_SIZE
      then mret {| ce_state := st; ce_reason := BufferFull; ce_bsize := bsize |}
      else
        match sock_read (MAX_BUFFER_SIZE - bsize) s with
        | (RErr, _) => mret {| ce_state := st; ce_reason := ReadError; ce_bsize := bsize |}
        | (REof, _) | (RData [], _) =>
            mret {| ce_state := st; ce_reason := ReadEof; ce_bsize := bsize |}
        | (RData data, s) =>
            buffer ← store buffer bsize data;
            let bsize := bsize + length data in
            '(status, buffer, bsize, st) ← protobuf_extract buffer bsize st;
            match status with
            | PDNS_NO => mret {| ce_state := st; ce_reason := ExtractFailed; ce_bsize := bsize |}
            | PDNS_RETRY | PDNS_OK => recv_loop fuel buffer bsize s st
            | PDNS_FORK => _ ← assert0; recv_loop fuel buffer bsize s st
            end
        end
  end.

(** The number of bytes the client sends bounds the number of reads. *)
Definition recv_fuel (s : sock) : nat := S (length (concat (sk_chunks s))).

(** [getfl] and [setfl] are the results of the two [fcntl] calls, [buffer] the
    (uninitialised) contents of the array. *)
Definition socket_thread_exec (getfl : option Z) (setfl : Z → bool) (buffer : list byte)
    (s : sock) (st : St) : outcome (thread_result St) :=
  match getfl with
  | None => mret (NotServed st)
  | Some flags =>
      let flags := Z.lor flags (if (O_NONBLOCK =? 0)%Z then 1 else 0) in
      if negb (setfl flags) then mret (NotServed st)
      else c ← recv_loop (recv_fuel s) buffer 0 s st; mret (Served flags c)
  end.
End connection.

(** ** The specification: the messages in a byte stream *)

(** The first message of a stream, if it is complete and small enough for the buffer
    to hold it with its length, and the rest of the stream. *)
Definition next_frame (s : list byte) : option (list byte * list byte) :=
  match s with
  | hi :: lo :: rest =>
      let n := Z.to_nat (ntohs hi lo) in
      if (n + 2 <=? MAX_BUFFER_SIZE) && (n <=? length rest)
      then Some (take n rest, drop n rest) else None
  | _ => None
  end.

Fixpoint frames_fuel (fuel : nat) (s : list byte) : list (list byte) * list byte :=
  match fuel with
  | O => ([], s)
  | S fuel =>
      match next_frame s with
      | None => ([], s)
      | Some (p, rest) => let '(ps, r) := frames_fuel fuel rest in (p :: ps, r)
      end
  end.

(** All messages up to the first that is incomplete or too long, and what is left. *)
Definition frames (s : list byte) : list (list byte) * list byte := frames_fuel (length s) s.

(** A message as a client sends it. *)
Definition encode_frame (p : list byte) : list byte :=
  byte_of_Z (Z.of_nat (length p) / 256) :: byte_of_Z (Z.of_nat (length p)) :: p.

(** Handing one message to the decoder and the loggers. *)
Definition deliver `{Build, Decoder} {St} `{LogSink St} (p : list byte) (st : St) : outcome St :=
  snd <$> protobuf_parse p st.

Definition ending_reason (e : ending) : disconnect :=
  match e with PeerClosed => ReadEof | PeerError => ReadError end.

(** ** Lemmas on the specification *)

Lemma MAX_value : Z.of_nat MAX_BUFFER_SIZE = 8192%Z.
Proof. done. Qed.
#[global] Opaque MAX_BUFFER_SIZE.

Lemma next_frame_shorter s p rest :
  next_frame s = Some (p, rest) → length s = length p + 2 + length rest.
Proof.
  destruct s as [|hi [|lo s]]; simpl; try done. case_match eqn:E; [|done].
  apply andb_true_iff in E as [_ E]. apply Nat.leb_le in E. intros [= <- <-].
  rewrite length_take, length_drop. lia.
Qed.

Lemma next_frame_app s t p rest :
  next_frame s = Some (p, rest) → next_frame (s ++ t) = Some (p, rest ++ t).
Proof.
  destruct s as [|hi [|lo s]]; simpl; try done. case_match eqn:E; [|done].
  apply andb_true_iff in E as [-> E]. apply Nat.leb_le in E. intros [= <- <-].
  rewrite (proj2 (Nat.leb_le _ _)) by (rewrite length_app; lia). simpl.
  by rewrite take_app_le, drop_app_le.
Qed.

(** A full buffer without a complete message will never have one. *)
Lemma next_frame_full s t :
  length s = MAX_BUFFER_SIZE → next_frame s = None → next_frame (s ++ t) = None.
Proof.
  pose proof MAX_value.
  destruct s as [|hi [|lo s]]; simpl; intros Hl; [lia|lia|].
  set (n := Z.to_nat (ntohs hi lo)).
  destruct (n + 2 <=? MAX_BUFFER_SIZE) eqn:E1; [|done]. apply Nat.leb_le in E1.
  rewrite (proj2 (Nat.leb_le n (length s))) by lia. done.
Qed.

Lemma frames_fuel_enough n s : length s ≤ n → frames_fuel n s = frames s.
Proof.
  unfold frames. revert s. enough (∀ n m s, length s ≤ n → length s ≤ m →
    frames_fuel n s = frames_fuel m s) by auto.
  clear n. induction n as [|n IH]; intros [|m] s Hn Hm; simpl.
  - done.
  - by destruct s; [|simpl in Hn; lia].
  - by destruct s; [|simpl in Hm; lia].
  - destruct (next_frame s) as [[p rest]|] eqn:E; [|done].
    apply next_frame_shorter in E. rewrite (IH m) by lia. done.
Qed.

(** The defining equation of [frames]. *)
Lemma frames_eq s :
  frames s = match next_frame s with
             | None => ([], s)
             | Some (p, rest) => let '(ps, r) := frames rest in (p :: ps, r)
             end.
Proof.
  unfold frames at 1. destruct s as [|b s]; [done|]. cbn [length frames_fuel].
  destruct (next_frame (b :: s)) as [[p rest]|] eqn:E; [|done].
  apply next_frame_shorter in E. simpl in E. rewrite frames_fuel_enough by lia. done.
Qed.

Lemma frames_ind (P : list byte → Prop) :
  (∀ s, next_frame s = None → P s) →
  (∀ s p rest, next_frame s = Some (p, rest) → P rest → P s) →
  ∀ s, P s.
Proof.
  intros Hstop Hstep s. induction s as [s IH] using (induction_ltof1 _ length).
  destruct (next_frame s) as [[p rest]|] eqn:E; [|by apply Hstop].
  eapply Hstep; [exact E|]. apply IH. unfold ltof. apply next_frame_shorter in E. lia.
Qed.

Lemma frames_rest s : next_frame (frames s).2 = None.
Proof.
  induction s as [s Hn|s p rest Hn IH] using frames_ind; rewrite frames_eq, Hn; [done|].
  by destruct (frames rest).
Qed.

Lemma frames_stop s : next_frame s = None → frames s = ([], s).
Proof. intros Hn. by rewrite frames_eq, Hn. Qed.

(** Bytes that arrive later only extend what is left. *)
Lemma frames_app s t :
  frames (s ++ t) = ((frames s).1 ++ (frames ((frames s).2 ++ t)).1, (frames ((frames s).2 ++ t)).2).
Proof.
  induction s as [s Hn|s p rest Hn IH] using frames_ind.
  - rewrite (frames_stop s) by done. simpl. by destruct (frames (s ++ t)).
  - rewrite (frames_eq s), Hn, (frames_eq (s ++ t)), (next_frame_app _ _ _ _ Hn), IH.
    by destruct (frames rest).
Qed.

(** The prefix that a client sends decodes to the length. *)
Lemma ntohs_length n :
  (0 ≤ n < 65536)%Z → ntohs (byte_of_Z (n / 256)) (byte_of_Z n) = n.
Proof.
  intros Hn. unfold ntohs.
  rewrite byte_val_of_Z by (split; [apply Z.div_pos|apply Z.div_lt_upper_bound]; lia).
  replace (byte_of_Z n) with (byte_of_Z (n mod 256)) by (unfold byte_of_Z; by rewrite Z.mod_mod).
  rewrite byte_val_of_Z by (apply Z.mod_pos_bound; lia).
  pose proof (Z.div_mod n 256). lia.
Qed.

Lemma next_frame_encode p t :
  length p + 2 ≤ MAX_BUFFER_SIZE → next_frame (encode_frame p ++ t) = Some (p, t).
Proof.
  intros Hp. pose proof MAX_value as HM. unfold encode_frame. cbn [app next_frame].
  rewrite ntohs_length by lia.
  rewrite Nat2Z.id, (proj2 (Nat.leb_le _ _)), (proj2 (Nat.leb_le _ _)); simpl;
    [|rewrite length_app; lia|lia].
  by rewrite take_app_length, drop_app_length.
Qed.

Lemma frames_encode ps t :
  Forall (λ p, length p + 2 ≤ MAX_BUFFER_SIZE) ps →
  frames (concat (encode_frame <$> ps) ++ t) = (ps ++ (frames t).1, (frames t).2).
Proof.
  induction 1 as [|p ps Hp Hps IH]; [by simpl; destruct (frames t)|].
  rewrite fmap_cons. cbn [concat]. rewrite <- app_assoc, frames_eq, next_frame_encode, IH by done. done.
Qed.

(** ** The code meets the specification *)

Section connection_lemmas.
Context `{Build, Decoder} {St : Type} `{LogSink St}.
Implicit Types (buf : list byte) (st : St).

Lemma load_frame buf n :
  n + 2 ≤ length buf → load_bytes buf 2 n = Ok (take n (drop 2 buf)).
Proof. intros. unfold load_bytes. by rewrite (proj2 (Nat.leb_le _ _)) by lia. Qed.

Lemma memmove_front buf k n :
  k + n ≤ length buf →
  memmove buf 0 k n = Ok (take n (drop k buf) ++ drop n buf).
Proof.
  intros. unfold memmove. by rewrite !(proj2 (Nat.leb_le _ _)) by lia.
Qed.

(** The stale second byte: with one pending byte the loop reads a length whose low
    byte is left over, but no length fits in one byte. *)
Lemma extract_one fuel buf st :
  2 ≤ length buf → extract_loop (S fuel) buf 1 st = Ok (PDNS_RETRY, buf, 1, st).
Proof.
  intros Hl. destruct buf as [|hi [|lo buf]]; simpl in Hl; [lia|lia|].
  cbn [extract_loop load_u16be mbind outcome_bind].
  by rewrite (proj2 (Nat.leb_gt _ _)) by lia.
Qed.

(** One turn of the loop, in terms of the pending bytes [take blen buf]. *)
Lemma next_frame_pending buf blen hi lo :
  2 ≤ blen → blen ≤ length buf → blen ≤ MAX_BUFFER_SIZE →
  load_u16be buf = Ok (ntohs hi lo) →
  let n := Z.to_nat (ntohs hi lo) in
  next_frame (take blen buf) =
    if n + 2 <=? blen
    then Some (take n (drop 2 buf), take (blen - n - 2) (drop (n + 2) buf)) else None.
Proof.
  intros Hb Hl HM Hld n. destruct buf as [|hi' [|lo' buf]]; try done.
  injection Hld as Hld. destruct blen as [|[|blen]]; [lia|lia|]. simpl in Hl. cbn [take next_frame].
  rewrite Hld. fold n. rewrite length_take.
  destruct (Nat.leb_spec (n + 2) (S (S blen))).
  - rewrite (proj2 (Nat.leb_le _ _)), (proj2 (Nat.leb_le _ _)) by lia. simpl.
    rewrite take_take, skipn_firstn_comm, Nat.min_l by lia.
    replace (n + 2) with (S (S n)) by lia. simpl. do 3 f_equal. lia.
  - rewrite (proj2 (Nat.leb_gt n _)) by lia. by rewrite andb_false_r.
Qed.

(** Running out of complete messages: nothing is consumed. *)
Lemma extract_stop fuel buf blen st :
  2 ≤ length buf → 1 ≤ blen ≤ length buf → blen ≤ MAX_BUFFER_SIZE →
  next_frame (take blen buf) = None →
  extract_loop (S fuel) buf blen st = Ok (PDNS_RETRY, buf, blen, st).
Proof.
  intros Hl Hb HM Hn. destruct (decide (blen = 1)) as [->|]; [by apply extract_one|].
  destruct buf as [|hi [|lo buf]]; simpl in Hl; [lia|lia|].
  rewrite (next_frame_pending _ _ hi lo) in Hn by (done || lia).
  cbn [extract_loop load_u16be mbind outcome_bind]. by case_match.
Qed.

(** Taking one complete message out. *)
Lemma extract_step fuel buf blen p rest :
  blen ≤ length buf → blen ≤ MAX_BUFFER_SIZE →
  next_frame (take blen buf) = Some (p, rest) →
  ∃ buf', length buf' = length buf ∧ take (length rest) buf' = rest ∧ ∀ st,
    extract_loop (S fuel) buf blen st =
      st ← deliver p st;
      if length rest =? 0 then Ok (PDNS_OK, buf', length rest, st)
      else extract_loop fuel buf' (length rest) st.
Proof.
  intros Hl HM Hn.
  destruct buf as [|hi [|lo tl]]; [by rewrite take_nil in Hn|by destruct blen as [|[|]]|].
  assert (2 ≤ blen) as Hb by (destruct blen as [|[|]]; [done|done|lia]).
  set (buf := hi :: lo :: tl) in *. set (n := Z.to_nat (ntohs hi lo)).
  pose proof (next_frame_pending buf blen hi lo Hb Hl HM eq_refl) as Hp. simpl in Hp.
  fold n in Hp. rewrite Hn in Hp. destruct (n + 2 <=? blen) eqn:E; [|done].
  pose proof E as E'. apply Nat.leb_le in E'. simplify_eq Hp. intros -> Hrest.
  assert (length rest = blen - n - 2) as Hr.
  { rewrite Hrest, length_take, length_drop. lia. }
  exists (rest ++ drop (blen - n - 2) buf). split_and!.
  - rewrite length_app, length_drop, Hr. lia.
  - by rewrite take_app_length.
  - intros st. change (extract_loop (S fuel) buf blen st) with (
      if n + 2 <=? blen then
        pbuf ← load_bytes buf 2 n;
        '(_, st) ← protobuf_parse pbuf st;
        buf ← memmove buf 0 (n + 2) (blen - n - 2);
        if blen - n - 2 =? 0 then Ok (PDNS_OK, buf, blen - n - 2, st)
        else extract_loop fuel buf (blen - n - 2) st
      else Ok (PDNS_RETRY, buf, blen, st)).
    rewrite E, load_frame, memmove_front, <- Hrest, Hr by lia. cbn [mbind outcome_bind].
    unfold deliver. by destruct (protobuf_parse _ st) as [[]|].
Qed.

(** The whole loop delivers exactly the complete messages, in order, and leaves the
    rest at the front of the buffer. *)
Lemma extract_loop_spec fuel buf blen :
  blen < fuel → 2 ≤ length buf → 1 ≤ blen ≤ length buf → blen ≤ MAX_BUFFER_SIZE →
  let '(ps, r) := frames (take blen buf) in
  ∃ buf' status, length buf' = length buf ∧ take (length r) buf' = r ∧
    (status = PDNS_OK ∨ status = PDNS_RETRY) ∧
    ∀ st, extract_loop fuel buf blen st =
      st ← foldM deliver ps st; Ok (status, buf', length r, st).
Proof.
  revert buf blen. induction fuel as [|fuel IH]; intros buf blen Hf Hl Hb HM; [lia|].
  rewrite frames_eq. destruct (next_frame (take blen buf)) as [[p rest]|] eqn:Hn.
  - destruct (extract_step fuel buf blen p rest) as (buf' & Hlen & Htake & Hstep);
      [lia..|done|].
    apply next_frame_shorter in Hn. rewrite length_take in Hn.
    destruct (Nat.eqb_spec (length rest) 0) as [E|E].
    + apply nil_length_inv in E as ->. rewrite (frames_stop []) by done.
      exists buf', PDNS_OK. split_and!; [done|done|by left|]. intros st. rewrite Hstep. simpl.
      by destruct (deliver p st).
    + specialize (IH buf' (length rest)). rewrite Htake in IH.
      destruct (frames rest) as [ps r].
      destruct IH as (buf'' & status & Hlen' & Hr & Hst & IH); [lia..|].
      exists buf'', status. split_and!; [lia|done|done|]. intros st. rewrite Hstep. simpl.
      rewrite outcome_bind_assoc. by apply outcome_bind_ext.
  - exists buf, PDNS_RETRY. rewrite length_take, Nat.min_l by lia.
    split_and!; auto. intros st. by rewrite extract_stop by (done || lia).
Qed.

(** [protobuf_extract] on a buffer of at least one byte. *)
Lemma protobuf_extract_spec buf blen :
  2 ≤ length buf → 1 ≤ blen ≤ length buf → blen ≤ MAX_BUFFER_SIZE →
  let '(ps, r) := frames (take blen buf) in
  ∃ buf' status, length buf' = length buf ∧ take (length r) buf' = r ∧
    (status = PDNS_OK ∨ status = PDNS_RETRY) ∧
    ∀ st, protobuf_extract buf blen st =
      st ← foldM deliver ps st; Ok (status, buf', length r, st).
Proof.
  intros Hl Hb HM. unfold protobuf_extract. destruct (Nat.ltb_spec blen 2).
  - assert (blen = 1) as -> by lia. destruct buf as [|b buf]; [simpl in *; lia|].
    rewrite frames_stop by done. exists (b :: buf), PDNS_RETRY. by split_and!; auto.
  - apply extract_loop_spec; lia.
Qed.

Lemma store_spec buf off data :
  off + length data ≤ length buf →
  ∃ buf', store buf off data = Ok buf' ∧ length buf' = length buf ∧
    take (off + length data) buf' = take off buf ++ data.
Proof.
  intros Hl. unfold store. rewrite (proj2 (Nat.leb_le _ _)) by done. eexists. split_and!; [done|..].
  - rewrite !length_app, length_take, length_drop. lia.
  - rewrite app_assoc, take_app_length'; [done|]. rewrite length_app, length_take. lia.
Qed.

(** A read takes a non-empty piece off the front of what the client sends. *)
Lemma sock_read_spec count s :
  0 < count → Forall (λ c, c ≠ []) (sk_chunks s) →
  (sk_chunks s = [] ∧ sock_read count s =
     (match sk_ending s with PeerClosed => REof | PeerError => RErr end, s)) ∨
  (∃ b data s', sock_read count s = (RData (b :: data), s') ∧ length (b :: data) ≤ count ∧
     concat (sk_chunks s) = (b :: data) ++ concat (sk_chunks s') ∧
     Forall (λ c, c ≠ []) (sk_chunks s') ∧ sk_ending s' = sk_ending s).
Proof.
  destruct s as [[|c cs] e]; simpl; intros Hc Hne; [by left|right].
  unfold sock_read; simpl. apply Forall_cons in Hne as [Hc0 Hcs].
  destruct c as [|b data]; [done|]. destruct count as [|count]; [lia|].
  destruct (Nat.ltb_spec (S count) (length (b :: data))) as [Hlt|Hge].
  - eexists b, (take count data), _. split_and!; [done|..]; simpl in *.
    + rewrite length_take. lia.
    + f_equal. by rewrite app_assoc, take_drop.
    + constructor; [|done]. intros E. apply (f_equal length) in E.
      rewrite length_drop in E. simpl in E. lia.
    + done.
  - by eexists b, data, _.
Qed.

(** The result the specification gives for a whole connection. *)
Definition conn_spec (e : ending) (stream : list byte) (st : St) : outcome (conn_end St) :=
  let '(ps, r) := frames stream in
  st ← foldM deliver ps st;
  mret {| ce_state := st;
          ce_reason := if MAX_BUFFER_SIZE <=? length r then BufferFull else ending_reason e;
          ce_bsize := MAX_BUFFER_SIZE `min` length r |}.

Lemma conn_spec_step e s t st :
  conn_spec e (s ++ t) st = st ← foldM deliver (frames s).1 st; conn_spec e ((frames s).2 ++ t) st.
Proof.
  unfold conn_spec. rewrite frames_app.
  destruct (frames s) as [ps r]. simpl. destruct (frames (r ++ t)) as [ps' r']. simpl.
  by rewrite foldM_app, outcome_bind_assoc.
Qed.

(** Reading on from a buffer that holds no complete message. *)
Lemma recv_loop_spec fuel buf bsize s st :
  length buf = MAX_BUFFER_SIZE → bsize ≤ MAX_BUFFER_SIZE →
  next_frame (take bsize buf) = None →
  Forall (λ c, c ≠ []) (sk_chunks s) → length (concat (sk_chunks s)) < fuel →
  recv_loop fuel buf bsize s st =
    conn_spec (sk_ending s) (take bsize buf ++ concat (sk_chunks s)) st.
Proof.
  pose proof MAX_value as HMz.
  revert buf bsize s st.
  induction fuel as [|fuel IH]; intros buf bsize s st Hl Hb Hn Hne Hf; [lia|].
  cbn [recv_loop]. destruct (Nat.eqb_spec bsize MAX_BUFFER_SIZE) as [->|Hfull].
  { unfold conn_spec. rewrite frames_stop; [|apply next_frame_full; [rewrite length_take; lia|done]].
    simpl. rewrite length_app, length_take, Hl, (proj2 (Nat.leb_le _ _)) by lia.
    by rewrite Nat.min_l by lia. }
  destruct (sock_read_spec (MAX_BUFFER_SIZE - bsize) s) as
    [[Hc Hrd]|(b & data & s' & Hrd & Hd & Hcat & Hne' & He)]; [lia|done|..].
  { rewrite Hrd, Hc. simpl. rewrite app_nil_r. unfold conn_spec.
    rewrite frames_stop by done. simpl. rewrite length_take, Hl, Nat.min_l by lia.
    rewrite (proj2 (Nat.leb_gt _ _)), Nat.min_r by lia. by destruct (sk_ending s). }
  rewrite Hrd. clear Hrd. rewrite Hcat, app_assoc in *. rewrite <- He.
  destruct (store_spec buf bsize (b :: data)) as (buf1 & Hst & Hl1 & Ht1); [lia|].
  rewrite Hst. cbn [mbind outcome_bind]. rewrite conn_spec_step, <- Ht1.
  pose proof (protobuf_extract_spec buf1 (bsize + length (b :: data))) as Hex.
  destruct (frames (take (bsize + length (b :: data)) buf1)) as [ps r] eqn:Hfr.
  destruct Hex as (buf2 & status & Hl2 & Ht2 & Hstat & Hex); [simpl in *; lia..|].
  rewrite Hex, outcome_bind_assoc. apply outcome_bind_ext. intros st'.
  pose proof (frames_rest (take (bsize + length (b :: data)) buf1)) as Hnone.
  rewrite Hfr in Hnone. cbn [mbind outcome_bind fst snd] in *.
  assert (length r ≤ MAX_BUFFER_SIZE) as Hr.
  { rewrite <- Ht2, length_take. lia. }
  assert (recv_loop fuel buf2 (length r) s' st' = conn_spec (sk_ending s') (r ++ concat (sk_chunks s')) st') as ->.
  { rewrite IH; [by rewrite Ht2|lia|done|by rewrite Ht2|done|].
    rewrite length_app in Hf. simpl in Hf. lia. }
  by destruct Hstat as [-> | ->].
Qed.
End connection_lemmas.

(** ** The properties *)

Section connection_properties.
Context `{Build, Decoder} {St : Type} `{LogSink St}.

(** Both [fcntl] calls succeed and the array has its declared size. *)
Definition thread_ready (getfl : option Z) (setfl : Z → bool) (buffer : list byte) (s : sock)
    (flags : Z) : Prop :=
  getfl = Some flags ∧ setfl flags = true ∧ length buffer = MAX_BUFFER_SIZE ∧
  Forall (λ c, c ≠ []) (sk_chunks s).

Lemma thread_conn_spec getfl setfl buffer s flags (st : St) :
  thread_ready getfl setfl buffer s flags →
  socket_thread_exec getfl setfl buffer s st =
    Served flags <$> conn_spec (sk_ending s) (concat (sk_chunks s)) st.
Proof.
  intros (-> & Hset & Hl & Hne). unfold socket_thread_exec.
  change (if (O_NONBLOCK =? 0)%Z then 1 else 0)%Z with 0%Z. rewrite Z.lor_0_r, Hset.
  cbn [negb]. rewrite recv_loop_spec; [|done|lia|done|done|unfold recv_fuel; lia].
  cbn [take app]. by destruct (conn_spec _ _ _).
Qed.

(** C2: whatever the pieces in which a client's bytes arrive and whatever the buffer
    held before, the connection thread hands to the decoder and the loggers exactly
    the messages of the byte stream, in order, up to the first that is incomplete or
    longer than the buffer; it ends when the client does, or with a full buffer
    exactly when 8192 undelivered bytes remain.  In particular the loop terminates
    and no access leaves the buffer. *)
Theorem thread_delivers_stream getfl setfl buffer s flags (st : St) :
  thread_ready getfl setfl buffer s flags →
  socket_thread_exec getfl setfl buffer s st =
    (let '(ps, r) := frames (concat (sk_chunks s)) in
     st ← foldM deliver ps st;
     Ok (Served flags {|
       ce_state := st;
       ce_reason := if MAX_BUFFER_SIZE <=? length r then BufferFull
                    else ending_reason (sk_ending s);
       ce_bsize := MAX_BUFFER_SIZE `min` length r |})).
Proof.
  intros Hr. rewrite (thread_conn_spec _ _ _ _ _ _ Hr). unfold conn_spec.
  destruct (frames _) as [ps r]. by destruct (foldM deliver ps st).
Qed.

(** The stream a well-behaved client sends. *)
Lemma thread_frames getfl setfl buffer s flags ps (st : St) :
  thread_ready getfl setfl buffer s flags →
  Forall (λ p, length p + 2 ≤ MAX_BUFFER_SIZE) ps →
  concat (sk_chunks s) = concat (encode_frame <$> ps) →
  socket_thread_exec getfl setfl buffer s st =
    st ← foldM deliver ps st;
    Ok (Served flags {| ce_state := st; ce_reason := ending_reason (sk_ending s); ce_bsize := 0 |}).
Proof.
  intros Hr Hps Hcat. rewrite (thread_conn_spec _ _ _ _ _ _ Hr), Hcat. unfold conn_spec.
  pose proof (frames_encode ps [] Hps) as Hf. rewrite !app_nil_r in Hf. rewrite Hf.
  pose proof MAX_value. simpl. rewrite (proj2 (Nat.leb_gt _ _)), Nat.min_0_r by lia.
  by destruct (foldM deliver ps st).
Qed.

(** Messages of at most 8190 bytes, sent with their length prefixes and cut into
    arbitrary pieces, are delivered each exactly once and in order, and nothing is
    left over. *)
Theorem thread_roundtrip getfl setfl buffer s flags ps (st : St) :
  thread_ready getfl setfl buffer s flags →
  Forall (λ p, length p + 2 ≤ MAX_BUFFER_SIZE) ps →
  concat (sk_chunks s) = concat (encode_frame <$> ps) →
  socket_thread_exec getfl setfl buffer s st =
    st ← foldM deliver ps st;
    Ok (Served flags {| ce_state := st; ce_reason := ending_reason (sk_ending s); ce_bsize := 0 |}).
Proof. apply thread_frames. Qed.

(** The way the kernel cuts the byte stream does not matter: two deliveries of
    the same bytes have the same effect. *)
Theorem thread_chunking_irrelevant getfl setfl buffer buffer' s s' flags (st : St) :
  thread_ready getfl setfl buffer s flags →
  thread_ready getfl setfl buffer' s' flags →
  concat (sk_chunks s) = concat (sk_chunks s') → sk_ending s = sk_ending s' →
  socket_thread_exec getfl setfl buffer s st = socket_thread_exec getfl setfl buffer' s' st.
Proof.
  intros Hr Hr' Hcat He.
  by rewrite (thread_conn_spec _ _ _ _ _ _ Hr), (thread_conn_spec _ _ _ _ _ _ Hr'), Hcat, He.
Qed.

(** A message longer than the buffer stops the stream. *)
Lemma next_frame_oversize p t :
  MAX_BUFFER_SIZE < length p + 2 → (Z.of_nat (length p) < 65536)%Z → next_frame (encode_frame p ++ t) = None.
Proof.
  intros Hp Hmax. unfold encode_frame. cbn [app next_frame].
  rewrite ntohs_length by lia.
  rewrite Nat2Z.id. by rewrite (proj2 (Nat.leb_gt _ _)) by lia.
Qed.

(** C28: a message of more than 8190 bytes (the length prefix allows 65535) is never
    delivered and nor is anything after it: the messages before it are, then the
    client is disconnected with the buffer full. *)
Theorem thread_oversize_disconnects getfl setfl buffer s flags ps p t (st : St) :
  thread_ready getfl setfl buffer s flags →
  Forall (λ p, length p + 2 ≤ MAX_BUFFER_SIZE) ps →
  MAX_BUFFER_SIZE < length p + 2 → (Z.of_nat (length p) < 65536)%Z →
  concat (sk_chunks s) = concat (encode_frame <$> ps) ++ encode_frame p ++ t →
  socket_thread_exec getfl setfl buffer s st =
    st ← foldM deliver ps st;
    Ok (Served flags {| ce_state := st; ce_reason := BufferFull; ce_bsize := MAX_BUFFER_SIZE |}).
Proof.
  intros Hr Hps Hp Hmax Hcat. rewrite (thread_conn_spec _ _ _ _ _ _ Hr), Hcat. unfold conn_spec.
  rewrite frames_encode, frames_stop by first [done | by apply next_frame_oversize].
  cbn [fst snd]. rewrite app_nil_r, length_app. simpl.
  rewrite (proj2 (Nat.leb_le _ _)), Nat.min_l by lia. by destruct (foldM deliver ps st).
Qed.

(** Delivering bytes that are not a message. *)
Lemma deliver_malformed p (st : St) : unpack p = None → deliver p st = (λ _, st) <$> assert0.
Proof. intros Hun. unfold deliver, protobuf_parse. rewrite Hun. by destruct assert0. Qed.

(** C29: bytes that are not a message, between messages.  A release build skips them
    and goes on with the next message; a build without NDEBUG aborts the daemon
    there, so any client can stop it. *)
Theorem malformed_message getfl setfl buffer s flags ps p ps' (st : St) :
  thread_ready getfl setfl buffer s flags →
  Forall (λ p, length p + 2 ≤ MAX_BUFFER_SIZE) (ps ++ p :: ps') → unpack p = None →
  concat (sk_chunks s) = concat (encode_frame <$> ps ++ p :: ps') →
  socket_thread_exec getfl setfl buffer s st =
    if ndebug then
      st ← foldM deliver (ps ++ ps') st;
      Ok (Served flags {| ce_state := st; ce_reason := ending_reason (sk_ending s); ce_bsize := 0 |})
    else st ← foldM deliver ps st; Fault AssertionFailed.
Proof.
  intros Hr Hps Hun Hcat. rewrite (thread_conn_spec _ _ _ _ _ _ Hr), Hcat. unfold conn_spec.
  pose proof (frames_encode _ [] Hps) as Hf. rewrite !app_nil_r in Hf. rewrite Hf.
  pose proof MAX_value. cbn [fst snd length frames frames_fuel].
  rewrite (proj2 (Nat.leb_gt _ _)), Nat.min_0_r, !foldM_app by lia.
  destruct (foldM deliver ps st) as [st'|]; [|by destruct ndebug].
  cbn [mbind outcome_bind foldM]. rewrite deliver_malformed by done. unfold assert0.
  destruct ndebug; [|done]. simpl. by destruct (foldM deliver ps' st').
Qed.
End connection_properties.

(** ** Witnesses: a decoder and loggers for which the hypotheses hold *)

(** Any non-empty payload decodes to a message with the given number of bytes. *)
Definition demo_decoder : Decoder := {|
  unpack p := if bool_decide (p = []) then None else Some pbdnsmessage__init |}.
(** The loggers count the messages. *)
Definition demo_sink : LogSink nat := {| pdns_loggers_log _ n := Ok (S n) |}.
Definition demo_build (b : bool) : Build := {| ndebug := b |}.
Definition demo_buffer : list byte := replicate MAX_BUFFER_SIZE x00.

Lemma demo_ready cs :
  Forall (λ c, c ≠ []) cs →
  thread_ready (Some 2%Z) (λ _, true) demo_buffer {| sk_chunks := cs; sk_ending := PeerClosed |} 2.
Proof. intros Hcs. unfold thread_ready, demo_buffer. by rewrite length_replicate. Qed.

(** Two messages, "ab" and "c", cut in the middle of the second length prefix. *)
Definition demo_chunks : list (list byte) := [[x00; x02; x61]; [x62; x00]; [x01; x63]].

Lemma demo_small ps :
  Forall (λ p, length p ≤ 100) ps → Forall (λ p : list byte, length p + 2 ≤ MAX_BUFFER_SIZE) ps.
Proof. pose proof MAX_value. intros Hps. eapply Forall_impl; [exact Hps|]. simpl. lia. Qed.

Definition demo_run (b : bool) (cs : list (list byte)) : outcome (thread_result nat) :=
  @socket_thread_exec (demo_build b) demo_decoder nat demo_sink (Some 2%Z) (λ _, true)
    demo_buffer {| sk_chunks := cs; sk_ending := PeerClosed |} 0.

Definition demo_end (n : nat) : outcome (thread_result nat) :=
  Ok (Served 2%Z {| ce_state := n; ce_reason := ReadEof; ce_bsize := 0 |}).

Lemma thread_delivers_stream_witness : demo_run false demo_chunks = demo_end 2.
Proof.
  unfold demo_run. rewrite (@thread_delivers_stream (demo_build false) demo_decoder nat demo_sink _ _ _ _ 2%Z).
  - vm_compute. reflexivity.
  - apply demo_ready. unfold demo_chunks. repeat constructor; discriminate.
Defined.

Lemma thread_roundtrip_witness : demo_run false demo_chunks = demo_end 2.
Proof.
  unfold demo_run.
  rewrite (@thread_roundtrip (demo_build false) demo_decoder nat demo_sink _ _ _ _ 2%Z
    [[x61; x62]; [x63]]).
  - vm_compute. reflexivity.
  - apply demo_ready. unfold demo_chunks. repeat constructor; discriminate.
  - apply demo_small. repeat constructor; simpl; lia.
  - vm_compute. reflexivity.
Defined.

Lemma thread_chunking_irrelevant_witness :
  demo_run false demo_chunks = demo_run false [concat demo_chunks].
Proof.
  unfold demo_run.
  apply (@thread_chunking_irrelevant (demo_build false) demo_decoder nat demo_sink _ _ _ _ _ _ 2%Z).
  - apply demo_ready. unfold demo_chunks. repeat constructor; discriminate.
  - apply demo_ready. repeat constructor; discriminate.
  - vm_compute. reflexivity.
  - reflexivity.
Defined.

(** A message one byte too long for the buffer, after the message "c". *)
Lemma thread_oversize_disconnects_witness :
  demo_run true [encode_frame [x63] ++ encode_frame (replicate (MAX_BUFFER_SIZE - 1) x00) ++ []] =
  Ok (Served 2%Z {| ce_state := 1; ce_reason := BufferFull; ce_bsize := MAX_BUFFER_SIZE |}).
Proof.
  pose proof MAX_value as HM. unfold demo_run.
  rewrite (@thread_oversize_disconnects (demo_build true) demo_decoder nat demo_sink _ _ _ _ 2%Z
    [[x63]] (replicate (MAX_BUFFER_SIZE - 1) x00) []).
  - reflexivity.
  - apply demo_ready. repeat constructor; discriminate.
  - apply demo_small. repeat constructor; simpl; lia.
  - rewrite length_replicate. lia.
  - rewrite length_replicate. lia.
  - cbn [sk_chunks concat fmap list_fmap]. rewrite !app_nil_r. reflexivity.
Defined.

(** An empty message is not a message for the decoder. *)
Lemma malformed_message_witness :
  demo_run false [[x00; x00]] = Fault AssertionFailed ∧ demo_run true [[x00; x00]] = demo_end 0.
Proof.
  unfold demo_run. split.
  - rewrite (@malformed_message (demo_build false) demo_decoder nat demo_sink _ _ _ _ 2%Z [] [] []).
    + reflexivity.
    + apply demo_ready. repeat constructor; discriminate.
    + apply demo_small. repeat constructor; simpl; lia.
    + reflexivity.
    + vm_compute. reflexivity.
  - rewrite (@malformed_message (demo_build true) demo_decoder nat demo_sink _ _ _ _ 2%Z [] [] []).
    + reflexivity.
    + apply demo_ready. repeat constructor; discriminate.
    + apply demo_small. repeat constructor; simpl; lia.
    + reflexivity.
    + vm_compute. reflexivity.
Defined.
