(* ===== verification/Server.v ===== *)
(** * The listening socket: src/pdns-logger-protobuf.c, second half

    [socket_start] as the sequence of its system calls, [socket_loop] over what [select]
    and [accept] answer, and the hand-over of a connection to its thread, in which the
    thread reads the descriptor from the stack of the function that created it, whether
    that function has returned or not. *)

From stdpp Require Import relations.
From S2P Require Import Prelude CLib Common Protobuf.

(** What the system calls of [socket_start] return. *)
Record net := {
  n_socket : Z; n_setsockopt : Z; n_bind : Z; n_getfl : Z; n_setfl : Z; n_listen : Z;
}.

(** The calls, with the arguments that matter. *)
Inductive syscall :=
  | CSocket
  | CSetsockopt (fd : Z)
  | CBind (fd addr port : Z)
  | CGetfl (fd : Z)
  | CSetfl (fd flags : Z)
  | CListen (fd : Z)
  | CClose (fd : Z).

Definition INADDR_ANY : Z := 0.

Definition set_socket (fd : Z) (g : globals_t) : globals_t := {|
  g_user := g_user g; g_group := g_group g; g_config_file := g_config_file g;
  g_bind_ip := g_bind_ip g; g_bind_port := g_bind_port g; g_allow_root := g_allow_root g;
  g_foreground := g_foreground g; g_running := g_running g; g_verbose := g_verbose g;
  g_socket := fd |}.

(** The status, the settings with the socket in them, and the calls made. *)
Definition socket_start (n : net) (conf : globals_t) : pdns_status * globals_t * list syscall :=
  let fd := n_socket n in
  let conf := set_socket fd conf in
  if (fd =? -1)%Z then (PDNS_NO, conf, [CSocket])
  else
    let calls := [CSocket; CSetsockopt fd; CBind fd INADDR_ANY (htons (g_bind_port conf))] in
    if (n_bind n <? 0)%Z then (PDNS_NO, conf, calls)
    else
      let calls := calls ++ [CGetfl fd] in
      if (n_getfl n =? -1)%Z then (PDNS_NO, conf, calls)
      else
        let flags := Z.lor (n_getfl n) O_NONBLOCK in
        let calls := calls ++ [CSetfl fd flags] in
        if (n_setfl n =? -1)%Z then (PDNS_NO, conf, calls)
        else
          let calls := calls ++ [CListen fd] in
          if (n_listen n <? 0)%Z then (PDNS_NO, conf, calls) else (PDNS_OK, conf, calls).

(** [FD_SETSIZE] *)
Definition FD_SETSIZE : Z := 1024.

(** One turn of the loop: the flag [running] when it is tested, the descriptors [select]
    leaves in the set ([None] when it fails, on a signal for instance) and what [accept]
    returns. *)
Record turn := { t_running : bool; t_select : option (list Z); t_accept : Z }.

Section loop.
Context `{Build}.

(** The body of [for (i = 0; i < FD_SETSIZE; ++i)]; [threads] are the descriptors
    passed to [socket_start_thread] so far. *)
Definition check_fd (fd : Z) (ready : list Z) (new : Z) (i : Z) (threads : list Z) :
    outcome (list Z) :=
  if bool_decide (i ∈ ready) then
    if (i =? fd)%Z then
      if (new <? 0)%Z then mret threads else mret (threads ++ [new])
    else _ ← assert0; mret threads
  else mret threads.

Fixpoint socket_loop (fd : Z) (turns : list turn) (threads : list Z) : outcome (list Z) :=
  match turns with
  | [] => mret threads
  | t :: turns =>
      if t_running t then
        match t_select t with
        | None => socket_loop fd turns threads
        | Some ready =>
            threads ← foldM (check_fd fd ready (t_accept t)) (seqZ 0 FD_SETSIZE) threads;
            socket_loop fd turns threads
        end
      else mret threads
  end.

(** The status, the descriptors handed to threads, and the calls on the socket. *)
Definition pdns_socket_run (n : net) (turns : list turn) (conf : globals_t) :
    outcome (pdns_status * list Z * list syscall) :=
  let '(st, conf, calls) := socket_start n conf in
  match st with
  | PDNS_OK =>
      threads ← socket_loop (g_socket conf) turns [];
      mret (PDNS_OK, threads, calls ++ [CClose (g_socket conf)])
  | _ => mret (PDNS_NO, [], calls)
  end.
End loop.

(** ** Properties *)

(** The connections that arrive before the daemon is told to stop. *)
Fixpoint accepted_fds (fd : Z) (turns : list turn) : list Z :=
  match turns with
  | [] => []
  | t :: turns =>
      if t_running t then
        (if bool_decide (t_select t = Some [fd]) && (0 <=? t_accept t)%Z then [t_accept t] else []) ++
        accepted_fds fd turns
      else []
  end.

Section properties.
Context `{Build}.

(** The loop over the descriptors finds the listening socket, or nothing. *)
Lemma check_fds_only fd ready new lo n threads :
  (∀ i, i ∈ ready → i = fd) →
  foldM (check_fd fd ready new) (seqZ lo (Z.of_nat n)) threads =
    Ok (if bool_decide (fd ∈ ready) && bool_decide (lo ≤ fd < lo + Z.of_nat n)%Z && (0 <=? new)%Z
        then threads ++ [new] else threads).
Proof.
  intros Honly. revert lo threads. induction n as [|n IH]; intros lo threads.
  { rewrite (bool_decide_false (lo ≤ fd < _)%Z) by lia. by rewrite andb_false_r. }
  rewrite seqZ_cons by lia. replace (Z.pred (Z.of_nat (S n))) with (Z.of_nat n) by lia.
  cbn [foldM]. destruct (decide (lo ∈ ready)) as [Hin|Hin].
  - assert (lo = fd) as -> by auto.
    assert (check_fd fd ready new fd threads =
      Ok (if (0 <=? new)%Z then threads ++ [new] else threads)) as ->.
    { unfold check_fd. rewrite bool_decide_true, Z.eqb_refl, Z.leb_antisym by done.
      by destruct (new <? 0)%Z. }
    rewrite (bool_decide_true (fd ∈ ready)), (bool_decide_true (fd ≤ fd < _)%Z) by (done || lia).
    cbn [andb mbind outcome_bind].
    rewrite IH, (bool_decide_false (Z.succ fd ≤ fd < _)%Z) by lia. by rewrite andb_false_r.
  - assert (check_fd fd ready new lo threads = Ok threads) as ->.
    { unfold check_fd. by rewrite bool_decide_false. }
    cbn [mbind outcome_bind]. rewrite IH.
    destruct (decide (fd ∈ ready)) as [Hf|Hf]; [|by rewrite (bool_decide_false (fd ∈ ready))].
    assert (lo ≠ fd) by (by intros ->).
    by rewrite (bool_decide_ext (Z.succ lo ≤ fd < _)%Z (lo ≤ fd < lo + Z.of_nat (S n))%Z) by lia.
Qed.

(** C25: The accept loop.  [select] only ever leaves the listening socket in the set; then
    exactly the connections accepted while the daemon runs are handed to threads, in
    order, errors of [select] and [accept] are survived, and the assertion that nothing
    else is ready is never reached, in any build. *)
Theorem accept_loop_correct fd turns :
  (0 ≤ fd < FD_SETSIZE)%Z →
  Forall (λ t, t_select t = None ∨ t_select t = Some [] ∨ t_select t = Some [fd]) turns →
  socket_loop fd turns [] = Ok (accepted_fds fd turns).
Proof.
  intros Hfd Hsel. change (accepted_fds fd turns) with ([] ++ accepted_fds fd turns).
  generalize (@nil Z) as threads.
  induction Hsel as [|t turns Ht Hsel IH]; intros threads; cbn [socket_loop accepted_fds].
  { by rewrite app_nil_r. }
  destruct (t_running t); [|by rewrite app_nil_r].
  change FD_SETSIZE with (Z.of_nat (Z.to_nat FD_SETSIZE)).
  destruct Ht as [->|[->| ->]]; cbv iota.
  - rewrite bool_decide_false by done. apply IH.
  - rewrite check_fds_only by (intros i Hi; by apply not_elem_of_nil in Hi).
    rewrite (bool_decide_false (fd ∈ [])), (bool_decide_false (Some [] = _))
      by (done || apply not_elem_of_nil). apply IH.
  - rewrite check_fds_only by (intros i Hi; by apply list_elem_of_singleton in Hi).
    rewrite (bool_decide_true (fd ∈ [fd])), (bool_decide_true (Some [fd] = _))
      by (done || by apply list_elem_of_singleton).
    rewrite (bool_decide_true (0 ≤ fd < _)%Z) by (rewrite Z2Nat.id; unfold FD_SETSIZE in *; lia).
    cbn [andb mbind outcome_bind]. rewrite IH. by destruct (0 <=? _)%Z; [rewrite <- app_assoc|].
Qed.
End properties.

(** C36: [socket_start] succeeds exactly when every call but [setsockopt] does; it then
    listens on all addresses, whatever [bind-ip] says, on the configured port modulo
    65536, in non-blocking mode.  When a later call fails the socket stays open. *)
Theorem socket_start_spec n conf :
  let '(st, conf', calls) := socket_start n conf in
  g_socket conf' = n_socket n ∧ Forall (λ c, c ≠ CClose (n_socket n)) calls ∧
  (st = PDNS_OK ↔ n_socket n ≠ (-1)%Z ∧ (0 ≤ n_bind n)%Z ∧ n_getfl n ≠ (-1)%Z ∧
     n_setfl n ≠ (-1)%Z ∧ (0 ≤ n_listen n)%Z) ∧
  (st = PDNS_OK → calls =
     [CSocket; CSetsockopt (n_socket n); CBind (n_socket n) INADDR_ANY (u16 (g_bind_port conf));
      CGetfl (n_socket n); CSetfl (n_socket n) (Z.lor (n_getfl n) O_NONBLOCK); CListen (n_socket n)]).
Proof.
  unfold socket_start. destruct (Z.eqb_spec (n_socket n) (-1));
    [|destruct (Z.ltb_spec (n_bind n) 0); [|destruct (Z.eqb_spec (n_getfl n) (-1));
      [|destruct (Z.eqb_spec (n_setfl n) (-1)); [|destruct (Z.ltb_spec (n_listen n) 0)]]]];
    cbn [app]; split_and!; try done; try (repeat apply Forall_cons_2; done || constructor);
    try split; intros; destruct_and?; try done; split_and?; done || lia || (exfalso; lia).
Qed.

(** ** Handing a descriptor to its thread

    [socket_start_thread] passes the address of its own parameter to the thread it creates,
    and the thread reads the parameter whenever it is scheduled.  The parameter lives until
    the call returns; from then on its place on the stack belongs to whatever the main
    thread calls next ([fprintf], [select], the next [socket_start_thread]), which may
    leave any value there. *)

(** A call of [socket_start_thread] and its thread. *)
Record handover := {
  h_socket : Z;                    (* the descriptor the call was given *)
  h_cell : Z;                      (* what is in the parameter's place now *)
  h_live : bool;                   (* the call has not returned *)
  h_serves : option (Z * bool);    (* what the thread has read, and whether in time *)
}.

Inductive hand : list handover → list handover → Prop :=
  | hand_start s fd :              (* socket_start_thread(fd): one call at a time *)
      Forall (λ h, h_live h = false) s →
      hand s (s ++ [{| h_socket := fd; h_cell := fd; h_live := true; h_serves := None |}])
  | hand_return s i h :            (* return PDNS_OK *)
      s !! i = Some h → h_live h = true →
      hand s (<[i := {| h_socket := h_socket h; h_cell := h_cell h; h_live := false;
                        h_serves := h_serves h |}]> s)
  | hand_reuse s i h v :           (* the main thread uses its stack again *)
      s !! i = Some h → h_live h = false →
      hand s (<[i := {| h_socket := h_socket h; h_cell := v; h_live := false;
                        h_serves := h_serves h |}]> s)
  | hand_read s i h :              (* int socket = *psocket in the thread *)
      s !! i = Some h → h_serves h = None →
      hand s (<[i := {| h_socket := h_socket h; h_cell := h_cell h; h_live := h_live h;
                        h_serves := Some (h_cell h, h_live h) |}]> s).

(** A live parameter has its value, and a thread that read in time has the right one. *)
Definition hand_ok (h : handover) : Prop :=
  (h_live h = true → h_cell h = h_socket h) ∧
  (∀ v, h_serves h = Some (v, true) → v = h_socket h).

Lemma hand_preserves s s' : hand s s' → Forall hand_ok s → Forall hand_ok s'.
Proof.
  intros [s0 fd _|s0 i h Hi _|s0 i h v Hi _|s0 i h Hi Hn] Hs.
  - apply Forall_app_2; [done|]. apply Forall_singleton. by split.
  - pose proof (Forall_lookup_1 _ _ _ _ Hs Hi) as [_ Hr]. by apply Forall_insert.
  - pose proof (Forall_lookup_1 _ _ _ _ Hs Hi) as [_ Hr]. by apply Forall_insert.
  - pose proof (Forall_lookup_1 _ _ _ _ Hs Hi) as [Hc Hr]. apply Forall_insert; [done|].
    split; [done|]. simpl. intros v [= <- Hl]. by apply Hc.
Qed.

(** A single hand-over whose thread is late. *)
Lemma late_read fd v :
  rtc hand [] [{| h_socket := fd; h_cell := v; h_live := false; h_serves := Some (v, false) |}].
Proof.
  eapply rtc_l; [by apply (hand_start [] fd)|].
  eapply rtc_l; [by eapply (hand_return _ 0)|].
  eapply rtc_l; [by eapply (hand_reuse _ 0 _ v)|].
  eapply rtc_l; [by eapply (hand_read _ 0)|]. apply rtc_refl.
Qed.


(** ** Concrete instances *)

Lemma accept_loop_correct_witness :
  @socket_loop debug_build 3
    [ {| t_running := true; t_select := None; t_accept := 0 |};
      {| t_running := true; t_select := Some [3%Z]; t_accept := 4 |};
      {| t_running := true; t_select := Some [3%Z]; t_accept := -1 |};
      {| t_running := true; t_select := Some [3%Z]; t_accept := 5 |};
      {| t_running := false; t_select := Some [3%Z]; t_accept := 6 |} ] [] = Ok [4; 5]%Z.
Proof.
  rewrite (@accept_loop_correct debug_build 3);
    [reflexivity|unfold FD_SETSIZE; lia|repeat apply Forall_cons_2; auto using Forall_nil_2].
Defined.
