(* ===== verification/Fifo.v ===== *)
(** * The queue between the loggers and the database thread: src/pdns-logger-queue.c

    A singly linked list of heap cells with a head and a tail pointer, a recursive
    mutex around the two pointers and a condition variable to wake the consumer.
    The heap and the allocator are explicit.  The theorems show that the structure
    never holds more than one item, whatever the callers do: it refines a one-place
    mailbox, and what happens to the item that does not fit depends on the build. *)

From stdpp Require Import gmap.
From S2P Require Import Prelude CLib Common.

Notation loc := positive (only parsing).

(** A pointer read from memory; a cell's [next] is not set by [fifo_push]. *)
Inductive ptr := Uninit | Null | Ptr (l : loc).

Record fifo_item (V : Type) := { data : V; next : ptr }.
Arguments data {V} _.
Arguments next {V} _.

(** [struct fifo_s] and the heap its cells live in.  [lock] is the owner of the
    recursive mutex and how often it holds it; [brk] is the next fresh address. *)
Record fifo_t (V : Type) := {
  lock : option (nat * nat);
  head : option loc;
  tail : option loc;
  cells : gmap loc (fifo_item V);
  brk : loc;
}.
Arguments lock {V} _.
Arguments head {V} _.
Arguments tail {V} _.
Arguments cells {V} _.
Arguments brk {V} _.

Section fifo.
Context `{Build} {V : Type}.
Implicit Types (q : fifo_t V) (v : V).

Definition set_ends (q : fifo_t V) (h t : option loc) : fifo_t V :=
  {| lock := lock q; head := h; tail := t; cells := cells q; brk := brk q |}.

Definition set_lock (q : fifo_t V) (o : option (nat * nat)) : fifo_t V :=
  {| lock := o; head := head q; tail := tail q; cells := cells q; brk := brk q |}.

(** [malloc(sizeof(fifo_item_t))] followed by [item->data = value]. *)
Definition new_item (q : fifo_t V) (v : V) : loc * fifo_t V :=
  (brk q, {| lock := lock q; head := head q; tail := tail q;
             cells := <[brk q := {| data := v; next := Uninit |}]> (cells q);
             brk := Pos.succ (brk q) |}).

Definition free_item (q : fifo_t V) (l : loc) : fifo_t V :=
  {| lock := lock q; head := head q; tail := tail q;
     cells := delete l (cells q); brk := brk q |}.

(** [malloc_ok] tells whether [malloc] succeeds. *)
Definition fifo_init (malloc_ok : bool) : option (fifo_t V) :=
  if malloc_ok
  then Some {| lock := None; head := None; tail := None; cells := ∅; brk := 1%positive |}
  else None.

Definition is_null (p : option loc) : bool := match p with None => true | Some _ => false end.

(** The part of [fifo_push] between taking the lock and releasing it. *)
Definition fifo_link (item : loc) (q : fifo_t V) : outcome (fifo_t V) :=
  if is_null (tail q) && is_null (head q) then mret (set_ends q (Some item) (Some item))
  else if negb (is_null (tail q)) || negb (is_null (head q)) then _ ← assert0; mret q
  else
    let nxt := match head q with Some l => Ptr l | None => Null end in
    mret {| lock := lock q; head := Some item; tail := tail q;
            cells := alter (λ it, {| data := data it; next := nxt |}) item (cells q);
            brk := brk q |}.

Definition fifo_push (malloc_ok : bool) (fifo : option (fifo_t V)) (value : option V) :
    outcome (pdns_status * option (fifo_t V)) :=
  match fifo, value with
  | Some q, Some v =>
      if malloc_ok then
        let '(item, q) := new_item q v in
        q ← fifo_link item q;
        mret (PDNS_OK, Some q)
      else mret (PDNS_NO, fifo)
  | _, _ => mret (PDNS_NO, fifo)
  end.

(** The part of [fifo_pop] between taking the lock and releasing it. *)
Definition fifo_unlink (q : fifo_t V) : outcome (option loc * fifo_t V) :=
  if is_null (head q) && is_null (tail q) then mret (None, q)
  else if negb (is_null (head q)) && bool_decide (tail q = head q)
  then mret (head q, set_ends q None None)
  else
    match head q with
    | None => Fault NullDereference
    | Some l =>
        match cells q !! l with
        | None => Fault OutOfBoundsRead
        | Some it =>
            match next it with
            | Uninit => Fault UninitialisedRead
            | Null => mret (Some l, set_ends q None (tail q))
            | Ptr l' => mret (Some l, set_ends q (Some l') (tail q))
            end
        end
    end.

Definition fifo_pop (fifo : option (fifo_t V)) : outcome (option V * option (fifo_t V)) :=
  match fifo with
  | None => mret (None, None)
  | Some q =>
      '(item, q) ← fifo_unlink q;
      match item with
      | None => mret (None, Some q)
      | Some l =>
          match cells q !! l with
          | None => Fault OutOfBoundsRead
          | Some it => mret (Some (data it), Some (free_item q l))
          end
      end
  end.

(** [fifo_push_item]: the result, the queue, and whether the condition variable is
    signalled. *)
Definition fifo_push_item (malloc_ok : bool) (fifo : option (fifo_t V)) (value : option V) :
    outcome (pdns_status * option (fifo_t V) * bool) :=
  match fifo, value with
  | Some _, Some _ =>
      '(st, fifo) ← fifo_push malloc_ok fifo value;
      match st with
      | PDNS_OK => mret (PDNS_OK, fifo, true)
      | _ => mret (PDNS_NO, fifo, false)
      end
  | _, _ => mret (PDNS_NO, fifo, false)
  end.

(** [fifo_pop_item] once the wait is over, by a signal or by the timeout. *)
Definition fifo_pop_item (fifo : option (fifo_t V)) : outcome (option V * option (fifo_t V)) :=
  match fifo with None => mret (None, None) | Some _ => fifo_pop fifo end.

(** The recursive mutex: [None] when another thread owns it and [tid] must wait. *)
Definition fifo_lock (tid : nat) (q : fifo_t V) : option (fifo_t V) :=
  match lock q with
  | None => Some (set_lock q (Some (tid, 1)))
  | Some (o, n) => if o =? tid then Some (set_lock q (Some (tid, S n))) else None
  end.

(** Releasing once; a thread that does not own the mutex changes nothing. *)
Definition fifo_unlock (tid : nat) (q : fifo_t V) : fifo_t V :=
  match lock q with
  | Some (o, S n) =>
      if o =? tid then set_lock q (match n with O => None | S _ => Some (o, n) end) else q
  | _ => q
  end.
End fifo.

(** [fifo_wait_signal]'s deadline: one second (1000 ms) from now, given the seconds
    of [time(NULL)] and the microseconds of [gettimeofday]. *)
Definition wait_deadline (now tv_usec : Z) : Z * Z :=
  let msw := 1000%Z in
  let tv_sec := (now + Z.quot msw 1000)%Z in
  let tv_nsec := (tv_usec * 1000 + 1000 * 1000 * Z.rem msw 1000)%Z in
  let tv_sec := (tv_sec + Z.quot tv_nsec (1000 * 1000 * 1000))%Z in
  (tv_sec, Z.rem tv_nsec (1000 * 1000 * 1000)).

(** ** The abstract contract: a mailbox with one place *)

(** What a client of the queue may rely on.  [mb_slot] is the item in the mailbox;
    putting into a full mailbox loses the item (a release build) or aborts. *)
Class Mailbox `{Build} (Q V : Type) := {
  mb_inv : Q → Prop;
  mb_slot : Q → option V;
  mb_put : V → Q → outcome Q;
  mb_get : Q → outcome (option V * Q);
  mb_empty : Q;
  mb_empty_ok : mb_inv mb_empty ∧ mb_slot mb_empty = None;
  mb_put_empty q v : mb_inv q → mb_slot q = None →
    ∃ q', mb_put v q = Ok q' ∧ mb_inv q' ∧ mb_slot q' = Some v;
  mb_put_full q v w : mb_inv q → mb_slot q = Some w →
    if ndebug then ∃ q', mb_put v q = Ok q' ∧ mb_inv q' ∧ mb_slot q' = Some w
    else mb_put v q = Fault AssertionFailed;
  mb_get_slot q : mb_inv q →
    ∃ q', mb_get q = Ok (mb_slot q, q') ∧ mb_inv q' ∧ mb_slot q' = None;
}.

(** ** The invariant *)

Section fifo_lemmas.
Context `{Build} {V : Type}.
Implicit Types (q : fifo_t V) (v w : V).

(** Cells lie below [brk], and the two pointers are both null or both point to the
    same allocated cell. *)
Definition fifo_wf (q : fifo_t V) : Prop :=
  (∀ l, is_Some (cells q !! l) → (l < brk q)%positive) ∧
  match head q, tail q with
  | None, None => True
  | Some h, Some t => h = t ∧ is_Some (cells q !! h)
  | _, _ => False
  end.

(** The item the queue holds. *)
Definition fifo_slot (q : fifo_t V) : option V :=
  match head q with Some l => data <$> cells q !! l | None => None end.

Definition fifo_empty : fifo_t V :=
  {| lock := None; head := None; tail := None; cells := ∅; brk := 1%positive |}.

Lemma fifo_empty_wf : fifo_wf fifo_empty.
Proof. split; [|done]. simpl. intros l Hl. rewrite lookup_empty in Hl. by destruct Hl. Qed.

Lemma fresh_brk q : fifo_wf q → cells q !! brk q = None.
Proof.
  intros [Hb _]. destruct (cells q !! brk q) eqn:E; [|done].
  specialize (Hb (brk q)). rewrite E in Hb. specialize (Hb (mk_is_Some _ _ eq_refl)). lia.
Qed.

Lemma fifo_slot_None q : fifo_wf q → fifo_slot q = None ↔ head q = None ∧ tail q = None.
Proof.
  intros [_ Hw]. unfold fifo_slot.
  destruct (head q) as [h|], (tail q) as [t|]; try done.
  destruct Hw as [-> [it ->]]. naive_solver.
Qed.

Lemma fifo_slot_Some q v :
  fifo_wf q → fifo_slot q = Some v →
  ∃ l it, head q = Some l ∧ tail q = Some l ∧ cells q !! l = Some it ∧ data it = v.
Proof.
  intros [_ Hw]. unfold fifo_slot.
  destruct (head q) as [h|], (tail q) as [t|]; try done.
  destruct Hw as [-> [it Hit]]. rewrite Hit. intros [= <-]. eauto 10.
Qed.

Lemma new_item_bound q v l :
  fifo_wf q → is_Some (cells (new_item q v).2 !! l) → (l < Pos.succ (brk q))%positive.
Proof.
  intros [Hb _]. simpl. destruct (decide (l = brk q)) as [->|Hne]; [lia|].
  rewrite lookup_insert_ne by done. intros Hl. specialize (Hb l Hl). lia.
Qed.

(** Pushing onto the empty queue stores the item. *)
Lemma fifo_push_empty q v :
  fifo_wf q → fifo_slot q = None →
  ∃ q', fifo_push true (Some q) (Some v) = Ok (PDNS_OK, Some q') ∧ fifo_wf q' ∧
    fifo_slot q' = Some v ∧ size (cells q') = S (size (cells q)).
Proof.
  intros Hw Hs. pose proof Hs as Hs'. apply fifo_slot_None in Hs' as [Hh Ht]; [|done].
  unfold fifo_push, fifo_link. simpl. rewrite Hh, Ht. simpl. eexists. split_and!; [done|..].
  - split; simpl; [intros l Hl; by eapply (new_item_bound q v)|].
    split; [done|]. rewrite lookup_insert_eq. eauto.
  - unfold fifo_slot. simpl. by rewrite lookup_insert_eq.
  - simpl. apply map_size_insert_None. by apply fresh_brk.
Qed.

(** Pushing onto a queue that holds an item: the new cell is allocated and never
    linked, or the assertion fails. *)
Lemma fifo_push_full q v w :
  fifo_wf q → fifo_slot q = Some w →
  if ndebug then
    ∃ q', fifo_push true (Some q) (Some v) = Ok (PDNS_OK, Some q') ∧ fifo_wf q' ∧
      fifo_slot q' = Some w ∧ size (cells q') = S (size (cells q))
  else fifo_push true (Some q) (Some v) = Fault AssertionFailed.
Proof.
  intros Hw Hs. pose proof Hs as Hs'. apply fifo_slot_Some in Hs' as (l & it & Hh & Ht & Hit & <-); [|done].
  unfold fifo_push, fifo_link, assert0. simpl. rewrite Hh, Ht. simpl.
  destruct ndebug; [|done]. eexists. split; [done|].
  assert (l ≠ brk q) as Hne. { intros ->. by rewrite fresh_brk in Hit. }
  split_and!.
  - split; simpl; [intros l' Hl'; by eapply (new_item_bound q v)|].
    split; [done|]. rewrite lookup_insert_ne by done. eauto.
  - unfold fifo_slot. simpl. by rewrite lookup_insert_ne, Hit by done.
  - simpl. apply map_size_insert_None. by apply fresh_brk.
Qed.

(** Popping returns the item, if any, frees its cell and leaves the queue empty. *)
Lemma fifo_pop_slot q :
  fifo_wf q →
  ∃ q', fifo_pop (Some q) = Ok (fifo_slot q, Some q') ∧ fifo_wf q' ∧ fifo_slot q' = None ∧
    size (cells q) = size (cells q') + match fifo_slot q with Some _ => 1 | None => 0 end.
Proof.
  intros Hw. destruct (fifo_slot q) as [v|] eqn:Hs.
  - pose proof Hs as Hs'. apply fifo_slot_Some in Hs' as (l & it & Hh & Ht & Hit & <-); [|done].
    unfold fifo_pop, fifo_unlink. rewrite Hh, Ht. simpl. rewrite bool_decide_true by done. simpl.
    rewrite Hit. eexists. split_and!; [done|..]; simpl.
    + split; [|done]. simpl. intros l' Hl'. apply Hw.
      destruct (decide (l = l')) as [->|Hne]; [by rewrite Hit|by rewrite lookup_delete_ne in Hl'].
    + done.
    + rewrite <- (insert_delete_id (cells q) l it) at 1 by done.
      rewrite map_size_insert_None by apply lookup_delete_eq. lia.
  - pose proof Hs as Hs'. apply fifo_slot_None in Hs' as [Hh Ht]; [|done].
    unfold fifo_pop, fifo_unlink. rewrite Hh, Ht. simpl. eexists. split_and!; [done|done|done|lia].
Qed.
End fifo_lemmas.

(** The linked queue implements the mailbox. *)
#[global] Program Instance fifo_mailbox `{Build} {V} : Mailbox (fifo_t V) V := {|
  mb_inv := fifo_wf;
  mb_slot := fifo_slot;
  mb_empty := fifo_empty;
  mb_put v q := default q ∘ snd <$> fifo_push true (Some q) (Some v);
  mb_get q := (λ r, (r.1, default q r.2)) <$> fifo_pop (Some q) |}.
Next Obligation. intros ? V. split; [apply fifo_empty_wf|done]. Qed.
Next Obligation.
  intros ? V q v Hw Hs. destruct (fifo_push_empty q v Hw Hs) as (q' & Hp & ? & ? & _).
  rewrite Hp. simpl. eauto.
Qed.
Next Obligation.
  intros ? V q v w Hw Hs. pose proof (fifo_push_full q v w Hw Hs) as Hp.
  destruct ndebug; [|by rewrite Hp].
  destruct Hp as (q' & Hp & ? & ? & _). rewrite Hp. simpl. eauto.
Qed.
Next Obligation.
  intros ? V q Hw. destruct (fifo_pop_slot q Hw) as (q' & Hp & ? & ? & _).
  rewrite Hp. simpl. eauto.
Qed.

(** ** Sequences of operations *)

Inductive qop (V : Type) := Push (v : V) | Pop.
Arguments Push {V} v.
Arguments Pop {V}.

Section fifo_runs.
Context `{Build} {V : Type}.

(** The results of the [fifo_pop_item] calls of a sequence of calls. *)
Fixpoint run_fifo (ops : list (qop V)) (f : option (fifo_t V)) : outcome (list (option V)) :=
  match ops with
  | [] => mret []
  | Push v :: ops => '(_, f, _) ← fifo_push_item true f (Some v); run_fifo ops f
  | Pop :: ops => '(r, f) ← fifo_pop_item f; rs ← run_fifo ops f; mret (r :: rs)
  end.

(** The same on a mailbox with one place. *)
Fixpoint run_slot (ops : list (qop V)) (s : option V) : outcome (list (option V)) :=
  match ops with
  | [] => mret []
  | Push v :: ops =>
      match s with
      | None => run_slot ops (Some v)
      | Some w => _ ← assert0; run_slot ops (Some w)
      end
  | Pop :: ops => rs ← run_slot ops None; mret (s :: rs)
  end.

Lemma run_fifo_slot ops q : fifo_wf q → run_fifo ops (Some q) = run_slot ops (fifo_slot q).
Proof.
  revert q; induction ops as [|[v|] ops IH]; intros q Hw; [done|..]; cbn [run_fifo run_slot].
  - unfold fifo_push_item. destruct (fifo_slot q) as [w|] eqn:Hs.
    + pose proof (fifo_push_full q v w Hw Hs) as Hp. unfold assert0.
      destruct ndebug; [|by rewrite Hp].
      destruct Hp as (q' & -> & Hw' & Hs' & _). simpl. rewrite IH by done. by rewrite Hs'.
    + destruct (fifo_push_empty q v Hw Hs) as (q' & -> & Hw' & Hs' & _).
      simpl. rewrite IH by done. by rewrite Hs'.
  - unfold fifo_pop_item. destruct (fifo_pop_slot q Hw) as (q' & -> & Hw' & Hs' & _).
    simpl. rewrite IH by done. by rewrite Hs'.
Qed.

(** C12: the linked queue behaves, on every sequence of [fifo_push_item] and
    [fifo_pop_item] calls, as a mailbox with a single place: an item put while the
    place is taken is lost in a release build (the call still reports success) and
    aborts the program otherwise. *)
Theorem fifo_is_one_place ops : run_fifo ops (fifo_init true) = run_slot ops None.
Proof. apply (run_fifo_slot ops fifo_empty). apply fifo_empty_wf. Qed.

(** Putting into a full mailbox, repeatedly, and then taking twice. *)
Lemma run_slot_full vs (w : V) :
  run_slot ((Push <$> vs) ++ [Pop; Pop]) (Some w) =
    if ndebug || bool_decide (vs = []) then Ok [Some w; None] else Fault AssertionFailed.
Proof.
  induction vs as [|v vs IH]; [by rewrite orb_true_r|]. cbn [fmap list_fmap app run_slot].
  rewrite bool_decide_false, orb_false_r by done. unfold assert0.
  destruct ndebug; [|done]. simpl in *. by rewrite IH.
Qed.

(** Of a burst of items put before the consumer runs only the first is ever
    taken out; the others are lost although each [fifo_push_item] succeeded.  Without
    NDEBUG a burst of two already aborts the program. *)
Theorem fifo_burst_keeps_first (v : V) vs :
  run_fifo ((Push <$> v :: vs) ++ [Pop; Pop]) (fifo_init true) =
    if ndebug || bool_decide (vs = []) then Ok [Some v; None] else Fault AssertionFailed.
Proof.
  change (fifo_init true) with (Some (@fifo_empty V)).
  rewrite run_fifo_slot by apply fifo_empty_wf. apply (run_slot_full vs v).
Qed.
End fifo_runs.

(** ** Producers and the consumer, interleaved *)

(** Where the database thread is in [fifo_pop_item]: before the wait, blocked in
    [pthread_cond_timedwait], or past it and about to call [fifo_pop]. *)
Inductive consumer := CIdle | CWaiting | CWoken.

(** The shared queue, the consumer, the producers that have pushed but not yet
    signalled, and the history: what [fifo_push] accepted and [fifo_pop] returned. *)
Record system (V : Type) := {
  s_queue : fifo_t V;
  s_consumer : consumer;
  s_signals : nat;
  s_pushed : list V;
  s_popped : list V;
}.
Arguments s_queue {V} _.
Arguments s_consumer {V} _.
Arguments s_signals {V} _.
Arguments s_pushed {V} _.
Arguments s_popped {V} _.

(** Steps are the regions the mutex makes atomic.  A signal finds the consumer waiting
    or is lost; the wait also ends by its timeout. *)
Inductive step `{Build} {V} : system V → system V → Prop :=
  | step_push s v q :
      fifo_push true (Some (s_queue s)) (Some v) = Ok (PDNS_OK, Some q) →
      step s {| s_queue := q; s_consumer := s_consumer s; s_signals := S (s_signals s);
                s_pushed := s_pushed s ++ [v]; s_popped := s_popped s |}
  | step_signal s n :
      s_signals s = S n →
      step s {| s_queue := s_queue s;
                s_consumer := match s_consumer s with CWaiting => CWoken | c => c end;
                s_signals := n; s_pushed := s_pushed s; s_popped := s_popped s |}
  | step_wait s :
      s_consumer s = CIdle →
      step s {| s_queue := s_queue s; s_consumer := CWaiting; s_signals := s_signals s;
                s_pushed := s_pushed s; s_popped := s_popped s |}
  | step_timeout s :
      s_consumer s = CWaiting →
      step s {| s_queue := s_queue s; s_consumer := CWoken; s_signals := s_signals s;
                s_pushed := s_pushed s; s_popped := s_popped s |}
  | step_pop s r q :
      s_consumer s = CWoken → fifo_pop (Some (s_queue s)) = Ok (r, Some q) →
      step s {| s_queue := q; s_consumer := CIdle; s_signals := s_signals s;
                s_pushed := s_pushed s; s_popped := s_popped s ++ option_list r |}.

Definition system_init {V} : system V := {|
  s_queue := fifo_empty; s_consumer := CIdle; s_signals := 0; s_pushed := []; s_popped := [] |}.

Section interleavings.
Context `{Build} {V : Type}.
Implicit Types (s : system V).

(** The items in flight, in order: those returned and then the one in the queue. *)
Definition in_flight s : list V := s_popped s ++ option_list (fifo_slot (s_queue s)).

Definition system_inv s : Prop :=
  fifo_wf (s_queue s) ∧ in_flight s `sublist_of` s_pushed s ∧
  size (cells (s_queue s)) + length (s_popped s) = length (s_pushed s).

Lemma push_inv s v q :
  system_inv s → fifo_push true (Some (s_queue s)) (Some v) = Ok (PDNS_OK, Some q) →
  fifo_wf q ∧ (s_popped s ++ option_list (fifo_slot q)) `sublist_of` (s_pushed s ++ [v]) ∧
  size (cells q) = S (size (cells (s_queue s))).
Proof.
  intros (Hw & Hsub & Hsz) Hp. unfold in_flight in Hsub.
  destruct (fifo_slot (s_queue s)) as [w|] eqn:Hs.
  - pose proof (fifo_push_full _ v w Hw Hs) as Hf. destruct ndebug; [|by rewrite Hf in Hp].
    destruct Hf as (q' & Hf & Hw' & Hs' & Hsz'). rewrite Hf in Hp. simplify_eq.
    rewrite Hs'. split_and!; [done|by apply sublist_inserts_r|done].
  - destruct (fifo_push_empty _ v Hw Hs) as (q' & Hf & Hw' & Hs' & Hsz').
    rewrite Hf in Hp. simplify_eq. rewrite Hs'. simpl in *. rewrite app_nil_r in Hsub.
    split_and!; [done|by apply sublist_app|done].
Qed.

Lemma step_preserves s s' : step s s' → system_inv s → system_inv s'.
Proof.
  intros Hstep Hinv. pose proof Hinv as (Hw & Hsub & Hsz).
  destruct Hstep as [s v q Hp|s n Hn|s Hc|s Hc|s r q Hc Hp]; try done.
  - destruct (push_inv _ _ _ Hinv Hp) as (Hw' & Hsub' & Hsz').
    split_and!; [done|done|]. simpl. rewrite length_app. simpl. lia.
  - destruct (fifo_pop_slot _ Hw) as (q' & Hf & Hw' & Hs' & Hsz').
    rewrite Hf in Hp. simplify_eq. split_and!; [done|..]; simpl.
    + unfold in_flight in *; simpl. by rewrite Hs', app_nil_r.
    + rewrite length_app. destruct (fifo_slot (s_queue s)); simpl in *; lia.
Qed.

(** C11: in every interleaving of any number of producers with the database thread,
    the values the thread receives, followed by the one in the queue, are a
    subsequence of the values the producers put, in their order: nothing is
    duplicated, reordered or invented.  The queue is consistent throughout, and the
    values put but lost are as many as the heap cells that are allocated but not in
    the queue. *)
Theorem interleaved_order s :
  rtc step system_init s →
  in_flight s `sublist_of` s_pushed s ∧ fifo_wf (s_queue s) ∧
  length (s_pushed s) = length (s_popped s) + size (cells (s_queue s)).
Proof.
  intros Hr. assert (system_inv s) as (? & ? & ?); [|split_and!; [done|done|lia]].
  assert (system_inv system_init) as Hi.
  { split_and!; [apply fifo_empty_wf|constructor|done]. }
  revert Hi. induction Hr as [|x y z Hxy _ IH]; [done|]. intros Hx.
  apply IH. by eapply step_preserves.
Qed.
End interleavings.

Lemma interleaved_order_witness :
  ∃ s : system nat, @rtc _ (@step release nat) system_init s ∧
    s_pushed s = [1; 2] ∧ s_popped s = [1] ∧ fifo_slot (s_queue s) = None ∧
    size (cells (s_queue s)) = 1 ∧ in_flight s `sublist_of` s_pushed s.
Proof.
  assert (∃ s : system nat, @rtc _ (@step release nat) system_init s ∧
    s_pushed s = [1; 2] ∧ s_popped s = [1] ∧ fifo_slot (s_queue s) = None ∧
    size (cells (s_queue s)) = 1) as (s & Hr & ? & ? & ? & ?).
  { eexists. split.
    - eapply rtc_l; [apply step_wait; reflexivity|].
      eapply rtc_l; [eapply (step_push _ 1); reflexivity|].
      eapply rtc_l; [eapply (step_push _ 2); reflexivity|].
      eapply rtc_l; [apply (step_signal _ 1); reflexivity|].
      eapply rtc_l; [eapply step_pop; reflexivity|]. apply rtc_refl.
    - split_and!; reflexivity. }
  exists s. split_and!; [done..|]. apply (@interleaved_order release nat s Hr).
Defined.

(** ** The wait and the lock *)

(** The deadline of the wait is well formed for [pthread_cond_timedwait] (its
    nanoseconds are below one second) and lies one second after the time read, to the
    microsecond. *)
Theorem wait_deadline_valid now usec :
  (0 ≤ usec < 1000000)%Z →
  let '(sec, nsec) := wait_deadline now usec in
  (0 ≤ nsec < 1000000000)%Z ∧
  (sec * 1000000000 + nsec = (now + 1) * 1000000000 + usec * 1000)%Z.
Proof.
  intros Hu. unfold wait_deadline. cbv zeta.
  change (Z.quot 1000 1000) with 1%Z. change (Z.rem 1000 1000) with 0%Z.
  rewrite Z.quot_small, Z.rem_small by lia. lia.
Qed.

Lemma wait_deadline_valid_witness :
  wait_deadline 1700000000 999999 = (1700000001, 999999000)%Z ∧
  (0 ≤ 999999000 < 1000000000)%Z.
Proof. split; [reflexivity|]. exact (proj1 (wait_deadline_valid 1700000000 999999 ltac:(lia))). Defined.

(** The recursive mutex.  While a thread holds it no other thread can take it;
    its owner can take it again and must release it as often; and locking and
    unlocking leave the queue as it was. *)
Theorem fifo_lock_exclusive {V} (tid tid' : nat) (q q1 : fifo_t V) :
  fifo_lock tid q = Some q1 →
  (tid' ≠ tid → fifo_lock tid' q1 = None ∧ fifo_unlock tid' q1 = q1) ∧
  (∃ q2, fifo_lock tid q1 = Some q2 ∧ fifo_unlock tid q2 = q1) ∧
  (lock q = None ∨ (∃ n, lock q = Some (tid, S n)) → fifo_unlock tid q1 = q).
Proof.
  destruct q as [lk h t c b]. unfold fifo_lock, fifo_unlock, set_lock. simpl.
  destruct lk as [[o n]|]; [destruct (Nat.eqb_spec o tid) as [->|]; [|done]|];
    intros [= <-]; simpl; rewrite ?Nat.eqb_refl; split_and!;
    try (by intros ?; rewrite (proj2 (Nat.eqb_neq _ _)) by done);
    try (eexists; split; [done|]; simpl; by rewrite ?Nat.eqb_refl);
    try (intros [Hk|[m Hk]]; simplify_eq; done).
Qed.

Lemma fifo_lock_exclusive_witness :
  fifo_lock 1 (@fifo_empty nat) = Some (set_lock fifo_empty (Some (1, 1))) ∧
  fifo_lock 2 (set_lock (@fifo_empty nat) (Some (1, 1))) = None.
Proof.
  split; [reflexivity|].
  apply (fifo_lock_exclusive 1 2 fifo_empty); [reflexivity|discriminate].
Defined.
