(* ===== verification/LogLine.v ===== *)
(** * Building a log line: the code shared, by copy, by pdns-logger-file.c and -syslog.c

    Both text backends build a line in [char str[1024]] by repeating three statements:
    format a field into [tmp], [strncat] it to [str] bounded by [sz], and subtract the
    field's length from [sz].  This file models that step ([append]), gives the fields
    of a message as the documented log format has them, and shows exactly when the
    line is the concatenation of its fields, when it is cut, and when [strncat] writes
    past the end of [str]. *)

From S2P Require Import Prelude CLib Common Dns Message.

(** [sizeof(str)] and [sizeof(tmp)] *)
Definition LINE_SIZE : nat := Z.to_nat 1024.

Record line := { str : list byte; sz : Z }.

(** [char str[1024] = ""; sz = sizeof(str) - 1;] *)
Definition line_init : line := {| str := []; sz := Z.of_nat LINE_SIZE - 1 |}.

(** [pc = snprintf(tmp, sizeof(tmp), ...); strncat(str, tmp, sz); sz -= pc;] where the
    format produces [out].  [sz] is an [int] that [strncat] takes as a [size_t]. *)
Definition append (out : list byte) (l : line) : outcome line :=
  let '(tmp, pc) := snprintf LINE_SIZE out in
  s ← strncat LINE_SIZE (str l) tmp (size_t (sz l));
  mret {| str := s; sz := sz l - pc |}.

(** ** The fields of a message *)

(** A field, a space after it. *)
Definition field (label value : list byte) : list byte := label ++ value ++ bs " ".

(** The label of a numbered field: "rname-1: ". *)
Definition label (s : string) (t : Z) : list byte := bs s ++ dec (s32 t) ++ bs ": ".

Definition only_if {A} (b : bool) (x : A) : list A := if b then [x] else [].

Definition id_fields (m : PBDNSMessage) : list (list byte) :=
  only_if (m_has_id m) (field (bs "QID: ") (dec (s32 (m_id m)))).

Definition from_fields (m : PBDNSMessage) : outcome (list (list byte)) :=
  if m_has_from m then
    if (bin_len (m_from m) =? 4)%Z then
      ip ← inet_ntop AF_INET (bin_data (m_from m)); mret [field (bs "from: ") ip]
    else if (bin_len (m_from m) =? 16)%Z then
      ip ← inet_ntop AF_INET6 (bin_data (m_from m)); mret [field (bs "from: ") ip]
    else mret []
  else mret [].

Definition question_fields (m : PBDNSMessage) : list (list byte) :=
  match m_question m with
  | None => []
  | Some q =>
      only_if (q_has_qtype q) (field (bs "qtype: ") (fmt_cs (pdns_logger_type2p (q_qtype q)))) ++
      only_if (q_has_qclass q) (field (bs "qclass: ") (fmt_cs (pdns_logger_class2p (q_qclass q)))) ++
      [field (bs "qname: ") (fmt_cs (q_qname q))]
  end.

Definition response_fields (r : PBDNSMessage__DNSResponse) : list (list byte) :=
  only_if (r_has_rcode r) (field (bs "rcode: ") (fmt_cs (pdns_logger_rcode2p (r_rcode r)))) ++
  [field (bs "rrcount: ") (udec (Z.of_nat (length (r_rrs r))))] ++
  only_if (negb (zstr (r_appliedpolicy r)))
    (bs "policy: '" ++ fmt_cs (r_appliedpolicy r) ++ bs "' ").

(** The record types whose data is printed as text: NS, CNAME, SOA and MX. *)
Definition text_type (t : Z) : bool := (t =? 2)%Z || (t =? 5)%Z || (t =? 6)%Z || (t =? 15)%Z.

Definition rdata_fields (t : Z) (rr : PBDNSMessage__DNSResponse__DNSRR) :
    outcome (list (list byte)) :=
  let d := rr_rdata rr in
  if negb (rr_has_rdata rr) then mret []
  else if rr_has_type rr && (rr_type rr =? 1)%Z && (bin_len d =? 4)%Z then
    ip ← inet_ntop AF_INET (bin_data d); mret [field (label "rdata-" t) ip]
  else if rr_has_type rr && (rr_type rr =? 28)%Z && (bin_len d =? 16)%Z then
    ip ← inet_ntop AF_INET6 (bin_data d); mret [field (label "rdata-" t) ip]
  else if rr_has_type rr && text_type (rr_type rr) then
    s ← fmt_s (bin_data d); mret [field (label "rdata-" t) s]
  else mret [bs "rdata (not supported) "].

(** The fields of the [t]-th record of the response. *)
Definition rr_fields (t : Z) (rr : PBDNSMessage__DNSResponse__DNSRR) : outcome (list (list byte)) :=
  rd ← rdata_fields t rr;
  mret ([field (label "rname-" t) (fmt_cs (rr_name rr))] ++
    only_if (rr_has_type rr)
      (field (label "rtype-" t) (fmt_cs (pdns_logger_type2p (rr_type rr)))) ++
    only_if (rr_has_class rr)
      (field (label "rclass-" t) (fmt_cs (pdns_logger_class2p (rr_class rr)))) ++
    only_if (rr_has_ttl rr) (field (label "rttl-" t) (dec (s32 (rr_ttl rr)))) ++ rd).

(** The fields before the records. *)
Definition head_fields `{Build} (m : PBDNSMessage) (r : PBDNSMessage__DNSResponse) :
    outcome (list (list byte)) :=
  from ← from_fields m;
  _ ← (if m_has_originalrequestorsubnet m then assert0 else mret ());
  mret (id_fields m ++ from ++ question_fields m ++ response_fields r).

(** The fields of the records numbered from [t] on, one list per record. *)
Fixpoint rrs_fields (t : Z) (rrs : list PBDNSMessage__DNSResponse__DNSRR) :
    outcome (list (list (list byte))) :=
  match rrs with
  | [] => mret []
  | rr :: rrs => f ← rr_fields t rr; fs ← rrs_fields (t + 1) rrs; mret (f :: fs)
  end.

(** The lines logged for a message: one per record, each with the fields of all records
    so far; a message without records has one line. *)
Fixpoint lines_from (acc : list (list byte)) (fss : list (list (list byte))) : list (list byte) :=
  match fss with
  | [] => []
  | fs :: fss => take (pred LINE_SIZE) (concat (acc ++ fs)) :: lines_from (acc ++ fs) fss
  end.

Definition message_lines (hd : list (list byte)) (fss : list (list (list byte))) :
    list (list byte) :=
  match fss with
  | [] => [take (pred LINE_SIZE) (concat hd)]
  | _ => lines_from hd fss
  end.

(** ** When a backend logs a message at all *)

(** The message the backends consider: its response, if it is to be logged. *)
Definition logged_response (rewrites_only disabled : bool) (msg : option PBDNSMessage) :
    option (PBDNSMessage * PBDNSMessage__DNSResponse) :=
  if disabled then None else
  match msg with
  | None => None
  | Some m =>
      match m_response m with
      | None => None
      | Some r => if rewrites_only && zstr (r_appliedpolicy r) then None else Some (m, r)
      end
  end.

(** ** Appending fields *)

Lemma LINE_value : Z.of_nat LINE_SIZE = 1024%Z.
Proof. done. Qed.
#[global] Opaque LINE_SIZE.

(** The first byte that does not fit is the last harmless one: what [append] does to a
    line that has taken the fields [ps]. *)
Lemma append_fits ps p :
  length (concat ps) < LINE_SIZE →
  append p {| str := concat ps; sz := Z.of_nat LINE_SIZE - 1 - Z.of_nat (length (concat ps)) |} =
  Ok {| str := take (pred LINE_SIZE) (concat (ps ++ [p]));
        sz := Z.of_nat LINE_SIZE - 1 - Z.of_nat (length (concat (ps ++ [p]))) |}.
Proof.
  intros Hl. pose proof LINE_value. unfold append, snprintf. cbn [str sz].
  rewrite size_t_small by lia. rewrite strncat_ok by lia.
  rewrite concat_app. cbn [concat mbind outcome_bind]. rewrite app_nil_r. unfold mret, outcome_ret.
  do 2 f_equal.
  - rewrite take_take, take_app, (take_ge (concat ps)) by lia.
    do 2 f_equal. lia.
  - rewrite length_app. lia.
Qed.

(** A line that is already full: the length limit has gone negative, which [strncat]
    takes as a huge one, and the next field goes past the end of the array. *)
Lemma append_overflow s z p :
  length s = pred LINE_SIZE → (- 2 ^ 62 < z < 0)%Z → p ≠ [] →
  append p {| str := s; sz := z |} = Fault OutOfBoundsWrite.
Proof.
  intros Hs Hz Hp. pose proof LINE_value. unfold append, snprintf. cbn [str sz].
  assert (length (take (pred LINE_SIZE) p) ≥ 1).
  { rewrite length_take. destruct p; [done|]. simpl. lia. }
  rewrite strncat_unlimited; [done|..].
  - pose proof (size_t_neg z). rewrite length_take. lia.
  - lia.
Qed.

(** The room the fields but the last take. *)
Definition used (ps : list (list byte)) : nat := length (concat (removelast ps)).

(** Fields appended to an empty line: the line is their concatenation, cut to 1023
    characters, as long as all fields but the last fit; otherwise the array overflows. *)
Lemma append_all ps :
  Forall (λ p, p ≠ []) ps → (Z.of_nat (length (concat ps)) < 2 ^ 30)%Z →
  foldM append ps line_init =
    if used ps <? LINE_SIZE
    then Ok {| str := take (pred LINE_SIZE) (concat ps);
               sz := Z.of_nat LINE_SIZE - 1 - Z.of_nat (length (concat ps)) |}
    else Fault OutOfBoundsWrite.
Proof.
  pose proof LINE_value as HL. unfold used.
  induction ps as [|p ps IH] using rev_ind; intros Hne Hsz.
  { simpl. rewrite (proj2 (Nat.ltb_lt _ _)) by lia. rewrite take_nil. f_equal. }
  apply Forall_app in Hne as [Hne Hp]. apply Forall_cons in Hp as [Hp _].
  rewrite concat_app, length_app in Hsz. simpl in Hsz. rewrite app_nil_r in Hsz.
  rewrite foldM_app, IH by (done || lia). rewrite removelast_last.
  destruct (Nat.ltb_spec (length (concat ps)) LINE_SIZE) as [Hfit|Hfull].
  - rewrite (proj2 (Nat.ltb_lt _ _)).
    + cbn [mbind outcome_bind foldM]. rewrite (take_ge (concat ps)) by lia.
      rewrite append_fits by done. done.
    + destruct (exists_last' ps) as [->|[ps' [x ->]]]; [simpl; lia|].
      rewrite removelast_last. rewrite concat_app, length_app in Hfit. lia.
  - destruct (Nat.ltb_spec (length (concat (removelast ps))) LINE_SIZE); [|done].
    cbn [mbind outcome_bind foldM]. rewrite append_overflow; [done|..|done].
    + rewrite length_take. lia.
    + lia.
Qed.

(** ** Fields are never empty *)

Lemma field_nonempty l v : field l v ≠ [].
Proof. unfold field. destruct l; [destruct v|]; discriminate. Qed.

Lemma only_if_nonempty b x : x ≠ [] → Forall (λ p : list byte, p ≠ []) (only_if b x).
Proof. destruct b; simpl; auto using Forall_singleton. Qed.

#[export] Hint Resolve field_nonempty only_if_nonempty : pdns.

Lemma from_fields_nonempty m fs : from_fields m = Ok fs → Forall (λ p, p ≠ []) fs.
Proof.
  unfold from_fields. intros H. repeat case_match; ok_inv; auto.
  all: apply outcome_bind_ok in H as (ip & _ & H); ok_inv; auto with pdns.
Qed.

Lemma question_fields_nonempty m : Forall (λ p, p ≠ []) (question_fields m).
Proof.
  unfold question_fields. destruct (m_question m) as [q|]; [|done].
  repeat apply Forall_app_2; auto with pdns.
Qed.

Lemma response_fields_nonempty r : Forall (λ p, p ≠ []) (response_fields r).
Proof.
  unfold response_fields. repeat apply Forall_app_2; auto with pdns.
Qed.

Lemma head_fields_nonempty `{Build} m r fs :
  head_fields m r = Ok fs → Forall (λ p, p ≠ []) fs.
Proof.
  unfold head_fields, id_fields. intros H0.
  apply outcome_bind_ok in H0 as (from & Hf & H0).
  apply outcome_bind_ok in H0 as ([] & _ & H0). ok_inv.
  repeat apply Forall_app_2; eauto using from_fields_nonempty, question_fields_nonempty,
    response_fields_nonempty with pdns.
Qed.

Lemma rdata_fields_nonempty t rr fs : rdata_fields t rr = Ok fs → Forall (λ p, p ≠ []) fs.
Proof.
  unfold rdata_fields. intros H. repeat case_match; ok_inv; auto.
  1-3: apply outcome_bind_ok in H as (ip & _ & H); ok_inv; auto with pdns.
Qed.

Lemma rr_fields_nonempty t rr fs : rr_fields t rr = Ok fs → Forall (λ p, p ≠ []) fs.
Proof.
  unfold rr_fields. intros H. apply outcome_bind_ok in H as (rd & Hrd & H). ok_inv.
  apply rdata_fields_nonempty in Hrd. constructor; [apply field_nonempty|].
  repeat apply Forall_app_2; auto with pdns.
Qed.

Lemma rrs_fields_nonempty t rrs fss :
  rrs_fields t rrs = Ok fss → Forall (λ p, p ≠ []) (concat fss).
Proof.
  revert t fss; induction rrs as [|rr rrs IH]; intros t fss H; simpl in H; [by ok_inv|].
  apply outcome_bind_ok in H as (f & Hf & H). apply outcome_bind_ok in H as (fs & Hfs & H).
  ok_inv. apply Forall_app_2; eauto using rr_fields_nonempty.
Qed.

(** ** Lines as the loop over the records builds them *)

(** Prefixes of a sequence of fields that fits fit too. *)
Lemma used_app ps qs : used ps ≤ used (ps ++ qs).
Proof.
  unfold used. destruct (exists_last' qs) as [->|[k [x ->]]]; [by rewrite app_nil_r|].
  rewrite app_assoc, removelast_last, concat_app, length_app.
  destruct (exists_last' ps) as [->|[k' [x' ->]]]; [simpl; lia|].
  rewrite removelast_last, concat_app, length_app. lia.
Qed.

(** The line after the fields [ps], given that they fit. *)
Definition line_of (ps : list (list byte)) : line :=
  {| str := take (pred LINE_SIZE) (concat ps);
     sz := Z.of_nat LINE_SIZE - 1 - Z.of_nat (length (concat ps)) |}.

(** Fields worth appending: none is empty and they do not exhaust an [int]. *)
Definition sized (ps : list (list byte)) : Prop :=
  Forall (λ p, p ≠ []) ps ∧ (Z.of_nat (length (concat ps)) < 2 ^ 30)%Z.

Lemma sized_app_l ps qs : sized (ps ++ qs) → sized ps.
Proof.
  intros [Hne Hsz]. apply Forall_app in Hne as [Hne _].
  rewrite concat_app, length_app in Hsz. split; [done|lia].
Qed.

(** Appending more fields to a line built from [ps]. *)
Lemma append_more ps qs :
  sized (ps ++ qs) → used ps < LINE_SIZE →
  foldM append qs (line_of ps) =
    if used (ps ++ qs) <? LINE_SIZE then Ok (line_of (ps ++ qs)) else Fault OutOfBoundsWrite.
Proof.
  intros Hs Hu. pose proof (sized_app_l _ _ Hs) as [Hne Hsz]. destruct Hs as [Hne' Hsz'].
  pose proof (append_all (ps ++ qs) Hne' Hsz') as Hall. rewrite foldM_app in Hall.
  rewrite (append_all ps), (proj2 (Nat.ltb_lt _ _)) in Hall by done. exact Hall.
Qed.

Lemma line_init_of : line_init = line_of [].
Proof.
  unfold line_init, line_of. cbn [concat length]. rewrite take_nil. f_equal.
Qed.

(** Appending an optional field. *)
Lemma append_only_if (b : bool) p l :
  (if b then append p l else mret l) = foldM append (only_if b p) l.
Proof. destruct b; simpl; [by rewrite outcome_bind_ret|done]. Qed.

(** A numbered field as the format strings have it. *)
Lemma num_field s t v :
  bs s ++ (dec (s32 t) ++ bs ": ") ++ v ++ bs " " = field (label s t) v.
Proof. unfold field, label. by rewrite <- !app_assoc. Qed.

Lemma rrs_fields_cons t rr rrs : rrs_fields t (rr :: rrs) ≠ Ok [].
Proof.
  simpl. intros H. apply outcome_bind_ok in H as (f & _ & H).
  by apply outcome_bind_ok in H as (fs & _ & H).
Qed.

Lemma used_nil : used [] < LINE_SIZE.
Proof. pose proof LINE_value. unfold used. simpl. lia. Qed.

(** ** Which messages can be formatted *)

Section formatting.
Context `{Build}.

(** The data of a record printed as text does not end within its allocation. *)
Definition unterminated (rr : PBDNSMessage__DNSResponse__DNSRR) : Prop :=
  rr_has_rdata rr = true ∧ rr_has_type rr = true ∧ text_type (rr_type rr) = true ∧
  ∃ blk, bin_data (rr_rdata rr) = Some blk ∧ nul_free blk.

Definition formattable (m : PBDNSMessage) (r : PBDNSMessage__DNSResponse) : Prop :=
  msg_wf m ∧ m_response m = Some r ∧ Forall (λ rr, ¬ unterminated rr) (r_rrs r) ∧
  (ndebug = true ∨ m_has_originalrequestorsubnet m = false).

Lemma from_fields_ok m : bin_wf (m_from m) → ∃ fs, from_fields m = Ok fs.
Proof.
  intros Hwf. unfold from_fields. destruct (m_has_from m); [|eauto].
  destruct (Z.eqb_spec (bin_len (m_from m)) 4) as [E|].
  { destruct (bin_wf_ntop AF_INET _ Hwf E) as [s ->]. simpl. eauto. }
  destruct (Z.eqb_spec (bin_len (m_from m)) 16) as [E|]; [|eauto].
  destruct (bin_wf_ntop AF_INET6 _ Hwf E) as [s ->]. simpl. eauto.
Qed.

Lemma rr_fields_ok t rr : rr_wf rr → ¬ unterminated rr → ∃ fs, rr_fields t rr = Ok fs.
Proof.
  intros [Hwf _ _ _] Hterm. unfold rr_fields.
  assert (∃ fs, rdata_fields t rr = Ok fs) as [fs ->]; [|simpl; eauto].
  unfold rdata_fields, unterminated in *. destruct (rr_has_rdata rr); simpl; [|eauto].
  destruct (rr_has_type rr) eqn:Ht; simpl; [|eauto].
  destruct ((rr_type rr =? 1)%Z && (bin_len (rr_rdata rr) =? 4)%Z) eqn:E1.
  { apply andb_true_iff in E1 as [_ E1]. apply Z.eqb_eq in E1.
    destruct (bin_wf_ntop AF_INET _ Hwf E1) as [s ->]. simpl. eauto. }
  destruct ((rr_type rr =? 28)%Z && (bin_len (rr_rdata rr) =? 16)%Z) eqn:E2.
  { apply andb_true_iff in E2 as [_ E2]. apply Z.eqb_eq in E2.
    destruct (bin_wf_ntop AF_INET6 _ Hwf E2) as [s ->]. simpl. eauto. }
  destruct (text_type (rr_type rr)) eqn:E3; [|eauto].
  destruct (bin_data (rr_rdata rr)) as [blk|] eqn:Eb; simpl; [|eauto].
  destruct (cstr blk) eqn:Ec; simpl; [eauto|]. apply cstr_None in Ec. naive_solver.
Qed.

Lemma rrs_fields_ok t rrs :
  Forall rr_wf rrs → Forall (λ rr, ¬ unterminated rr) rrs → ∃ fss, rrs_fields t rrs = Ok fss.
Proof.
  intros Hwf; revert t; induction Hwf as [|rr rrs Hrr Hrrs IH]; intros t Ht; [by exists []|].
  apply Forall_cons in Ht as [Ht Hts]. destruct (rr_fields_ok t rr Hrr Ht) as [fs Hfs].
  destruct (IH (t + 1)%Z Hts) as [fss Hfss]. simpl. rewrite Hfs. simpl. rewrite Hfss. simpl. eauto.
Qed.

Lemma formattable_fields m r :
  formattable m r → ∃ hd fss, head_fields m r = Ok hd ∧ rrs_fields 1 (r_rrs r) = Ok fss.
Proof.
  intros (Hwf & Hr & Hterm & Hsub).
  destruct (from_fields_ok m (msg_wf_from _ Hwf)) as [from Hfrom].
  destruct (rrs_fields_ok 1 (r_rrs r) (msg_wf_rrs _ Hwf _ Hr) Hterm) as [fss Hfss].
  unfold head_fields. rewrite Hfrom. exists (id_fields m ++ from ++ question_fields m ++ response_fields r), fss.
  split; [|done]. simpl. unfold assert0. destruct Hsub as [-> | ->]; [|done].
  by destruct (m_has_originalrequestorsubnet m).
Qed.

(** A message that is logged, all of whose fields can be formatted. *)
Record loggable (rewrites_only disabled : bool) (m : PBDNSMessage) (hd : list (list byte))
    (fss : list (list (list byte))) : Prop := {
  lg_response : ∃ r, logged_response rewrites_only disabled (Some m) = Some (m, r) ∧
    head_fields m r = Ok hd ∧ rrs_fields 1 (r_rrs r) = Ok fss;
  lg_sized : (Z.of_nat (length (concat (hd ++ concat fss))) < 2 ^ 30)%Z;
}.

Lemma loggable_sized ro dis m hd fss : loggable ro dis m hd fss → sized (hd ++ concat fss).
Proof.
  intros [(r & _ & Hhd & Hfss) Hsz]. split; [|done].
  apply Forall_app_2; [by eapply head_fields_nonempty|by eapply rrs_fields_nonempty].
Qed.

(** The lines of a message that can be logged, if it is to be logged at all. *)
Definition writable (rewrites_only disabled : bool) (m : PBDNSMessage)
    (ls : list (list byte)) : Prop :=
  (logged_response rewrites_only disabled (Some m) = None ∧ ls = []) ∨
  ∃ hd fss, loggable rewrites_only disabled m hd fss ∧
    used (hd ++ concat fss) < LINE_SIZE ∧ ls = message_lines hd fss.
End formatting.

(** ** Concrete messages *)

(** A record of type A: [n].0.0.1, with time to live 60. *)
Definition demo_a (n : byte) : PBDNSMessage__DNSResponse__DNSRR := {|
  rr_name := Some (bs "www.example.com."); rr_has_type := true; rr_type := 1;
  rr_has_class := true; rr_class := 1; rr_has_ttl := true; rr_ttl := 60;
  rr_has_rdata := true; rr_rdata := {| bin_len := 4; bin_data := Some [n; x00; x00; x01] |} |}.

(** A CNAME record, its target as the decoder leaves it: no NUL after it. *)
Definition demo_cname : PBDNSMessage__DNSResponse__DNSRR := {|
  rr_name := Some (bs "www.example.com."); rr_has_type := true; rr_type := 5;
  rr_has_class := true; rr_class := 1; rr_has_ttl := true; rr_ttl := 60;
  rr_has_rdata := true;
  rr_rdata := {| bin_len := 12; bin_data := Some (bs "example.com.") |} |}.

Definition demo_response (rrs : list PBDNSMessage__DNSResponse__DNSRR) :
    PBDNSMessage__DNSResponse := {|
  r_has_rcode := true; r_rcode := 0; r_rrs := rrs; r_appliedpolicy := Some (bs "rpz");
  r_tags := []; r_has_querytimesec := false; r_querytimesec := 0;
  r_has_querytimeusec := false; r_querytimeusec := 0 |}.

Definition demo_msg (rrs : list PBDNSMessage__DNSResponse__DNSRR) : PBDNSMessage := {|
  m_type := 2;
  m_has_messageid := false; m_messageid := bin_null;
  m_has_serveridentity := false; m_serveridentity := bin_null;
  m_has_socketfamily := true; m_socketfamily := 1;
  m_has_socketprotocol := true; m_socketprotocol := 1;
  m_has_from := true; m_from := {| bin_len := 4; bin_data := Some [x0a; x00; x00; x02] |};
  m_has_to := false; m_to := bin_null;
  m_has_inbytes := false; m_inbytes := 0;
  m_has_timesec := true; m_timesec := 1500000000;
  m_has_timeusec := false; m_timeusec := 0;
  m_has_id := true; m_id := 4711;
  m_question := Some {| q_qname := Some (bs "www.example.com."); q_has_qtype := true; q_qtype := 1;
                        q_has_qclass := true; q_qclass := 1 |};
  m_response := Some (demo_response rrs);
  m_has_originalrequestorsubnet := false; m_originalrequestorsubnet := bin_null;
  m_requestorid := None;
  m_has_initialrequestid := false; m_initialrequestid := bin_null |}.

(** The fields of a message and the lines it is logged as, computed. *)
Definition computed {A} (o : outcome (list A)) : list A := match o with Ok l => l | Fault _ => [] end.

Definition demo_head `{Build} (rrs : list PBDNSMessage__DNSResponse__DNSRR) :=
  computed (head_fields (demo_msg rrs) (demo_response rrs)).
Definition demo_lines `{Build} (rrs : list PBDNSMessage__DNSResponse__DNSRR) :=
  message_lines (demo_head rrs) (computed (rrs_fields 1 rrs)).

(** Checks, by evaluation, that a concrete message can be logged. *)
Ltac check_writable b rrs :=
  right; exists (@demo_head b rrs), (computed (rrs_fields 1 rrs)); split;
  [split; [exists (demo_response rrs); split_and!; by vm_compute | by vm_compute]
  |split; [apply Nat.ltb_lt; by vm_compute | reflexivity]].
