(* ===== verification/Stdio.v ===== *)
(** * Files and buffered streams

    The part of the C library and the file system the file backend uses: streams
    opened for appending, with their buffers, on a file system in which a path names
    an inode, so that a stream keeps writing to a file that has been renamed. *)

From stdpp Require Import gmap.
From S2P Require Import Prelude.

#[global] Program Instance byte_countable : Countable byte :=
  inj_countable Byte.to_N Byte.of_N _.
Next Obligation. intros b. apply Byte.of_to_N. Qed.

(** How many buffered bytes the C library writes out by itself after output. *)
Class Stdio := { spill : list byte → nat }.

(** [openable p]: opening [p] for appending succeeds. *)
Record fs := {
  dir : gmap (list byte) nat;
  inodes : gmap nat (list byte);
  fresh : nat;
  openable : list byte → bool;
}.

Record FILE := { f_ino : nat; f_buf : list byte }.

Definition content (w : fs) (ino : nat) : list byte := default [] (inodes w !! ino).

Definition write_ino (ino : nat) (data : list byte) (w : fs) : fs :=
  {| dir := dir w; inodes := <[ino := content w ino ++ data]> (inodes w);
     fresh := fresh w; openable := openable w |}.

(** [fopen(path, "a")] *)
Definition fopen_a (path : list byte) (w : fs) : option FILE * fs :=
  if openable w path then
    match dir w !! path with
    | Some ino => (Some {| f_ino := ino; f_buf := [] |}, w)
    | None =>
        (Some {| f_ino := fresh w; f_buf := [] |},
         {| dir := <[path := fresh w]> (dir w); inodes := <[fresh w := []]> (inodes w);
            fresh := S (fresh w); openable := openable w |})
    end
  else (None, w).

Definition fprintf `{Stdio} (data : list byte) (f : FILE) (w : fs) : FILE * fs :=
  let buf := f_buf f ++ data in
  let k := spill buf in
  ({| f_ino := f_ino f; f_buf := drop k buf |}, write_ino (f_ino f) (take k buf) w).

Definition fflush (f : FILE) (w : fs) : FILE * fs :=
  ({| f_ino := f_ino f; f_buf := [] |}, write_ino (f_ino f) (f_buf f) w).

Definition fclose (f : FILE) (w : fs) : fs := (fflush f w).2.

(** [freopen(path, "a", f)]: the old file is flushed and closed in any case. *)
Definition freopen_a (path : list byte) (f : FILE) (w : fs) : option FILE * fs :=
  fopen_a path (fclose f w).

(** Another process moving a file out of the way, as log rotation does. *)
Definition rename (path path' : list byte) (w : fs) : fs :=
  match dir w !! path with
  | None => w
  | Some ino =>
      {| dir := <[path' := ino]> (delete path (dir w)); inodes := inodes w;
         fresh := fresh w; openable := openable w |}
  end.

(** What a reader sees of a stream's file once the buffer is written. *)
Definition view (w : fs) (f : FILE) : list byte := content w (f_ino f) ++ f_buf f.

(** [w'] differs from [w] at most in the contents of file [i]. *)
Definition same_but (i : nat) (w w' : fs) : Prop :=
  dir w' = dir w ∧ fresh w' = fresh w ∧ openable w' = openable w ∧
  ∀ ino, ino ≠ i → content w' ino = content w ino.

#[global] Instance same_but_preorder i : PreOrder (same_but i).
Proof.
  split; [by intros w|]. intros w1 w2 w3 (? & ? & ? & Hc1) (? & ? & ? & Hc2).
  split_and!; try congruence. intros ino Hne. by rewrite Hc2, Hc1.
Qed.

(** ** Lemmas *)

Section stdio_lemmas.
Context `{Stdio}.

Lemma content_write w ino data ino' :
  content (write_ino ino data w) ino' =
    if decide (ino = ino') then content w ino ++ data else content w ino'.
Proof.
  unfold content at 1, write_ino. simpl. rewrite lookup_insert.
  case_decide; by subst.
Qed.

Lemma write_same_but w ino data : same_but ino w (write_ino ino data w).
Proof.
  split_and!; try done. intros ino' Hne. by rewrite content_write, decide_False by done.
Qed.

Lemma fprintf_view data f w :
  let '(f', w') := fprintf data f w in
  view w' f' = view w f ++ data ∧ f_ino f' = f_ino f ∧ same_but (f_ino f) w w'.
Proof.
  unfold fprintf, view. simpl. split_and!; [|done|apply write_same_but].
  rewrite content_write, decide_True by done. by rewrite <- !app_assoc, take_drop.
Qed.

Lemma fflush_view f w :
  let '(f', w') := fflush f w in
  view w' f' = view w f ∧ f_buf f' = [] ∧ f_ino f' = f_ino f ∧ same_but (f_ino f) w w'.
Proof.
  unfold fflush, view. simpl. split_and!; [|done..|apply write_same_but].
  by rewrite content_write, decide_True, app_nil_r by done.
Qed.

(** Closing a stream writes out everything in its buffer. *)
Lemma fclose_content f w : content (fclose f w) (f_ino f) = view w f.
Proof. unfold fclose. simpl. by rewrite content_write, decide_True by done. Qed.

Lemma fclose_same_but f w : same_but (f_ino f) w (fclose f w).
Proof. apply write_same_but. Qed.

(** Opening a name that is free creates an empty file. *)
Lemma fopen_a_new path w :
  openable w path = true → dir w !! path = None →
  ∃ f' w', fopen_a path w = (Some f', w') ∧ dir w' !! path = Some (f_ino f') ∧
    f_ino f' = fresh w ∧ view w' f' = [] ∧
    fresh w' = S (fresh w) ∧ openable w' = openable w ∧
    ∀ ino, ino ≠ fresh w → content w' ino = content w ino.
Proof.
  intros Ho Hd. unfold fopen_a. rewrite Ho, Hd. do 2 eexists.
  split; [done|]. unfold view, content. simpl. split_and!; try done.
  - by rewrite lookup_insert_eq.
  - by rewrite lookup_insert_eq.
  - intros ino Hne. by rewrite lookup_insert_ne.
Qed.

Lemma fopen_a_ok path w :
  openable w path = true →
  ∃ f w', fopen_a path w = (Some f, w') ∧ dir w' !! path = Some (f_ino f) ∧ f_buf f = [].
Proof.
  intros Ho. unfold fopen_a. rewrite Ho. destruct (dir w !! path) as [i|] eqn:E;
    do 2 eexists; split_and!; simpl; try done. apply lookup_insert_eq.
Qed.

(** A file that has been moved away has lost its name, and nothing else. *)
Lemma rename_frame path path' w :
  path' ≠ path →
  dir (rename path path' w) !! path = None ∧ inodes (rename path path' w) = inodes w ∧
  fresh (rename path path' w) = fresh w ∧ openable (rename path path' w) = openable w.
Proof.
  intros Hne. unfold rename. destruct (dir w !! path) as [i|] eqn:Hd; [|done]. cbn.
  by rewrite lookup_insert_ne, lookup_delete_eq by done.
Qed.

(** Log rotation as an administrator does it: the file is moved away, then the stream
    is reopened.  The old file has everything written to the stream, the new one is
    empty and no other file changes. *)
Lemma rename_freopen path path' f w :
  dir w !! path ≠ None → path ≠ path' → openable w path = true → f_ino f < fresh w →
  ∃ f' w', freopen_a path f (rename path path' w) = (Some f', w') ∧
    dir w' !! path = Some (f_ino f') ∧ f_ino f' = fresh w ∧
    view w' f' = [] ∧ fresh w' = S (fresh w) ∧ openable w' = openable w ∧
    content w' (f_ino f) = view w f ∧
    ∀ ino, ino ≠ f_ino f → ino ≠ fresh w → content w' ino = content w ino.
Proof.
  intros Hd Hne Ho Hlt. destruct (dir w !! path) as [i|] eqn:Hi; [|done]. clear Hd.
  set (w1 := fclose f (rename path path' w)).
  assert (dir w1 !! path = None ∧ fresh w1 = fresh w ∧ openable w1 = openable w ∧
    content w1 (f_ino f) = view w f ∧ ∀ ino, ino ≠ f_ino f → content w1 ino = content w ino)
    as (Hd1 & Hf1 & Ho1 & Hc1 & Hr1).
  { unfold w1, rename. rewrite Hi.
    set (w0 := {| dir := _ |}). destruct (fclose_same_but f w0) as (-> & -> & -> & Hr).
    rewrite fclose_content. split_and!; try done. unfold w0. simpl.
    rewrite lookup_insert_ne by done. apply lookup_delete_eq. }
  destruct (fopen_a_new path w1) as (f' & w' & Hop & Hd' & Hi' & Hv & Hfr & Ho' & Hc);
    [by rewrite Ho1|done|].
  exists f', w'. unfold freopen_a. fold w1. rewrite Hf1 in *.
  split_and!; try done; [congruence|..].
  - by rewrite Hc by lia.
  - intros ino Hn1 Hn2. by rewrite Hc, Hr1.
Qed.
End stdio_lemmas.

(** A concrete C library and file system: full blocks of 4096 bytes are written out. *)
Definition block_stdio : Stdio := {| spill := λ buf, length buf / Z.to_nat 4096 * Z.to_nat 4096 |}.

Definition demo_fs (path : list byte) : fs := {|
  dir := {[ path := 7 ]}; inodes := {[ 7 := bs "old" ]}; fresh := 8; openable := λ _, true |}.
