(* ===== verification/Logfile.v ===== *)
(** * The file backend: src/pdns-logger-file.c

    Its settings and stream, the INI handler of section [logfile], and the four
    operations of [logfile_engine].  The state carries the file system the stream
    writes to.  Messages on standard error are not modelled. *)

From S2P Require Import Prelude CLib Common Dns Message Ini LogLine Stdio.

(** The static variables of the file, and the world they act on. *)
Record logfile_t := {
  fp : option FILE;
  file : cstring;
  force_flush : bool;
  rewrites_only : bool;
  disabled : bool;
  world : fs;
}.

(** Their initial values. *)
Definition logfile_statics (w : fs) : logfile_t := {|
  fp := None; file := None; force_flush := false; rewrites_only := true; disabled := false;
  world := w |}.

Definition set_stream (f : option FILE) (w : fs) (s : logfile_t) : logfile_t := {|
  fp := f; file := file s; force_flush := force_flush s; rewrites_only := rewrites_only s;
  disabled := disabled s; world := w |}.
Definition set_file (f : cstring) (s : logfile_t) : logfile_t := {|
  fp := fp s; file := f; force_flush := force_flush s; rewrites_only := rewrites_only s;
  disabled := disabled s; world := world s |}.
Definition set_force_flush (b : bool) (s : logfile_t) : logfile_t := {|
  fp := fp s; file := file s; force_flush := b; rewrites_only := rewrites_only s;
  disabled := disabled s; world := world s |}.
Definition set_rewrites_only (b : bool) (s : logfile_t) : logfile_t := {|
  fp := fp s; file := file s; force_flush := force_flush s; rewrites_only := b;
  disabled := disabled s; world := world s |}.
Definition set_disabled (b : bool) (s : logfile_t) : logfile_t := {|
  fp := fp s; file := file s; force_flush := force_flush s; rewrites_only := rewrites_only s;
  disabled := b; world := world s |}.

Definition opt_handler : ini_handler logfile_t := λ section name value lineno s,
  if zstr (Some section) || zstr (Some name) || zstr (Some value) then (true, s)
  else if opt_is section "logfile" then
    if opt_is name "logfile" then (true, set_file (Some value) s)
    else if opt_is name "force-flush" then (true, set_force_flush (opt_flag value) s)
    else if opt_is name "only-rewrites" then (true, set_rewrites_only (opt_flag value) s)
    else if opt_is name "disabled" then (true, set_disabled (opt_flag value) s)
    else (true, s)
  else (true, s).

Definition logfile_init (files : list byte → option (list byte)) (inifile : cstring)
    (s : logfile_t) : outcome (pdns_status * logfile_t) :=
  match inifile with
  | None | Some [] => mret (PDNS_NO, s)
  | Some path =>
      let '(r, s) := ini_parse opt_handler (files path) s in
      if negb (r =? 0)%Z then mret (PDNS_NO, s)
      else if disabled s then mret (PDNS_OK, s)
      else
        match file s with
        | None | Some [] => mret (PDNS_NO, s)
        | Some name =>
            let '(f, w) := fopen_a name (world s) in
            mret (match f with None => PDNS_NO | Some _ => PDNS_OK end, set_stream f w s)
        end
  end.

Definition logfile_rotate (s : logfile_t) : outcome (pdns_status * logfile_t) :=
  match fp s with
  | None => mret (PDNS_OK, s)
  | Some f =>
      match file s with
      | None => Fault NullDereference       (* freopen of a null path *)
      | Some name =>
          let '(f, w) := freopen_a name f (world s) in
          mret (match f with None => PDNS_NO | Some _ => PDNS_OK end, set_stream f w s)
      end
  end.

(** [fp] keeps its value: it is not cleared when the stream is closed. *)
Definition logfile_stop (s : logfile_t) : outcome (pdns_status * logfile_t) :=
  let s := set_file None s in
  match fp s with
  | None => mret (PDNS_OK, s)
  | Some f => mret (PDNS_OK, set_stream (Some f) (fclose f (world s)) s)
  end.

Section log.
Context `{Build, Stdio}.

(** The macro [write_log()]. *)
Definition write_log (str : list byte) (s : logfile_t) : logfile_t :=
  match fp s with
  | None => s
  | Some f =>
      let '(f, w) := fprintf (str ++ [LF]) f (world s) in
      let '(f, w) := if force_flush s then fflush f w else (f, w) in
      set_stream (Some f) w s
  end.

(** The fields before the response's. *)
Definition log_query (msg : PBDNSMessage) (l : line) : outcome line :=
  l ← (if m_has_id msg then append (bs "QID: " ++ dec (s32 (m_id msg)) ++ bs " ") l else mret l);
  l ← (if m_has_from msg then
         if (bin_len (m_from msg) =? 4)%Z then
           ip ← inet_ntop AF_INET (bin_data (m_from msg));
           append (bs "from: " ++ ip ++ bs " ") l
         else if (bin_len (m_from msg) =? 16)%Z then
           ip ← inet_ntop AF_INET6 (bin_data (m_from msg));
           append (bs "from: " ++ ip ++ bs " ") l
         else mret l
       else mret l);
  _ ← (if m_has_originalrequestorsubnet msg then assert0 else mret ());
  match m_question msg with
  | None => mret l
  | Some q =>
      l ← (if q_has_qtype q
           then append (bs "qtype: " ++ fmt_cs (pdns_logger_type2p (q_qtype q)) ++ bs " ") l
           else mret l);
      l ← (if q_has_qclass q
           then append (bs "qclass: " ++ fmt_cs (pdns_logger_class2p (q_qclass q)) ++ bs " ") l
           else mret l);
      append (bs "qname: " ++ fmt_cs (q_qname q) ++ bs " ") l
  end.

(** The fields of the response before its records. *)
Definition log_response (r : PBDNSMessage__DNSResponse) (l : line) : outcome line :=
  l ← (if r_has_rcode r
       then append (bs "rcode: " ++ fmt_cs (pdns_logger_rcode2p (r_rcode r)) ++ bs " ") l
       else mret l);
  l ← append (bs "rrcount: " ++ udec (Z.of_nat (length (r_rrs r))) ++ bs " ") l;
  if negb (zstr (r_appliedpolicy r))
  then append (bs "policy: '" ++ fmt_cs (r_appliedpolicy r) ++ bs "' ") l else mret l.

(** One turn of the loop over the records, [write_log] apart; [t] is its number. *)
Definition log_rr (t : Z) (rr : PBDNSMessage__DNSResponse__DNSRR) (l : line) : outcome line :=
  let num := dec (s32 t) ++ bs ": " in
  l ← append (bs "rname-" ++ num ++ fmt_cs (rr_name rr) ++ bs " ") l;
  l ← (if rr_has_type rr
       then append (bs "rtype-" ++ num ++ fmt_cs (pdns_logger_type2p (rr_type rr)) ++ bs " ") l
       else mret l);
  l ← (if rr_has_class rr
       then append (bs "rclass-" ++ num ++ fmt_cs (pdns_logger_class2p (rr_class rr)) ++ bs " ") l
       else mret l);
  l ← (if rr_has_ttl rr
       then append (bs "rttl-" ++ num ++ dec (s32 (rr_ttl rr)) ++ bs " ") l else mret l);
  if rr_has_rdata rr then
    if rr_has_type rr && (rr_type rr =? 1)%Z && (bin_len (rr_rdata rr) =? 4)%Z then
      ip ← inet_ntop AF_INET (bin_data (rr_rdata rr));
      append (bs "rdata-" ++ num ++ ip ++ bs " ") l
    else if rr_has_type rr && (rr_type rr =? 28)%Z && (bin_len (rr_rdata rr) =? 16)%Z then
      ip ← inet_ntop AF_INET6 (bin_data (rr_rdata rr));
      append (bs "rdata-" ++ num ++ ip ++ bs " ") l
    else if rr_has_type rr && ((rr_type rr =? 2)%Z || (rr_type rr =? 5)%Z ||
                               (rr_type rr =? 6)%Z || (rr_type rr =? 15)%Z) then
      s ← fmt_s (bin_data (rr_rdata rr));
      append (bs "rdata-" ++ num ++ s ++ bs " ") l
    else append (bs "rdata (not supported) ") l
  else mret l.

(** [for (t = 1; t <= r->n_rrs; t++)]: the line is not cleared between records. *)
Fixpoint log_rrs (t : Z) (rrs : list PBDNSMessage__DNSResponse__DNSRR) (l : line)
    (s : logfile_t) : outcome logfile_t :=
  match rrs with
  | [] => mret s
  | rr :: rrs => l ← log_rr t rr l; log_rrs (t + 1) rrs l (write_log (str l) s)
  end.

(** [rawpb] may be null. *)
Definition logfile_log (rawpb : option PBDNSMessage) (s : logfile_t) :
    outcome (pdns_status * logfile_t) :=
  if disabled s then mret (PDNS_OK, s) else
  match rawpb with
  | None => mret (PDNS_OK, s)
  | Some msg =>
      match m_response msg with
      | None => mret (PDNS_OK, s)
      | Some r =>
          if rewrites_only s && zstr (r_appliedpolicy r) then mret (PDNS_OK, s)
          else
            l ← log_query msg line_init;
            l ← log_response r l;
            match r_rrs r with
            | [] => mret (PDNS_OK, write_log (str l) s)
            | rrs => s ← log_rrs 1 rrs l s; mret (PDNS_OK, s)
            end
      end
  end.
End log.

(** ** What the engine does *)

Section log_lemmas.
Context `{Build, Stdio}.

Lemma log_query_fields msg l from :
  from_fields msg = Ok from →
  (if m_has_originalrequestorsubnet msg then assert0 else mret ()) = Ok () →
  log_query msg l = foldM append (id_fields msg ++ from ++ question_fields msg) l.
Proof.
  intros Hf Ha. unfold log_query. rewrite Ha, append_only_if. fold (id_fields msg).
  rewrite foldM_app. apply outcome_bind_ext; intros l1. rewrite foldM_app.
  assert (∀ k : line → outcome line, (if m_has_from msg then
    if (bin_len (m_from msg) =? 4)%Z then
      ip ← inet_ntop AF_INET (bin_data (m_from msg)); append (bs "from: " ++ ip ++ bs " ") l1
    else if (bin_len (m_from msg) =? 16)%Z then
      ip ← inet_ntop AF_INET6 (bin_data (m_from msg)); append (bs "from: " ++ ip ++ bs " ") l1
    else mret l1 else mret l1) ≫= k = foldM append from l1 ≫= k) as ->.
  { intros k. f_equal. unfold from_fields in Hf. repeat case_match; ok_inv; try done.
    all: apply outcome_bind_ok in Hf as (ip & -> & Hf); ok_inv.
    all: by rewrite outcome_bind_ret. }
  apply outcome_bind_ext; intros l2. cbn [mbind outcome_bind].
  unfold question_fields. destruct (m_question msg) as [q|]; [|done].
  rewrite append_only_if, foldM_app. apply outcome_bind_ext; intros l3.
  rewrite append_only_if, foldM_app. apply outcome_bind_ext; intros l4.
  simpl. by rewrite outcome_bind_ret.
Qed.

Lemma log_response_fields r l : log_response r l = foldM append (response_fields r) l.
Proof.
  unfold log_response, response_fields.
  rewrite append_only_if, foldM_app. apply outcome_bind_ext; intros l1.
  cbn [app foldM]. apply outcome_bind_ext; intros l2.
  by rewrite append_only_if.
Qed.

Lemma log_head_fields m r l hd :
  head_fields m r = Ok hd → log_query m l ≫= log_response r = foldM append hd l.
Proof.
  unfold head_fields. intros Hhd. apply outcome_bind_ok in Hhd as (from & Hfrom & Hhd).
  apply outcome_bind_ok in Hhd as ([] & Ha & Hhd). injection Hhd as <-.
  rewrite (log_query_fields _ _ _ Hfrom Ha).
  replace (id_fields m ++ from ++ question_fields m ++ response_fields r)
    with ((id_fields m ++ from ++ question_fields m) ++ response_fields r)
    by (by rewrite <- !app_assoc).
  rewrite (foldM_app _ (_ ++ _ ++ _)). apply outcome_bind_ext. apply log_response_fields.
Qed.

Lemma log_rr_fields t rr l fs : rr_fields t rr = Ok fs → log_rr t rr l = foldM append fs l.
Proof.
  unfold rr_fields. intros Hf. apply outcome_bind_ok in Hf as (rd & Hrd & Hf). ok_inv.
  unfold log_rr. cbv zeta. rewrite ?num_field. apply outcome_bind_ext; intros l1.
  rewrite ?num_field, append_only_if, foldM_app. apply outcome_bind_ext; intros l2.
  rewrite ?num_field, append_only_if, foldM_app. apply outcome_bind_ext; intros l3.
  rewrite ?num_field, append_only_if, foldM_app. apply outcome_bind_ext; intros l4.
  unfold rdata_fields, text_type in Hrd. destruct (rr_has_rdata rr); [|by ok_inv]. simpl in Hrd.
  repeat case_match; try (injection Hrd as <-; cbn [foldM]; by rewrite outcome_bind_ret).
  all: apply outcome_bind_ok in Hrd as (s & -> & Hrd); injection Hrd as <-.
  all: cbn [mbind outcome_bind foldM]; by rewrite num_field, outcome_bind_ret.
Qed.

(** Writing a sequence of lines. *)
Definition write_lines (ls : list (list byte)) (s : logfile_t) : logfile_t :=
  foldl (λ s l, write_log l s) s ls.

(** The lines the loop over the records outputs, and those of a whole message, whatever
    they are output to. *)
Fixpoint rrs_lines (t : Z) (rrs : list PBDNSMessage__DNSResponse__DNSRR) (l : line) :
    outcome (list (list byte)) :=
  match rrs with
  | [] => mret []
  | rr :: rrs => l ← log_rr t rr l; (str l ::.) <$> rrs_lines (t + 1) rrs l
  end.

Definition log_lines (ro dis : bool) (msg : option PBDNSMessage) : outcome (list (list byte)) :=
  match logged_response ro dis msg with
  | None => mret []
  | Some (m, r) =>
      l ← log_query m line_init;
      l ← log_response r l;
      match r_rrs r with [] => mret [str l] | rrs => rrs_lines 1 rrs l end
  end.

Lemma log_rrs_writes t rrs l s :
  log_rrs t rrs l s = (λ ls, write_lines ls s) <$> rrs_lines t rrs l.
Proof.
  revert t l s; induction rrs as [|rr rrs IH]; intros t l s; simpl; [done|].
  destruct (log_rr t rr l) as [l'|]; simpl; [|done]. rewrite IH. by destruct (rrs_lines _ _ _).
Qed.

Lemma logfile_log_writes s msg :
  logfile_log msg s =
    (λ ls, (PDNS_OK, write_lines ls s)) <$> log_lines (rewrites_only s) (disabled s) msg.
Proof.
  unfold logfile_log, log_lines, logged_response. destruct (disabled s); [done|].
  destruct msg as [m|]; [|done].
  destruct (m_response m) as [r|]; [|done]. destruct (_ && _); [done|].
  destruct (log_query _ _) as [l1|]; [|done]. cbn [mbind outcome_bind]. destruct (log_response _ _) as [l2|]; [|done].
  cbn [mbind outcome_bind]. destruct (r_rrs r) as [|rr rrs]; [done|].
  rewrite log_rrs_writes. by destruct (rrs_lines _ _ _).
Qed.

Lemma rrs_lines_fields t rrs acc fss :
  rrs_fields t rrs = Ok fss → sized (acc ++ concat fss) → used acc < LINE_SIZE →
  rrs_lines t rrs (line_of acc) =
    if used (acc ++ concat fss) <? LINE_SIZE then Ok (lines_from acc fss)
    else Fault OutOfBoundsWrite.
Proof.
  revert t acc fss; induction rrs as [|rr rrs IH]; intros t acc fss Hf Hs Hu; simpl in Hf.
  { ok_inv. rewrite app_nil_r. by rewrite (proj2 (Nat.ltb_lt _ _)). }
  apply outcome_bind_ok in Hf as (fs & Hfs & Hf).
  apply outcome_bind_ok in Hf as (fss' & Hfss & Hf). ok_inv.
  cbn [rrs_lines concat] in *. rewrite app_assoc in *. rewrite (log_rr_fields _ _ _ _ Hfs).
  rewrite append_more by (done || by eapply sized_app_l).
  destruct (Nat.ltb_spec (used (acc ++ fs)) LINE_SIZE) as [Hu'|Hu'].
  - cbn [mbind outcome_bind]. rewrite (IH _ _ _ Hfss) by done. by destruct (_ <? _).
  - pose proof (used_app (acc ++ fs) (concat fss')).
    by rewrite (proj2 (Nat.ltb_ge _ _)) by lia.
Qed.

Lemma log_lines_fields ro dis m hd fss :
  loggable ro dis m hd fss →
  log_lines ro dis (Some m) =
    if used (hd ++ concat fss) <? LINE_SIZE then Ok (message_lines hd fss)
    else Fault OutOfBoundsWrite.
Proof.
  intros Hlg. pose proof (loggable_sized _ _ _ _ _ Hlg) as Hs.
  destruct Hlg as [(r & Hr & Hhd & Hfss) _]. unfold log_lines. rewrite Hr.
  pose proof (append_more [] hd) as Happ. cbn [app] in Happ. rewrite <- line_init_of in Happ.
  rewrite <- outcome_bind_assoc. change (λ l, log_response r l) with (log_response r).
  rewrite (log_head_fields _ _ _ _ Hhd), Happ; [|by eapply sized_app_l|by apply used_nil].
  pose proof (used_app hd (concat fss)) as Hle.
  destruct (Nat.ltb_spec (used hd) LINE_SIZE) as [Hu|Hu];
    [|by rewrite (proj2 (Nat.ltb_ge _ _)) by lia].
  cbn [mbind outcome_bind]. destruct (r_rrs r) as [|rr rrs] eqn:Hrrs.
  - injection Hfss as <-. rewrite app_nil_r, (proj2 (Nat.ltb_lt _ _)) by done. done.
  - rewrite (rrs_lines_fields _ _ _ _ Hfss) by done.
    destruct fss as [|fs fss]; [by apply rrs_fields_cons in Hfss|done].
Qed.

Lemma log_lines_writable ro dis m ls : writable ro dis m ls → log_lines ro dis (Some m) = Ok ls.
Proof.
  intros [[Hn ->]|(hd & fss & Hlg & Hu & ->)]; [by unfold log_lines; rewrite Hn|].
  by rewrite (log_lines_fields _ _ _ _ _ Hlg), (proj2 (Nat.ltb_lt _ _)).
Qed.

Lemma logfile_log_fields s m hd fss :
  loggable (rewrites_only s) (disabled s) m hd fss →
  logfile_log (Some m) s =
    if used (hd ++ concat fss) <? LINE_SIZE
    then Ok (PDNS_OK, write_lines (message_lines hd fss) s)
    else Fault OutOfBoundsWrite.
Proof.
  intros Hlg. rewrite logfile_log_writes, (log_lines_fields _ _ _ _ _ Hlg). by destruct (_ <? _).
Qed.
End log_lemmas.

(** ** What reaches the file *)

Section output.
Context `{Build, Stdio}.

Lemma write_log_view str s f :
  fp s = Some f →
  ∃ f', fp (write_log str s) = Some f' ∧ f_ino f' = f_ino f ∧
    view (world (write_log str s)) f' = view (world s) f ++ str ++ [LF] ∧
    (force_flush s = true → f_buf f' = []) ∧
    same_but (f_ino f) (world s) (world (write_log str s)).
Proof.
  intros Hf. unfold write_log. rewrite Hf.
  pose proof (fprintf_view (str ++ [LF]) f (world s)) as Hp.
  destruct (fprintf _ _ _) as [f1 w1]. destruct Hp as (Hv & Hi & Hw).
  pose proof (fflush_view f1 w1) as Hq.
  destruct (fflush f1 w1) as [f2 w2]. destruct Hq as (Hv' & Hb & Hi' & Hw').
  rewrite Hi in *.
  destruct (force_flush s) eqn:Hff; [exists f2|exists f1]; simpl; split_and!; try done.
  - congruence.
  - by etrans.
Qed.

(** The settings no operation after the start changes. *)
Definition same_settings (s s' : logfile_t) : Prop :=
  force_flush s' = force_flush s ∧ rewrites_only s' = rewrites_only s ∧
  disabled s' = disabled s ∧ file s' = file s.

Lemma write_log_settings l s : same_settings s (write_log l s).
Proof.
  unfold write_log. destruct (fp s); [|done]. destruct (fprintf _ _ _).
  destruct (force_flush s) eqn:E; [destruct (fflush _ _)|]; by repeat split.
Qed.

Lemma write_lines_settings ls s : same_settings s (write_lines ls s).
Proof.
  revert s; induction ls as [|l ls IH]; intros s; [by repeat split|].
  destruct (write_log_settings l s) as (S1 & S2 & S3 & S4).
  destruct (IH (write_log l s)) as (T1 & T2 & T3 & T4). by repeat split; etrans.
Qed.

(** What writing lines does, to the stream and to everything else. *)
Lemma write_lines_view ls s f :
  fp s = Some f →
  same_settings s (write_lines ls s) ∧
  ∃ f', fp (write_lines ls s) = Some f' ∧ f_ino f' = f_ino f ∧
    view (world (write_lines ls s)) f' = view (world s) f ++ concat ((.++ [LF]) <$> ls) ∧
    (ls ≠ [] → force_flush s = true → f_buf f' = []) ∧
    same_but (f_ino f) (world s) (world (write_lines ls s)).
Proof.
  intros Hf. split; [apply write_lines_settings|]. revert s f Hf; induction ls as [|l ls IH]; intros s f Hf.
  { exists f. simpl. by rewrite app_nil_r. }
  destruct (write_log_view l s f Hf) as (f1 & Hf1 & Hi & Hv & Hb & Hw).
  destruct (write_log_settings l s) as (S1 & _).
  unfold write_lines. cbn [foldl]. fold (write_lines ls (write_log l s)).
  destruct (IH _ _ Hf1) as (f' & Hf' & Hi' & Hv' & Hb' & Hw').
  exists f'. split_and!; [done|congruence|..].
  - by rewrite Hv', Hv, fmap_cons, <- app_assoc.
  - intros _ Hflush. destruct ls as [|l' ls]; [|by apply Hb'; [|congruence]].
    unfold write_lines in Hf'. simpl in Hf'. naive_solver.
  - rewrite Hi in Hw'. by etrans.
Qed.

(** Logging a message whose fields fit. *)
Lemma logfile_log_writable s m ls :
  writable (rewrites_only s) (disabled s) m ls →
  logfile_log (Some m) s = Ok (PDNS_OK, write_lines ls s).
Proof. intros Hw. by rewrite logfile_log_writes, (log_lines_writable _ _ _ _ Hw). Qed.

(** A record printed as text whose data has no NUL stops the loop over the records. *)
Lemma log_rr_unterminated t rr l :
  unterminated rr → ∀ l', log_rr t rr l ≠ Ok l'.
Proof.
  intros (Hrd & Hty & Htx & blk & Hb & Hnf) l' Hl. unfold log_rr in Hl. cbv zeta in Hl.
  repeat (apply outcome_bind_ok in Hl as (? & _ & Hl)).
  rewrite Hrd, Hty in Hl. unfold text_type in Htx.
  destruct (Z.eqb_spec (rr_type rr) 1) as [E|]; [by rewrite E in Htx|].
  destruct (Z.eqb_spec (rr_type rr) 28) as [E|]; [by rewrite E in Htx|].
  rewrite Htx, Hb in Hl. simpl in Hl. by rewrite (proj2 (cstr_None blk)) in Hl.
Qed.

Lemma log_rrs_unterminated t rrs l s :
  Exists unterminated rrs → ∀ s', log_rrs t rrs l s ≠ Ok s'.
Proof.
  intros Hex; revert t l s; induction Hex as [rr rrs Hrr|rr rrs _ IH];
    intros t l s s' Hl; simpl in Hl; apply outcome_bind_ok in Hl as (l1 & Hl1 & Hl).
  - by eapply log_rr_unterminated.
  - by eapply IH.
Qed.
End output.

(** ** Sessions: logging interleaved with log rotation *)

Section session.
Context `{Build, Stdio}.

(** A message, or an administrator moving the log file to another name and sending the
    daemon SIGHUP. *)
Inductive op := OLog (m : PBDNSMessage) | ORotate (path : list byte).

(** [name]'s session; the second component collects the files rotated out. *)
Fixpoint session (name : list byte) (ops : list op) (s : logfile_t) :
    outcome (logfile_t * list nat) :=
  match ops with
  | [] => mret (s, [])
  | OLog m :: ops => '(_, s) ← logfile_log (Some m) s; session name ops s
  | ORotate path :: ops =>
      '(_, s') ← logfile_rotate (set_stream (fp s) (rename name path (world s)) s);
      '(s', old) ← session name ops s';
      mret (s', from_option (λ f, [f_ino f]) [] (fp s) ++ old)
  end.

(** The lines a step should add. *)
Definition op_lines (name : list byte) (s : logfile_t) (o : op) (ls : list (list byte)) : Prop :=
  match o with
  | OLog m => writable (rewrites_only s) (disabled s) m ls
  | ORotate path => path ≠ name ∧ ls = []
  end.

(** The stream is open on the file its name denotes. *)
Record logging (name : list byte) (s : logfile_t) (f : FILE) : Prop := {
  lo_fp : fp s = Some f;
  lo_file : file s = Some name;
  lo_dir : dir (world s) !! name = Some (f_ino f);
  lo_openable : openable (world s) name = true;
  lo_fresh : f_ino f < fresh (world s);
}.

Lemma logging_write_lines name s f ls :
  logging name s f →
  ∃ f', logging name (write_lines ls s) f' ∧ f_ino f' = f_ino f ∧
    same_settings s (write_lines ls s) ∧
    view (world (write_lines ls s)) f' = view (world s) f ++ concat ((.++ [LF]) <$> ls) ∧
    same_but (f_ino f) (world s) (world (write_lines ls s)).
Proof.
  intros [Hfp Hfile Hdir Hop Hfr].
  destruct (write_lines_view ls s f Hfp) as [Hset (f' & Hf' & Hi & Hv & _ & Hw)].
  exists f'. destruct Hw as (Hd & Hfr' & Ho & Hc). split_and!; try done.
  destruct Hset as (_ & _ & _ & Hfile'). by split; rewrite ?Hi, ?Hd, ?Hfr', ?Ho, ?Hfile'.
Qed.

Lemma logging_rotate name path s f :
  logging name s f → path ≠ name →
  ∃ s' f', logfile_rotate (set_stream (fp s) (rename name path (world s)) s) = Ok (PDNS_OK, s') ∧
    logging name s' f' ∧ same_settings s s' ∧ f_ino f' = fresh (world s) ∧
    view (world s') f' = [] ∧ fresh (world s') = S (fresh (world s)) ∧
    content (world s') (f_ino f) = view (world s) f ∧
    ∀ ino, ino ≠ f_ino f → ino ≠ fresh (world s) → content (world s') ino = content (world s) ino.
Proof.
  intros [Hfp Hfile Hdir Hop Hfr] Hne.
  destruct (rename_freopen name path f (world s)) as (f' & w' & Hre & Hd' & Hi & Hv & Hfr' & Ho & Hc & Hr);
    [by rewrite Hdir|done|done|done|].
  unfold logfile_rotate. simpl. rewrite Hfp, Hfile, Hre.
  eexists _, f'. split_and!; try done. split; simpl; try done; [congruence|lia].
Qed.

(** The invariant of a session: no rotated file is ever written again. *)
Lemma session_invariant name ops lss s f :
  logging name s f → Forall2 (op_lines name s) ops lss →
  ∃ s' f' old, session name ops s = Ok (s', old) ∧ logging name s' f' ∧
    concat (content (world s') <$> old) ++ view (world s') f' =
      view (world s) f ++ concat ((.++ [LF]) <$> concat lss) ∧
    NoDup (old ++ [f_ino f']) ∧
    Forall (λ i, i = f_ino f ∨ fresh (world s) ≤ i) (old ++ [f_ino f']) ∧
    ∀ i, i < fresh (world s) → i ≠ f_ino f → content (world s') i = content (world s) i.
Proof.
  revert lss s f; induction ops as [|o ops IH]; intros lss s f Hlog Hops.
  { apply Forall2_nil_inv_l in Hops as ->. exists s, f, []. simpl. split_and!; try done.
    - by rewrite app_nil_r.
    - apply NoDup_singleton.
    - apply Forall_singleton. auto. }
  apply Forall2_cons_inv_l in Hops as (ls & lss' & Ho & Hops & ->).
  assert (∀ s', same_settings s s' → Forall2 (op_lines name s') ops lss') as Hops'.
  { intros s' (_ & E1 & E2 & _). eapply Forall2_impl; [done|].
    intros [m|p] l; simpl; by rewrite ?E1, ?E2. }
  destruct o as [m|path]; simpl in Ho |- *.
  - destruct (logging_write_lines name s f ls Hlog) as (f1 & Hlog1 & Hi & Hset & Hv & Hd & Hfr & _ & Hc).
    rewrite (logfile_log_writable _ _ _ Ho). simpl.
    destruct (IH lss' _ _ Hlog1 (Hops' _ Hset)) as (s' & f' & old & -> & Hlog' & Heq & Hnd & Hall & Hrest).
    exists s', f', old. rewrite Hi, Hfr in *. split_and!; try done.
    + by rewrite Heq, Hv, fmap_app, concat_app, <- app_assoc.
    + intros i Hlt Hne. by rewrite Hrest, Hc.
  - destruct Ho as [Hne ->].
    destruct (logging_rotate name path s f Hlog Hne)
      as (s1 & f1 & -> & Hlog1 & Hset & Hi & Hv & Hfr & Hc & Hr). simpl.
    destruct (IH lss' _ _ Hlog1 (Hops' _ Hset)) as (s' & f' & old & -> & Hlog' & Heq & Hnd & Hall & Hrest).
    pose proof (lo_fresh _ _ _ Hlog). rewrite Hi, Hfr in *.
    exists s', f', (f_ino f :: old). rewrite (lo_fp _ _ _ Hlog). split_and!; try done.
    + rewrite fmap_cons. cbn [concat]. rewrite <- app_assoc, Heq, Hv, Hrest, Hc by lia. done.
    + apply NoDup_cons_2; [|done]. intros Hin. rewrite Forall_forall in Hall.
      specialize (Hall _ Hin). lia.
    + constructor; [auto|]. eapply Forall_impl; [done|]. simpl. lia.
    + intros i Hlt Hn. rewrite Hrest, Hr by lia. done.
Qed.
End session.

(** ** Properties *)

Section properties.
Context `{Build, Stdio}.

(** C15: Logging a message appends exactly its documented lines, a newline after each,
    to what has been written to the log's stream: one line per record, or one line for
    a message without records, and none for a message that is filtered out.  With
    [force-flush] nothing stays in the stream's buffer, and no other file changes. *)
Theorem logfile_log_appends s m ls f :
  fp s = Some f → writable (rewrites_only s) (disabled s) m ls →
  ∃ s' f', logfile_log (Some m) s = Ok (PDNS_OK, s') ∧ fp s' = Some f' ∧
    view (world s') f' = view (world s) f ++ concat ((.++ [LF]) <$> ls) ∧
    (ls ≠ [] → force_flush s = true → f_buf f' = []) ∧
    same_but (f_ino f) (world s) (world s').
Proof.
  intros Hf Hw. rewrite (logfile_log_writable _ _ _ Hw).
  destruct (write_lines_view ls s f Hf) as [_ (f' & Hf' & _ & Hv & Hb & Hsame)]. eauto 10.
Qed.

(** C14: The exact condition under which logging is memory-safe.  Every decoded message
    that passes the filter, and whose NS, CNAME, SOA and MX data contains a NUL, has
    fields that can be formatted; if all of them but the last take fewer than 1024
    bytes, they are logged, otherwise [strncat] writes past the end of [str]. *)
Theorem logfile_log_bounds s m r :
  logged_response (rewrites_only s) (disabled s) (Some m) = Some (m, r) → formattable m r →
  ∃ hd fss, head_fields m r = Ok hd ∧ rrs_fields 1 (r_rrs r) = Ok fss ∧
    ((Z.of_nat (length (concat (hd ++ concat fss))) < 2 ^ 30)%Z →
     logfile_log (Some m) s =
       if used (hd ++ concat fss) <? LINE_SIZE
       then Ok (PDNS_OK, write_lines (message_lines hd fss) s)
       else Fault OutOfBoundsWrite).
Proof.
  intros Hlr Hfm. destruct (formattable_fields _ _ Hfm) as (hd & fss & Hhd & Hfss).
  exists hd, fss. split_and!; [done..|]. intros Hsz.
  apply logfile_log_fields. by split; [exists r|].
Qed.

(** C30: The data of a record of type NS, CNAME, SOA or MX is printed with [%s] although
    the decoder does not terminate it: a message with such a record whose bytes contain
    no NUL is never logged normally. *)
Theorem logfile_log_unterminated s m r :
  logged_response (rewrites_only s) (disabled s) (Some m) = Some (m, r) →
  Exists unterminated (r_rrs r) → ∀ res, logfile_log (Some m) s ≠ Ok res.
Proof.
  intros Hlr Hex res Hl. unfold logged_response in Hlr. unfold logfile_log in Hl.
  destruct (disabled s); [done|]. destruct (m_response m) as [r'|]; [|done].
  destruct (rewrites_only s && zstr (r_appliedpolicy r')); [done|]. simplify_eq.
  apply outcome_bind_ok in Hl as (l1 & _ & Hl). apply outcome_bind_ok in Hl as (l2 & _ & Hl).
  destruct (r_rrs r) as [|rr rrs]; [by apply Exists_nil in Hex|].
  apply outcome_bind_ok in Hl as (s' & Hl & _). by eapply log_rrs_unterminated.
Qed.

(** C9: A session of messages interleaved with log rotations (the administrator renames
    the log file, the daemon gets SIGHUP), ended by stopping the engine: the files
    rotated out, in order, followed by the current one hold what was there before and
    every line of every message, none lost, repeated or out of order. *)
Theorem session_loses_nothing name ops lss s f :
  logging name s f → Forall2 (op_lines name s) ops lss →
  ∃ s' s'' files, session name ops s = Ok (s', files) ∧ logfile_stop s' = Ok (PDNS_OK, s'') ∧
    ∃ cur, dir (world s'') !! name = Some cur ∧ NoDup (files ++ [cur]) ∧
      concat (content (world s'') <$> files ++ [cur]) =
        view (world s) f ++ concat ((.++ [LF]) <$> concat lss).
Proof.
  intros Hlog Hops.
  destruct (session_invariant name ops lss s f Hlog Hops)
    as (s' & f' & old & Hs & Hlog' & Heq & Hnd & _ & _).
  exists s', (set_stream (Some f') (fclose f' (world s')) (set_file None s')), old.
  unfold logfile_stop. simpl. rewrite (lo_fp _ _ _ Hlog'). split_and!; [done..|].
  exists (f_ino f'). split_and!; [by apply (lo_dir _ _ _ Hlog')|done|].
  rewrite fmap_app, concat_app, <- Heq. f_equal.
  - f_equal. apply list_fmap_ext. intros i x Hx.
    apply NoDup_app in Hnd as (_ & Hnd & _).
    apply list_elem_of_lookup_2, Hnd in Hx. rewrite list_elem_of_singleton in Hx.
    destruct (fclose_same_but f' (world s')) as (_ & _ & _ & Hc). by apply Hc.
  - cbn [fmap list_fmap concat]. rewrite app_nil_r. apply fclose_content.
Qed.

End properties.

(** Twelve address records, a few hundred bytes on the wire, overflow the line. *)
Theorem twelve_records_overflow :
  ∃ s f, fp s = Some f ∧ msg_wf (demo_msg (repeat (demo_a x01) 12)) ∧
    @logfile_log release block_stdio (Some (demo_msg (repeat (demo_a x01) 12))) s =
      Fault OutOfBoundsWrite.
Proof.
  exists (set_stream (Some {| f_ino := 7; f_buf := [] |}) (demo_fs (bs "log"))
            (logfile_statics (demo_fs (bs "log")))), {| f_ino := 7; f_buf := [] |}.
  split; [done|]. split; [|by vm_compute].
  split; try done; intros r [= <-]; [|done].
  apply Forall_forall. intros rr Hin. change (r_rrs _) with (repeat (demo_a x01) 12) in Hin.
  apply list_elem_of_In, repeat_spec in Hin as ->. by split.
Qed.

(** ** Concrete instances *)

Definition demo_log : logfile_t :=
  set_stream (Some {| f_ino := 7; f_buf := [] |}) (demo_fs (bs "log"))
    (set_file (Some (bs "log")) (logfile_statics (demo_fs (bs "log")))).

Lemma logfile_log_appends_witness :
  let rrs := [demo_a x01; demo_a x02] in
  ∃ s' f', @logfile_log release block_stdio (Some (demo_msg rrs)) demo_log = Ok (PDNS_OK, s') ∧
    fp s' = Some f' ∧
    view (world s') f' = bs "old" ++ concat ((.++ [LF]) <$> @demo_lines release rrs) ∧
    (@demo_lines release rrs ≠ [] → force_flush demo_log = true → f_buf f' = []) ∧
    same_but 7 (world demo_log) (world s').
Proof.
  intros rrs. apply (@logfile_log_appends release block_stdio demo_log (demo_msg rrs)
    (@demo_lines release rrs) {| f_ino := 7; f_buf := [] |}); [done|].
  check_writable release rrs.
Defined.

Lemma logfile_log_bounds_witness :
  ∃ hd fss, @head_fields release (demo_msg [demo_a x01]) (demo_response [demo_a x01]) = Ok hd ∧
    rrs_fields 1 [demo_a x01] = Ok fss ∧
    ((Z.of_nat (length (concat (hd ++ concat fss))) < 2 ^ 30)%Z →
     @logfile_log release block_stdio (Some (demo_msg [demo_a x01])) demo_log =
       if used (hd ++ concat fss) <? LINE_SIZE
       then Ok (PDNS_OK, @write_lines block_stdio (message_lines hd fss) demo_log)
       else Fault OutOfBoundsWrite).
Proof.
  apply (@logfile_log_bounds release block_stdio demo_log (demo_msg [demo_a x01])
    (demo_response [demo_a x01])); [done|].
  split_and!; [|done| |by left].
  - split; try done; intros r [= <-]; [|done]. by apply Forall_singleton.
  - apply Forall_singleton. intros (_ & _ & Ht & _). done.
Defined.

Lemma logfile_log_unterminated_witness :
  @logfile_log release block_stdio (Some (demo_msg [demo_a x01; demo_cname])) demo_log =
    Fault OutOfBoundsRead ∧
  @logfile_log release block_stdio (Some (demo_msg [demo_a x01; demo_cname])) demo_log ≠
    Ok (PDNS_OK, demo_log).
Proof.
  split; [by vm_compute|].
  apply (@logfile_log_unterminated release block_stdio demo_log
    (demo_msg [demo_a x01; demo_cname]) (demo_response [demo_a x01; demo_cname])); [done|].
  apply Exists_cons_tl, Exists_cons_hd. split_and!; [done..|].
  exists (bs "example.com."). split; [done|]. refine (bool_decide_unpack _ _). by vm_compute.
Defined.

Lemma session_loses_nothing_witness :
  let ops := [OLog (demo_msg []); ORotate (bs "log.1"); OLog (demo_msg [demo_a x01])] in
  ∃ s' s'' files, @session release block_stdio (bs "log") ops demo_log = Ok (s', files) ∧
    logfile_stop s' = Ok (PDNS_OK, s'') ∧
    ∃ cur, dir (world s'') !! bs "log" = Some cur ∧ NoDup (files ++ [cur]) ∧
      concat (content (world s'') <$> files ++ [cur]) =
        bs "old" ++ concat ((.++ [LF]) <$>
          concat [@demo_lines release []; []; @demo_lines release [demo_a x01]]).
Proof.
  intros ops. apply (@session_loses_nothing release block_stdio (bs "log") ops
    [@demo_lines release []; []; @demo_lines release [demo_a x01]] demo_log
    {| f_ino := 7; f_buf := [] |}).
  - split; try done. apply Nat.ltb_lt. done.
  - apply Forall2_cons_2; [check_writable release (@nil PBDNSMessage__DNSResponse__DNSRR)|].
    apply Forall2_cons_2; [by split|].
    apply Forall2_cons_2; [check_writable release [demo_a x01]|]. apply Forall2_nil_2.
Defined.

Definition readonly_fs : fs := {|
  dir := {[ bs "log" := 7 ]}; inodes := {[ 7 := bs "old" ]}; fresh := 8; openable := λ _, false |}.

