(* ===== verification/Syslog.v ===== *)
(** * The syslog backend: src/pdns-logger-syslog.c

    Its table of facilities, the INI handler of section [syslog] and the four operations
    of [syslog_engine].  The state carries the connection [openlog] set up and the
    messages handed to the system logger.  [syslog_log] is a second copy of
    [logfile_log]; that the two copies agree is a theorem. *)

From S2P Require Import Prelude CLib Common Dns Message Ini LogLine Stdio Logfile.

(** <syslog.h> *)
Definition LOG_FAC (n : Z) : Z := Z.shiftl n 3.
Definition LOG_KERN := LOG_FAC 0.
Definition LOG_USER := LOG_FAC 1.
Definition LOG_MAIL := LOG_FAC 2.
Definition LOG_DAEMON := LOG_FAC 3.
Definition LOG_AUTH := LOG_FAC 4.
Definition LOG_SYSLOG := LOG_FAC 5.
Definition LOG_LPR := LOG_FAC 6.
Definition LOG_NEWS := LOG_FAC 7.
Definition LOG_UUCP := LOG_FAC 8.
Definition LOG_CRON := LOG_FAC 9.
Definition LOG_AUTHPRIV := LOG_FAC 10.
Definition LOG_FTP := LOG_FAC 11.
Definition LOG_LOCAL (n : Z) := LOG_FAC (16 + n).
Definition LOG_NOTICE : Z := 5.
Definition LOG_PID : Z := 1.
Definition LOG_NDELAY : Z := 8.

Definition facility_names : list (Z * string) := [
  (LOG_AUTH, "auth"); (LOG_AUTHPRIV, "authpriv"); (LOG_CRON, "cron"); (LOG_DAEMON, "daemon");
  (LOG_FTP, "ftp"); (LOG_KERN, "kern"); (LOG_LOCAL 0, "local0"); (LOG_LOCAL 1, "local1");
  (LOG_LOCAL 2, "local2"); (LOG_LOCAL 3, "local3"); (LOG_LOCAL 4, "local4");
  (LOG_LOCAL 5, "local5"); (LOG_LOCAL 6, "local6"); (LOG_LOCAL 7, "local7"); (LOG_LPR, "lpr");
  (LOG_MAIL, "mail"); (LOG_NEWS, "news"); (LOG_SYSLOG, "syslog"); (LOG_USER, "user");
  (LOG_UUCP, "uucp")]%string.

(** The loop of [logfacility_lookup]: the facility of the first entry that matches. *)
Fixpoint lookup_loop (tab : list (Z * string)) (nfacility : list byte) : option Z :=
  match tab with
  | [] => None
  | (fac, name) :: tab =>
      if strncmp_eq (bs name) nfacility (S (length (bs name))) then Some fac
      else lookup_loop tab nfacility
  end.

(** The value returned and what [*logfacility] then holds; a null [logfacility] is [None]. *)
Definition logfacility_lookup (nfacility : list byte) (logfacility : option Z) : Z * option Z :=
  match logfacility with
  | None => (0%Z, None)
  | Some _ =>
      match lookup_loop facility_names nfacility with
      | Some fac => (1%Z, Some fac)
      | None => (0%Z, Some LOG_DAEMON)
      end
  end.

(** What [openlog] sets up, and a message as the system logger gets it. *)
Record logconn := { c_ident : list byte; c_option : Z; c_facility : Z }.
Record logmsg := { l_ident : cstring; l_pid : bool; l_priority : Z; l_text : list byte }.

Record syslog_t := {
  ident : cstring;
  facility : list byte;
  rewrites_only : bool;
  disabled : bool;
  conn : option logconn;
  sent : list logmsg;
}.

Definition syslog_statics : syslog_t := {|
  ident := Some (bs "pdns-logger"); facility := bs "daemon"; rewrites_only := true;
  disabled := false; conn := None; sent := [] |}.

Definition set_rewrites_only (b : bool) (s : syslog_t) : syslog_t := {|
  ident := ident s; facility := facility s; rewrites_only := b; disabled := disabled s;
  conn := conn s; sent := sent s |}.
Definition set_disabled (b : bool) (s : syslog_t) : syslog_t := {|
  ident := ident s; facility := facility s; rewrites_only := rewrites_only s; disabled := b;
  conn := conn s; sent := sent s |}.
Definition set_conn (c : option logconn) (s : syslog_t) : syslog_t := {|
  ident := ident s; facility := facility s; rewrites_only := rewrites_only s;
  disabled := disabled s; conn := c; sent := sent s |}.
Definition set_sent (ms : list logmsg) (s : syslog_t) : syslog_t := {|
  ident := ident s; facility := facility s; rewrites_only := rewrites_only s;
  disabled := disabled s; conn := conn s; sent := ms |}.

(** The options [ident], [facility] and [level] are recognised and have no effect. *)
Definition opt_handler : ini_handler syslog_t := λ section name value lineno s,
  if zstr (Some section) || zstr (Some name) || zstr (Some value) then (true, s)
  else if opt_is section "syslog" then
    if opt_is name "ident" then (true, s)
    else if opt_is name "facility" then (true, s)
    else if opt_is name "level" then (true, s)
    else if opt_is name "only-rewrites" then (true, set_rewrites_only (opt_flag value) s)
    else if opt_is name "disabled" then (true, set_disabled (opt_flag value) s)
    else (true, s)
  else (true, s).

Definition openlog (i : list byte) (option facility : Z) (s : syslog_t) : syslog_t :=
  set_conn (Some {| c_ident := i; c_option := option; c_facility := facility |}) s.

Definition syslog_init (files : list byte → option (list byte)) (inifile : cstring)
    (s : syslog_t) : outcome (pdns_status * syslog_t) :=
  match inifile with
  | None | Some [] => mret (PDNS_NO, s)
  | Some path =>
      let '(r, s) := ini_parse opt_handler (files path) s in
      if negb (r =? 0)%Z then mret (PDNS_NO, s)
      else if disabled s then mret (PDNS_OK, s)
      else
        let logf := default 0%Z (logfacility_lookup (facility s) (Some 0%Z)).2 in
        let i := if negb (zstr (ident s)) then default [] (ident s) else bs "pdns-logger" in
        mret (PDNS_OK, openlog i (Z.lor LOG_NDELAY LOG_PID) logf s)
  end.

Definition syslog_rotate (s : syslog_t) : outcome (pdns_status * syslog_t) := mret (PDNS_OK, s).

(** [closelog()] *)
Definition syslog_stop (s : syslog_t) : outcome (pdns_status * syslog_t) :=
  mret (PDNS_OK, set_conn None s).

Section log.
Context `{Build}.

(** [syslog(pri, "%s", str)]: without [openlog] the C library uses the program's name and
    the facility LOG_USER. *)
Definition message (s : syslog_t) (pri : Z) (str : list byte) : logmsg :=
  match conn s with
  | Some c => {| l_ident := Some (c_ident c);
                 l_pid := negb (Z.land (c_option c) LOG_PID =? 0)%Z;
                 l_priority := Z.lor pri (c_facility c); l_text := str |}
  | None => {| l_ident := None; l_pid := false; l_priority := Z.lor pri LOG_USER; l_text := str |}
  end.

(** The macro [write_log()]. *)
Definition write_log (str : list byte) (s : syslog_t) : syslog_t :=
  set_sent (sent s ++ [message s LOG_NOTICE str]) s.

(** The fields before the response's. *)
Definition log_query (msg : PBDNSMessage) (l : line) : outcome line :=
  l ← (if m_has_id msg then append (bs "QID: " ++ dec (s32 (m_id msg)) ++ bs " ") l else mret l);
  l ← (if m_has_from msg then
         if (bin_len (m_from msg) =? 4)%Z then
           ip ← inet_ntop AF_INET (bin_data (m_from msg));
           append (bs "from: " ++ ip ++ bs " ") l
         else if (bin_len (m_from msg) =? 16)%Z then
           ip ← inet_ntop AF_INET6 (bin_data (m_from msg));
           append (bs "from: " ++ ip ++ bs " ") l
         else mret l
       else mret l);
  _ ← (if m_has_originalrequestorsubnet msg then assert0 else mret ());
  match m_question msg with
  | None => mret l
  | Some q =>
      l ← (if q_has_qtype q
           then append (bs "qtype: " ++ fmt_cs (pdns_logger_type2p (q_qtype q)) ++ bs " ") l
           else mret l);
      l ← (if q_has_qclass q
           then append (bs "qclass: " ++ fmt_cs (pdns_logger_class2p (q_qclass q)) ++ bs " ") l
           else mret l);
      append (bs "qname: " ++ fmt_cs (q_qname q) ++ bs " ") l
  end.

(** The fields of the response before its records. *)
Definition log_response (r : PBDNSMessage__DNSResponse) (l : line) : outcome line :=
  l ← (if r_has_rcode r
       then append (bs "rcode: " ++ fmt_cs (pdns_logger_rcode2p (r_rcode r)) ++ bs " ") l
       else mret l);
  l ← append (bs "rrcount: " ++ udec (Z.of_nat (length (r_rrs r))) ++ bs " ") l;
  if negb (zstr (r_appliedpolicy r))
  then append (bs "policy: '" ++ fmt_cs (r_appliedpolicy r) ++ bs "' ") l else mret l.

(** One turn of the loop over the records, [write_log] apart; [t] is its number. *)
Definition log_rr (t : Z) (rr : PBDNSMessage__DNSResponse__DNSRR) (l : line) : outcome line :=
  let num := dec (s32 t) ++ bs ": " in
  l ← append (bs "rname-" ++ num ++ fmt_cs (rr_name rr) ++ bs " ") l;
  l ← (if rr_has_type rr
       then append (bs "rtype-" ++ num ++ fmt_cs (pdns_logger_type2p (rr_type rr)) ++ bs " ") l
       else mret l);
  l ← (if rr_has_class rr
       then append (bs "rclass-" ++ num ++ fmt_cs (pdns_logger_class2p (rr_class rr)) ++ bs " ") l
       else mret l);
  l ← (if rr_has_ttl rr
       then append (bs "rttl-" ++ num ++ dec (s32 (rr_ttl rr)) ++ bs " ") l else mret l);
  if rr_has_rdata rr then
    if rr_has_type rr && (rr_type rr =? 1)%Z && (bin_len (rr_rdata rr) =? 4)%Z then
      ip ← inet_ntop AF_INET (bin_data (rr_rdata rr));
      append (bs "rdata-" ++ num ++ ip ++ bs " ") l
    else if rr_has_type rr && (rr_type rr =? 28)%Z && (bin_len (rr_rdata rr) =? 16)%Z then
      ip ← inet_ntop AF_INET6 (bin_data (rr_rdata rr));
      append (bs "rdata-" ++ num ++ ip ++ bs " ") l
    else if rr_has_type rr && ((rr_type rr =? 2)%Z || (rr_type rr =? 5)%Z ||
                               (rr_type rr =? 6)%Z || (rr_type rr =? 15)%Z) then
      s ← fmt_s (bin_data (rr_rdata rr));
      append (bs "rdata-" ++ num ++ s ++ bs " ") l
    else append (bs "rdata (not supported) ") l
  else mret l.

Fixpoint log_rrs (t : Z) (rrs : list PBDNSMessage__DNSResponse__DNSRR) (l : line)
    (s : syslog_t) : outcome syslog_t :=
  match rrs with
  | [] => mret s
  | rr :: rrs => l ← log_rr t rr l; log_rrs (t + 1) rrs l (write_log (str l) s)
  end.

(** [rawpb] may be null. *)
Definition syslog_log (rawpb : option PBDNSMessage) (s : syslog_t) :
    outcome (pdns_status * syslog_t) :=
  if disabled s then mret (PDNS_OK, s) else
  match rawpb with
  | None => mret (PDNS_OK, s)
  | Some msg =>
      match m_response msg with
      | None => mret (PDNS_OK, s)
      | Some r =>
          if rewrites_only s && zstr (r_appliedpolicy r) then mret (PDNS_OK, s)
          else
            l ← log_query msg line_init;
            l ← log_response r l;
            match r_rrs r with
            | [] => mret (PDNS_OK, write_log (str l) s)
            | rrs => s ← log_rrs 1 rrs l s; mret (PDNS_OK, s)
            end
      end
  end.
End log.

(** ** The facility table *)

(** The loop compares whole names. *)
Lemma lookup_loop_Some tab n v :
  lookup_loop tab n = Some v →
  ∃ s, (v, s) ∈ tab ∧ bs s = n.
Proof.
  induction tab as [|[fac s] tab IH]; simpl; [done|].
  change (S (length (bs s))) with (sizeof_lit (bs s)). intros Hl.
  destruct (strncmp_eq (bs s) n (sizeof_lit (bs s))) eqn:E.
  - simplify_eq. exists s. split; [by left|].
    unfold strncmp_eq in E. apply bool_decide_eq_true in E. symmetry in E.
    assert (strncmp_eq n (bs s) (sizeof_lit (bs s)) = true) as E' by (by apply bool_decide_eq_true).
    rewrite strncmp_lit in E'. by apply bool_decide_eq_true in E'.
  - destruct (IH Hl) as (s' & Hin & Hs'). exists s'. split; [by right|done].
Qed.

Lemma lookup_loop_None tab n :
  lookup_loop tab n = None → ∀ v s, (v, s) ∈ tab → bs s ≠ n.
Proof.
  induction tab as [|[fac s] tab IH]; simpl; intros Hl v s' Hin; [by apply not_elem_of_nil in Hin|].
  destruct (strncmp_eq (bs s) n _) eqn:E; [done|].
  apply elem_of_cons in Hin as [[= -> ->]|Hin]; [|by eapply IH].
  intros <-. unfold strncmp_eq in E. by apply bool_decide_eq_false in E.
Qed.

(** ** The two copies of the logging code *)

Section copies.
Context `{Build, Stdio}.

(** Handing over a sequence of lines. *)
Definition send_lines (ls : list (list byte)) (s : syslog_t) : syslog_t :=
  foldl (λ s l, write_log l s) s ls.

Lemma send_lines_sent ls s :
  send_lines ls s = set_sent (sent s ++ (message s LOG_NOTICE <$> ls)) s.
Proof.
  revert s; induction ls as [|l ls IH]; intros s.
  { destruct s; cbn [send_lines foldl fmap list_fmap]. unfold set_sent. simpl. by rewrite app_nil_r. }
  unfold send_lines. cbn [foldl]. fold (send_lines ls (write_log l s)).
  rewrite IH. unfold write_log, set_sent. simpl. by rewrite <- app_assoc.
Qed.

Lemma log_rrs_sends t rrs l s :
  log_rrs t rrs l s = (λ ls, send_lines ls s) <$> rrs_lines t rrs l.
Proof.
  revert t l s; induction rrs as [|rr rrs IH]; intros t l s; simpl; [done|].
  change (log_rr t rr l) with (Logfile.log_rr t rr l).
  destruct (Logfile.log_rr t rr l) as [l'|]; simpl; [|done].
  rewrite IH. by destruct (rrs_lines _ _ _).
Qed.

Lemma syslog_log_sends s msg :
  syslog_log msg s =
    (λ ls, (PDNS_OK, send_lines ls s)) <$> log_lines (rewrites_only s) (disabled s) msg.
Proof.
  unfold syslog_log, log_lines, logged_response. destruct (disabled s); [done|].
  destruct msg as [m|]; [|done].
  destruct (m_response m) as [r|]; [|done]. destruct (_ && _); [done|].
  change (log_query m line_init) with (Logfile.log_query m line_init).
  destruct (Logfile.log_query _ _) as [l1|]; [|done]. cbn [mbind outcome_bind].
  change (log_response r l1) with (Logfile.log_response r l1).
  destruct (Logfile.log_response _ _) as [l2|]; [|done].
  cbn [mbind outcome_bind]. destruct (r_rrs r) as [|rr rrs]; [done|].
  rewrite log_rrs_sends. by destruct (rrs_lines _ _ _).
Qed.

Lemma syslog_log_writable s m ls :
  writable (rewrites_only s) (disabled s) m ls →
  syslog_log (Some m) s = Ok (PDNS_OK, send_lines ls s).
Proof. intros Hw. by rewrite syslog_log_sends, (log_lines_writable _ _ _ _ Hw). Qed.

(** Two outcomes in which the same lines are output, or the same fault occurs. *)
Definition same_output {A B} (out1 : list (list byte) → A) (out2 : list (list byte) → B)
    (o1 : outcome A) (o2 : outcome B) : Prop :=
  (∃ ls, o1 = Ok (out1 ls) ∧ o2 = Ok (out2 ls)) ∨ ∃ f, o1 = Fault f ∧ o2 = Fault f.

(** C20: The two text backends agree: with the same settings and the same message, either
    both output the same lines in the same order, the one to its file and the other to
    the system logger, or both run into the same fault. *)
Theorem syslog_log_as_logfile_log msg (sf : logfile_t) (ss : syslog_t) :
  Syslog.disabled ss = Logfile.disabled sf → Syslog.rewrites_only ss = Logfile.rewrites_only sf →
  same_output (λ ls, (PDNS_OK, write_lines ls sf))
    (λ ls, (PDNS_OK, set_sent (sent ss ++ (message ss LOG_NOTICE <$> ls)) ss))
    (logfile_log msg sf) (syslog_log msg ss).
Proof.
  intros Hd Hr. rewrite logfile_log_writes, syslog_log_sends, Hd, Hr.
  destruct (log_lines _ _ msg) as [ls|f]; [left; exists ls|right; by exists f].
  by rewrite <- send_lines_sent.
Qed.
End copies.

(** [logfacility_lookup] finds exactly the names of the table, compared as whole
    strings, and falls back to the facility "daemon". *)
Theorem logfacility_lookup_correct n v :
  logfacility_lookup n (Some 0%Z) = (1%Z, Some v) ↔ ∃ s, (v, s) ∈ facility_names ∧ bs s = n.
Proof.
  unfold logfacility_lookup. destruct (lookup_loop facility_names n) as [w|] eqn:E.
  - apply lookup_loop_Some in E as (s & Hin & <-). split; [intros [= ->]; eauto|].
    intros (s' & Hin' & Heq). do 2 f_equal.
    assert (NoDup ((λ e, bs e.2) <$> facility_names)) as Hnd.
    { refine (bool_decide_unpack _ _). by vm_compute. }
    apply list_elem_of_lookup in Hin as [i Hi]. apply list_elem_of_lookup in Hin' as [j Hj].
    assert (i = j) as ->; [|by rewrite Hi in Hj; simplify_eq].
    eapply NoDup_lookup; [done|by rewrite list_lookup_fmap, Hi|].
    rewrite list_lookup_fmap, Hj. simpl. by rewrite Heq.
  - split; [done|]. intros (s & Hin & Hs). by eapply lookup_loop_None in E.
Qed.

(** The handler touches only the two flags. *)
Lemma syslog_handler_frame sec n v l s :
  let s' := (opt_handler sec n v l s).2 in
  (opt_handler sec n v l s).1 = true ∧ ident s' = ident s ∧ facility s' = facility s ∧
  conn s' = conn s ∧ sent s' = sent s.
Proof. unfold opt_handler. by repeat case_match. Qed.

(** Whatever the configuration file says in its [ident], [facility] and [level]
    options, an enabled syslog backend logs as "pdns-logger", with its process id, to the
    facility "daemon". *)
Theorem syslog_identity_is_fixed files path text s' :
  files path = Some text → path ≠ [] → syslog_init files (Some path) syslog_statics = Ok (PDNS_OK, s') →
  disabled s' = false →
  ∀ str, message s' LOG_NOTICE str =
    {| l_ident := Some (bs "pdns-logger"); l_pid := true; l_priority := 29; l_text := str |}.
Proof.
  intros Hf Hp Hi Hd str. unfold syslog_init in Hi. destruct path as [|b path]; [done|].
  rewrite Hf in Hi. pose proof (ini_parse_invariant opt_handler
    (λ s, ident s = Some (bs "pdns-logger") ∧ facility s = bs "daemon") text syslog_statics) as Hinv.
  destruct (ini_parse opt_handler (Some text) syslog_statics) as [r s].
  destruct Hinv as [Hid Hfac]; [|by split|].
  { intros sec n v l s0. by destruct (syslog_handler_frame sec n v l s0) as (_ & -> & -> & _). }
  simpl in Hid, Hfac. destruct (negb (r =? 0)%Z); [done|].
  destruct (disabled s) eqn:E; injection Hi as <-; [congruence|].
  unfold message, openlog, set_conn. cbn [conn c_ident c_option c_facility].
  rewrite Hid, Hfac. by vm_compute.
Qed.

(** ** Concrete instances *)

Lemma syslog_log_as_logfile_log_witness :
  same_output (λ ls, (PDNS_OK, @write_lines block_stdio ls demo_log))
    (λ ls, (PDNS_OK, set_sent (message syslog_statics LOG_NOTICE <$> ls) syslog_statics))
    (@logfile_log release block_stdio (Some (demo_msg [demo_a x01])) demo_log)
    (@syslog_log release (Some (demo_msg [demo_a x01])) syslog_statics).
Proof.
  exact (@syslog_log_as_logfile_log release block_stdio (Some (demo_msg [demo_a x01])) demo_log
    syslog_statics eq_refl eq_refl).
Defined.

Definition demo_syslog_ini : list byte := bs "[syslog]
ident=resolver
facility=local3
level=debug
only-rewrites=0
".

Lemma syslog_identity_is_fixed_witness :
  ∃ s', syslog_init (λ _, Some demo_syslog_ini) (Some (bs "ini")) syslog_statics = Ok (PDNS_OK, s') ∧
    rewrites_only s' = false ∧
    message s' LOG_NOTICE (bs "hi") =
      {| l_ident := Some (bs "pdns-logger"); l_pid := true; l_priority := 29; l_text := bs "hi" |}.
Proof.
  eexists. split; [by vm_compute|]. split; [done|].
  apply (syslog_identity_is_fixed (λ _, Some demo_syslog_ini) (bs "ini") demo_syslog_ini);
    [done|done|by vm_compute|done].
Defined.
