(* ===== verification/Bounds.v ===== *)
(** * How long a log line can get: src/pdns-logger-file.c, src/pdns-logger-syslog.c

    The two text backends build a line in an array of 1024 characters.  This file bounds
    the length of each field by what the message contains, and shows that a message with
    few records and short names, whose textual data is terminated, is logged completely: no
    field is lost, the array is not overrun and the line is not cut. *)

From S2P Require Import Prelude CLib Common Dns Message LogLine Stdio Logfile Syslog.

(** ** Lengths of the fields *)

Lemma s32_range z : (- 2 ^ 31 ≤ s32 z < 2 ^ 31)%Z.
Proof. unfold s32. pose proof (Z.mod_pos_bound (z + 2 ^ 31) (2 ^ 32)). lia. Qed.

Lemma dec_s32_length z : length (dec (s32 z)) ≤ 11.
Proof.
  pose proof (s32_range z). unfold dec. destruct (Z.ltb_spec (s32 z) 0).
  - rewrite length_app. pose proof (udec_length 10 (- s32 z)). simpl in *. lia.
  - pose proof (udec_length 10 (s32 z)). simpl in *. lia.
Qed.

Lemma small_number_length t : (0 ≤ t < 10)%Z → length (dec (s32 t)) ≤ 1.
Proof.
  intros Ht. rewrite s32_small by lia. unfold dec. rewrite (proj2 (Z.ltb_ge _ _)) by lia.
  apply udec_length; lia.
Qed.

(** A name of a table, or "(null)". *)
Lemma printed_name_length n tab i :
  Forall (λ e, length (fmt_cs (name e)) ≤ n) tab → 6 ≤ n →
  length (fmt_cs (if (i <? Z.of_nat (length tab))%Z then tab !! Z.to_nat i ≫= name else None)) ≤ n.
Proof.
  intros Htab Hn. destruct (_ <? _)%Z; [|done]. destruct (tab !! Z.to_nat i) as [e|] eqn:E; [|done].
  exact (proj1 (Forall_lookup _ _) Htab _ _ E).
Qed.

Lemma type_name_length i : length (fmt_cs (pdns_logger_type2p i)) ≤ 8.
Proof. apply printed_name_length; [|lia]. refine (bool_decide_unpack _ _). by vm_compute. Qed.
Lemma class_name_length i : length (fmt_cs (pdns_logger_class2p i)) ≤ 7.
Proof. apply printed_name_length; [|lia]. refine (bool_decide_unpack _ _). by vm_compute. Qed.
Lemma rcode_name_length i : length (fmt_cs (pdns_logger_rcode2p i)) ≤ 8.
Proof. apply printed_name_length; [|lia]. refine (bool_decide_unpack _ _). by vm_compute. Qed.

Lemma field_length l v : length (field l v) = length l + length v + 1.
Proof. unfold field. rewrite !length_app. simpl. lia. Qed.

Lemma label_length s n t :
  length (bs s) = n → (0 ≤ t < 10)%Z → length (label s t) ≤ n + 3.
Proof.
  intros <- Ht. unfold label. rewrite !length_app. pose proof (small_number_length t Ht).
  simpl. lia.
Qed.

(** The length of a sequence of fields. *)
Definition total (fs : list (list byte)) : nat := length (concat fs).

Lemma total_app fs gs : total (fs ++ gs) = total fs + total gs.
Proof. unfold total. by rewrite concat_app, length_app. Qed.
Lemma total_one f : total [f] = length f.
Proof. unfold total. simpl. by rewrite app_nil_r. Qed.
Lemma total_only_if b f : total (only_if b f) ≤ length f.
Proof. unfold total, only_if. destruct b; simpl; rewrite ?app_nil_r; lia. Qed.

(** Reduces the length of a sequence of optional fields to that of each. *)
Ltac total_fields :=
  rewrite ?total_app, ?total_one;
  repeat match goal with
  | |- context [total (only_if ?b ?f)] =>
      let H := fresh in pose proof (total_only_if b f) as H; revert H;
      generalize (total (only_if b f)); intros ? H
  end.

(** ** The parts of a message that have no fixed length *)

(** A record's name, and its data when that is printed as text. *)
Definition rr_text (rr : PBDNSMessage__DNSResponse__DNSRR) : nat :=
  length (fmt_cs (rr_name rr)) +
  (if text_type (rr_type rr) then length (default [] (bin_data (rr_rdata rr))) else 0).

Definition text_size (m : PBDNSMessage) (r : PBDNSMessage__DNSResponse) : nat :=
  from_option (λ q, length (fmt_cs (q_qname q))) 0 (m_question m) +
  length (default [] (r_appliedpolicy r)) + sum_list (rr_text <$> r_rrs r).

(** The labels and fixed-size values before the records, and those of a record. *)
Definition HEAD_SIZE : nat := 147.
Definition RECORD_SIZE : nat := 121.

Lemma from_fields_total m fs : from_fields m = Ok fs → total fs ≤ 52.
Proof.
  unfold from_fields, total. intros Hfs. repeat case_match; ok_inv; simpl; try lia.
  all: apply outcome_bind_ok in Hfs as (ip & Hip & Hfs); injection Hfs as <-.
  all: apply inet_ntop_length in Hip; unfold INET6_ADDRSTRLEN in Hip.
  all: change (length (concat [field (bs "from: ") ip])) with (total [field (bs "from: ") ip]).
  all: rewrite total_one, field_length; simpl; lia.
Qed.

Lemma question_fields_total m :
  total (question_fields m) ≤ 40 + from_option (λ q, length (fmt_cs (q_qname q))) 0 (m_question m).
Proof.
  unfold question_fields. destruct (m_question m) as [q|]; [|unfold total; simpl; lia]. cbn [from_option].
  pose proof (type_name_length (q_qtype q)). pose proof (class_name_length (q_qclass q)).
  total_fields. rewrite ?field_length in *. simpl in *. lia.
Qed.

Lemma response_fields_total r :
  length (r_rrs r) < 10 →
  total (response_fields r) ≤ 38 + length (default [] (r_appliedpolicy r)).
Proof.
  intros Hn. unfold response_fields. pose proof (rcode_name_length (r_rcode r)).
  pose proof (udec_length 1 (Z.of_nat (length (r_rrs r)))).
  assert (total (only_if (negb (zstr (r_appliedpolicy r)))
    (bs "policy: '" ++ fmt_cs (r_appliedpolicy r) ++ bs "' ")) ≤
    11 + length (default [] (r_appliedpolicy r))) as Hp.
  { destruct (r_appliedpolicy r) as [[|b p]|]; unfold total; simpl; rewrite ?app_nil_r, ?length_app;
      simpl; lia. }
  rewrite 2!total_app. revert Hp. generalize (total (only_if (negb (zstr (r_appliedpolicy r)))
    (bs "policy: '" ++ fmt_cs (r_appliedpolicy r) ++ bs "' "))). intros n Hp.
  total_fields. rewrite ?field_length in *. simpl in *. lia.
Qed.

Lemma head_fields_total `{Build} m r hd :
  head_fields m r = Ok hd → length (r_rrs r) < 10 →
  total hd ≤ HEAD_SIZE + from_option (λ q, length (fmt_cs (q_qname q))) 0 (m_question m) +
    length (default [] (r_appliedpolicy r)).
Proof.
  unfold head_fields, HEAD_SIZE. intros Hhd Hn. apply outcome_bind_ok in Hhd as (from & Hfrom & Hhd).
  apply outcome_bind_ok in Hhd as ([] & _ & [= <-]).
  pose proof (from_fields_total m from Hfrom). pose proof (question_fields_total m).
  pose proof (response_fields_total r Hn). pose proof (dec_s32_length (m_id m)).
  unfold id_fields. total_fields. rewrite ?field_length in *. simpl in *. lia.
Qed.

Lemma cstr_length blk s : cstr blk = Some s → length s < length blk.
Proof.
  revert s; induction blk as [|b blk IH]; intros s; simpl; [done|].
  destruct (Byte.eqb b NUL); [intros [= <-]; simpl; lia|].
  destruct (cstr blk) as [s'|]; [|done]. intros [= <-]. specialize (IH _ eq_refl). simpl. lia.
Qed.

Lemma rdata_fields_total t rr fs :
  rdata_fields t rr = Ok fs → (0 ≤ t < 10)%Z →
  total fs ≤ 55 + (if text_type (rr_type rr) then length (default [] (bin_data (rr_rdata rr))) else 0).
Proof.
  unfold rdata_fields. intros Hfs Ht. pose proof (label_length "rdata-" 6 t eq_refl Ht) as Hl.
  destruct (negb (rr_has_rdata rr)); [injection Hfs as <-; unfold total; simpl; lia|].
  destruct (rr_has_type rr && (rr_type rr =? 1)%Z && _).
  { apply outcome_bind_ok in Hfs as (ip & Hip%inet_ntop_length & [= <-]).
    unfold INET6_ADDRSTRLEN in Hip. rewrite total_one, field_length. lia. }
  destruct (rr_has_type rr && (rr_type rr =? 28)%Z && _).
  { apply outcome_bind_ok in Hfs as (ip & Hip%inet_ntop_length & [= <-]).
    unfold INET6_ADDRSTRLEN in Hip. rewrite total_one, field_length. lia. }
  destruct (rr_has_type rr && text_type (rr_type rr)) eqn:E.
  - apply andb_true_iff in E as [_ ->]. apply outcome_bind_ok in Hfs as (s & Hs & [= <-]).
    rewrite total_one, field_length. destruct (bin_data (rr_rdata rr)) as [blk|]; simpl in *.
    + destruct (cstr blk) as [s'|] eqn:Ec; [|done]. injection Hs as <-. apply cstr_length in Ec. lia.
    + injection Hs as <-. simpl. lia.
  - injection Hfs as <-. rewrite total_one. simpl. lia.
Qed.

Lemma rr_fields_total t rr fs :
  rr_fields t rr = Ok fs → (0 ≤ t < 10)%Z → total fs ≤ RECORD_SIZE + rr_text rr.
Proof.
  unfold rr_fields, RECORD_SIZE, rr_text. intros Hfs Ht.
  apply outcome_bind_ok in Hfs as (rd & Hrd & [= <-]).
  pose proof (rdata_fields_total t rr rd Hrd Ht). pose proof (type_name_length (rr_type rr)).
  pose proof (class_name_length (rr_class rr)). pose proof (dec_s32_length (rr_ttl rr)).
  pose proof (label_length "rname-" 6 t eq_refl Ht). pose proof (label_length "rtype-" 6 t eq_refl Ht).
  pose proof (label_length "rclass-" 7 t eq_refl Ht). pose proof (label_length "rttl-" 5 t eq_refl Ht).
  change (?x :: ?l) with ([x] ++ l).
  total_fields. rewrite ?field_length in *. lia.
Qed.

Lemma rrs_fields_total t rrs fss :
  rrs_fields t rrs = Ok fss → (0 ≤ t)%Z → (t + Z.of_nat (length rrs) ≤ 10)%Z →
  total (concat fss) ≤ RECORD_SIZE * length rrs + sum_list (rr_text <$> rrs).
Proof.
  revert t fss; induction rrs as [|rr rrs IH]; intros t fss Hfss Ht Hn; simpl in Hfss.
  { injection Hfss as <-. unfold total. simpl. lia. }
  apply outcome_bind_ok in Hfss as (fs & Hfs & Hfss).
  apply outcome_bind_ok in Hfss as (fss' & Hfss' & [= <-]). cbn [length] in Hn.
  pose proof (rr_fields_total t rr fs Hfs). specialize (IH _ _ Hfss').
  cbn [concat fmap list_fmap sum_list sum_list_with length]. rewrite total_app.
  unfold sum_list in *. simpl in *. lia.
Qed.

(** ** Messages that are logged completely *)

(** The lines of a message, uncut. *)
Fixpoint full_from (acc : list (list byte)) (fss : list (list (list byte))) : list (list byte) :=
  match fss with
  | [] => []
  | fs :: fss => concat (acc ++ fs) :: full_from (acc ++ fs) fss
  end.

Definition full_lines (hd : list (list byte)) (fss : list (list (list byte))) :
    list (list byte) :=
  match fss with [] => [concat hd] | _ => full_from hd fss end.

Lemma lines_from_full acc fss :
  total (acc ++ concat fss) < LINE_SIZE → lines_from acc fss = full_from acc fss.
Proof.
  revert acc; induction fss as [|fs fss IH]; intros acc Hlt; [done|].
  cbn [lines_from full_from]. cbn [concat] in Hlt. rewrite app_assoc in Hlt. f_equal; [|by apply IH].
  rewrite total_app in Hlt. unfold total in Hlt at 1. apply take_ge. lia.
Qed.

Lemma message_lines_full hd fss :
  total (hd ++ concat fss) < LINE_SIZE → message_lines hd fss = full_lines hd fss.
Proof.
  intros Hlt. destruct fss as [|fs fss]; [|by apply lines_from_full].
  unfold message_lines, full_lines. f_equal. apply take_ge.
  rewrite total_app in Hlt. unfold total in Hlt at 1. lia.
Qed.

Lemma used_total ps : used ps ≤ total ps.
Proof.
  unfold used, total. destruct (exists_last' ps) as [->|[k [x ->]]]; [done|].
  rewrite removelast_last, concat_app, length_app. lia.
Qed.

Section small.
Context `{Build, Stdio}.

Lemma small_message_total m r hd fss :
  head_fields m r = Ok hd → rrs_fields 1 (r_rrs r) = Ok fss →
  HEAD_SIZE + text_size m r + RECORD_SIZE * length (r_rrs r) < LINE_SIZE →
  total (hd ++ concat fss) < LINE_SIZE.
Proof.
  intros Hhd Hfss Hsz. pose proof LINE_value. unfold text_size in Hsz.
  assert (length (r_rrs r) < 9) by (unfold RECORD_SIZE in Hsz; lia).
  pose proof (head_fields_total m r hd Hhd). pose proof (rrs_fields_total 1 _ _ Hfss).
  rewrite total_app. lia.
Qed.

Lemma small_message_writable ro dis m r hd fss :
  logged_response ro dis (Some m) = Some (m, r) →
  head_fields m r = Ok hd → rrs_fields 1 (r_rrs r) = Ok fss →
  HEAD_SIZE + text_size m r + RECORD_SIZE * length (r_rrs r) < LINE_SIZE →
  writable ro dis m (full_lines hd fss).
Proof.
  intros Hlr Hhd Hfss Hsz. pose proof (small_message_total _ _ _ _ Hhd Hfss Hsz) as Ht.
  right. exists hd, fss. split_and!.
  - split; [by exists r|]. pose proof LINE_value. unfold total in Ht. lia.
  - eapply Nat.le_lt_trans; [apply used_total|done].
  - by rewrite message_lines_full.
Qed.

(** C8: Small messages are logged completely.  Take a well-formed message (what the decoder
    produces) with a response, whose NS, CNAME, SOA and MX data, which are printed as
    strings, each contain a NUL, and, in a debug build, without originalRequestorSubnet,
    whose presence is asserted against.  Count 147 characters for the labels and
    fixed-size values of the query and response, 121 for those of each record, and the
    names, policy and textual data themselves: if these are fewer than 1024 (so at most
    seven records), both text backends output every field of every record, uncut, and
    neither overruns its line. *)
Theorem small_messages_fit m r :
  formattable m r →
  HEAD_SIZE + text_size m r + RECORD_SIZE * length (r_rrs r) < LINE_SIZE →
  ∃ hd fss, head_fields m r = Ok hd ∧ rrs_fields 1 (r_rrs r) = Ok fss ∧
    (∀ s, logged_response (Logfile.rewrites_only s) (Logfile.disabled s) (Some m) = Some (m, r) →
      logfile_log (Some m) s = Ok (PDNS_OK, write_lines (full_lines hd fss) s)) ∧
    (∀ s, logged_response (Syslog.rewrites_only s) (Syslog.disabled s) (Some m) = Some (m, r) →
      syslog_log (Some m) s = Ok (PDNS_OK, send_lines (full_lines hd fss) s)).
Proof.
  intros Hf Hsz. destruct (formattable_fields _ _ Hf) as (hd & fss & Hhd & Hfss).
  exists hd, fss. split_and!; [done..| |].
  - intros s Hlr. by eapply logfile_log_writable, small_message_writable.
  - intros s Hlr. by eapply syslog_log_writable, small_message_writable.
Qed.
End small.

(** Three address records. *)
Definition demo_three : list PBDNSMessage__DNSResponse__DNSRR := demo_a <$> [x01; x02; x03].

Lemma small_messages_fit_witness :
  ∃ hd fss, @head_fields release (demo_msg demo_three) (demo_response demo_three) = Ok hd ∧
    rrs_fields 1 demo_three = Ok fss ∧
    @syslog_log release (Some (demo_msg demo_three)) syslog_statics =
      Ok (PDNS_OK, send_lines (full_lines hd fss) syslog_statics).
Proof.
  destruct (@small_messages_fit release block_stdio (demo_msg demo_three) (demo_response demo_three))
    as (hd & fss & Hhd & Hfss & _ & Hs).
  - split_and!; [|done| |by left].
    + split; try (refine (bool_decide_unpack _ _); by vm_compute).
      * intros r [= <-]. repeat constructor; by vm_compute.
      * by intros r [= <-].
    + repeat constructor; intros (_ & _ & [=] & _).
  - apply Nat.ltb_lt. by vm_compute.
  - exists hd, fss. split; [exact Hhd|]. split; [exact Hfss|]. apply Hs. reflexivity.
Defined.
