(* ===== verification/Clients.v ===== *)
(** * Several clients and one log file: src/pdns-logger-file.c, lines 81-109

    Every connection has a thread of its own, and all of them write to the stream [fp]
    while the main thread may reopen it.  The C library locks a stream for the duration of
    one call, so the atomic actions are its calls: the [fprintf] and the [fflush] of
    [write_log()], and the [freopen] of [logfile_rotate]; an administrator may move the
    file between any two of them.  The runs of the daemon are the interleavings of the
    threads' actions.

    The reopening is an action of the main thread, where SIGHUP is normally handled: it
    waits in [select].  The signal is not blocked in the client threads, so that the system
    may also run the handler inside one of them, in the middle of a call on the same stream;
    that run, which POSIX leaves undefined, is not among the interleavings. *)

From stdpp Require Import relations.
From S2P Require Import Prelude CLib Common Message LogLine Stdio Logfile.

(** ** Interleavings *)

(** [l] takes the elements of the lists [ts] one by one, each list in order. *)
Inductive merges {A} : list (list A) → list A → Prop :=
  | merges_nil ts : Forall (λ t, t = []) ts → merges ts []
  | merges_cons ts i x t l :
      ts !! i = Some (x :: t) → merges (<[i := t]> ts) l → merges ts (x :: l).

Section merges.
Context {A : Type}.
Implicit Types (ts : list (list A)) (l : list A).

Lemma concat_nil_inv ts : Forall (λ t, t = []) ts → concat ts = [].
Proof. induction 1 as [|t ts ->]; [done|]. by simpl. Qed.

Lemma concat_take_one ts i x t :
  ts !! i = Some (x :: t) → concat ts ≡ₚ x :: concat (<[i := t]> ts).
Proof.
  revert i; induction ts as [|u ts IH]; intros [|i] Hi; simplify_eq/=; [done|].
  rewrite (IH _ Hi). apply Permutation_sym, Permutation_middle.
Qed.

(** Nothing is lost, added or repeated ... *)
Lemma merges_perm ts l : merges ts l → l ≡ₚ concat ts.
Proof.
  induction 1 as [ts Hts|ts i x t l Hi _ IH]; [by rewrite concat_nil_inv|].
  by rewrite IH, (concat_take_one _ _ _ _ Hi).
Qed.

(** ... and each list keeps its order. *)
Lemma merges_sublist ts l t : merges ts l → t ∈ ts → t `sublist_of` l.
Proof.
  intros Hm Ht. apply list_elem_of_lookup in Ht as [j Hj]. revert j t Hj.
  induction Hm as [ts Hts|ts i x u l Hi _ IH]; intros j t Hj.
  { rewrite Forall_lookup in Hts. by rewrite (Hts _ _ Hj). }
  destruct (decide (i = j)) as [->|Hne].
  - rewrite Hi in Hj. injection Hj as <-. apply sublist_skip, (IH j).
    apply list_lookup_insert_eq. by eapply lookup_lt_Some.
  - apply sublist_cons, (IH j). by rewrite list_lookup_insert_ne.
Qed.

(** A list that has nothing to contribute. *)
Lemma merges_snoc_nil ts l : merges (ts ++ [[]]) l → merges ts l.
Proof.
  intros Hm. remember (ts ++ [[]]) as ts' eqn:E. revert ts E.
  induction Hm as [ts' Hts|ts' i x t l Hi _ IH]; intros ts ->.
  { apply Forall_app in Hts as [Hts _]. by constructor. }
  assert (i < length ts) as Hlt.
  { destruct (decide (i < length ts)) as [|Hge]; [done|].
    rewrite lookup_app_r in Hi by lia. destruct (i - length ts) as [|[|]]; done. }
  rewrite lookup_app_l in Hi by done. econstructor; [exact Hi|]. apply IH.
  by rewrite insert_app_l.
Qed.
End merges.

(** ** The actions *)

Inductive action :=
  | APrint (str : list byte)      (* fprintf(fp, "%s\n", str) *)
  | AFlush                        (* fflush(fp) *)
  | AMove (path : list byte)      (* mv, by an administrator *)
  | AReopen.                      (* logfile_rotate *)

(** The calls of the macro [write_log()], for one line, and of a thread, for its lines. *)
Definition write_actions (force_flush : bool) (str : list byte) : list action :=
  APrint str :: if force_flush then [AFlush] else [].

Definition thread_actions (force_flush : bool) (ls : list (list byte)) : list action :=
  concat (write_actions force_flush <$> ls).

(** The lines an action, or a thread, prints. *)
Definition prints (a : action) : list (list byte) := if a is APrint l then [l] else [].
Definition printed (p : list action) : list (list byte) := concat (prints <$> p).

Section clients.
Context `{Build, Stdio} (name : list byte).
Implicit Types (s : logfile_t) (f : FILE).

Definition act (a : action) (s : logfile_t) : outcome logfile_t :=
  match a with
  | APrint str =>
      match fp s with
      | None => mret s
      | Some f => let '(f, w) := fprintf (str ++ [LF]) f (world s) in mret (set_stream (Some f) w s)
      end
  | AFlush =>
      match fp s with
      | None => mret s
      | Some f => let '(f, w) := fflush f (world s) in mret (set_stream (Some f) w s)
      end
  | AMove path => mret (set_stream (fp s) (rename name path (world s)) s)
  | AReopen => snd <$> logfile_rotate s
  end.

(** The threads with what they still have to do, the state they share, and the files the
    stream was on before the one it is on now. *)
Record config := { c_threads : list (list action); c_state : logfile_t; c_old : list nat }.

Definition left_behind (s s' : logfile_t) : list nat :=
  match fp s, fp s' with
  | Some f, Some f' => if decide (f_ino f' = f_ino f) then [] else [f_ino f]
  | Some f, None => [f_ino f]
  | None, _ => []
  end.

Inductive step : config → config → Prop :=
  | step_act ts s old i a p s' :
      ts !! i = Some (a :: p) → act a s = Ok s' →
      step {| c_threads := ts; c_state := s; c_old := old |}
           {| c_threads := <[i := p]> ts; c_state := s'; c_old := old ++ left_behind s s' |}.

Definition complete (c : config) : Prop := Forall (λ p, p = []) (c_threads c).

(** What is left to do. *)
Definition work (c : config) : nat := sum_list (length <$> c_threads c).

Lemma write_log_actions l s : foldM act (write_actions (force_flush s) l) s = Ok (write_log l s).
Proof.
  unfold write_log, write_actions. destruct (fp s) as [f|] eqn:Hf.
  - destruct (force_flush s); cbn [foldM act]; rewrite Hf;
      destruct (fprintf _ _ _) as [f1 w1]; [|done]. cbn [mbind outcome_bind mret outcome_ret].
    cbn [fp set_stream world]. by destruct (fflush f1 w1).
  - by destruct (force_flush s); cbn [foldM act]; rewrite Hf; cbn; rewrite ?Hf.
Qed.

Lemma thread_writes_lines ls s :
  foldM act (thread_actions (force_flush s) ls) s = Ok (write_lines ls s).
Proof.
  revert s; induction ls as [|l ls IH]; intros s; [done|].
  unfold thread_actions. cbn [fmap list_fmap concat]. rewrite foldM_app, write_log_actions.
  cbn [mbind outcome_bind]. destruct (write_log_settings l s) as (E & _).
  rewrite <- E. apply IH.
Qed.

(** A thread by itself: logging its messages one after the other is these calls. *)
Lemma thread_logs ms lss s :
  Forall2 (writable (rewrites_only s) (disabled s)) ms lss →
  foldM (λ m s, snd <$> logfile_log (Some m) s) ms s =
    foldM act (thread_actions (force_flush s) (concat lss)) s.
Proof.
  intros Hw. rewrite thread_writes_lines. remember s as s0 eqn:E in Hw.
  assert (same_settings s0 s) as Hset by (subst; by repeat split). clear E. revert s Hset.
  induction Hw as [|m ls ms lss Hm Hw IH]; intros s Hset; [done|]. destruct Hset as (E1 & E2 & E3 & E4).
  cbn [foldM concat]. rewrite <- E2, <- E3 in Hm. rewrite (logfile_log_writable _ _ _ Hm). cbn.
  unfold write_lines. rewrite foldl_app. apply IH.
  destruct (write_lines_settings ls s) as (F1 & F2 & F3 & F4). by repeat split; etrans.
Qed.

(** ** The invariant *)

(** The stream is open, on a file that its name denotes if that names any; the files it
    was on before are other ones. *)
Record shared (s : logfile_t) (old : list nat) (f : FILE) : Prop := {
  sh_fp : fp s = Some f;
  sh_file : file s = Some name;
  sh_openable : openable (world s) name = true;
  sh_fresh : f_ino f < fresh (world s);
  sh_name : ∀ i, dir (world s) !! name = Some i → i = f_ino f;
  sh_old : Forall (λ i, i ≠ f_ino f ∧ i < fresh (world s)) old;
}.

(** Everything printed: the files left behind, then the current one with the buffer. *)
Definition journal (s : logfile_t) (old : list nat) (f : FILE) : list byte :=
  concat (content (world s) <$> old) ++ view (world s) f.

(** An administrator does not move a file onto itself. *)
Definition sensible (a : action) : Prop := if a is AMove path then path ≠ name else True.

Lemma old_contents w w' (old : list nat) i :
  same_but i w w' → Forall (λ j, j ≠ i ∧ j < fresh w) old → content w' <$> old = content w <$> old.
Proof.
  intros (_ & _ & _ & Hc) Ho. apply list_fmap_ext. intros k j Hj.
  rewrite Forall_lookup in Ho. apply Hc, (Ho _ _ Hj).
Qed.

Lemma left_behind_same s s' f f' :
  fp s = Some f → fp s' = Some f' → f_ino f' = f_ino f → left_behind s s' = [].
Proof. intros Hf Hf' Hi. unfold left_behind. by rewrite Hf, Hf', decide_True. Qed.

(** Output to the stream: what changes is its file and its buffer. *)
Lemma shared_output s old f f' w' data :
  shared s old f → f_ino f' = f_ino f → same_but (f_ino f) (world s) w' →
  view w' f' = view (world s) f ++ data →
  let s' := set_stream (Some f') w' s in
  shared s' (old ++ left_behind s s') f' ∧
  journal s' (old ++ left_behind s s') f' = journal s old f ++ data.
Proof.
  intros [Hfp Hfile Hop Hfr Hnm Hold] Hi Hw Hv s'.
  rewrite (left_behind_same s s' f f' Hfp eq_refl Hi), app_nil_r.
  pose proof (old_contents _ _ _ _ Hw Hold) as Hc. destruct Hw as (Hd & Hfr' & Ho & _). split.
  - split; cbn [s' fp file world set_stream]; rewrite ?Hi, ?Hd, ?Hfr', ?Ho; done.
  - unfold journal. cbn [s' world set_stream]. by rewrite Hc, Hv, app_assoc.
Qed.

Lemma shared_move s old f path :
  shared s old f → path ≠ name →
  let s' := set_stream (fp s) (rename name path (world s)) s in
  shared s' (old ++ left_behind s s') f ∧
  journal s' (old ++ left_behind s s') f = journal s old f.
Proof.
  intros [Hfp Hfile Hop Hfr Hnm Hold] Hne s'.
  assert (fp s' = Some f) as Hfp' by done.
  rewrite (left_behind_same s s' f f Hfp Hfp' eq_refl), app_nil_r.
  destruct (rename_frame name path (world s) Hne) as (Hd & Hin & Hfr' & Ho). split.
  - split; cbn [s' fp file world set_stream]; rewrite ?Hfr', ?Ho; try done. by rewrite Hd.
  - unfold journal, view, content. cbn [s' world set_stream]. by rewrite Hin.
Qed.

(** [freopen]: the buffer goes to the old file; the new one is the same file, if it has
    not been moved, or an empty one. *)
Lemma shared_reopen s old f :
  shared s old f →
  ∃ s' f', logfile_rotate s = Ok (PDNS_OK, s') ∧ same_settings s s' ∧ f_buf f' = [] ∧
    shared s' (old ++ left_behind s s') f' ∧
    journal s' (old ++ left_behind s s') f' = journal s old f.
Proof.
  intros [Hfp Hfile Hop Hfr Hnm Hold]. unfold logfile_rotate. rewrite Hfp, Hfile. unfold freopen_a.
  destruct (fclose_same_but f (world s)) as (Hd & Hf & Ho & Hc).
  pose proof (fclose_content f (world s)) as Hcl.
  pose proof (old_contents _ _ _ _ (fclose_same_but f (world s)) Hold) as Hcold.
  set (w1 := fclose f (world s)) in *. destruct (dir (world s) !! name) as [i|] eqn:Hn.
  - assert (i = f_ino f) as -> by (by apply Hnm). unfold fopen_a. rewrite Ho, Hop, Hd, Hn.
    eexists _, {| f_ino := f_ino f; f_buf := [] |}. split; [done|]. split_and!; [done|done|..].
    + rewrite (left_behind_same _ _ f {| f_ino := f_ino f; f_buf := [] |}), app_nil_r by done.
      split; cbn [fp file world set_stream f_ino]; rewrite ?Hf, ?Ho; try done.
      intros i. rewrite Hd, Hn. congruence.
    + rewrite (left_behind_same _ _ f {| f_ino := f_ino f; f_buf := [] |}), app_nil_r by done.
      unfold journal, view. cbn [world set_stream f_ino f_buf]. by rewrite Hcold, app_nil_r, Hcl.
  - destruct (fopen_a_new name w1) as (f' & w' & Hre & Hd' & Hi & Hv & Hfr' & Ho' & Hc');
      [by rewrite Ho|by rewrite Hd|].
    rewrite Hre. rewrite Hf in *. eexists _, f'. split; [done|].
    assert (left_behind s (set_stream (Some f') w' s) = [f_ino f]) as Hlb.
    { unfold left_behind. rewrite Hfp. cbn [fp set_stream]. rewrite decide_False; [done|lia]. }
    assert (f_buf f' = []) as Hb by (unfold view in Hv; by apply app_eq_nil in Hv as [_ ?]).
    rewrite Hlb. split_and!; [done|exact Hb|..].
    + split; cbn [fp file world set_stream]; rewrite ?Hi, ?Hfr', ?Ho', ?Ho; try done; [lia| |].
      * intros i. rewrite Hd'. congruence.
      * apply Forall_app_2; [|constructor; [lia|constructor]].
        eapply Forall_impl; [exact Hold|]. simpl. lia.
    + unfold journal. cbn [world set_stream]. rewrite fmap_app, concat_app, Hv. cbn [fmap list_fmap concat].
      rewrite !app_nil_r, Hc', Hcl by lia. f_equal. rewrite <- Hcold. f_equal.
      apply list_fmap_ext. intros k j Hj. rewrite Forall_lookup in Hold.
      apply Hc'. pose proof (Hold _ _ Hj) as [_ ?]. simpl in *. lia.
Qed.

(** Every action succeeds and adds its line to the journal. *)
Lemma shared_act a s old f :
  shared s old f → sensible a →
  ∃ s' f', act a s = Ok s' ∧ same_settings s s' ∧
    shared s' (old ++ left_behind s s') f' ∧
    journal s' (old ++ left_behind s s') f' =
      journal s old f ++ concat ((.++ [LF]) <$> prints a) ∧
    match a with APrint _ => True | AMove _ => f' = f | _ => f_buf f' = [] end.
Proof.
  intros Hs Ha. pose proof (sh_fp _ _ _ Hs) as Hfp. destruct a as [l| |path|]; cbn [act prints].
  - rewrite Hfp. pose proof (fprintf_view (l ++ [LF]) f (world s)) as Hp.
    destruct (fprintf _ _ _) as [f' w']. destruct Hp as (Hv & Hi & Hw).
    exists (set_stream (Some f') w' s), f'.
    destruct (shared_output s old f f' w' (l ++ [LF]) Hs Hi Hw Hv). cbn. rewrite app_nil_r. done.
  - rewrite Hfp. pose proof (fflush_view f (world s)) as Hp.
    destruct (fflush _ _) as [f' w']. destruct Hp as (Hv & Hb & Hi & Hw).
    exists (set_stream (Some f') w' s), f'. rewrite <- (app_nil_r (view (world s) f)) in Hv.
    by destruct (shared_output s old f f' w' [] Hs Hi Hw Hv).
  - eexists _, f. split; [done|]. split; [done|]. cbn. rewrite app_nil_r.
    by destruct (shared_move s old f path Hs Ha).
  - destruct (shared_reopen s old f Hs) as (s' & f' & -> & Hset & Hb & Hs' & Hj).
    exists s', f'. cbn. by rewrite app_nil_r.
Qed.

(** ** Runs *)

(** Every line is flushed by the thread's next call. *)
Fixpoint settled (p : list action) : bool :=
  match p with
  | [] => true
  | APrint _ :: p => match p with AFlush :: _ => true | _ => false end && settled p
  | _ :: p => settled p
  end.

(** Nothing is buffered unless some thread is about to flush. *)
Definition drained (ts : list (list action)) (f : FILE) : Prop :=
  f_buf f = [] ∨ ∃ i p, ts !! i = Some (AFlush :: p).

Lemma settled_cons a p :
  settled (a :: p) = true → settled p = true ∧ (∀ l, a = APrint l → ∃ p', p = AFlush :: p').
Proof.
  destruct a as [l| |path|]; simpl; [|by split..].
  intros [Hp Hs]%andb_true_iff. split; [done|]. destruct p as [|[] p]; naive_solver.
Qed.

Lemma drained_act ts i a p f f' :
  ts !! i = Some (a :: p) → settled (a :: p) = true → drained ts f →
  match a with APrint _ => True | AMove _ => f' = f | _ => f_buf f' = [] end →
  drained (<[i := p]> ts) f'.
Proof.
  intros Hi Hs Hd Ha. apply settled_cons in Hs as [_ Hpr]. destruct a as [l| |path|]; [|by left| |by left].
  - destruct (Hpr l eq_refl) as [p' ->]. right. exists i, p'.
    apply list_lookup_insert_eq. by eapply lookup_lt_Some.
  - subst f'. destruct Hd as [?|(j & p' & Hj)]; [by left|]. right. exists j, p'.
    rewrite list_lookup_insert_ne; [done|]. naive_solver.
Qed.

(** Threads of sensible actions, and the state they run in. *)
Record running (c : config) (f : FILE) : Prop := {
  ru_shared : shared (c_state c) (c_old c) f;
  ru_sensible : Forall (Forall sensible) (c_threads c);
}.

Lemma running_step c c' f :
  running c f → step c c' →
  ∃ f', running c' f' ∧ same_settings (c_state c) (c_state c') ∧ work c = S (work c') ∧
    (Forall (λ p, settled p = true) (c_threads c) → drained (c_threads c) f →
      Forall (λ p, settled p = true) (c_threads c') ∧ drained (c_threads c') f') ∧
    ∀ ls, merges (printed <$> c_threads c') ls →
      ∃ ls', merges (printed <$> c_threads c) ls' ∧
        journal (c_state c') (c_old c') f' ++ concat ((.++ [LF]) <$> ls) =
        journal (c_state c) (c_old c) f ++ concat ((.++ [LF]) <$> ls').
Proof.
  intros [Hsh Hse] Hst. destruct Hst as [ts s old i a p s1 Hi Ha]. cbn [c_threads c_state c_old] in *.
  pose proof (proj1 (Forall_lookup _ _) Hse _ _ Hi) as Hap. apply Forall_cons in Hap as [Has Hps].
  destruct (shared_act a s old f Hsh Has) as (s' & f' & Ha' & Hset & Hsh' & Hj & Hb).
  rewrite Ha in Ha'. injection Ha' as <-. exists f'. split_and!.
  - split; [done|]. by apply Forall_insert.
  - done.
  - unfold work. cbn [c_threads]. clear -Hi. revert i Hi.
    induction ts as [|t ts IH]; intros [|i] Hi; simplify_eq/=; [lia|]. rewrite (IH _ Hi). lia.
  - intros Hall Hd. pose proof (proj1 (Forall_lookup _ _) Hall _ _ Hi) as Hs. split.
    + apply Forall_insert; [done|]. by apply settled_cons in Hs as [? _].
    + by eapply drained_act.
  - intros ls Hm. rewrite list_fmap_insert in Hm. exists (prints a ++ ls). split.
    + assert ((printed <$> ts) !! i = Some (prints a ++ printed p)) as Hi'
        by (by rewrite list_lookup_fmap, Hi).
      destruct a as [l| |path|]; cbn [prints app] in *; [by econstructor|..];
        by rewrite list_insert_id in Hm.
    + by rewrite Hj, fmap_app, concat_app, <- app_assoc.
Qed.

Lemma running_progress c f : running c f → ¬ complete c → ∃ c', step c c'.
Proof.
  intros [Hsh Hse] Hnc. destruct c as [ts s old]. unfold complete in Hnc. cbn in *.
  assert (∃ i a p, ts !! i = Some (a :: p)) as (i & a & p & Hi).
  { apply not_Forall_Exists, Exists_exists in Hnc as (t & Ht & Hne); [|apply _].
    apply list_elem_of_lookup in Ht as [i Hi]. destruct t as [|a p]; [by destruct Hne|]. by exists i, a, p. }
  pose proof (proj1 (Forall_lookup _ _) Hse _ _ Hi) as Hap. apply Forall_cons in Hap as [Has _].
  destruct (shared_act a s old f Hsh Has) as (s' & f' & Ha & _).
  eexists. by eapply step_act.
Qed.

Lemma complete_prints ts : Forall (λ p, p = []) ts → merges (printed <$> ts) [].
Proof. intros Hc. constructor. apply Forall_fmap. by eapply Forall_impl; [exact Hc|intros ? ->]. Qed.

Lemma running_run n c c' f :
  running c f → nsteps step n c c' →
  ∃ f', running c' f' ∧ same_settings (c_state c) (c_state c') ∧ work c = n + work c' ∧
    (Forall (λ p, settled p = true) (c_threads c) → drained (c_threads c) f →
      drained (c_threads c') f') ∧
    (complete c' → ∃ ls, merges (printed <$> c_threads c) ls ∧
      journal (c_state c') (c_old c') f' =
      journal (c_state c) (c_old c) f ++ concat ((.++ [LF]) <$> ls)).
Proof.
  intros Hr Hrun. revert f Hr. induction Hrun as [c|n c c1 c' Hst Hrun IH]; intros f Hr.
  - exists f. split_and!; [done|by repeat split|done|done|]. intros Hc. exists [].
    split; [by apply complete_prints|]. by rewrite app_nil_r.
  - destruct (running_step c c1 f Hr Hst) as (f1 & Hr1 & (E1 & E2 & E3 & E4) & Hw & Hd & Hm).
    destruct (IH f1 Hr1) as (f' & Hr' & (F1 & F2 & F3 & F4) & Hw' & Hd' & Hm').
    exists f'. split_and!; [done|by repeat split; etrans|lia| |].
    + intros Hs Hdr. destruct (Hd Hs Hdr). auto.
    + intros Hc. destruct (Hm' Hc) as (ls & Hls & Hj). destruct (Hm ls Hls) as (ls' & Hls' & Hj').
      exists ls'. split; [done|]. by rewrite Hj.
Qed.

Lemma thread_actions_app ff ls ls' :
  thread_actions ff (ls ++ ls') = thread_actions ff ls ++ thread_actions ff ls'.
Proof. unfold thread_actions. by rewrite fmap_app, concat_app. Qed.

Lemma printed_thread ff ls : printed (thread_actions ff ls) = ls.
Proof.
  induction ls as [|l ls IH]; [done|]. change (l :: ls) with ([l] ++ ls).
  rewrite thread_actions_app. unfold printed in *. rewrite fmap_app, concat_app, IH.
  by destruct ff.
Qed.

Lemma thread_sensible ff ls : Forall sensible (thread_actions ff ls).
Proof.
  apply Forall_concat, Forall_fmap, Forall_true. intros l. destruct ff; repeat constructor.
Qed.

Lemma thread_settled ls : settled (thread_actions true ls) = true.
Proof. induction ls as [|l ls IH]; [done|]. exact IH. Qed.

(** Only [AMove] and [AReopen]. *)
Definition maintenance (a : action) : bool :=
  match a with AMove _ | AReopen => true | _ => false end.

Lemma maintenance_prints p : Forall (λ a, maintenance a = true) p → printed p = [].
Proof. induction 1 as [|[] p Ha Hp IH]; done. Qed.

Lemma maintenance_settled p : Forall (λ a, maintenance a = true) p → settled p = true.
Proof. induction 1 as [|[] p Ha Hp IH]; done. Qed.

(** The daemon when every client's thread has its messages to log, given by their lines,
    and [admin] is what happens to the file meanwhile. *)
Definition serving (s : logfile_t) (lsss : list (list (list (list byte)))) (admin : list action) :
    config :=
  {| c_threads := ((λ lss, thread_actions (force_flush s) (concat lss)) <$> lsss) ++ [admin];
     c_state := s; c_old := [] |}.

Lemma serving_running s f lsss admin :
  shared s [] f → Forall sensible admin → running (serving s lsss admin) f.
Proof.
  intros Hs Ha. split; [done|]. cbn. apply Forall_app_2; [|by constructor].
  apply Forall_fmap, Forall_true. intros lss. apply thread_sensible.
Qed.

(** C4: Any number of clients share the log file, each logging its messages in its own thread,
    while the file is moved away and reopened at any moments.  No run lasts longer than its
    threads' calls, none gets stuck, and when all threads are done the files the stream was on,
    one after the other, have grown by the lines of all clients: every line once and in one
    piece, the lines of each client in its order.  With [force-flush] nothing is left in the
    buffer.  A thread's calls are those of [logfile_log] on its messages; the reopening is
    done by the main thread, not by a signal handler inside a client's call. *)
Theorem clients_share_logfile s f clients lsss admin n c' :
  shared s [] f →
  Forall2 (Forall2 (writable (rewrites_only s) (disabled s))) clients lsss →
  Forall (λ a, maintenance a = true) admin → Forall sensible admin →
  nsteps step n (serving s lsss admin) c' →
  Forall2 (λ ms lss, foldM (λ m s, snd <$> logfile_log (Some m) s) ms s =
    foldM act (thread_actions (force_flush s) (concat lss)) s) clients lsss ∧
  n ≤ work (serving s lsss admin) ∧
  ((∃ c'', step c' c'') ∨
   complete c' ∧ ∃ ls f', fp (c_state c') = Some f' ∧ merges ((λ lss, concat lss) <$> lsss) ls ∧
     ls ≡ₚ concat ((λ lss, concat lss) <$> lsss) ∧
     Forall (λ lss, concat lss `sublist_of` ls) lsss ∧
     concat (content (world (c_state c')) <$> c_old c') ++ view (world (c_state c')) f' =
       view (world s) f ++ concat ((.++ [LF]) <$> ls) ∧
     (force_flush s = true → f_buf f = [] → f_buf f' = [])).
Proof.
  intros Hs Hcl Hadm Hse Hrun.
  split; [by eapply Forall2_impl; [exact Hcl|]; intros ms lss; apply thread_logs|]. clear Hcl. pose proof (serving_running s f lsss admin Hs Hse) as Hr.
  destruct (running_run n _ c' f Hr Hrun) as (f' & Hr' & _ & Hw & Hd & Hm). split; [lia|].
  destruct (decide (complete c')) as [Hc|Hnc]; [right|left; by eapply running_progress].
  split; [done|]. destruct (Hm Hc) as (ls & Hls & Hj). exists ls, f'.
  assert (merges ((λ lss, concat lss) <$> lsss) ls) as Hls'.
  { apply merges_snoc_nil. cbn in Hls. rewrite fmap_app, <- list_fmap_compose in Hls. cbn in Hls.
    rewrite maintenance_prints in Hls by done. erewrite list_fmap_ext; [exact Hls|].
    intros i lss _. simpl. by rewrite printed_thread. }
  split_and!; [apply Hr'|done|by apply merges_perm| |exact Hj|].
  - apply Forall_forall. intros lss Hin. eapply merges_sublist; [done|]. by apply list_elem_of_fmap_2.
  - intros Hff Hb. destruct Hd as [?|(i & p & Hi)]; [|by left|done|].
    + cbn. rewrite Hff. apply Forall_app_2; [|constructor; [by apply maintenance_settled|constructor]].
      apply Forall_fmap, Forall_true. intros lss. apply thread_settled.
    + unfold complete in Hc. rewrite Forall_lookup in Hc. by specialize (Hc _ _ Hi).
Qed.
End clients.

(** ** A concrete run *)

(** The run in which the threads move in the order given. *)
Fixpoint schedule `{Stdio} (name : list byte) (order : list nat) (c : config) : option config :=
  match order with
  | [] => Some c
  | i :: order =>
      match c_threads c !! i with
      | Some (a :: p) =>
          match act name a (c_state c) with
          | Ok s' => schedule name order {| c_threads := <[i := p]> (c_threads c); c_state := s';
                                         c_old := c_old c ++ left_behind (c_state c) s' |}
          | Fault _ => None
          end
      | _ => None
      end
  end.

Lemma schedule_steps `{Stdio} name order c c' :
  schedule name order c = Some c' → nsteps (step name) (length order) c c'.
Proof.
  revert c; induction order as [|i order IH]; intros c Hc; simpl in Hc; [injection Hc as <-; constructor|].
  destruct (c_threads c !! i) as [[|a p]|] eqn:Hi; [done| |done].
  destruct (act name a (c_state c)) as [s'|] eqn:Ha; [|done].
  apply nsteps_l with (2 := IH _ Hc). destruct c as [ts s old]. by apply (step_act _ ts s old i a p s').
Qed.

Lemma complete_stuck `{Stdio} name c c' : complete c → ¬ step name c c'.
Proof.
  intros Hc Hs. destruct Hs as [ts s old i a p s' Hi _]. unfold complete in Hc. cbn in Hc.
  rewrite Forall_lookup in Hc. by specialize (Hc _ _ Hi).
Qed.

(** With [force-flush], two clients log a message each; the file is moved and reopened while they do. *)
Definition demo_flushed : logfile_t := set_force_flush true demo_log.

Definition demo_serving : config :=
  serving demo_flushed [[@demo_lines release [demo_a x01]]; [@demo_lines release [demo_a x02]]]
    [AMove (bs "log.1"); AReopen].

Lemma clients_share_logfile_witness :
  ∃ c' ls, @schedule block_stdio (bs "log") [0; 2; 1; 0; 2; 1] demo_serving = Some c' ∧
    ls ≡ₚ @demo_lines release [demo_a x01] ++ @demo_lines release [demo_a x02] ∧
    ∃ f', concat (content (world (c_state c')) <$> c_old c') ++ view (world (c_state c')) f' =
      bs "old" ++ concat ((.++ [LF]) <$> ls).
Proof.
  assert (if @schedule block_stdio (bs "log") [0; 2; 1; 0; 2; 1] demo_serving is Some c
    then forallb (λ p, match p with [] => true | _ => false end) (c_threads c) = true else False)
    as Hdone by (by vm_compute).
  destruct (schedule _ _ _) as [c'|] eqn:E; [|destruct Hdone]. exists c'.
  destruct (@clients_share_logfile release block_stdio (bs "log") demo_flushed
    {| f_ino := 7; f_buf := [] |} [[demo_msg [demo_a x01]]; [demo_msg [demo_a x02]]]
    [[@demo_lines release [demo_a x01]]; [@demo_lines release [demo_a x02]]]
    [AMove (bs "log.1"); AReopen] 6 c') as (_ & _ & [[c'' Hc'']|(_ & ls & f' & _ & _ & Hp & _ & Hj & _)]).
  - split; [done..|apply Nat.ltb_lt; done| |constructor]. by intros i [= <-].
  - apply Forall2_cons_2; [|apply Forall2_cons_2; [|apply Forall2_nil_2]].
    + apply Forall2_cons_2; [check_writable release [demo_a x01]|apply Forall2_nil_2].
    + apply Forall2_cons_2; [check_writable release [demo_a x02]|apply Forall2_nil_2].
  - repeat constructor.
  - repeat constructor. discriminate.
  - exact (@schedule_steps block_stdio (bs "log") [0; 2; 1; 0; 2; 1] demo_serving c' E).
  - exfalso. eapply complete_stuck; [|exact Hc'']. apply Forall_forall. intros p Hp.
    rewrite forallb_forall in Hdone. specialize (Hdone p). rewrite <- list_elem_of_In in Hdone.
    specialize (Hdone Hp). by destruct p.
  - exists ls. split; [done|]. split; [|by exists f'].
    cbn [fmap list_fmap concat] in Hp. by rewrite !app_nil_r in Hp.
Defined.
