(* ===== verification/Sql.v ===== *)
(** * The SQL text of the sqlite backend: src/pdns-logger-sqlite.c, macros and prepare_sql

    The INSERT statement is built by SQLite's [sqlite3_mprintf] from a format string and
    the columns of a row.  This file has the format, the row, what SQLite documents of the
    conversions the format uses, and a reader of the statement's column list and VALUES
    list, with the proof that the reader gets back every row, column by column: no string
    can end its literal early. *)

From S2P Require Import Prelude CLib.

Definition SQL_CREATE_TABLE : list byte := bs
"CREATE TABLE IF NOT EXISTS logs (    ts      INTEGER NOT NULL,    querier VARCHAR(48),    id      INTEGER NOT NULL,    qtype   VARCHAR(10),    qclass  VARCHAR(10),    qname   VARCHAR(256),    rcode   VARCHAR(16),    rcount  INTEGER,    rname   VARCHAR(256),    rtype   VARCHAR(10),    rclass  VARCHAR(10),    rttl    INTEGER,    rdata   VARCHAR(256),    policy  VARCHAR(100))".

Definition SQL_INSERT : list byte := bs
"INSERT INTO logs (  ts, querier, id, qtype, qclass, qname, rcode, rcount, rname, rtype, rclass, rttl, rdata, policy ) VALUES (  %ld, '%q', %d, '%q', '%q', '%q', '%q', %d, '%q', '%q', '%q', %ld, '%q', '%q'  )".

Definition SQL_CREATE_INDEX : list byte := bs
"CREATE INDEX IF NOT EXISTS logs_ts_idx      ON  logs(ts);CREATE INDEX IF NOT EXISTS logs_querier_idx ON  logs(querier);CREATE INDEX IF NOT EXISTS logs_qname_idx   ON  logs(qname);CREATE INDEX IF NOT EXISTS logs_policy_idx  ON logs(policy);".

(** An argument of [sqlite3_mprintf]: an [int] or a string. *)
Inductive sqlarg := AInt (z : Z) | AStr (s : list byte).

(** The columns of a row of table [logs], in the order of the format. *)
Record row := {
  c_ts : Z; c_from : list byte; c_msgid : Z;
  c_qtype : list byte; c_qclass : list byte; c_qname : list byte;
  c_rcode : list byte; c_rcount : Z;
  c_rname : list byte; c_rtype : list byte; c_rclass : list byte; c_rttl : Z;
  c_rdata : list byte; c_policy : list byte;
}.

(** The arguments [prepare_sql()] passes after the format. *)
Definition insert_args (r : row) : list sqlarg := [
  AInt (c_ts r); AStr (c_from r); AInt (c_msgid r);
  AStr (c_qtype r); AStr (c_qclass r); AStr (c_qname r); AStr (c_rcode r); AInt (c_rcount r);
  AStr (c_rname r); AStr (c_rtype r); AStr (c_rclass r); AInt (c_rttl r);
  AStr (c_rdata r); AStr (c_policy r)].

(** ** What SQLite documents of the conversions

    [%q] doubles every single quote; [%d] and [%ld] print a decimal number.  [%ld] reads a
    [long]: given an [int] its output is only relied on when that is not negative. *)

Definition QUOTE : byte := x27.

Fixpoint quote (s : list byte) : list byte :=
  match s with
  | [] => []
  | b :: s => if Byte.eqb b QUOTE then QUOTE :: QUOTE :: quote s else b :: quote s
  end.

Inductive piece := Lit (s : list byte) | ConvD | ConvLD | ConvQ.

(** A format as literal text and conversions. *)
Fixpoint pieces (fmt lit : list byte) : list piece :=
  match fmt with
  | x25 :: x6c :: x64 :: fmt => Lit (rev lit) :: ConvLD :: pieces fmt []   (* %ld *)
  | x25 :: x64 :: fmt => Lit (rev lit) :: ConvD :: pieces fmt []           (* %d *)
  | x25 :: x71 :: fmt => Lit (rev lit) :: ConvQ :: pieces fmt []           (* %q *)
  | b :: fmt => pieces fmt (b :: lit)
  | [] => [Lit (rev lit)]
  end.

Fixpoint render_pieces (ps : list piece) (args : list sqlarg) : option (list byte) :=
  match ps, args with
  | [], [] => Some []
  | Lit s :: ps, args => (s ++.) <$> render_pieces ps args
  | ConvD :: ps, AInt z :: args => (dec z ++.) <$> render_pieces ps args
  | ConvLD :: ps, AInt z :: args =>
      if (0 <=? z)%Z then (dec z ++.) <$> render_pieces ps args else None
  | ConvQ :: ps, AStr s :: args => (quote s ++.) <$> render_pieces ps args
  | _, _ => None
  end.

(** The output of a format, where the documentation determines it. *)
Definition render (fmt : list byte) (args : list sqlarg) : option (list byte) :=
  render_pieces (pieces fmt []) args.

(** ** Reading an INSERT statement back *)

(** The rest of a string literal whose opening quote has been read. *)
Fixpoint read_lit (s : list byte) : option (list byte * list byte) :=
  match s with
  | [] => None
  | b :: s =>
      if Byte.eqb b QUOTE then
        match s with
        | b' :: s' =>
            if Byte.eqb b' QUOTE then (λ r, (QUOTE :: r.1, r.2)) <$> read_lit s' else Some ([], s)
        | [] => Some ([], [])
        end
      else (λ r, (b :: r.1, r.2)) <$> read_lit s
  end.

(** The digits at the start of a string, and the rest. *)
Fixpoint span_digits (s : list byte) : list byte * list byte :=
  match s with
  | b :: s' => if isdigit b then let '(d, r) := span_digits s' in (b :: d, r) else ([], s)
  | [] => ([], [])
  end.

Definition read_value (s : list byte) : option (sqlarg * list byte) :=
  match s with
  | x27 :: s => (λ r, (AStr r.1, r.2)) <$> read_lit s
  | x2d :: s =>
      let '(d, r) := span_digits s in
      if d is [] then None else Some (AInt (- read_digits d 0), r)
  | _ =>
      let '(d, r) := span_digits s in
      if d is [] then None else Some (AInt (read_digits d 0), r)
  end.

(** Values separated by ", ", up to the closing "  )". *)
Fixpoint read_values (fuel : nat) (s : list byte) : option (list sqlarg) :=
  match fuel with
  | O => None
  | S fuel =>
      '(v, s) ← read_value s;
      match s with
      | x2c :: x20 :: s => (v ::.) <$> read_values fuel s
      | [x20; x20; x29] => Some [v]
      | _ => None
      end
  end.

(** What follows a given prefix. *)
Fixpoint strip (p s : list byte) : option (list byte) :=
  match p, s with
  | [], _ => Some s
  | b :: p, b' :: s => if Byte.eqb b b' then strip p s else None
  | _ :: _, [] => None
  end.

(** Column names separated by ", ", up to " ) VALUES (  "; [acc] is the name being read,
    reversed. *)
Fixpoint read_columns (s acc : list byte) : option (list (list byte) * list byte) :=
  match strip (bs " ) VALUES (  ") s with
  | Some rest => Some ([rev acc], rest)
  | None =>
      match s with
      | x2c :: x20 :: s => (λ r, (rev acc :: r.1, r.2)) <$> read_columns s []
      | b :: s => read_columns s (b :: acc)
      | [] => None
      end
  end.

(** SQLite's reading of an INSERT into [logs]: the value the statement gives each column
    it names. *)
Definition read_insert (sql : list byte) : option (list (list byte * sqlarg)) :=
  rest ← strip (bs "INSERT INTO logs (  ") sql;
  '(names, rest) ← read_columns rest [];
  values ← read_values (length rest) rest;
  if (length names =? length values)%nat then Some (zip names values) else None.

(** ** Lemmas *)

Lemma read_lit_quote s rest :
  (∀ r, rest ≠ QUOTE :: r) → read_lit (quote s ++ QUOTE :: rest) = Some (s, rest).
Proof.
  intros Hr. induction s as [|b s IH]; simpl.
  - destruct rest as [|b r]; [done|]. destruct (Byte.eqb b QUOTE) eqn:E; [|done].
    apply Byte.byte_dec_bl in E as ->. by destruct (Hr r).
  - destruct (Byte.eqb b QUOTE) eqn:E.
    + apply Byte.byte_dec_bl in E as ->. simpl. by rewrite IH.
    + simpl. by rewrite E, IH.
Qed.

Lemma span_digits_app d rest :
  Forall (λ b, isdigit b = true) d → (∀ b r, rest = b :: r → isdigit b = false) →
  span_digits (d ++ rest) = (d, rest).
Proof.
  intros Hd Hr. induction Hd as [|b d Hb Hd IH]; simpl.
  - destruct rest as [|b r]; [done|]. simpl. by rewrite (Hr b r).
  - by rewrite Hb, IH.
Qed.

(** A value as the format prints it. *)
Definition print_value (v : sqlarg) : list byte :=
  match v with AInt z => dec z | AStr s => QUOTE :: quote s ++ [QUOTE] end.

(** A value that can be printed: [int]s have their range. *)
Definition printable (v : sqlarg) : Prop :=
  match v with AInt z => (- 2 ^ 31 ≤ z < 2 ^ 31)%Z | AStr _ => True end.

Lemma read_value_print v rest :
  printable v → (∀ b r, rest = b :: r → isdigit b = false ∧ b ≠ QUOTE) →
  read_value (print_value v ++ rest) = Some (v, rest).
Proof.
  intros Hv Hr. destruct v as [z|s]; simpl in *.
  - assert (∀ n, (0 ≤ n < 2 ^ 31 + 1)%Z → ∃ b d, udec n = b :: d ∧ isdigit b = true ∧
      span_digits (udec n ++ rest) = (udec n, rest) ∧ read_digits (udec n) 0 = n) as Hn.
    { intros n Hn. destruct (udec_cons n) as (b & d & E & Hb); [lia|]. exists b, d.
      split_and!; [done|done| |by apply read_udec_loop; lia].
      apply span_digits_app; [by apply udec_digits; lia|]. intros b' r Er. by apply (Hr b' r). }
    unfold dec. destruct (Z.ltb_spec z 0) as [Hz|Hz].
    + destruct (Hn (- z)%Z) as (b & d & E & Hb & Hsp & Hrd); [lia|].
      simpl. rewrite Hsp. rewrite E in *. rewrite Hrd. do 3 f_equal. lia.
    + destruct (Hn z) as (b & d & E & Hb & Hsp & Hrd); [lia|]. rewrite E in *.
      unfold read_value. cbn [app] in *. rewrite Hsp, Hrd. by destruct b.
  - rewrite <- app_assoc. simpl. rewrite read_lit_quote; [done|].
    intros r Er. by destruct (Hr _ _ Er).
Qed.

(** Values as the statement lists them. *)
Fixpoint print_values (vs : list sqlarg) : list byte :=
  match vs with
  | [] => []
  | [v] => print_value v
  | v :: vs => print_value v ++ bs ", " ++ print_values vs
  end.

Lemma read_values_print vs fuel :
  vs ≠ [] → Forall printable vs → length vs ≤ fuel →
  read_values fuel (print_values vs ++ bs "  )") = Some vs.
Proof.
  revert fuel; induction vs as [|v [|v' vs] IH]; intros fuel Hne Hp Hf; [done|..];
    destruct fuel as [|fuel]; simpl in Hf; try lia;
    apply Forall_cons in Hp as [Hv Hp]; cbn [print_values read_values].
  - rewrite read_value_print; [done|done|]. by intros b r [= <- _].
  - rewrite <- app_assoc, read_value_print; [|done|by intros b r [= <- _]].
    cbn [mbind option_bind]. rewrite <- app_assoc. cbn [app bs]. simpl.
    rewrite IH; [done|done|done|]. simpl. lia.
Qed.

(** A row [prepare_sql] can pass: its columns are [int]s, and the two printed with [%ld]
    are not negative. *)
Record row_ok (r : row) : Prop := {
  ok_ts : (0 ≤ c_ts r < 2 ^ 31)%Z;
  ok_msgid : (- 2 ^ 31 ≤ c_msgid r < 2 ^ 31)%Z;
  ok_rcount : (- 2 ^ 31 ≤ c_rcount r < 2 ^ 31)%Z;
  ok_rttl : (0 ≤ c_rttl r < 2 ^ 31)%Z;
}.

Definition INSERT_HEAD : list byte := bs
"INSERT INTO logs (  ts, querier, id, qtype, qclass, qname, rcode, rcount, rname, rtype, rclass, rttl, rdata, policy ) VALUES (  ".

Lemma insert_pieces : pieces SQL_INSERT [] = [
  Lit INSERT_HEAD; ConvLD; Lit (bs ", '"); ConvQ; Lit (bs "', "); ConvD; Lit (bs ", '"); ConvQ;
  Lit (bs "', '"); ConvQ; Lit (bs "', '"); ConvQ; Lit (bs "', '"); ConvQ; Lit (bs "', "); ConvD;
  Lit (bs ", '"); ConvQ; Lit (bs "', '"); ConvQ; Lit (bs "', '"); ConvQ; Lit (bs "', "); ConvLD;
  Lit (bs ", '"); ConvQ; Lit (bs "', '"); ConvQ; Lit (bs "'  )")].
Proof. by vm_compute. Qed.

(** The format lists the values in the order of the arguments. *)
Lemma render_insert r :
  row_ok r →
  render SQL_INSERT (insert_args r) = Some (INSERT_HEAD ++ print_values (insert_args r) ++ bs "  )").
Proof.
  intros [Hts _ _ Httl]. unfold render. rewrite insert_pieces.
  unfold insert_args. cbn [render_pieces].
  rewrite (proj2 (Z.leb_le 0 (c_ts r))), (proj2 (Z.leb_le 0 (c_rttl r))) by lia.
  cbn [fmap option_fmap option_map print_values print_value]. f_equal.
  rewrite ?app_comm_cons, <- ?app_assoc. reflexivity.
Qed.

(** Every statement begins alike. *)
Lemma render_head args sql :
  render SQL_INSERT args = Some sql → INSERT_HEAD `prefix_of` sql.
Proof.
  unfold render. rewrite insert_pieces. cbn [render_pieces].
  intros (out & _ & ->)%fmap_Some_1. by eexists.
Qed.

(** The columns the format names. *)
Definition insert_columns : list (list byte) := bs <$>
  ["ts"; "querier"; "id"; "qtype"; "qclass"; "qname"; "rcode"; "rcount"; "rname"; "rtype";
   "rclass"; "rttl"; "rdata"; "policy"].

Lemma read_insert_head vs rest :
  read_values (length rest) rest = Some vs → length vs = 14 →
  read_insert (INSERT_HEAD ++ rest) = Some (zip insert_columns vs).
Proof.
  intros Hv Hl. unfold read_insert.
  assert (strip (bs "INSERT INTO logs (  ") (INSERT_HEAD ++ rest) =
    Some (drop 20 INSERT_HEAD ++ rest)) as -> by reflexivity.
  cbn [mbind option_bind].
  assert (read_columns (drop 20 INSERT_HEAD ++ rest) [] = Some (insert_columns, rest)) as ->
    by reflexivity.
  cbn [mbind option_bind]. rewrite Hv. cbn [mbind option_bind]. by rewrite Hl.
Qed.

(** What the columns of the table mean, by name: the row a statement has to store. *)
Definition row_values (r : row) : list (list byte * sqlarg) := [
  (bs "ts", AInt (c_ts r));           (* the message's timestamp *)
  (bs "querier", AStr (c_from r));    (* the client's address *)
  (bs "id", AInt (c_msgid r));        (* the DNS message id *)
  (bs "qtype", AStr (c_qtype r));     (* the question *)
  (bs "qclass", AStr (c_qclass r));
  (bs "qname", AStr (c_qname r));
  (bs "rcode", AStr (c_rcode r));     (* the response *)
  (bs "rcount", AInt (c_rcount r));
  (bs "rname", AStr (c_rname r));     (* one of its records *)
  (bs "rtype", AStr (c_rtype r));
  (bs "rclass", AStr (c_rclass r));
  (bs "rttl", AInt (c_rttl r));
  (bs "rdata", AStr (c_rdata r));
  (bs "policy", AStr (c_policy r))].  (* the policy applied *)

Lemma insert_reads_back r :
  row_ok r → ∃ sql, render SQL_INSERT (insert_args r) = Some sql ∧
    read_insert sql = Some (row_values r).
Proof.
  intros Hr. rewrite (render_insert _ Hr). eexists. split; [done|].
  rewrite (read_insert_head (insert_args r)); [done| |done].
  apply read_values_print; [done|..].
  - destruct Hr. repeat apply Forall_cons_2; simpl; try lia; done || constructor.
  - rewrite length_app, Nat.add_comm. transitivity (length (print_values (insert_args r))); [|lia].
    cbn [insert_args print_values print_value length]. rewrite !length_app. simpl.
    rewrite !length_app. simpl. lia.
Qed.

(** C13: The INSERT statement stores exactly the row it was built from.  Take any row whose
    timestamp and TTL are not negative as [int]s (they are printed with [%ld], whose output
    for a negative [int] nothing determines; the other numbers are any [int]s) and whose
    names, policy and record data are any bytes at all.  Reading the statement back, column
    list and VALUES list, quotes undoubled, gives every column of the table by name the
    value of the row's field for it.  So no such string ends its literal early: it cannot
    inject SQL. *)
Theorem insert_roundtrip r :
  row_ok r → ∃ sql, render SQL_INSERT (insert_args r) = Some sql ∧
    read_insert sql = Some (row_values r).
Proof. apply insert_reads_back. Qed.

(** A name that tries to close its literal and end the statement. *)
Definition demo_row : row := {|
  c_ts := 1500000000; c_from := bs "10.0.0.2"; c_msgid := -1; c_qtype := bs "A";
  c_qclass := bs "IN"; c_qname := bs "x'); DROP TABLE logs; --"; c_rcode := bs "NOERROR";
  c_rcount := 1; c_rname := bs "''"; c_rtype := []; c_rclass := []; c_rttl := 60;
  c_rdata := bs "1.0.0.1"; c_policy := bs "rpz" |}.

Lemma insert_roundtrip_witness :
  row_ok demo_row ∧ ∃ sql, render SQL_INSERT (insert_args demo_row) = Some sql ∧
    read_insert sql = Some (row_values demo_row).
Proof.
  assert (row_ok demo_row) as H by (by split). split; [exact H|].
  exact (insert_roundtrip demo_row H).
Defined.
