(* ===== verification/Sqlite.v ===== *)
(** * The sqlite backend: src/pdns-logger-sqlite.c

    Settings, the database connection with its batching of commits, the background thread
    that executes the statements queued by the loggers, and the four operations of
    [sqlite_engine].  SQLite itself is a library: its functions are the operations of a
    class, and what it documents of the program's statements, on success and on failure, is
    a second class.  That a call succeeds is never assumed; where a theorem needs it, the
    condition is on the results recorded in the run.  The queue is used through the
    interface [Mailbox]. *)

From S2P Require Import Prelude CLib Common Dns Message Ini Fifo LogLine Sql.

Definition SQLITE_OK : Z := 0.

(** The functions of SQLite the program calls, on the state of the library and of the
    database file. *)
Class Sqlite := {
  DB : Type;
  sqlite3_open_v2 : list byte → DB → Z * DB;
  sqlite3_exec : list byte → DB → Z * DB;
  sqlite3_get_autocommit : DB → bool;
  sqlite3_close : DB → DB;
  sqlite3_mprintf : list byte → list sqlarg → cstring;
}.

(** The statements the program executes: the INSERTs built from a row whose printed form the
    documentation of [sqlite3_mprintf] determines, the schema, and the transaction control. *)
Definition is_insert (sql : list byte) : Prop :=
  ∃ r : row, render SQL_INSERT (insert_args r) = Some sql.
Definition is_create (sql : list byte) : Prop :=
  sql = SQL_CREATE_TABLE ∨ sql = SQL_CREATE_INDEX.
Definition is_control (sql : list byte) : Prop := sql ∈ [bs "BEGIN"; bs "COMMIT"].

(** Documented behaviour of SQLite on these statements.  [durable] are the INSERTs whose
    effect is committed, to whichever file was open, [pending] those of the open
    transaction, if there is one.  Any call may fail: a failing statement has no effect of
    its own, and either leaves the transaction as it is or rolls it back. *)
Class SqliteLaws `{Sqlite} := {
  durable : DB → list (list byte);
  pending : DB → option (list (list byte));
  begin_law d d' : sqlite3_exec (bs "BEGIN") d = (0%Z, d') →
    pending d = None ∧ durable d' = durable d ∧ pending d' = Some [];
  commit_law d d' : sqlite3_exec (bs "COMMIT") d = (0%Z, d') →
    durable d' = durable d ++ default [] (pending d) ∧ pending d' = None;
  insert_law sql d d' : is_insert sql → sqlite3_exec sql d = (0%Z, d') →
    match pending d with
    | None => durable d' = durable d ++ [sql] ∧ pending d' = None
    | Some p => durable d' = durable d ∧ pending d' = Some (p ++ [sql])
    end;
  create_law sql d d' : is_create sql → sqlite3_exec sql d = (0%Z, d') →
    durable d' = durable d ∧ pending d' = pending d;
  error_law sql d e d' : is_insert sql ∨ is_create sql ∨ is_control sql →
    sqlite3_exec sql d = (e, d') → e ≠ 0%Z →
    durable d' = durable d ∧ (pending d' = pending d ∨ pending d' = None);
  close_law d : durable (sqlite3_close d) = durable d ∧ pending (sqlite3_close d) = None;
  open_law f d e d' : sqlite3_open_v2 f d = (e, d') → pending d = None →
    durable d' = durable d ∧ pending d' = None;
  mprintf_law fmt args out : render fmt args = Some out →
    sqlite3_mprintf fmt args = Some out ∨ sqlite3_mprintf fmt args = None;   (* no memory *)
}.

Section sqlite.
Context `{Build, Sqlite} {Q : Type} `{!Mailbox Q (list byte)}.

(** The static variables.  [db] tells whether the pointer is set, [bgthread] whether the
    thread has been created; [sq] is SQLite's state. *)
Record sqlite_t := {
  dbfile : cstring;
  db : bool;
  rewrites_only : bool;
  fifo : option Q;
  bgthread : bool;
  bgrunning : bool;
  disabled : bool;
  autocommit : bool;
  counter : Z;
  sq : DB;
}.

Definition sqlite_statics (d : DB) : sqlite_t := {|
  dbfile := None; db := false; rewrites_only := true; fifo := None; bgthread := false;
  bgrunning := false; disabled := false; autocommit := true; counter := 0; sq := d |}.

Definition set_dbfile (f : cstring) (s : sqlite_t) : sqlite_t := {|
  dbfile := f; db := db s; rewrites_only := rewrites_only s; fifo := fifo s;
  bgthread := bgthread s; bgrunning := bgrunning s; disabled := disabled s;
  autocommit := autocommit s; counter := counter s; sq := sq s |}.
Definition set_flags (ro dis ac : bool) (s : sqlite_t) : sqlite_t := {|
  dbfile := dbfile s; db := db s; rewrites_only := ro; fifo := fifo s;
  bgthread := bgthread s; bgrunning := bgrunning s; disabled := dis;
  autocommit := ac; counter := counter s; sq := sq s |}.
Definition set_db (b : bool) (d : DB) (s : sqlite_t) : sqlite_t := {|
  dbfile := dbfile s; db := b; rewrites_only := rewrites_only s; fifo := fifo s;
  bgthread := bgthread s; bgrunning := bgrunning s; disabled := disabled s;
  autocommit := autocommit s; counter := counter s; sq := d |}.
Definition set_fifo (q : option Q) (s : sqlite_t) : sqlite_t := {|
  dbfile := dbfile s; db := db s; rewrites_only := rewrites_only s; fifo := q;
  bgthread := bgthread s; bgrunning := bgrunning s; disabled := disabled s;
  autocommit := autocommit s; counter := counter s; sq := sq s |}.
Definition set_thread (created running : bool) (s : sqlite_t) : sqlite_t := {|
  dbfile := dbfile s; db := db s; rewrites_only := rewrites_only s; fifo := fifo s;
  bgthread := created; bgrunning := running; disabled := disabled s;
  autocommit := autocommit s; counter := counter s; sq := sq s |}.
Definition set_counter (c : Z) (s : sqlite_t) : sqlite_t := {|
  dbfile := dbfile s; db := db s; rewrites_only := rewrites_only s; fifo := fifo s;
  bgthread := bgthread s; bgrunning := bgrunning s; disabled := disabled s;
  autocommit := autocommit s; counter := c; sq := sq s |}.

(** *** The database *)

(** [db_flush], given the [db_exec] it calls. *)
Definition db_flush_with (exec : list byte → sqlite_t → outcome (pdns_status * sqlite_t))
    (s : sqlite_t) : outcome (pdns_status * sqlite_t) :=
  if autocommit s then mret (PDNS_OK, s)
  else
    s ← (if negb (sqlite3_get_autocommit (sq s))
         then snd <$> exec (bs "COMMIT") s else mret s);
    s ← snd <$> exec (bs "BEGIN") s;
    mret (PDNS_OK, s).

(** [db_exec] and [db_flush] call each other; [fuel] bounds the depth. *)
Fixpoint db_exec_fuel (fuel : nat) (sql : list byte) (s : sqlite_t) :
    outcome (pdns_status * sqlite_t) :=
  match fuel with
  | O => Fault OutOfFuel
  | S fuel =>
      let s := set_counter (counter s + 1) s in
      let '(res, d) := sqlite3_exec sql (sq s) in
      let s := set_db (db s) d s in
      if negb (res =? 0)%Z then mret (PDNS_NO, s)
      else
        s ← (if (50 <=? counter s)%Z
             then snd <$> db_flush_with (db_exec_fuel fuel) (set_counter 0 s) else mret s);
        mret (PDNS_OK, s)
  end.

(** The counter is reset before the nested calls, so that depth two is enough. *)
Definition db_exec : list byte → sqlite_t → outcome (pdns_status * sqlite_t) := db_exec_fuel 2.

Definition db_flush : sqlite_t → outcome (pdns_status * sqlite_t) := db_flush_with db_exec.

Definition db_open (file : list byte) (s : sqlite_t) : outcome (pdns_status * sqlite_t) :=
  let '(err, d) := sqlite3_open_v2 file (sq s) in
  let s := set_db true d s in
  if negb (err =? SQLITE_OK)%Z then mret (PDNS_NO, s)
  else
    '(_, s) ← db_exec SQL_CREATE_TABLE s;
    '(_, s) ← db_exec SQL_CREATE_INDEX s;
    '(_, s) ← db_flush s;
    mret (PDNS_OK, s).

(** The pointer [db] keeps its value. *)
Definition db_close (s : sqlite_t) : outcome (pdns_status * sqlite_t) :=
  mret (PDNS_OK, set_db (db s) (sqlite3_close (sq s)) s).

(** *** The background thread *)

(** One turn of the loop of [bg_thread_exec]. *)
Definition bg_iteration (s : sqlite_t) : outcome sqlite_t :=
  '(sql, s) ← match fifo s with
              | None => mret (None, s)
              | Some q => '(sql, q) ← mb_get q; mret (sql, set_fifo (Some q) s)
              end;
  match sql with
  | Some sql => snd <$> db_exec sql s
  | None => mret s
  end.

(** [bg_thread_stop]: the flag is cleared and the thread joined.  [last] tells whether
    the thread had already tested the flag, and runs its loop body once more. *)
Definition bg_thread_stop (last : bool) (s : sqlite_t) : outcome sqlite_t :=
  let s := set_thread (bgthread s) false s in
  if bgthread s then if last then bg_iteration s else mret s
  else Fault BadThreadHandle.

Definition bg_thread_start (s : sqlite_t) : outcome (pdns_status * sqlite_t) :=
  mret (PDNS_OK, set_thread true (bgrunning s) s).

(** The first statement of [bg_thread_exec]. *)
Definition bg_thread_begin (s : sqlite_t) : sqlite_t := set_thread (bgthread s) true s.

(** *** The engine *)

Definition opt_handler : ini_handler sqlite_t := λ section name value lineno s,
  if zstr (Some section) || zstr (Some name) || zstr (Some value) then (true, s)
  else if opt_is section "sqlite3" then
    if opt_is name "dbfile" then (true, set_dbfile (Some value) s)
    else if opt_is name "only-rewrites"
    then (true, set_flags (opt_flag value) (disabled s) (autocommit s) s)
    else if opt_is name "disabled"
    then (true, set_flags (rewrites_only s) (opt_flag value) (autocommit s) s)
    else if opt_is name "autocommit"
    then (true, set_flags (rewrites_only s) (disabled s) (opt_flag value) s)
    else (true, s)
  else (true, s).

Definition logsqlite_init (files : list byte → option (list byte)) (inifile : cstring)
    (s : sqlite_t) : outcome (pdns_status * sqlite_t) :=
  match inifile with
  | None | Some [] => mret (PDNS_NO, s)
  | Some path =>
      let '(r, s) := ini_parse opt_handler (files path) s in
      if negb (r =? 0)%Z then mret (PDNS_NO, s)
      else if disabled s then mret (PDNS_OK, s)
      else
        match dbfile s with
        | None | Some [] => mret (PDNS_NO, s)
        | Some name =>
            let s := set_fifo (Some mb_empty) s in
            '(_, s) ← bg_thread_start s;
            db_open name s
        end
  end.

(** The queue's lock is taken and released around the two calls; the background thread
    does not hold it while it uses the database. *)
Definition logsqlite_rotate (s : sqlite_t) : outcome (pdns_status * sqlite_t) :=
  if db s then
    '(_, s) ← db_close s;
    match dbfile s with
    | None => Fault NullDereference
    | Some name => '(_, s) ← db_open name s; mret (PDNS_OK, s)
    end
  else mret (PDNS_OK, s).

Definition logsqlite_stop (last : bool) (s : sqlite_t) : outcome (pdns_status * sqlite_t) :=
  s ← bg_thread_stop last s; db_close s.

(** *** Logging a message *)

(** The local variables of [logsqlite_log] that the loop over the records sets. *)
Record columns := {
  rname : cstring; rtype : cstring; rclass : cstring; rttl : Z; rdata : cptr;
}.
Definition columns_init : columns := {|
  rname := None; rtype := None; rclass := None; rttl := 0; rdata := None |}.

(** The others. *)
Record header := {
  ts : Z; from : list byte; msgid : Z; qtype : cstring; qclass : cstring; qname : cstring;
  rcode : cstring; rcount : Z; policy : cstring;
}.

(** The assignments before the loop. *)
Definition log_header (msg : PBDNSMessage) (r : PBDNSMessage__DNSResponse) : outcome header :=
  from ← (if m_has_from msg then
            if (bin_len (m_from msg) =? 4)%Z then inet_ntop AF_INET (bin_data (m_from msg))
            else if (bin_len (m_from msg) =? 16)%Z then inet_ntop AF_INET6 (bin_data (m_from msg))
            else mret []
          else mret []);
  mret {|
    ts := if m_has_timesec msg then s32 (m_timesec msg) else 0;
    from := from;
    msgid := if m_has_id msg then s32 (m_id msg) else 0;
    qtype := q ← m_question msg; if q_has_qtype q then pdns_logger_type2p (q_qtype q) else None;
    qclass := q ← m_question msg;
              if q_has_qclass q then pdns_logger_class2p (q_qclass q) else None;
    qname := q ← m_question msg; q_qname q;
    rcode := if r_has_rcode r then pdns_logger_rcode2p (r_rcode r) else None;
    rcount := s32 (Z.of_nat (length (r_rrs r)));
    policy := if negb (zstr (r_appliedpolicy r)) then r_appliedpolicy r else None |}.

(** The assignments of one turn of the loop: a variable whose field is absent from the
    record keeps the value of the turn before. *)
Definition log_columns (rr : PBDNSMessage__DNSResponse__DNSRR) (c : columns) : outcome columns :=
  rdata ← (if rr_has_rdata rr then
             if rr_has_type rr && (rr_type rr =? 1)%Z && (bin_len (rr_rdata rr) =? 4)%Z then
               lit <$> inet_ntop AF_INET (bin_data (rr_rdata rr))
             else if rr_has_type rr && (rr_type rr =? 28)%Z && (bin_len (rr_rdata rr) =? 16)%Z then
               lit <$> inet_ntop AF_INET6 (bin_data (rr_rdata rr))
             else if rr_has_type rr && ((rr_type rr =? 2)%Z || (rr_type rr =? 5)%Z ||
                                        (rr_type rr =? 6)%Z || (rr_type rr =? 15)%Z) then
               mret (bin_data (rr_rdata rr))
             else mret (lit (bs "[Not Supported]"))
           else mret (rdata c));
  mret {|
    rname := rr_name rr;
    rtype := if rr_has_type rr then pdns_logger_type2p (rr_type rr) else rtype c;
    rclass := if rr_has_class rr then pdns_logger_class2p (rr_class rr) else rclass c;
    rttl := if rr_has_ttl rr then s32 (rr_ttl rr) else rttl c;
    rdata := rdata |}.

(** [x ? x : ""] *)
Definition or_empty (x : cstring) : list byte := default [] x.

(** The row [prepare_sql()] passes to [sqlite3_mprintf], which reads [rdata] as a string. *)
Definition make_row (h : header) (c : columns) : outcome row :=
  rd ← match rdata c with None => mret [] | p => read_cstr p end;
  mret {|
    c_ts := ts h; c_from := from h; c_msgid := msgid h; c_qtype := or_empty (qtype h);
    c_qclass := or_empty (qclass h); c_qname := or_empty (qname h);
    c_rcode := or_empty (rcode h); c_rcount := rcount h; c_rname := or_empty (rname c);
    c_rtype := or_empty (rtype c); c_rclass := or_empty (rclass c); c_rttl := rttl c;
    c_rdata := rd; c_policy := or_empty (policy h) |}.

Definition prepare_sql (h : header) (c : columns) : outcome cstring :=
  row ← make_row h c; mret (sqlite3_mprintf SQL_INSERT (insert_args row)).

(** [fifo_push_item(fifo, sql)]: nothing happens when one of the two is null. *)
Definition push_sql (sql : cstring) (s : sqlite_t) : outcome sqlite_t :=
  match fifo s, sql with
  | Some q, Some v => q ← mb_put v q; mret (set_fifo (Some q) s)
  | _, _ => mret s
  end.

Fixpoint log_rrs (h : header) (rrs : list PBDNSMessage__DNSResponse__DNSRR) (c : columns)
    (s : sqlite_t) : outcome sqlite_t :=
  match rrs with
  | [] => mret s
  | rr :: rrs =>
      c ← log_columns rr c;
      sql ← prepare_sql h c;
      s ← push_sql sql s;
      log_rrs h rrs c s
  end.

Definition logsqlite_log (rawpb : option PBDNSMessage) (s : sqlite_t) :
    outcome (pdns_status * sqlite_t) :=
  if disabled s then mret (PDNS_OK, s) else
  match rawpb with
  | None => mret (PDNS_OK, s)
  | Some msg =>
      match m_response msg with
      | None => mret (PDNS_OK, s)
      | Some r =>
          if rewrites_only s && zstr (r_appliedpolicy r) then mret (PDNS_OK, s)
          else
            h ← log_header msg r;
            match r_rrs r with
            | [] => sql ← prepare_sql h columns_init; s ← push_sql sql s; mret (PDNS_OK, s)
            | rrs => s ← log_rrs h rrs columns_init s; mret (PDNS_OK, s)
            end
      end
  end.
End sqlite.
Arguments sqlite_t {_} Q.

(** ** Executing statements *)

Section exec.
Context `{Build, Sqlite} {Q : Type} `{!Mailbox Q (list byte)}.
Implicit Types (s : sqlite_t Q).

(** [s'] differs from [s] at most in the counter and the database. *)
Definition frame s s' : Prop :=
  dbfile s' = dbfile s ∧ db s' = db s ∧ rewrites_only s' = rewrites_only s ∧
  fifo s' = fifo s ∧ bgthread s' = bgthread s ∧ bgrunning s' = bgrunning s ∧
  disabled s' = disabled s ∧ autocommit s' = autocommit s.

#[global] Instance frame_preorder : PreOrder frame.
Proof. split; [by intros s|]. unfold frame. intros s1 s2 s3 ? ?. naive_solver congruence. Qed.

Lemma frame_autocommit s s' : frame s s' → autocommit s' = autocommit s.
Proof. by intros (_ & _ & _ & _ & _ & _ & _ & ?). Qed.

(** [db_exec] without its flush. *)
Definition exec_once (sql : list byte) s : pdns_status * sqlite_t Q :=
  let '(res, d) := sqlite3_exec sql (sq s) in
  (if (res =? 0)%Z then PDNS_OK else PDNS_NO, set_db (db s) d (set_counter (counter s + 1) s)).

(** Below the limit nothing is flushed. *)
Lemma db_exec_small n sql s :
  (counter s + 1 < 50)%Z → db_exec_fuel (S n) sql s = Ok (exec_once sql s).
Proof.
  intros Hc. unfold exec_once. cbn [db_exec_fuel set_counter sq].
  destruct (sqlite3_exec sql (sq s)) as [res d]. cbn [counter set_db set_counter].
  destruct (Z.eqb_spec res 0); simpl; [|done].
  by rewrite (proj2 (Z.leb_gt _ _)) by lia.
Qed.

Lemma exec_once_counter sql s : counter (exec_once sql s).2 = (counter s + 1)%Z.
Proof. unfold exec_once. by destruct (sqlite3_exec sql (sq s)). Qed.

(** The flush nested in [db_exec] does not depend on the fuel. *)
Definition flush_once s : sqlite_t Q :=
  if autocommit s then s
  else
    let s := if negb (sqlite3_get_autocommit (sq s)) then (exec_once (bs "COMMIT") s).2 else s in
    (exec_once (bs "BEGIN") s).2.

Lemma db_flush_small n s :
  counter s = 0%Z → db_flush_with (db_exec_fuel (S n)) s = Ok (PDNS_OK, flush_once s).
Proof.
  intros Hc. unfold db_flush_with, flush_once. destruct (autocommit s); [done|].
  destruct (negb _).
  - rewrite db_exec_small by lia. cbn [fmap outcome_fmap mbind outcome_bind].
    rewrite db_exec_small by (rewrite exec_once_counter; lia). done.
  - cbn [mbind outcome_bind mret outcome_ret]. rewrite db_exec_small by lia. done.
Qed.

(** [db_exec], without recursion. *)
Definition exec_spec (sql : list byte) s : pdns_status * sqlite_t Q :=
  let '(st, s') := exec_once sql s in
  (st, if bool_decide (st = PDNS_OK) && (50 <=? counter s')%Z
       then flush_once (set_counter 0 s') else s').

Lemma db_exec_fuel_S n sql s :
  db_exec_fuel (S n) sql s =
    let s := set_counter (counter s + 1) s in
    let '(res, d) := sqlite3_exec sql (sq s) in
    let s := set_db (db s) d s in
    if negb (res =? 0)%Z then mret (PDNS_NO, s)
    else
      s ← (if (50 <=? counter s)%Z
           then snd <$> db_flush_with (db_exec_fuel n) (set_counter 0 s) else mret s);
      mret (PDNS_OK, s).
Proof. done. Qed.

Lemma db_exec_fuel_spec n sql s : db_exec_fuel (S (S n)) sql s = Ok (exec_spec sql s).
Proof.
  rewrite db_exec_fuel_S. unfold exec_spec, exec_once. cbv zeta. cbn [sq set_counter].
  destruct (sqlite3_exec sql (sq s)) as [res d]. cbn [db set_counter].
  destruct (Z.eqb_spec res 0); cbn [negb]; [|done].
  rewrite bool_decide_true by done. cbn [andb].
  destruct (50 <=? _)%Z; [|done]. by rewrite db_flush_small.
Qed.

Lemma db_exec_is_spec sql s : db_exec sql s = Ok (exec_spec sql s).
Proof. apply (db_exec_fuel_spec 0). Qed.

Lemma exec_once_frame sql s : frame s (exec_once sql s).2.
Proof. unfold exec_once. by destruct (sqlite3_exec sql (sq s)). Qed.

Lemma exec_spec_frame sql s : frame s (exec_spec sql s).2.
Proof.
  unfold exec_spec. pose proof (exec_once_frame sql s) as Hf.
  destruct (exec_once sql s) as [st s1]. cbn [snd] in *. destruct (_ && _); [|done].
  etrans; [exact Hf|]. unfold flush_once. destruct (autocommit _); [done|].
  transitivity (set_counter 0 s1); [done|]. destruct (negb _); [|apply exec_once_frame].
  etrans; apply exec_once_frame.
Qed.

(** Opening the database, whatever SQLite answers, changes no setting. *)
Lemma db_open_frame file s st s' : db_open file s = Ok (st, s') → frame (set_db true (sq s) s) s'.
Proof.
  unfold db_open, db_flush, db_flush_with. destruct (sqlite3_open_v2 file (sq s)) as [e d].
  set (s0 := set_db true d s). assert (frame (set_db true (sq s) s) s0) as Hf0 by (by repeat split).
  destruct (negb _); [by intros [= _ <-]|]. rewrite !db_exec_is_spec.
  cbn [mbind outcome_bind]. pose proof (exec_spec_frame SQL_CREATE_TABLE s0) as Hf1.
  destruct (exec_spec SQL_CREATE_TABLE s0) as [? s1]. rewrite db_exec_is_spec.
  pose proof (exec_spec_frame SQL_CREATE_INDEX s1) as Hf2. cbn [mbind outcome_bind] in *.
  destruct (exec_spec SQL_CREATE_INDEX s1) as [? s2]. cbn [snd] in *.
  assert (frame (set_db true (sq s) s) s2) as Hf3 by (etrans; [exact Hf0|]; by etrans).
  destruct (autocommit s2); [by intros [= _ <-]|].
  destruct (negb _); rewrite ?db_exec_is_spec;
    cbn [mbind outcome_bind fmap outcome_fmap mret outcome_ret]; rewrite ?db_exec_is_spec;
    cbn [mbind outcome_bind fmap outcome_fmap mret outcome_ret]; intros [= _ <-].
  - etrans; [|apply exec_spec_frame]. etrans; [exact Hf3|apply exec_spec_frame].
  - etrans; [exact Hf3|apply exec_spec_frame].
Qed.

(** Executing statements one after the other, their status ignored, as the background
    thread does. *)
Definition exec_all (sqls : list (list byte)) s : outcome (sqlite_t Q) :=
  foldM (λ sql s, snd <$> db_exec sql s) sqls s.

Lemma exec_all_cons sql sqls s : exec_all (sql :: sqls) s = exec_all sqls (exec_spec sql s).2.
Proof. unfold exec_all. cbn [foldM]. by rewrite db_exec_is_spec. Qed.

(** The queue plays no part in it. *)
Lemma exec_once_fifo q sql s :
  exec_once sql (set_fifo q s) = ((exec_once sql s).1, set_fifo q (exec_once sql s).2).
Proof. unfold exec_once. simpl. by destruct (sqlite3_exec sql (sq s)). Qed.

Lemma flush_once_fifo q s : flush_once (set_fifo q s) = set_fifo q (flush_once s).
Proof.
  unfold flush_once. simpl. destruct (autocommit s); [done|].
  destruct (negb _); rewrite ?exec_once_fifo; simpl; by rewrite ?exec_once_fifo.
Qed.

Lemma exec_spec_fifo q sql s : (exec_spec sql (set_fifo q s)).2 = set_fifo q (exec_spec sql s).2.
Proof.
  unfold exec_spec. rewrite exec_once_fifo. destruct (exec_once sql s) as [st s']. simpl.
  destruct (_ && _); [|done]. by rewrite <- flush_once_fifo.
Qed.

(** C35: [db_exec] and [db_flush] call each other, but the recursion ends: the counter is
    reset before the nested calls, so two levels are enough and more make no difference. *)
Theorem db_exec_terminates n sql s :
  ∃ st s', db_exec_fuel (S (S n)) sql s = Ok (st, s') ∧ db_exec sql s = Ok (st, s').
Proof.
  rewrite db_exec_fuel_spec, db_exec_is_spec. destruct (exec_spec sql s) as [st s']. eauto.
Qed.
End exec.

(** ** Watching the calls

    SQLite with a record of the statements given to [sqlite3_exec] and its answers: what a
    theorem says of the calls the program makes is read off a run of the program on it. *)

Definition traced (X : Sqlite) : Sqlite := {|
  DB := @DB X * list (list byte * Z);
  sqlite3_open_v2 := λ f d, let '(e, d') := @sqlite3_open_v2 X f d.1 in (e, (d', d.2));
  sqlite3_exec := λ sql d, let '(e, d') := @sqlite3_exec X sql d.1 in (e, (d', d.2 ++ [(sql, e)]));
  sqlite3_get_autocommit := λ d, @sqlite3_get_autocommit X d.1;
  sqlite3_close := λ d, (@sqlite3_close X d.1, d.2);
  sqlite3_mprintf := @sqlite3_mprintf X |}.

Section tracing.
Context `{Build} (X : Sqlite) {Q : Type} `{!Mailbox Q (list byte)}.

(** The same static variables, on another library. *)
Definition rebase {X Y : Sqlite} (d : @DB Y) (s : @sqlite_t X Q) : @sqlite_t Y Q := {|
  dbfile := dbfile s; db := db s; rewrites_only := rewrites_only s; fifo := fifo s;
  bgthread := bgthread s; bgrunning := bgrunning s; disabled := disabled s;
  autocommit := autocommit s; counter := counter s; sq := d |}.

Definition watch (s : @sqlite_t X Q) : @sqlite_t (traced X) Q :=
  rebase ((sq s, []) : @DB (traced X)) s.
Definition unwatch (s : @sqlite_t (traced X) Q) : @sqlite_t X Q :=
  rebase (fst (sq s : @DB X * list (list byte * Z))) s.

(** The calls of a state. *)
Definition trace (s : @sqlite_t (traced X) Q) : list (list byte * Z) :=
  snd (sq s : @DB X * list (list byte * Z)).

(** The calls of [sqlite3_exec], with their results, while statements are executed. *)
Definition calls (sqls : list (list byte)) (s : @sqlite_t X Q) : list (list byte * Z) :=
  match exec_all (H0 := traced X) sqls (watch s) with Ok s' => trace s' | Fault _ => [] end.

Implicit Types (s : @sqlite_t (traced X) Q).

Lemma unwatch_watch (s : @sqlite_t X Q) : unwatch (watch s) = s.
Proof. by destruct s. Qed.

(** Watching changes nothing. *)
Lemma exec_once_unwatch sql s :
  exec_once sql (unwatch s) = ((exec_once sql s).1, unwatch (exec_once sql s).2).
Proof.
  unfold exec_once. destruct s as [? ? ? ? ? ? ? ? ? [d tr]]. simpl.
  by destruct (@sqlite3_exec X sql d).
Qed.

Lemma flush_once_unwatch s : flush_once (unwatch s) = unwatch (flush_once s).
Proof.
  unfold flush_once. change (autocommit (unwatch s)) with (autocommit s).
  destruct (autocommit s); [done|].
  change (sqlite3_get_autocommit (sq (unwatch s))) with (sqlite3_get_autocommit (sq s)).
  destruct (negb _); rewrite ?exec_once_unwatch; simpl; by rewrite ?exec_once_unwatch.
Qed.

Lemma exec_spec_unwatch sql s : (exec_spec sql (unwatch s)).2 = unwatch (exec_spec sql s).2.
Proof.
  unfold exec_spec. rewrite exec_once_unwatch. destruct (exec_once sql s) as [st s']. simpl.
  destruct (_ && _); [|done]. by rewrite <- flush_once_unwatch.
Qed.
End tracing.
Arguments watch {_ _} _.
Arguments unwatch {_ _} _.
Arguments trace {_ _} _.
Arguments calls {_ _} _ _.

(** ** Batching *)

(** Everything executed on the open database, committed or not. *)
Definition executed `{SqliteLaws} (d : DB) : list (list byte) :=
  durable d ++ default [] (pending d).

(** Fewer than fifty statements are at risk, none with autocommit. *)
Record db_ok `{SqliteLaws} {Q} (s : sqlite_t Q) : Prop := {
  ok_counter : (0 ≤ counter s < 50)%Z;
  ok_pending : (Z.of_nat (length (default [] (pending (sq s)))) ≤ counter s)%Z;
  ok_autocommit : autocommit s = true → pending (sq s) = None;
}.

(** The statements of a list of calls that are not transaction control. *)
Definition inserts (cs : list (list byte * Z)) : list (list byte) :=
  filter (λ sql, sql ∉ [bs "BEGIN"; bs "COMMIT"]) cs.*1.

(** Every call succeeded. *)
Definition succeeded (cs : list (list byte * Z)) : Prop := Forall (λ c, c.2 = 0%Z) cs.

Lemma forallb_succeeded cs : forallb (λ c, c.2 =? 0)%Z cs = true → succeeded cs.
Proof.
  intros Hf. apply List.Forall_forall. intros c Hc. by apply Z.eqb_eq, (proj1 (forallb_forall _ _) Hf).
Qed.

Lemma insert_not_control sql : is_insert sql → sql ∉ [bs "BEGIN"; bs "COMMIT"].
Proof.
  intros [r [out ->]%render_head]. rewrite !elem_of_cons, elem_of_nil. by intros [?|[?|[]]].
Qed.

Lemma inserts_app cs cs' : inserts (cs ++ cs') = inserts cs ++ inserts cs'.
Proof. unfold inserts. by rewrite fmap_app, filter_app. Qed.

Section batching.
Context `{Build} {X : Sqlite} `{!@SqliteLaws X} {Q : Type} `{!Mailbox Q (list byte)}.
Implicit Types (s : @sqlite_t (traced X) Q).
Local Notation dbs s := (sq (unwatch s)).

(** From [s] to [s'] the program has made the calls [cs], which hand SQLite the statements
    [ins]; whatever SQLite answered, what was committed still is, and nothing is in the
    database that was not executed. *)
Record ran (ins : list (list byte)) cs s s' : Prop := {
  ran_frame : frame s s';
  ran_trace : trace s' = trace s ++ cs;
  ran_calls : inserts cs = ins;
  ran_durable : durable (dbs s) `prefix_of` durable (dbs s');
  ran_executed : executed (dbs s') `sublist_of` executed (dbs s) ++ ins;
}.

Lemma ran_trans ins1 ins2 cs1 cs2 s1 s2 s3 :
  ran ins1 cs1 s1 s2 → ran ins2 cs2 s2 s3 → ran (ins1 ++ ins2) (cs1 ++ cs2) s1 s3.
Proof.
  intros [Hf1 Ht1 <- Hd1 He1] [Hf2 Ht2 <- Hd2 He2]. split.
  - by etrans.
  - by rewrite Ht2, Ht1, app_assoc.
  - apply inserts_app.
  - by etrans.
  - etrans; [exact He2|]. rewrite app_assoc. by apply sublist_app.
Qed.

Lemma ran_refl s : ran [] [] s s.
Proof. split; [done|by rewrite app_nil_r|done|done|by rewrite app_nil_r]. Qed.

Lemma ran_counter c s : ran [] [] s (set_counter c s).
Proof. split; [done|by rewrite app_nil_r|done|done|by rewrite app_nil_r]. Qed.

(** One call. *)
Lemma exec_once_trace sql s :
  ∃ e, (exec_once sql s).1 = (if (e =? 0)%Z then PDNS_OK else PDNS_NO) ∧
    @sqlite3_exec X sql (dbs s) = (e, dbs (exec_once sql s).2) ∧
    trace (exec_once sql s).2 = trace s ++ [(sql, e)] ∧
    counter (exec_once sql s).2 = (counter s + 1)%Z.
Proof.
  unfold exec_once. destruct s as [? ? ? ? ? ? ? ? ? [d tr]]. simpl.
  destruct (@sqlite3_exec X sql d) as [e d']. by exists e.
Qed.

Lemma error_executed sql e (d d' : @DB X) :
  is_insert sql ∨ is_create sql ∨ is_control sql →
  @sqlite3_exec X sql d = (e, d') → e ≠ 0%Z →
  durable d' = durable d ∧ executed d' `sublist_of` executed d.
Proof.
  intros Hs He Hne. destruct (error_law _ _ _ _ Hs He Hne) as [Hd Hp]. split; [done|].
  unfold executed. rewrite Hd. apply sublist_app; [done|].
  destruct Hp as [->| ->]; [done|]. simpl. apply sublist_nil_l.
Qed.

Lemma exec_once_insert sql s :
  is_insert sql →
  ∃ e, (exec_once sql s).1 = (if (e =? 0)%Z then PDNS_OK else PDNS_NO) ∧
    ran [sql] [(sql, e)] s (exec_once sql s).2 ∧ counter (exec_once sql s).2 = (counter s + 1)%Z ∧
    (e = 0%Z → executed (dbs (exec_once sql s).2) = executed (dbs s) ++ [sql] ∧
      pending (dbs (exec_once sql s).2) = (λ p, p ++ [sql]) <$> pending (dbs s)).
Proof.
  intros Hi. destruct (exec_once_trace sql s) as (e & Hst & He & Ht & Hc). exists e.
  pose proof (exec_once_frame sql s) as Hf. destruct (exec_once sql s) as [st s']. cbn [fst snd] in *.
  assert (inserts [(sql, e)] = [sql]) as Hins.
  { unfold inserts. simpl. rewrite filter_cons_True; [done|]. by apply insert_not_control. }
  destruct (decide (e = 0%Z)) as [->|Hne].
  - pose proof (insert_law _ _ _ Hi He) as Hl.
    assert (durable (dbs s) `prefix_of` durable (dbs s') ∧
      executed (dbs s') = executed (dbs s) ++ [sql] ∧
      pending (dbs s') = (λ p, p ++ [sql]) <$> pending (dbs s)) as (Hd & Hx & Hp).
    { unfold executed. destruct (pending (dbs s)) as [p|]; destruct Hl as [-> ->]; simpl.
      - by rewrite <- app_assoc.
      - rewrite !app_nil_r. split_and!; [by eexists|done|done]. }
    split_and!; [done| |done|by auto]. split; [done|done|done|done|by rewrite Hx].
  - destruct (error_executed sql e (dbs s) (dbs s')) as [Hd Hx]; [by left|done|done|].
    split_and!; [done| |done|done]. split; [done|done|done|by rewrite Hd|].
    etrans; [exact Hx|]. by apply sublist_inserts_r.
Qed.

(** BEGIN and COMMIT. *)
Lemma exec_once_control sql s :
  is_control sql →
  ∃ e, ran [] [(sql, e)] s (exec_once sql s).2 ∧
    counter (exec_once sql s).2 = (counter s + 1)%Z ∧
    (e = 0%Z → executed (dbs (exec_once sql s).2) = executed (dbs s) ∧
      pending (dbs (exec_once sql s).2) = if bool_decide (sql = bs "BEGIN") then Some [] else None).
Proof.
  intros Hi. destruct (exec_once_trace sql s) as (e & Hst & He & Ht & Hc). exists e.
  pose proof (exec_once_frame sql s) as Hf. destruct (exec_once sql s) as [st s']. cbn [fst snd] in *.
  assert (inserts [(sql, e)] = []) as Hins.
  { unfold inserts. simpl. rewrite filter_cons_False; [done|]. by intros []. }
  destruct (decide (e = 0%Z)) as [->|Hne].
  - assert (durable (dbs s) `prefix_of` durable (dbs s') ∧ executed (dbs s') = executed (dbs s) ∧
      pending (dbs s') = if bool_decide (sql = bs "BEGIN") then Some [] else None) as (Hd & Hx & Hp).
    { unfold is_control in Hi. rewrite !elem_of_cons, elem_of_nil in Hi. unfold executed.
      destruct Hi as [->|[->|[]]].
      - apply begin_law in He as (-> & -> & ->). by split_and!.
      - apply commit_law in He as [-> ->]. rewrite app_nil_r. split_and!; [by eexists|done|done]. }
    split_and!; [|done|done]. split; [done|done|done|done|by rewrite Hx, app_nil_r].
  - destruct (error_executed sql e (dbs s) (dbs s')) as [Hd Hx]; [by do 2 right|done|done|].
    split_and!; [|done|done]. split; [done|done|done|by rewrite Hd|by rewrite app_nil_r].
Qed.

Lemma begin_control : is_control (bs "BEGIN").
Proof. unfold is_control. set_solver. Qed.
Lemma commit_control : is_control (bs "COMMIT").
Proof. unfold is_control. set_solver. Qed.

(** The nested flush: if its calls succeed it commits what is pending and opens the next
    transaction. *)
Lemma flush_once_ran s :
  counter s = 0%Z →
  ∃ cs, ran [] cs s (flush_once s) ∧
    (succeeded cs → (autocommit s = true → pending (dbs s) = None) → db_ok (unwatch (flush_once s)) ∧
      executed (dbs (flush_once s)) = executed (dbs s)).
Proof.
  intros Hc. unfold flush_once. destruct (autocommit s) eqn:Hac.
  { exists []. split; [apply ran_refl|]. intros _ Ha. split; [|done].
    split; change (counter (unwatch s)) with (counter s); rewrite ?Hc, ?Ha by done; done. }
  set (s1 := if negb _ then _ else s).
  assert (∃ cs, ran [] cs s s1 ∧ (0 ≤ counter s1 ≤ 1)%Z ∧
    (succeeded cs → executed (dbs s1) = executed (dbs s))) as (cs1 & Hr1 & Hc1 & Hx1).
  { unfold s1. destruct (negb _).
    - destruct (exec_once_control _ s commit_control) as (e & Hr & Hc' & Hok).
      exists [(bs "COMMIT", e)]. split_and!; [done|lia|lia|].
      intros Hs. apply Forall_cons in Hs as [He _]. by apply Hok.
    - exists []. split_and!; [apply ran_refl|lia|lia|done]. }
  destruct (exec_once_control _ s1 begin_control) as (e & Hr2 & Hc2 & Hok2).
  exists (cs1 ++ [(bs "BEGIN", e)]). split; [exact (ran_trans [] [] _ _ _ _ _ Hr1 Hr2)|].
  intros [Hs1 Hs2]%Forall_app _. apply Forall_cons in Hs2 as [He _]. destruct (Hok2 He) as [Hx2 Hp2].
  rewrite bool_decide_true in Hp2 by done. split; [|by rewrite Hx2, Hx1].
  assert (frame s (exec_once (bs "BEGIN") s1).2) as Hf by (etrans; [apply Hr1|apply Hr2]).
  split; [simpl; lia|rewrite Hp2; simpl; lia|].
  change (autocommit (unwatch ?x)) with (autocommit x). rewrite (frame_autocommit _ _ Hf). congruence.
Qed.

(** One statement with its flush. *)
Lemma exec_spec_ran sql s :
  is_insert sql →
  ∃ cs, ran [sql] cs s (exec_spec sql s).2 ∧
    (succeeded cs → db_ok (unwatch s) → db_ok (unwatch (exec_spec sql s).2) ∧
      executed (dbs (exec_spec sql s).2) = executed (dbs s) ++ [sql]).
Proof.
  intros Hi. unfold exec_spec.
  destruct (exec_once_insert sql s Hi) as (e & Hst & Hr & Hc & Hok).
  pose proof (frame_autocommit _ _ (ran_frame _ _ _ _ Hr)) as Hac.
  destruct (exec_once sql s) as [st s1]. cbn [fst snd] in *.
  destruct (bool_decide (st = PDNS_OK) && (50 <=? counter s1)%Z) eqn:Hflush; cbn [snd].
  - destruct (flush_once_ran (set_counter 0 s1)) as (cs & Hr2 & Hok2); [done|].
    exists ([(sql, e)] ++ [] ++ cs). split.
    { exact (ran_trans [sql] [] _ _ _ _ _ Hr (ran_trans [] [] _ _ _ _ _ (ran_counter 0 s1) Hr2)). }
    intros Hs. apply Forall_cons in Hs as [He Hs]. destruct (Hok He) as [Hx Hp].
    intros [_ _ Ha]. destruct (Hok2 Hs) as [Hd2 Hx2].
    + intros Hau. change (dbs (set_counter 0 s1)) with (dbs s1). rewrite Hp, Ha; [done|].
      change (autocommit s = true). by rewrite <- Hac.
    + split; [done|]. rewrite Hx2. exact Hx.
  - exists [(sql, e)]. split; [done|]. intros Hs. apply Forall_cons in Hs as [He _].
    destruct (Hok He) as [Hx Hp]. intros [Hcs Hl Ha]. split; [|done].
    simpl in He. subst e. rewrite Hst in Hflush. cbn in Hflush. apply Z.leb_gt in Hflush.
    change (counter (unwatch s)) with (counter s) in *.
    split; change (counter (unwatch s1)) with (counter s1); [lia| |].
    + rewrite Hp. destruct (pending (dbs s)); simpl in *; rewrite ?length_app; simpl; lia.
    + intros Hau. rewrite Hp, Ha; [done|].
      change (autocommit s = true). by rewrite <- Hac.
Qed.

Lemma exec_all_ran sqls s :
  Forall is_insert sqls →
  ∃ s' cs, exec_all sqls s = Ok s' ∧ exec_all sqls (unwatch s) = Ok (unwatch s') ∧
    ran sqls cs s s' ∧
    (succeeded cs → db_ok (unwatch s) → db_ok (unwatch s') ∧
      executed (dbs s') = executed (dbs s) ++ sqls).
Proof.
  intros Hall; revert s; induction Hall as [|sql sqls Hsql Hall IH]; intros s.
  { exists s, []. rewrite app_nil_r. split_and!; [done|done|apply ran_refl|done]. }
  rewrite !exec_all_cons, exec_spec_unwatch.
  destruct (exec_spec_ran sql s Hsql) as (cs1 & Hr1 & Hok1).
  destruct (IH (exec_spec sql s).2) as (s' & cs2 & -> & -> & Hr2 & Hok2).
  exists s', (cs1 ++ cs2). split_and!; [done|done|exact (ran_trans [sql] sqls _ _ _ _ _ Hr1 Hr2)|].
  intros [Hs1 Hs2]%Forall_app Hok. destruct (Hok1 Hs1 Hok) as [Hok' Hx1].
  destruct (Hok2 Hs2 Hok') as [Hok'' Hx2]. split; [done|]. by rewrite Hx2, Hx1, <- app_assoc.
Qed.

End batching.

(** ** Rotation *)

Section rotation.
Context `{Build, SqliteLaws} {Q : Type} `{!Mailbox Q (list byte)}.
Implicit Types (s : sqlite_t Q).

(** The INSERTs committed are [rows], and none is waiting. *)
Definition settled (rows : list (list byte)) s : Prop :=
  durable (sq s) = rows ∧ default [] (pending (sq s)) = [].

(** The statements that are not INSERTs keep it so, whether they succeed or fail. *)
Lemma exec_once_settled rows sql s :
  is_create sql ∨ is_control sql → settled rows s → settled rows (exec_once sql s).2.
Proof.
  unfold settled, exec_once. intros Hsql [<- Hp].
  destruct (sqlite3_exec sql (sq s)) as [e d] eqn:E. simpl. destruct (decide (e = 0%Z)) as [->|Hne].
  - unfold is_control in Hsql. rewrite !elem_of_cons, elem_of_nil in Hsql.
    destruct Hsql as [Hsql|[->|[->|[]]]].
    + by destruct (create_law _ _ _ Hsql E) as [-> ->].
    + by destruct (begin_law _ _ E) as (_ & -> & ->).
    + destruct (commit_law _ _ E) as [-> ->]. by rewrite Hp, app_nil_r.
  - destruct (error_law _ _ _ _ (or_intror Hsql) E Hne) as [-> [-> | ->]]; done.
Qed.

Lemma exec_spec_settled rows sql s :
  is_create sql ∨ is_control sql → settled rows s → settled rows (exec_spec sql s).2.
Proof.
  intros Hsql Hs. unfold exec_spec. pose proof (exec_once_settled _ _ _ Hsql Hs) as Hs1.
  destruct (exec_once sql s) as [st s']. cbn [snd] in *. destruct (_ && _); [|done].
  change (settled rows (set_counter 0 s')) in Hs1. revert Hs1. generalize (set_counter 0 s').
  intros s1 Hs1. unfold flush_once. destruct (autocommit s1); [done|].
  destruct (negb _); repeat apply exec_once_settled; eauto using begin_control, commit_control.
Qed.

Lemma db_flush_settled rows s :
  settled rows s → ∃ st s', db_flush s = Ok (st, s') ∧ settled rows s'.
Proof.
  intros Hs. unfold db_flush, db_flush_with. destruct (autocommit s); [by eexists _, _|].
  pose proof (exec_spec_settled rows _ s (or_intror commit_control) Hs) as Hc.
  destruct (negb _); rewrite ?db_exec_is_spec; simpl; rewrite db_exec_is_spec;
    (eexists _, _; split; [done|]; apply exec_spec_settled; eauto using begin_control).
Qed.

(** Opening the database, whatever SQLite answers. *)
Lemma db_open_settled rows file s :
  durable (sq s) = rows → pending (sq s) = None →
  ∃ st s', db_open file s = Ok (st, s') ∧ settled rows s'.
Proof.
  intros Hd Hp. unfold db_open. destruct (sqlite3_open_v2 file (sq s)) as [e d] eqn:E.
  destruct (open_law _ _ _ _ E Hp) as [Hd' Hp'].
  assert (settled rows (set_db true d s)) as Hs0 by (split; simpl; by rewrite ?Hd', ?Hp').
  destruct (negb _); [by eexists _, _|]. rewrite db_exec_is_spec.
  pose proof (exec_spec_settled rows SQL_CREATE_TABLE _ (or_introl (or_introl eq_refl)) Hs0) as Hs1.
  destruct (exec_spec SQL_CREATE_TABLE _) as [? s1]. cbn [mbind outcome_bind snd] in *.
  rewrite db_exec_is_spec.
  pose proof (exec_spec_settled rows SQL_CREATE_INDEX _ (or_introl (or_intror eq_refl)) Hs1) as Hs2.
  destruct (exec_spec SQL_CREATE_INDEX _) as [? s2]. cbn [mbind outcome_bind snd] in *.
  destruct (db_flush_settled rows s2 Hs2) as (st & s3 & -> & Hs3). by eexists _, _.
Qed.

(** C32: Rotating (SIGHUP) closes and reopens the database, and returns PDNS_OK whatever
    SQLite answers, also when the file cannot be opened again or the schema cannot be
    created.  The INSERTs of the open transaction are rolled back, not flushed: exactly
    the committed ones are still there, and none is pending.  The queue and the settings
    are as before. *)
Theorem rotation_rolls_back s name :
  db s = true → dbfile s = Some name →
  ∃ s', logsqlite_rotate s = Ok (PDNS_OK, s') ∧ frame s s' ∧
    durable (sq s') = durable (sq s) ∧ default [] (pending (sq s')) = [].
Proof.
  intros Hdb Hf. unfold logsqlite_rotate. rewrite Hdb.
  unfold db_close. cbn [mbind outcome_bind mret outcome_ret dbfile set_db]. rewrite Hf, Hdb.
  set (s1 := set_db true (sqlite3_close (sq s)) s). destruct (close_law (sq s)) as [Hd Hp].
  destruct (db_open_settled (durable (sq s)) name s1) as (st & s' & Ho & Hd' & Hp'); [done|done|].
  rewrite Ho. exists s'. split_and!; [done| |done|done].
  apply db_open_frame in Ho. etrans; [|exact Ho]. by repeat split.
Qed.
End rotation.

(** ** The pipeline: loggers, queue, background thread *)

(** A logger queues a statement; the background thread runs its loop body. *)
Inductive event := EPush (sql : list byte) | EBg.

(** The statements queued by a schedule. *)
Fixpoint pushes (evs : list event) : list (list byte) :=
  match evs with
  | [] => []
  | EPush sql :: evs => sql :: pushes evs
  | EBg :: evs => pushes evs
  end.

(** The statements that get through a place for one item holding [slot]. *)
Fixpoint accepted (slot : option (list byte)) (evs : list event) : list (list byte) :=
  match evs with
  | [] => option_list slot
  | EPush sql :: evs => accepted (Some (default sql slot)) evs
  | EBg :: evs => option_list slot ++ accepted None evs
  end.

(** The background thread runs between any two statements. *)
Fixpoint prompt (full : bool) (evs : list event) : bool :=
  match evs with
  | [] => true
  | EPush _ :: evs => negb full && prompt true evs
  | EBg :: evs => prompt false evs
  end.

Lemma accepted_sublist slot evs : accepted slot evs `sublist_of` option_list slot ++ pushes evs.
Proof.
  revert slot; induction evs as [|[sql|] evs IH]; intros slot; simpl.
  - by rewrite app_nil_r.
  - etrans; [apply IH|]. destruct slot as [v|]; simpl; [|done].
    by apply sublist_skip, sublist_cons.
  - apply sublist_app; [done|]. apply (IH None).
Qed.

Lemma accepted_prompt slot evs :
  prompt (if slot is Some _ then true else false) evs = true →
  accepted slot evs = option_list slot ++ pushes evs.
Proof.
  revert slot; induction evs as [|[sql|] evs IH]; intros slot Hp; simpl in *.
  - by rewrite app_nil_r.
  - destruct slot; [done|]. by apply (IH (Some sql)).
  - f_equal. by apply (IH None).
Qed.

Section pipeline.
Context `{Build, Sqlite} {Q : Type} `{!Mailbox Q (list byte)}.
Implicit Types (s : sqlite_t Q).

Definition run_event (ev : event) s : outcome (sqlite_t Q) :=
  match ev with
  | EPush sql => push_sql (Some sql) s
  | EBg => bg_iteration s
  end.

Definition queued s : option (list byte) := fifo s ≫= mb_slot.

(** The queue exists and is well formed. *)
Definition queue_ok s : Prop := ∃ q, fifo s = Some q ∧ mb_inv q.

Lemma push_sql_ok sql s :
  queue_ok s →
  match queued s with
  | None => ∃ q, push_sql (Some sql) s = Ok (set_fifo q s) ∧ queue_ok (set_fifo q s) ∧
      queued (set_fifo q s) = Some sql
  | Some w =>
      if ndebug then
        ∃ q, push_sql (Some sql) s = Ok (set_fifo q s) ∧ queue_ok (set_fifo q s) ∧
          queued (set_fifo q s) = Some w
      else push_sql (Some sql) s = Fault AssertionFailed
  end.
Proof.
  intros (q & Hq & Hinv). unfold push_sql, queued, queue_ok. rewrite Hq. simpl.
  destruct (mb_slot q) as [w|] eqn:Hs.
  - pose proof (mb_put_full q sql w Hinv Hs) as Hput. destruct ndebug; [|by rewrite Hput].
    destruct Hput as (q' & -> & Hinv' & Hs'). exists (Some q').
    split_and!; [done|by exists q'|done].
  - destruct (mb_put_empty q sql Hinv Hs) as (q' & -> & Hinv' & Hs'). exists (Some q').
    split_and!; [done|by exists q'|done].
Qed.

(** The loop body executes what is queued. *)
Lemma bg_iteration_ok s :
  queue_ok s →
  ∃ q s1, bg_iteration s = Ok (set_fifo q s1) ∧ queue_ok (set_fifo q s1) ∧
    queued (set_fifo q s1) = None ∧ exec_all (option_list (queued s)) s = Ok s1.
Proof.
  intros (q & Hq & Hinv). unfold bg_iteration, queued, queue_ok. rewrite Hq. simpl.
  destruct (mb_get_slot q Hinv) as (q' & -> & Hinv' & Hs'). cbn [mbind outcome_bind mret outcome_ret].
  destruct (mb_slot q) as [sql|]; cbn [option_list foldM].
  - exists (Some q'), (exec_spec sql s).2. rewrite !db_exec_is_spec. cbn [fmap outcome_fmap].
    rewrite exec_spec_fifo. split_and!; [done|by exists q'|done|exact (exec_all_cons sql [] s)].
  - exists (Some q'), s. split_and!; [done|by exists q'|done|done].
Qed.

Lemma exec_all_fifo q sqls s : exec_all sqls (set_fifo q s) = set_fifo q <$> exec_all sqls s.
Proof.
  revert s; induction sqls as [|sql sqls IH]; intros s; [done|].
  by rewrite !exec_all_cons, exec_spec_fifo, IH.
Qed.

Lemma exec_all_app sqls sqls' s :
  exec_all (sqls ++ sqls') s = exec_all sqls s ≫= exec_all sqls'.
Proof.
  revert s; induction sqls as [|sql sqls IH]; intros s; [done|].
  rewrite <- app_comm_cons, !exec_all_cons. apply IH.
Qed.

Lemma run_events_spec evs s :
  queue_ok s →
  if ndebug || prompt (if queued s is Some _ then true else false) evs then
    ∃ done q s1, foldM run_event evs s = Ok (set_fifo q s1) ∧ queue_ok (set_fifo q s1) ∧
      accepted (queued s) evs = done ++ option_list (queued (set_fifo q s1)) ∧
      exec_all done s = Ok s1
  else foldM run_event evs s = Fault AssertionFailed.
Proof.
  revert s; induction evs as [|[sql|] evs IH]; intros s Hok.
  - rewrite orb_true_r. exists [], (fifo s), s. by destruct s.
  - pose proof (push_sql_ok sql s Hok) as Hp. cbn [foldM run_event prompt accepted].
    destruct (queued s) as [w|] eqn:Hq; cbn [negb andb default].
    + rewrite orb_false_r. destruct ndebug eqn:Hn; [|by rewrite Hp].
      destruct Hp as (q & -> & Hok1 & Hq1). cbn [mbind outcome_bind].
      specialize (IH _ Hok1). rewrite Hq1 in IH. cbn [orb] in IH.
      destruct IH as (dn & q' & s1 & -> & Hok2 & Hacc & Hex). rewrite exec_all_fifo in Hex.
      destruct (exec_all dn s) as [s2|] eqn:Hs2; [|done]. injection Hex as <-.
      exists dn, q', s2. done.
    + destruct Hp as (q & -> & Hok1 & Hq1). cbn [mbind outcome_bind].
      specialize (IH _ Hok1). rewrite Hq1 in IH. destruct (ndebug || _); [|done].
      destruct IH as (dn & q' & s1 & -> & Hok2 & Hacc & Hex). rewrite exec_all_fifo in Hex.
      destruct (exec_all dn s) as [s2|] eqn:Hs2; [|done]. injection Hex as <-.
      exists dn, q', s2. done.
  - destruct (bg_iteration_ok s Hok) as (q & s1 & Hs1 & Hok1 & Hq1 & Hex1).
    specialize (IH _ Hok1). rewrite Hq1 in IH. cbn [foldM run_event prompt accepted].
    rewrite Hs1. cbn [mbind outcome_bind]. destruct (ndebug || _); [|done].
    destruct IH as (dn & q' & s2 & -> & Hok2 & Hacc & Hex). rewrite exec_all_fifo in Hex.
    destruct (exec_all dn s1) as [s3|] eqn:Hs3; [|done]. injection Hex as <-.
    exists (option_list (queued s) ++ dn), q', s3.
    rewrite exec_all_app, Hex1, Hacc, <- app_assoc. done.
Qed.

(** C10: The pipeline from the loggers to the database, for every interleaving of queued
    statements with turns of the background thread, and whatever SQLite answers.  The
    thread executes exactly the statements a place for one item lets through, in order,
    each once, but for the one still queued at the end: the daemon's state is the state
    after executing these, one [db_exec] after the other, with the queue put in.  They are
    all the statements queued if the thread runs between any two; otherwise a debug build
    aborts and a release build drops the others. *)
Theorem pipeline_delivers evs s :
  queue_ok s → queued s = None →
  if ndebug || prompt false evs then
    ∃ done s1 s', foldM run_event evs s = Ok s' ∧ queue_ok s' ∧
      done ++ option_list (queued s') = accepted None evs ∧
      exec_all done s = Ok s1 ∧ s' = set_fifo (fifo s') s1 ∧
      accepted None evs `sublist_of` pushes evs ∧
      (prompt false evs = true → accepted None evs = pushes evs)
  else foldM run_event evs s = Fault AssertionFailed.
Proof.
  intros Hok Hqd. pose proof (run_events_spec evs s Hok) as Hrun. rewrite Hqd in Hrun.
  destruct (ndebug || prompt false evs); [|done].
  destruct Hrun as (dn & q & s1 & Hr & Hok' & Hacc & Hex).
  exists dn, s1, (set_fifo q s1). split_and!; try done.
  - apply (accepted_sublist None).
  - intros Hpr. by apply (accepted_prompt None).
Qed.
End pipeline.

(** ** Rows *)

Section rows.
Context `{Build, Sqlite} {Q : Type} `{!Mailbox Q (list byte)}.
Implicit Types (s : sqlite_t Q).

(** The data of a record as a column. *)
Definition rdata_text (rr : PBDNSMessage__DNSResponse__DNSRR) : outcome (list byte) :=
  let d := rr_rdata rr in
  if (rr_type rr =? 1)%Z && (bin_len d =? 4)%Z then inet_ntop AF_INET (bin_data d)
  else if (rr_type rr =? 28)%Z && (bin_len d =? 16)%Z then inet_ntop AF_INET6 (bin_data d)
  else if text_type (rr_type rr) then
    match bin_data d with None => mret [] | p => read_cstr p end
  else mret (bs "[Not Supported]").

(** The row of a record, from that record alone. *)
Definition row_of (h : header) (rr : PBDNSMessage__DNSResponse__DNSRR) : outcome row :=
  rd ← rdata_text rr;
  mret {|
    c_ts := ts h; c_from := from h; c_msgid := msgid h; c_qtype := or_empty (qtype h);
    c_qclass := or_empty (qclass h); c_qname := or_empty (qname h);
    c_rcode := or_empty (rcode h); c_rcount := rcount h; c_rname := or_empty (rr_name rr);
    c_rtype := or_empty (pdns_logger_type2p (rr_type rr));
    c_rclass := or_empty (pdns_logger_class2p (rr_class rr)); c_rttl := s32 (rr_ttl rr);
    c_rdata := rd; c_policy := or_empty (policy h) |}.

Fixpoint rows_of (h : header) (rrs : list PBDNSMessage__DNSResponse__DNSRR) : outcome (list row) :=
  match rrs with
  | [] => mret []
  | rr :: rrs => r ← row_of h rr; rs ← rows_of h rrs; mret (r :: rs)
  end.

(** A record that has all of its optional fields. *)
Definition complete (rr : PBDNSMessage__DNSResponse__DNSRR) : bool :=
  rr_has_type rr && rr_has_class rr && rr_has_ttl rr && rr_has_rdata rr.

(** What is queued for a row. *)
Definition push_row (r : row) s : outcome (sqlite_t Q) :=
  push_sql (sqlite3_mprintf SQL_INSERT (insert_args r)) s.

(** On a complete record the loop's variables are that record's. *)
Lemma columns_row h rr c r :
  complete rr = true → row_of h rr = Ok r → log_columns rr c ≫= make_row h = Ok r.
Proof.
  intros Hc Hr. unfold complete in Hc.
  apply andb_true_iff in Hc as [Hc Hrd]. apply andb_true_iff in Hc as [Hc Httl].
  apply andb_true_iff in Hc as [Hty Hcl].
  unfold row_of, rdata_text in Hr. unfold log_columns. rewrite Hty, Hcl, Httl, Hrd. cbn [andb].
  apply outcome_bind_ok in Hr as (rd & Hrd' & Hr). unfold text_type in Hrd'.
  destruct (_ && (bin_len _ =? 4)%Z).
  { rewrite Hrd'. unfold make_row. cbn. unfold read_cstr. cbn.
    rewrite (cstr_app rd []) by (by eapply inet_ntop_nul_free). exact Hr. }
  destruct (_ && (bin_len _ =? 16)%Z).
  { rewrite Hrd'. unfold make_row. cbn. unfold read_cstr. cbn.
    rewrite (cstr_app rd []) by (by eapply inet_ntop_nul_free). exact Hr. }
  destruct (_ || _); cbn [mbind outcome_bind mret outcome_ret]; unfold make_row; cbn [rdata].
  - rewrite Hrd'. exact Hr.
  - injection Hrd' as <-. exact Hr.
Qed.

(** The rows of a message: those of the loop over its records, whose variables are kept
    from one turn to the next, or a single one without a record. *)
Fixpoint rrs_rows (h : header) (rrs : list PBDNSMessage__DNSResponse__DNSRR) (c : columns) :
    outcome (list row) :=
  match rrs with
  | [] => mret []
  | rr :: rrs => c ← log_columns rr c; r ← make_row h c; (r ::.) <$> rrs_rows h rrs c
  end.

Definition log_rows (ro dis : bool) (msg : option PBDNSMessage) : outcome (list row) :=
  match logged_response ro dis msg with
  | None => mret []
  | Some (m, r) =>
      h ← log_header m r;
      match r_rrs r with
      | [] => r ← make_row h columns_init; mret [r]
      | rrs => rrs_rows h rrs columns_init
      end
  end.

Lemma log_rrs_pushes h rrs rows c s :
  rrs_rows h rrs c = Ok rows → log_rrs h rrs c s = foldM push_row rows s.
Proof.
  revert rows c s; induction rrs as [|rr rrs IH]; intros rows c s Hr; simpl in Hr.
  { by injection Hr as <-. }
  apply outcome_bind_ok in Hr as (c' & Hc' & Hr). apply outcome_bind_ok in Hr as (r & Hrow & Hr).
  destruct (rrs_rows h rrs c') as [rows'|] eqn:Hrs; [|done]. injection Hr as <-.
  cbn [log_rrs foldM]. rewrite Hc'. cbn [mbind outcome_bind]. unfold prepare_sql. rewrite Hrow.
  cbn [mbind outcome_bind mret outcome_ret]. apply outcome_bind_ext. intros s'. by apply IH.
Qed.

Lemma logsqlite_log_pushes msg rows s :
  log_rows (rewrites_only s) (disabled s) msg = Ok rows →
  logsqlite_log msg s = pair PDNS_OK <$> foldM push_row rows s.
Proof.
  unfold log_rows, logged_response, logsqlite_log. destruct (disabled s); [by intros [= <-]|].
  destruct msg as [m|]; [|by intros [= <-]]. destruct (m_response m) as [r|]; [|by intros [= <-]].
  destruct (rewrites_only s && _); [by intros [= <-]|]. intros Hrows.
  apply outcome_bind_ok in Hrows as (h & -> & Hrows). cbn [mbind outcome_bind].
  destruct (r_rrs r) as [|rr rrs].
  - apply outcome_bind_ok in Hrows as (row & Hrow & Hrows). injection Hrows as <-.
    unfold prepare_sql. rewrite Hrow. cbn [foldM mbind outcome_bind mret outcome_ret].
    fold (push_row row s). by destruct (push_row row s).
  - rewrite (log_rrs_pushes _ _ _ _ _ Hrows). by destruct (foldM push_row rows s).
Qed.

Lemma rows_of_complete h rrs rows c :
  Forall (λ rr, complete rr = true) rrs → rows_of h rrs = Ok rows → rrs_rows h rrs c = Ok rows.
Proof.
  intros Hc; revert rows c; induction Hc as [|rr rrs Hrr Hc IH]; intros rows c Hr; simpl in Hr; [done|].
  apply outcome_bind_ok in Hr as (r & Hr1 & Hr). apply outcome_bind_ok in Hr as (rs & Hrs & Hr).
  injection Hr as <-. pose proof (columns_row h rr c r Hrr Hr1) as Hcol.
  apply outcome_bind_ok in Hcol as (c' & Hc' & Hrow).
  cbn [rrs_rows]. rewrite Hc'. cbn [mbind outcome_bind]. rewrite Hrow.
  cbn [mbind outcome_bind]. by rewrite (IH _ c' Hrs).
Qed.

Lemma logsqlite_log_rows m r h rows s :
  logged_response (rewrites_only s) (disabled s) (Some m) = Some (m, r) →
  log_header m r = Ok h → Forall (λ rr, complete rr = true) (r_rrs r) → r_rrs r ≠ [] →
  rows_of h (r_rrs r) = Ok rows →
  logsqlite_log (Some m) s = pair PDNS_OK <$> foldM push_row rows s.
Proof.
  intros Hlr Hh Hc Hne Hrows. apply logsqlite_log_pushes. unfold log_rows. rewrite Hlr, Hh.
  cbn [mbind outcome_bind]. apply (rows_of_complete _ _ _ columns_init Hc) in Hrows.
  by destruct (r_rrs r).
Qed.

(** Queueing changes the queue only. *)
Lemma push_rows_frame rows s s' :
  foldM push_row rows s = Ok s' → ∃ q, s' = set_fifo q s.
Proof.
  revert s; induction rows as [|r rows IH]; intros s Hs; simpl in Hs.
  { injection Hs as <-. exists (fifo s). by destruct s. }
  apply outcome_bind_ok in Hs as (s1 & H1 & Hs). destruct (IH _ Hs) as [q Hq].
  exists q. rewrite Hq. clear IH Hs Hq.
  unfold push_row, push_sql in H1. destruct (fifo s); [destruct (sqlite3_mprintf _ _)|];
    [|by injection H1 as <-..]. by apply outcome_bind_ok in H1 as (q' & _ & [= <-]).
Qed.

(** C22: What is queued for a message whose records are complete: one INSERT per record,
    in order, each with the columns of that record alone. *)
Theorem logsqlite_log_queues_rows m r h rows s :
  logged_response (rewrites_only s) (disabled s) (Some m) = Some (m, r) →
  log_header m r = Ok h → Forall (λ rr, complete rr = true) (r_rrs r) → r_rrs r ≠ [] →
  rows_of h (r_rrs r) = Ok rows →
  logsqlite_log (Some m) s = pair PDNS_OK <$> foldM push_row rows s.
Proof. apply logsqlite_log_rows. Qed.

Lemma push_row_eq r s sql q :
  sqlite3_mprintf SQL_INSERT (insert_args r) = Some sql → fifo s = Some q →
  push_row r s = q' ← mb_put sql q; mret (set_fifo (Some q') s).
Proof. intros Hsql Hq. unfold push_row, push_sql. by rewrite Hsql, Hq. Qed.

(** Queueing several rows while the background thread does not run. *)
Lemma push_rows_full rows s q w :
  fifo s = Some q → mb_inv q → mb_slot q = Some w →
  Forall (λ r, is_Some (sqlite3_mprintf SQL_INSERT (insert_args r))) rows →
  if ndebug || bool_decide (rows = []) then
    ∃ s' q', foldM push_row rows s = Ok s' ∧ fifo s' = Some q' ∧ mb_slot q' = Some w
  else foldM push_row rows s = Fault AssertionFailed.
Proof.
  intros Hq Hinv Hs Hall; revert s q Hq Hinv Hs.
  induction Hall as [|r rows [sql Hsql] Hall IH]; intros s q Hq Hinv Hs.
  { rewrite orb_true_r. by exists s, q. }
  rewrite (bool_decide_false (_ :: _ = [])), orb_false_r by done.
  cbn [foldM]. rewrite (push_row_eq _ _ _ _ Hsql Hq).
  pose proof (mb_put_full q sql w Hinv Hs) as Hput. destruct ndebug; [|by rewrite Hput].
  destruct Hput as (q' & -> & Hinv' & Hs'). cbn [mbind outcome_bind mret outcome_ret].
  specialize (IH (set_fifo (Some q') s) q' eq_refl Hinv' Hs'). exact IH.
Qed.

(** C31: A response with several records loses rows: if the background thread does not
    run between them, only the first record's statement is in the queue afterwards,
    although [PDNS_OK] is returned; a debug build aborts. *)
Theorem multi_record_rows_lost m r h row1 rows s q sql1 :
  logged_response (rewrites_only s) (disabled s) (Some m) = Some (m, r) →
  log_header m r = Ok h → Forall (λ rr, complete rr = true) (r_rrs r) →
  rows_of h (r_rrs r) = Ok (row1 :: rows) →
  fifo s = Some q → mb_inv q → mb_slot q = None →
  sqlite3_mprintf SQL_INSERT (insert_args row1) = Some sql1 →
  Forall (λ r, is_Some (sqlite3_mprintf SQL_INSERT (insert_args r))) rows →
  if ndebug || bool_decide (rows = []) then
    ∃ s' q', logsqlite_log (Some m) s = Ok (PDNS_OK, s') ∧ fifo s' = Some q' ∧
      mb_slot q' = Some sql1
  else logsqlite_log (Some m) s = Fault AssertionFailed.
Proof.
  intros Hlr Hh Hc Hrows Hq Hinv Hs Hsql Hall.
  rewrite (logsqlite_log_rows m r h (row1 :: rows) s); try done; [|by intros E; rewrite E in Hrows].
  cbn [foldM]. rewrite (push_row_eq _ _ _ _ Hsql Hq).
  destruct (mb_put_empty q sql1 Hinv Hs) as (q' & -> & Hinv' & Hs').
  cbn [mbind outcome_bind mret outcome_ret].
  pose proof (push_rows_full rows (set_fifo (Some q') s) q' sql1 eq_refl Hinv' Hs' Hall) as Hp.
  destruct (ndebug || _); [|by rewrite Hp].
  destruct Hp as (s' & q'' & -> & Hq'' & Hs''). by exists s', q''.
Qed.
End rows.

(** ** Stopping *)

Section stopping.
Context `{Build, SqliteLaws} {Q : Type} `{!Mailbox Q (list byte)}.
Implicit Types (s : sqlite_t Q).

(** What a logger queues for a row is one of the statements the laws are about, and stores
    that row; or there was no memory for it. *)
Lemma prepare_sql_insert h c r :
  make_row h c = Ok r → row_ok r →
  prepare_sql h c = Ok None ∨
  ∃ sql, prepare_sql h c = Ok (Some sql) ∧ is_insert sql ∧ read_insert sql = Some (row_values r).
Proof.
  intros Hrow Hr. unfold prepare_sql. rewrite Hrow. cbn [mbind outcome_bind].
  destruct (insert_reads_back r Hr) as (sql & Hsql & Hrd).
  destruct (mprintf_law _ _ _ Hsql) as [-> | ->]; [right|by left].
  exists sql. split_and!; [done|by exists r|done].
Qed.

(** Stopping keeps only what is committed: the open transaction is rolled back, and a
    statement still queued when the thread sees the cleared flag is never executed. *)
Theorem stop_keeps_committed s :
  bgthread s = true →
  ∃ s', logsqlite_stop false s = Ok (PDNS_OK, s') ∧ durable (sq s') = durable (sq s) ∧
    pending (sq s') = None ∧ fifo s' = fifo s.
Proof.
  intros Hb. unfold logsqlite_stop, bg_thread_stop, db_close. simpl. rewrite Hb.
  cbn [mbind outcome_bind mret outcome_ret]. destruct (close_law (sq s)) as [Hd Hp]. eauto 10.
Qed.

(** With the backend disabled the thread is never created, and stopping the daemon
    joins a thread that does not exist. *)
Theorem disabled_stop_joins_nothing files path text d last s' st :
  files path = Some text →
  logsqlite_init files (Some path) (sqlite_statics d) = Ok (st, s') → disabled s' = true →
  logsqlite_stop (Q := Q) last s' = Fault BadThreadHandle.
Proof.
  intros Hf Hi Hd. assert (bgthread s' = false) as Hb; [|unfold logsqlite_stop, bg_thread_stop; simpl; by rewrite Hb].
  unfold logsqlite_init in Hi. destruct path as [|b path]; [by injection Hi as <- <-|].
  rewrite Hf in Hi. pose proof (ini_parse_invariant (U := sqlite_t Q) opt_handler
    (λ s, bgthread s = false) text (sqlite_statics d)) as Hinv.
  destruct (ini_parse opt_handler (Some text) (sqlite_statics d)) as [res s].
  assert (bgthread s = false) as Hb.
  { apply Hinv; [|done]. intros sec n v l u Hu. unfold opt_handler. by repeat case_match. }
  destruct (negb (res =? 0)%Z); [by injection Hi as <- <-|].
  destruct (disabled s) eqn:Hdis; [by injection Hi as <- <-|].
  destruct (dbfile s) as [[|b' name]|]; [by injection Hi as <- <-| |by injection Hi as <- <-].
  apply db_open_frame in Hi as (_ & _ & _ & _ & _ & _ & Hd' & _). simpl in Hd'. congruence.
Qed.
End stopping.

(** ** A database in memory

    A concrete SQLite that satisfies the laws: it fails on a nested BEGIN and on a COMMIT
    outside of a transaction, and an INSERT into a database whose limit of rows is reached
    fails and rolls the transaction back. *)

Record memdb := {
  m_limit : nat; m_durable : list (list byte); m_pending : option (list (list byte));
}.

Definition empty_db : memdb := {| m_limit := 1000; m_durable := []; m_pending := None |}.

Definition mem_exec (sql : list byte) (d : memdb) : Z * memdb :=
  let set ds p := {| m_limit := m_limit d; m_durable := ds; m_pending := p |} in
  if bool_decide (sql = bs "BEGIN") then
    match m_pending d with None => (0%Z, set (m_durable d) (Some [])) | Some _ => (1%Z, d) end
  else if bool_decide (sql = bs "COMMIT") then
    match m_pending d with None => (1%Z, d) | Some p => (0%Z, set (m_durable d ++ p) None) end
  else if bool_decide (sql = SQL_CREATE_TABLE) || bool_decide (sql = SQL_CREATE_INDEX) then (0%Z, d)
  else if m_limit d <=? length (m_durable d ++ default [] (m_pending d)) then
    (13%Z, set (m_durable d) None)   (* SQLITE_FULL *)
  else
    match m_pending d with
    | None => (0%Z, set (m_durable d ++ [sql]) None)
    | Some p => (0%Z, set (m_durable d) (Some (p ++ [sql])))
    end.

Definition mem_sqlite : Sqlite := {|
  DB := memdb;
  sqlite3_open_v2 := λ _ d, (0%Z, d);
  sqlite3_exec := mem_exec;
  sqlite3_get_autocommit := λ d, bool_decide (m_pending d = None);
  sqlite3_close := λ d, {| m_limit := m_limit d; m_durable := m_durable d; m_pending := None |};
  sqlite3_mprintf := render |}.

Lemma insert_not_create sql : is_insert sql → sql ≠ SQL_CREATE_TABLE ∧ sql ≠ SQL_CREATE_INDEX.
Proof. intros [r [out ->]%render_head]. by split. Qed.

Lemma mem_exec_insert sql d :
  is_insert sql →
  mem_exec sql d =
    if m_limit d <=? length (m_durable d ++ default [] (m_pending d)) then
      (13%Z, {| m_limit := m_limit d; m_durable := m_durable d; m_pending := None |})
    else (0%Z, match m_pending d with
      | None => {| m_limit := m_limit d; m_durable := m_durable d ++ [sql]; m_pending := None |}
      | Some p => {| m_limit := m_limit d; m_durable := m_durable d; m_pending := Some (p ++ [sql]) |}
      end).
Proof.
  intros Hi. pose proof (insert_not_control _ Hi) as Hc. destruct (insert_not_create _ Hi) as [Ht Hx].
  rewrite !elem_of_cons, elem_of_nil in Hc. unfold mem_exec.
  rewrite (bool_decide_false (sql = bs "BEGIN")), (bool_decide_false (sql = bs "COMMIT")),
    (bool_decide_false (sql = SQL_CREATE_TABLE)), (bool_decide_false (sql = SQL_CREATE_INDEX))
    by naive_solver.
  cbn [orb]. destruct (_ <=? _); [done|]. by destruct (m_pending d).
Qed.

Lemma mem_exec_create sql d : is_create sql → mem_exec sql d = (0%Z, d).
Proof. intros [->| ->]; reflexivity. Qed.

#[global] Program Instance mem_laws : @SqliteLaws mem_sqlite := {|
  durable := m_durable : @DB mem_sqlite → _; pending := m_pending : @DB mem_sqlite → _ |}.
Next Obligation.
  simpl. intros [n ds [p|]] d' E; unfold mem_exec in E; cbn in E; [done|]. by injection E as <-.
Qed.
Next Obligation.
  simpl. intros [n ds [p|]] d' E; unfold mem_exec in E; cbn in E; [|done]. by injection E as <-.
Qed.
Next Obligation.
  simpl. intros sql d d' Hi E. rewrite mem_exec_insert in E by done. destruct (_ <=? _); [done|].
  injection E as <-. by destruct (m_pending d).
Qed.
Next Obligation. simpl. intros sql d d' Hc E. rewrite mem_exec_create in E by done. by injection E as <-. Qed.
Next Obligation.
  simpl. intros sql d e d' Hs E Hne. destruct Hs as [Hi|[Hc|Hc]].
  - rewrite mem_exec_insert in E by done. destruct (_ <=? _); injection E as <- <-; [by auto|done].
  - rewrite mem_exec_create in E by done. by injection E as <- _.
  - unfold is_control in Hc. rewrite !elem_of_cons, elem_of_nil in Hc. destruct d as [n ds p].
    destruct Hc as [->|[->|[]]]; unfold mem_exec in E; cbn in E;
      destruct p; injection E as <- <-; by auto.
Qed.
Next Obligation. done. Qed.
Next Obligation. simpl. intros f d e d' [= _ <-] Hp. done. Qed.
Next Obligation. simpl. intros fmt args out ->. by left. Qed.

(** ** Concrete instances: the linked queue, the database in memory *)

Notation demo_queue := (fifo_t (list byte)).

Definition demo_sqlite (auto : bool) : @sqlite_t mem_sqlite demo_queue :=
  {| dbfile := Some (bs "logs.db"); db := true; rewrites_only := true;
     fifo := Some fifo_empty; bgthread := true; bgrunning := true; disabled := false;
     autocommit := auto; counter := 3;
     sq := {| m_limit := 1000; m_durable := [];
              m_pending := if auto then None else Some [] |} : @DB mem_sqlite |}.

Lemma demo_sqlite_ok auto : db_ok (demo_sqlite auto).
Proof. destruct auto; split; simpl; done || lia. Qed.

Lemma demo_queue_ok auto : queue_ok (H := release) (demo_sqlite auto).
Proof. eexists. split; [done|apply fifo_empty_wf]. Qed.

(** The INSERT of a row, and of a row with a given policy. *)
Definition demo_sql (r : row) : list byte := default [] (render SQL_INSERT (insert_args r)).

Definition demo_insert (n : byte) : list byte := demo_sql {|
  c_ts := 1500000000; c_from := bs "10.0.0.2"; c_msgid := 4711; c_qtype := bs "A";
  c_qclass := bs "IN"; c_qname := bs "www.example.com."; c_rcode := bs "NOERROR"; c_rcount := 0;
  c_rname := []; c_rtype := []; c_rclass := []; c_rttl := 0; c_rdata := []; c_policy := [n] |}.

Lemma demo_insert_ok n : is_insert (demo_insert n).
Proof.
  unfold demo_insert, demo_sql. set (r := {| c_ts := _ |}). exists r.
  rewrite render_insert; [done|]. by split; simpl.
Qed.


Lemma rotation_rolls_back_witness :
  let s := set_db true ({| m_limit := 9; m_durable := [bs "a"]; m_pending := Some [bs "b"] |}
             : @DB mem_sqlite) (demo_sqlite false) in
  ∃ s', logsqlite_rotate s = Ok (PDNS_OK, s') ∧ durable (sq s') = [bs "a"] ∧
    default [] (pending (sq s')) = [].
Proof.
  intros s. destruct (rotation_rolls_back s (bs "logs.db")) as (s' & ? & _ & ? & ?);
    [done|done|by exists s'].
Defined.

Lemma pipeline_delivers_witness :
  let evs := [EPush (demo_insert x61); EBg; EPush (demo_insert x62); EPush (demo_insert x63)] in
  ∃ done s1 s', foldM (run_event (H := release)) evs (demo_sqlite true) = Ok s' ∧
    done ++ option_list (queued (H := release) s') = demo_insert <$> [x61; x62] ∧
    exec_all done (demo_sqlite true) = Ok s1 ∧ sq s' = sq s1.
Proof.
  intros evs. destruct (pipeline_delivers (H := release) evs (demo_sqlite true))
    as (dn & s1 & s' & Hr & _ & Hd & Hx & Hs & _); [apply demo_queue_ok|done|].
  exists dn, s1, s'. split_and!; [exact Hr|exact Hd|exact Hx|by rewrite Hs].
Defined.

Definition demo_header : header := {|
  ts := 1500000000; from := bs "10.0.0.2"; msgid := 4711; qtype := Some (bs "A");
  qclass := Some (bs "IN"); qname := Some (bs "www.example.com."); rcode := Some (bs "NOERROR");
  rcount := 2; policy := Some (bs "rpz") |}.

Definition demo_rows : list row := computed (rows_of demo_header [demo_a x01; demo_a x02]).

Lemma logsqlite_log_queues_rows_witness :
  logsqlite_log (H := release) (Some (demo_msg [demo_a x01; demo_a x02])) (demo_sqlite true) =
    pair PDNS_OK <$> foldM (push_row (H := release)) demo_rows (demo_sqlite true).
Proof.
  apply (logsqlite_log_queues_rows (H := release) (demo_msg [demo_a x01; demo_a x02])
    (demo_response [demo_a x01; demo_a x02]) demo_header);
    [done|by vm_compute| |done|by vm_compute].
  repeat apply Forall_cons_2; done || constructor.
Defined.

Lemma multi_record_rows_lost_witness :
  ∃ s' q', logsqlite_log (H := release) (Some (demo_msg [demo_a x01; demo_a x02])) (demo_sqlite true) =
      Ok (PDNS_OK, s') ∧ fifo s' = Some q' ∧
    mb_slot (Mailbox := @fifo_mailbox release _) q' = demo_sql <$> demo_rows !! 0.
Proof.
  destruct demo_rows as [|row1 rows] eqn:E; [by vm_compute in E|].
  assert (∃ row2, rows = [row2]) as [row2 ->] by (vm_compute in E; injection E as _ <-; by eexists).
  apply (multi_record_rows_lost (H := release) (demo_msg [demo_a x01; demo_a x02])
    (demo_response [demo_a x01; demo_a x02]) demo_header row1 [row2] (demo_sqlite true)
    fifo_empty (demo_sql row1)).
  - done.
  - by vm_compute.
  - repeat apply Forall_cons_2; done || constructor.
  - rewrite <- E. by vm_compute.
  - done.
  - apply fifo_empty_wf.
  - done.
  - vm_compute in E. injection E as <- _. by vm_compute.
  - apply Forall_cons_2; [|constructor]. vm_compute in E. injection E as _ <-. vm_compute. by eexists.
Defined.

Lemma stop_keeps_committed_witness :
  ∃ s', logsqlite_stop (H := release) false (demo_sqlite false) = Ok (PDNS_OK, s') ∧
    durable (sq s') = [] ∧ pending (sq s') = None ∧ fifo s' = Some fifo_empty.
Proof.
  destruct (stop_keeps_committed (H := release) (demo_sqlite false) eq_refl) as (s' & ? & ? & ? & ?).
  by exists s'.
Defined.

Definition demo_sqlite_ini : list byte := bs "[sqlite3]
disabled=1
dbfile=/var/log/logs.db
".

Definition demo_init : outcome (pdns_status * sqlite_t demo_queue) :=
  logsqlite_init (H := release) (λ _, Some demo_sqlite_ini) (Some (bs "ini"))
    (sqlite_statics (empty_db : @DB mem_sqlite)).

Lemma disabled_stop_joins_nothing_witness :
  ∃ st s', demo_init = Ok (st, s') ∧ st = PDNS_OK ∧
    logsqlite_stop (H := release) true s' = Fault BadThreadHandle.
Proof.
  assert (match demo_init with
          | Ok (st, s') => bool_decide (st = PDNS_OK) && disabled s'
          | Fault _ => false
          end = true) as Hi by (by vm_compute).
  destruct demo_init as [[st s']|f] eqn:E; [|done].
  apply andb_true_iff in Hi as [Hst Hd]. apply bool_decide_eq_true in Hst.
  exists st, s'. split; [done|]. split; [done|].
  exact (disabled_stop_joins_nothing (H := release) (λ _, Some demo_sqlite_ini) (bs "ini")
    demo_sqlite_ini _ true s' st eq_refl E Hd).
Defined.
