(* ===== verification/Background.v ===== *)
(** * The database thread and its owner: src/pdns-logger-sqlite.c, lines 149-175 and 232-245

    The background thread runs beside the loggers and the main thread.  [Sqlite] gives the
    operations as they work when undisturbed; here they are taken apart at the points where
    another thread can come between: the thread's first statement, the test of the flag, the
    queue's critical section, the execution of the statement it got; the four calls of a
    rotation; the two statements of a stop.  The queue's lock excludes the critical
    sections of each other, nothing protects the flag and the database handle. *)

From stdpp Require Import relations.
From S2P Require Import Prelude CLib Common Message Ini Fifo LogLine Sql Sqlite.

(** Where the threads are.  [BExec sql]: the thread has taken [sql] from the queue, which it no
    longer holds, and is about to execute it. *)
Inductive bg_pc := BCreated | BTest | BPop | BExec (sql : list byte) | BDone.
Inductive main_pc := MIdle | MLocked | MClosed | MReopened | MJoin | MStopped.

(** The main thread holds the queue's lock. *)
Definition locked (m : main_pc) : bool :=
  match m with MLocked | MClosed | MReopened => true | _ => false end.

Section background.
Context `{Build, Sqlite} {Q : Type} `{!Mailbox Q (list byte)}.
Implicit Types (s : sqlite_t Q) (m : main_pc) (u : bool).

(** [handle]: the handle [db] points to is open; [misused]: a closed one has been used. *)
Record sys := Sys {
  s_bg : bg_pc; s_main : main_pc; s_handle : bool; s_vars : sqlite_t Q; s_misused : bool;
}.

(** A step of [bg_thread_exec]. *)
Inductive bg_step : sys → sys → Prop :=
  | bg_begin m o s u : bg_step (Sys BCreated m o s u) (Sys BTest m o (bg_thread_begin s) u)
  | bg_test m o s u :
      bg_step (Sys BTest m o s u) (Sys (if bgrunning s then BPop else BDone) m o s u)
  | bg_pop m o s u q v q' :
      locked m = false → fifo s = Some q → mb_get q = Ok (v, q') →
      bg_step (Sys BPop m o s u)
        (Sys (if v is Some sql then BExec sql else BTest) m o (set_fifo (Some q') s) u)
  | bg_exec sql m s u st s' :
      db_exec sql s = Ok (st, s') → bg_step (Sys (BExec sql) m true s u) (Sys BTest m true s' u)
  | bg_misuse sql m s u : bg_step (Sys (BExec sql) m false s u) (Sys BTest m false s true).

(** A step of the main thread: [logsqlite_rotate], call by call, or [logsqlite_stop]. *)
Inductive main_step : sys → sys → Prop :=
  | rotate_lock b o s u : db s = true → main_step (Sys b MIdle o s u) (Sys b MLocked o s u)
  | rotate_close b o s u st s' :
      db_close s = Ok (st, s') → main_step (Sys b MLocked o s u) (Sys b MClosed false s' u)
  | rotate_open b o s u name st s' :
      dbfile s = Some name → db_open name s = Ok (st, s') →
      main_step (Sys b MClosed o s u) (Sys b MReopened true s' u)
  | rotate_unlock b o s u : main_step (Sys b MReopened o s u) (Sys b MIdle o s u)
  | stop_clear b o s u :
      main_step (Sys b MIdle o s u) (Sys b MJoin o (set_thread (bgthread s) false s) u)
  | stop_join o s u st s' :
      db_close s = Ok (st, s') → main_step (Sys BDone MJoin o s u) (Sys BDone MStopped false s' u).

(** A connection thread queues a statement. *)
Inductive push_step : sys → sys → Prop :=
  | push_item b m o s u sql s' :
      locked m = false → push_sql (Some sql) s = Ok s' →
      push_step (Sys b m o s u) (Sys b m o s' u).

Definition sys_step (c c' : sys) : Prop := bg_step c c' ∨ main_step c c' ∨ push_step c c'.

(** ** Undisturbed, the steps are the operations *)

Lemma bg_iteration_steps m s u s' :
  locked m = false → fifo s ≠ None → bg_iteration s = Ok s' →
  rtc bg_step (Sys BPop m true s u) (Sys BTest m true s' u).
Proof.
  intros Hl Hf Hit. unfold bg_iteration in Hit. destruct (fifo s) as [q|] eqn:Hq; [|done].
  apply outcome_bind_ok in Hit as ([v s1] & Hget & Hit).
  apply outcome_bind_ok in Hget as ([v' q'] & Hget & [= <- <-]).
  eapply rtc_l; [by eapply bg_pop|]. destruct v' as [sql|].
  - destruct (db_exec sql _) as [[st s2]|] eqn:He; [|done]. injection Hit as <-.
    apply rtc_once. by eapply bg_exec.
  - injection Hit as <-. apply rtc_refl.
Qed.

Lemma rotate_steps b s u st s' :
  db s = true → logsqlite_rotate s = Ok (st, s') →
  rtc main_step (Sys b MIdle true s u) (Sys b MIdle true s' u).
Proof.
  intros Hdb Hrot. unfold logsqlite_rotate in Hrot. rewrite Hdb in Hrot.
  apply outcome_bind_ok in Hrot as ([st1 s1] & Hc & Hrot). destruct (dbfile s1) as [name|] eqn:Hn; [|done].
  apply outcome_bind_ok in Hrot as ([st2 s2] & Ho & [= <- <-]).
  do 3 (eapply rtc_l; [by econstructor|]). apply rtc_once. constructor.
Qed.

Lemma stop_steps s u st s' :
  logsqlite_stop false s = Ok (st, s') →
  rtc sys_step (Sys BTest MIdle true s u) (Sys BDone MStopped false s' u).
Proof.
  intros Hst. unfold logsqlite_stop in Hst. apply outcome_bind_ok in Hst as (s1 & H1 & Hc).
  unfold bg_thread_stop in H1. cbn in H1. destruct (bgthread s) eqn:Hb; [|done]. injection H1 as <-.
  eapply rtc_l; [right; left; apply stop_clear|]. eapply rtc_l; [left; apply bg_test|].
  apply rtc_once. right; left. cbn. rewrite Hb. by eapply stop_join.
Qed.

(** ** Stopping *)

(** What each step keeps of the variables the threads share. *)
Lemma db_exec_frame sql s st s' : db_exec sql s = Ok (st, s') → frame s s'.
Proof.
  rewrite db_exec_is_spec. intros [= Heq]. pose proof (exec_spec_frame sql s) as Hf.
  by rewrite Heq in Hf.
Qed.

Lemma push_sql_fifo sql s s' : push_sql (Some sql) s = Ok s' → ∃ q, s' = set_fifo q s.
Proof.
  unfold push_sql. destruct (fifo s) as [q|] eqn:E.
  - intros Hq. apply outcome_bind_ok in Hq as (q' & _ & [= <-]). eauto.
  - intros [= <-]. exists (fifo s). by destruct s.
Qed.

(** The queue is in order. *)
Definition queue_ok s : Prop := ∃ q, fifo s = Some q ∧ mb_inv q.

Lemma push_sql_queue sql s s' : queue_ok s → push_sql (Some sql) s = Ok s' → queue_ok s'.
Proof.
  intros (q & Hq & Hinv) Hp. unfold push_sql in Hp. rewrite Hq in Hp.
  apply outcome_bind_ok in Hp as (q' & Hput & [= <-]). exists q'. split; [done|].
  destruct (mb_slot q) as [w|] eqn:Hs.
  - pose proof (mb_put_full q sql w Hinv Hs) as Hf. destruct ndebug; naive_solver congruence.
  - destruct (mb_put_empty q sql Hinv Hs) as (q'' & Hput' & ? & _). congruence.
Qed.

(** The flag is cleared, the thread had begun, and the main thread waits for it. *)
Record stopping (c : sys) : Prop := {
  st_main : s_main c = MJoin;
  st_begun : s_bg c ≠ BCreated;
  st_flag : bgrunning (s_vars c) = false;
  st_handle : s_handle c = true;
  st_queue : queue_ok (s_vars c);
}.

(** The turns the thread still needs. *)
Definition turns (b : bg_pc) : nat :=
  match b with BCreated => 4 | BPop => 3 | BExec _ => 2 | BTest => 1 | BDone => 0 end.

Lemma stopping_bg_step c c' : stopping c → bg_step c c' → stopping c' ∧ turns (s_bg c') < turns (s_bg c).
Proof.
  intros [Hm Hb Hf Ho Hq] Hst.
  destruct Hst as [m o s u|m o s u|m o s u q v q' Hl Hfi Hget|sql m s u st s' He|sql m s u]; simplify_eq/=.
  - rewrite Hf. split; [by split|simpl; lia].
  - destruct Hq as (q0 & Hq0 & Hinv). assert (q0 = q) as -> by congruence.
    destruct (mb_get_slot q Hinv) as (q1 & Hget' & Hinv' & _). rewrite Hget in Hget'. injection Hget' as -> <-.
    split; [|destruct (mb_slot q); simpl; lia]. split; simpl; try done; [by destruct (mb_slot q)|by exists q'].
  - apply db_exec_frame in He as (_ & _ & _ & Hfi & _ & Hr & _). split; [|lia].
    split; simpl; [done|done|congruence|done|]. unfold queue_ok. by rewrite Hfi.
Qed.

Lemma stopping_progress c :
  stopping c →
  (s_bg c ≠ BDone ∧ ∃ c', bg_step c c') ∨
  (s_bg c = BDone ∧ ∃ c', main_step c c' ∧ s_main c' = MStopped).
Proof.
  intros [Hm Hb Hf Ho (q & Hq & Hinv)]. destruct c as [b m o s u]. cbn in *. subst m o.
  destruct b as [| | |sql|]; [done| | | |].
  - left. split; [done|]. eexists. apply bg_test.
  - left. split; [done|]. destruct (mb_get_slot q Hinv) as (q' & Hget & _).
    eexists. by eapply bg_pop.
  - left. split; [done|]. pose proof (db_exec_is_spec sql s) as He.
    destruct (exec_spec sql s) as [st s']. eexists. by eapply bg_exec.
  - right. split; [done|]. eexists. split; [by eapply stop_join|done].
Qed.

Lemma stopping_step c c' :
  stopping c → sys_step c c' →
  s_main c' = MStopped ∨ stopping c' ∧ turns (s_bg c') ≤ turns (s_bg c).
Proof.
  intros Hs [Hst|[Hst|Hst]].
  - right. destruct (stopping_bg_step c c' Hs Hst). split; [done|lia].
  - left. destruct Hs as [Hm _ _ _ _]. by destruct Hst.
  - right. destruct Hs as [Hm Hb Hf Ho Hq]. destruct Hst as [b m o s u sql s' Hl Hp]. cbn in *.
    split; [|done]. pose proof (push_sql_queue sql s s' Hq Hp).
    apply push_sql_fifo in Hp as [q ->]. by split.
Qed.

Lemma stopped_is_final c c' : s_main c = MStopped → sys_step c c' → s_main c' = MStopped.
Proof. intros Hm [Hst|[Hst|Hst]]; by destruct Hst. Qed.

Lemma stopping_run c c' :
  stopping c → rtc sys_step c c' →
  s_main c' = MStopped ∨ stopping c' ∧ turns (s_bg c') ≤ turns (s_bg c).
Proof.
  intros Hs Hr. induction Hr as [c|c c1 c' Hst Hr IH]; [by right|].
  destruct (stopping_step c c1 Hs Hst) as [Hm|[Hs1 Ht]].
  - left. clear -Hm Hr. induction Hr as [|x y z Hxy _ IH]; [done|].
    apply IH. by eapply stopped_is_final.
  - destruct (IH Hs1) as [?|[? ?]]; [by left|right]. split; [done|lia].
Qed.

(** C7: Stopping ends.  Once the thread has begun, a cleared flag makes it return: however the
    remaining steps of the threads are interleaved, the thread is never blocked and needs at
    most three more turns of its own (the statement it holds is still executed), after which
    [pthread_join] lets the main thread go on and close the database. *)
Theorem stop_returns c c' :
  stopping c → rtc sys_step c c' →
  s_main c' = MStopped ∨
  turns (s_bg c') ≤ turns (s_bg c) ≤ 3 ∧
  ((s_bg c' ≠ BDone ∧ ∃ c'', bg_step c' c'') ∨
   (s_bg c' = BDone ∧ ∃ c'', main_step c' c'' ∧ s_main c'' = MStopped)) ∧
  ∀ c'', bg_step c' c'' → turns (s_bg c'') < turns (s_bg c').
Proof.
  intros Hs Hr. destruct (stopping_run c c' Hs Hr) as [?|[Hs' Ht]]; [by left|right]. split_and!.
  - done.
  - destruct Hs as [_ Hb _ _ _]. destruct (s_bg c); simpl; done || lia.
  - by apply stopping_progress.
  - intros c'' Hst. by apply (stopping_bg_step c' c'').
Qed.

(** ** The race between starting and stopping *)

(** The main thread waits for a thread that has set the flag again, or will. *)
Definition hung (c : sys) : Prop :=
  s_main c = MJoin ∧ (s_bg c = BCreated ∨ s_bg c ≠ BDone ∧ bgrunning (s_vars c) = true).

Lemma hung_step c c' : hung c → sys_step c c' → hung c'.
Proof.
  intros [Hm Hb] [Hst|[Hst|Hst]].
  - destruct Hst as [m o s u|m o s u|m o s u q v q' Hl Hfi Hget|sql m s u st s' He|sql m s u];
      simplify_eq/=; (split; [done|right]); destruct Hb as [|[Hd Hr]]; try done; cbn.
    + by rewrite Hr.
    + by destruct v.
    + apply db_exec_frame in He as (_ & _ & _ & _ & _ & Hr' & _). split; [done|congruence].
  - destruct Hst; simplify_eq/=. by destruct Hb as [|[]].
  - destruct Hst as [b m o s u sql s' Hl Hp]. apply push_sql_fifo in Hp as [q ->]. by split.
Qed.

(** C38: Stopping may hang.  If the daemon is told to stop before the new thread has executed its
    first statement, which sets the flag, that statement undoes the stop: a run leads from the
    state after [bg_thread_start] to one from which, whatever the threads do,
    [pthread_join] never returns. *)
Theorem early_stop_hangs s :
  ∃ c, rtc sys_step (Sys BCreated MIdle true s false) c ∧ s_main c = MJoin ∧
    ∀ c', rtc sys_step c c' → s_main c' = MJoin ∧ s_bg c' ≠ BDone.
Proof.
  exists (Sys BCreated MJoin true (set_thread (bgthread s) false s) false). split_and!.
  - apply rtc_once. right; left. apply stop_clear.
  - done.
  - intros c' Hr. enough (hung c') as [? [->|[? _]]] by done.
    assert (hung (Sys BCreated MJoin true (set_thread (bgthread s) false s) false)) as Hh
      by (split; [done|by left]).
    revert Hh. induction Hr as [|x y z Hxy _ IH]; [done|]. intros Hh. apply IH.
    by eapply hung_step.
Qed.

(** ** Rotation *)

(** Steps taken while the main thread holds the queue's lock. *)
Definition rotation_step (c c' : sys) : Prop := locked (s_main c) = true ∧ sys_step c c'.

(** No closed handle has been used, and the thread holds no statement. *)
Definition at_rest (c : sys) : Prop := s_misused c = false ∧ ∀ sql, s_bg c ≠ BExec sql.

Lemma at_rest_step c c' : at_rest c → rotation_step c c' → at_rest c'.
Proof.
  intros [Hu Hx] [Hl [Hst|[Hst|Hst]]]; destruct Hst; cbn in *; split; cbn; try done; try congruence.
  - intros sql. by destruct (bgrunning s).
  - by specialize (Hx sql).
Qed.

(** C39: Rotation and the thread.  The queue's lock, held while the database is closed and opened
    again, keeps the thread from getting a statement meanwhile: if it held none when the
    rotation began, no closed handle is used during the rotation.  But a statement taken from
    the queue before the lock was taken is executed without it: there is a run in which
    [sqlite3_exec] gets the handle that [sqlite3_close] has freed. *)
Theorem rotation_race s q sql :
  (∀ c c', at_rest c → rtc rotation_step c c' → at_rest c') ∧
  (db s = true → fifo s = Some q → mb_inv q → mb_slot q = Some sql →
   ∃ c, rtc sys_step (Sys BPop MIdle true s false) c ∧ locked (s_main c) = true ∧
     s_handle c = false ∧ s_misused c = true).
Proof.
  split.
  - intros c c' Hc Hr. revert Hc. induction Hr as [|x y z Hxy _ IH]; [done|].
    intros Hc. apply IH. by eapply at_rest_step.
  - intros Hdb Hq Hinv Hs. destruct (mb_get_slot q Hinv) as (q' & Hget & _). rewrite Hs in Hget.
    set (s1 := set_fifo (Some q') s). eexists. split_and!.
    + eapply rtc_l; [left; by eapply bg_pop|]. eapply rtc_l; [right; left; by apply rotate_lock|].
      eapply rtc_l; [right; left; by eapply rotate_close|]. apply rtc_once. left. apply bg_misuse.
    + done.
    + done.
    + done.
Qed.
End background.

(** ** Concrete instances *)

Section instances.
#[local] Existing Instance release.
#[local] Existing Instance mem_sqlite.
#[local] Existing Instance fifo_mailbox.

Definition demo_stopping (b : bg_pc) : @sys mem_sqlite demo_queue :=
  Sys b MJoin true (set_thread true false (demo_sqlite true)) false.

Lemma stop_returns_witness :
  bg_step (demo_stopping BTest) (demo_stopping BDone) ∧
  ∃ c, main_step (demo_stopping BDone) c ∧ s_main c = MStopped.
Proof.
  assert (bg_step (demo_stopping BTest) (demo_stopping BDone)) as Hst by apply bg_test.
  split; [exact Hst|].
  destruct (@stop_returns release mem_sqlite demo_queue fifo_mailbox (demo_stopping BTest)
    (demo_stopping BDone)) as [Hm|(_ & [[Hd _]|[_ Hc]] & _)].
  - split; [done..|]. exists fifo_empty. split; [done|apply fifo_empty_wf].
  - apply rtc_once. left. exact Hst.
  - discriminate Hm.
  - by destruct Hd.
  - exact Hc.
Defined.

Lemma rotation_race_witness :
  ∃ s c, fifo s ≠ None ∧ rtc sys_step (Sys BPop MIdle true s false : @sys mem_sqlite demo_queue) c ∧
    locked (s_main c) = true ∧ s_handle c = false ∧ s_misused c = true.
Proof.
  destruct (@mb_empty_ok release demo_queue (list byte) fifo_mailbox) as [He Hes].
  destruct (mb_put_empty mb_empty (demo_insert x01) He Hes) as (q & _ & Hinv & Hs).
  exists (set_fifo (Some q) (demo_sqlite true)).
  destruct (@rotation_race release mem_sqlite demo_queue fifo_mailbox
    (set_fifo (Some q) (demo_sqlite true)) q (demo_insert x01)) as [_ [c Hc]]; try done.
  by exists c.
Defined.
End instances.
