(* ===== verification/Engines.v ===== *)
(** * The logging engines: src/pdns-logger.c, lines 27-81

    The table of engines and the four loops over it, and the three engines it is filled
    with, on the state of all backends.  [pdns_loggers_log] is what the connection threads
    call: this file discharges the interface [LogSink] they are verified against, and
    composes the connection with the file backend. *)

From S2P Require Import Prelude CLib Common Message Ini Config Protobuf Fifo LogLine.
From S2P Require Import Stdio Logfile Syslog Sql Sqlite.

Section dispatch.
Context {M S : Type}.
Implicit Types (es : list (pdns_logger_t M S)).

(** The body of each loop: a null entry is skipped, the status is ignored. *)
Definition call (f : option (S → outcome (pdns_status * S))) (s : S) : outcome S :=
  match f with None => mret s | Some f => snd <$> f s end.

Definition pdns_loggers_log es (pbm : M) (s : S) : outcome (pdns_status * S) :=
  s ← foldM (λ e, call ((λ f, f pbm) <$> log e)) es s; mret (PDNS_OK, s).

Definition pdns_loggers_rotate es (s : S) : outcome (pdns_status * S) :=
  s ← foldM (λ e, call (rotate e)) es s; mret (PDNS_OK, s).

(** The loop of [loggers_initialize], over the entries filled in before it. *)
Definition loggers_start es (conf : cstring) (s : S) : outcome (pdns_status * S) :=
  s ← foldM (λ e, call ((λ f, f conf) <$> start e)) es s; mret (PDNS_OK, s).

Definition loggers_halt es (s : S) : outcome (pdns_status * S) :=
  s ← foldM (λ e, call (stop e)) es s; mret (PDNS_OK, s).
End dispatch.

Section daemon.
Context `{Build, Stdio, Sqlite} {Q : Type} `{!Mailbox Q (list byte)}.

(** The static variables of the three backends. *)
Record daemon := {
  d_logfile : logfile_t;
  d_syslog : syslog_t;
  d_sqlite : sqlite_t Q;
}.

Definition on_logfile (f : logfile_t → outcome (pdns_status * logfile_t)) (d : daemon) :
    outcome (pdns_status * daemon) :=
  '(st, s) ← f (d_logfile d);
  mret (st, {| d_logfile := s; d_syslog := d_syslog d; d_sqlite := d_sqlite d |}).
Definition on_syslog (f : syslog_t → outcome (pdns_status * syslog_t)) (d : daemon) :
    outcome (pdns_status * daemon) :=
  '(st, s) ← f (d_syslog d);
  mret (st, {| d_logfile := d_logfile d; d_syslog := s; d_sqlite := d_sqlite d |}).
Definition on_sqlite (f : sqlite_t Q → outcome (pdns_status * sqlite_t Q)) (d : daemon) :
    outcome (pdns_status * daemon) :=
  '(st, s) ← f (d_sqlite d);
  mret (st, {| d_logfile := d_logfile d; d_syslog := d_syslog d; d_sqlite := s |}).

(** [files]: the contents of the files that can be read.  [last]: where the database
    thread is when it is told to stop. *)
Context (files : list byte → option (list byte)) (last : bool).

Definition logfile_engine : pdns_logger_t (option PBDNSMessage) daemon := {|
  start := Some (λ conf, on_logfile (logfile_init files conf));
  rotate := Some (on_logfile logfile_rotate);
  stop := Some (on_logfile logfile_stop);
  log := Some (λ m, on_logfile (logfile_log m)) |}.

Definition syslog_engine : pdns_logger_t (option PBDNSMessage) daemon := {|
  start := Some (λ conf, on_syslog (syslog_init files conf));
  rotate := Some (on_syslog syslog_rotate);
  stop := Some (on_syslog syslog_stop);
  log := Some (λ m, on_syslog (syslog_log m)) |}.

Definition sqlite_engine : pdns_logger_t (option PBDNSMessage) daemon := {|
  start := Some (λ conf, on_sqlite (logsqlite_init files conf));
  rotate := Some (on_sqlite logsqlite_rotate);
  stop := Some (on_sqlite (logsqlite_stop last));
  log := Some (λ m, on_sqlite (logsqlite_log m)) |}.

(** [engines], once [loggers_initialize] has filled it. *)
Definition engines : list (pdns_logger_t (option PBDNSMessage) daemon) :=
  [logfile_engine; syslog_engine; sqlite_engine].

Definition loggers_initialize (conf : cstring) (d : daemon) : outcome (pdns_status * daemon) :=
  loggers_start engines conf d.

(** What the connection threads call. *)
#[global] Instance engine_sink : LogSink daemon :=
  {| Protobuf.pdns_loggers_log m d := snd <$> pdns_loggers_log engines (Some m) d |}.
End daemon.
Arguments daemon {_} Q.

(** ** The engines do not disturb each other *)

Section dispatch_lemmas.
Context `{Build, Stdio, Sqlite} {Q : Type} `{!Mailbox Q (list byte)}.
Context (files : list byte → option (list byte)) (last : bool).
Implicit Types (d : daemon Q).

(** The three components of a step that treats each by itself. *)
Definition each {A B C} (a : outcome (pdns_status * A)) (b : outcome (pdns_status * B))
    (c : outcome (pdns_status * C)) : outcome (A * B * C) :=
  '(_, x) ← a; '(_, y) ← b; '(_, z) ← c; mret (x, y, z).

Definition of_parts (p : logfile_t * syslog_t * sqlite_t Q) : daemon Q :=
  {| d_logfile := p.1.1; d_syslog := p.1.2; d_sqlite := p.2 |}.

Lemma log_each m d :
  pdns_loggers_log (engines files last) m d =
    (λ p, (PDNS_OK, of_parts p)) <$>
      each (logfile_log m (d_logfile d)) (syslog_log m (d_syslog d)) (logsqlite_log m (d_sqlite d)).
Proof.
  unfold each, engines, pdns_loggers_log. cbn [foldM call log logfile_engine syslog_engine
    sqlite_engine fmap option_fmap option_map]. unfold on_logfile, on_syslog, on_sqlite.
  destruct (logfile_log _ _) as [[? s1]|]; [|done]. cbn.
  destruct (syslog_log _ _) as [[? s2]|]; [|done]. cbn.
  by destruct (logsqlite_log _ _) as [[? s3]|].
Qed.

Lemma rotate_each d :
  pdns_loggers_rotate (engines files last) d =
    (λ p, (PDNS_OK, of_parts p)) <$>
      each (logfile_rotate (d_logfile d)) (syslog_rotate (d_syslog d)) (logsqlite_rotate (d_sqlite d)).
Proof.
  unfold each, engines, pdns_loggers_rotate. cbn [foldM call rotate logfile_engine syslog_engine
    sqlite_engine]. unfold on_logfile, on_syslog, on_sqlite.
  destruct (logfile_rotate _) as [[? s1]|]; [|done]. cbn.
  by destruct (logsqlite_rotate _) as [[? s3]|].
Qed.

Lemma start_each conf d :
  loggers_initialize files last conf d =
    (λ p, (PDNS_OK, of_parts p)) <$>
      each (logfile_init files conf (d_logfile d)) (syslog_init files conf (d_syslog d))
        (logsqlite_init files conf (d_sqlite d)).
Proof.
  unfold each, loggers_initialize, loggers_start, engines. cbn [foldM call start logfile_engine
    syslog_engine sqlite_engine fmap option_fmap option_map]. unfold on_logfile, on_syslog, on_sqlite.
  destruct (logfile_init _ _ _) as [[? s1]|]; [|done]. cbn.
  destruct (syslog_init _ _ _) as [[? s2]|]; [|done]. cbn.
  by destruct (logsqlite_init _ _ _) as [[? s3]|].
Qed.

Lemma halt_each d :
  loggers_halt (engines files last) d =
    (λ p, (PDNS_OK, of_parts p)) <$>
      each (logfile_stop (d_logfile d)) (syslog_stop (d_syslog d)) (logsqlite_stop last (d_sqlite d)).
Proof.
  unfold each, engines, loggers_halt. cbn [foldM call stop logfile_engine syslog_engine
    sqlite_engine]. unfold on_logfile, on_syslog, on_sqlite.
  destruct (logfile_stop _) as [[? s1]|]; [|done]. cbn.
  by destruct (logsqlite_stop _ _) as [[? s3]|].
Qed.

(** The parts of a step that succeeded. *)
Lemma each_ok {st d'} (a : outcome (pdns_status * logfile_t)) (b : outcome (pdns_status * syslog_t))
    (c : outcome (pdns_status * sqlite_t Q)) :
  (λ p, (PDNS_OK, of_parts p)) <$> each a b c = Ok (st, d') →
  ∃ sta stb stc, a = Ok (sta, d_logfile d') ∧ b = Ok (stb, d_syslog d') ∧ c = Ok (stc, d_sqlite d').
Proof.
  destruct a as [[sta x]|]; [|done]. destruct b as [[stb y]|]; [|done].
  destruct c as [[stc z]|]; [|done]. intros [= _ <-]. eauto 10.
Qed.
End dispatch_lemmas.

(** ** From the bytes of a connection to the backends *)

Section end_to_end.
Context `{Build, Stdio, Sqlite, Decoder} {Q : Type} `{!Mailbox Q (list byte)}.
Context (files : list byte → option (list byte)) (last : bool).
Implicit Types (d : daemon Q).

#[local] Instance sink : LogSink (daemon Q) := engine_sink files last.

(** What a message becomes: lines of the log file, lines for the system logger, rows. *)
Record output := {
  o_file : list (list byte); o_syslog : list (list byte); o_rows : list row;
}.

(** The output of a message under the daemon's settings; a backend that is disabled, or
    that the message does not concern, has none. *)
Definition outputs d (m : PBDNSMessage) (o : output) : Prop :=
  writable (Logfile.rewrites_only (d_logfile d)) (Logfile.disabled (d_logfile d)) m (o_file o) ∧
  writable (Syslog.rewrites_only (d_syslog d)) (Syslog.disabled (d_syslog d)) m (o_syslog o) ∧
  log_rows (Sqlite.rewrites_only (d_sqlite d)) (Sqlite.disabled (d_sqlite d)) (Some m) =
    Ok (o_rows o).

(** Every backend outputs its part; only the database's queue can fail, in a debug build. *)
Definition emit (os : list output) d : outcome (daemon Q) :=
  s ← foldM push_row (concat (o_rows <$> os)) (d_sqlite d);
  mret {| d_logfile := write_lines (concat (o_file <$> os)) (d_logfile d);
          d_syslog := send_lines (concat (o_syslog <$> os)) (d_syslog d); d_sqlite := s |}.

Lemma outputs_settings os d d' m o :
  emit os d = Ok d' → outputs d m o → outputs d' m o.
Proof.
  unfold emit. intros He. apply outcome_bind_ok in He as (s & Hs & [= <-]).
  apply push_rows_frame in Hs as [q ->]. unfold outputs. cbn [d_logfile d_syslog d_sqlite].
  destruct (write_lines_settings (concat (o_file <$> os)) (d_logfile d)) as (_ & -> & -> & _).
  by rewrite send_lines_sent.
Qed.

Lemma deliver_emits p m o d :
  unpack p = Some m → outputs d m o → deliver p d = emit [o] d.
Proof.
  intros Hun (Hf & Hs & Hr). unfold deliver, protobuf_parse, emit. rewrite Hun.
  cbn [Protobuf.pdns_loggers_log sink engine_sink fmap list_fmap concat]. rewrite log_each, !app_nil_r.
  rewrite (logfile_log_writable _ _ _ Hf), (syslog_log_writable _ _ _ Hs).
  rewrite (logsqlite_log_pushes _ _ _ Hr). by destruct (foldM push_row _ _).
Qed.

Lemma emit_cons o os d : emit (o :: os) d = emit [o] d ≫= emit os.
Proof.
  unfold emit. cbn [fmap list_fmap concat]. rewrite foldM_app, !app_nil_r, !outcome_bind_assoc.
  apply outcome_bind_ext. intros s. cbn [mbind outcome_bind mret outcome_ret d_sqlite d_logfile d_syslog].
  apply outcome_bind_ext. intros s'. unfold write_lines, send_lines. by rewrite !foldl_app.
Qed.

Lemma deliver_all_emits ps ms os d :
  Forall2 (λ p m, unpack p = Some m) ps ms → Forall2 (outputs d) ms os →
  foldM deliver ps d = emit os d.
Proof.
  intros Hun; revert os d. induction Hun as [|p m ps ms Hp Hun IH]; intros os d Ho.
  { apply Forall2_nil_inv_l in Ho as ->. by destruct d. }
  apply Forall2_cons_inv_l in Ho as (o & os' & Ho & Hos & ->).
  cbn [foldM]. rewrite emit_cons, (deliver_emits p m o d Hp Ho).
  destruct (emit [o] d) as [d1|] eqn:E; [|done]. cbn [mbind outcome_bind]. apply IH.
  eapply Forall2_impl; [exact Hos|]. intros m' o'. by eapply outputs_settings.
Qed.

Lemma thread_emits getfl setfl buffer s flags ps ms os d :
  thread_ready getfl setfl buffer s flags →
  Forall (λ p, length p + 2 ≤ MAX_BUFFER_SIZE) ps →
  concat (sk_chunks s) = concat (encode_frame <$> ps) →
  Forall2 (λ p m, unpack p = Some m) ps ms → Forall2 (outputs d) ms os →
  socket_thread_exec getfl setfl buffer s d =
    d' ← emit os d;
    Ok (Served flags {| ce_state := d'; ce_reason := ending_reason (sk_ending s); ce_bsize := 0 |}).
Proof.
  intros Hr Hsm Hcat Hun Ho. rewrite (thread_frames getfl setfl buffer s flags ps d Hr Hsm Hcat).
  by rewrite (deliver_all_emits ps ms os d Hun Ho).
Qed.

(** What the log file holds after [emit]. *)
Lemma emit_logfile os d d' f :
  emit os d = Ok d' → fp (d_logfile d) = Some f →
  ∃ f', fp (d_logfile d') = Some f' ∧
    view (world (d_logfile d')) f' =
      view (world (d_logfile d)) f ++ concat ((.++ [LF]) <$> concat (o_file <$> os)) ∧
    (concat (o_file <$> os) ≠ [] → force_flush (d_logfile d) = true →
     content (world (d_logfile d')) (f_ino f) =
       view (world (d_logfile d)) f ++ concat ((.++ [LF]) <$> concat (o_file <$> os))).
Proof.
  intros He Hf. unfold emit in He. apply outcome_bind_ok in He as (s & _ & [= <-]).
  destruct (write_lines_view (concat (o_file <$> os)) _ _ Hf) as [_ (f' & Hf' & Hi & Hv & Hb & _)].
  exists f'. split_and!; [done|done|]. intros Hne Hff.
  rewrite <- Hv, <- Hi. unfold view. by rewrite (Hb Hne Hff), app_nil_r.
Qed.

(** Only the file backend is enabled. *)
Definition file_only d : Prop :=
  Syslog.disabled (d_syslog d) = true ∧ Sqlite.disabled (d_sqlite d) = true.

Definition file_output (ls : list (list byte)) : output :=
  {| o_file := ls; o_syslog := []; o_rows := [] |}.

Lemma file_only_outputs d m ls :
  file_only d →
  writable (Logfile.rewrites_only (d_logfile d)) (Logfile.disabled (d_logfile d)) m ls →
  outputs d m (file_output ls).
Proof.
  intros [Hsy Hsq] Hw. split_and!; [done|left|]; cbn; rewrite ?Hsy, ?Hsq; by destruct m_response.
Qed.

(** From the socket to the disk.  A client sends messages, cut into pieces in any way
    by the network; only the file backend is enabled.  Then the log file's stream gets
    exactly the documented lines of those messages, in order, and with [force-flush]
    they are in the file when the connection ends. *)
Theorem stream_reaches_logfile getfl setfl buffer s flags ps ms lss d f :
  thread_ready getfl setfl buffer s flags →
  Forall (λ p, length p + 2 ≤ MAX_BUFFER_SIZE) ps →
  concat (sk_chunks s) = concat (encode_frame <$> ps) →
  Forall2 (λ p m, unpack p = Some m) ps ms → file_only d → fp (d_logfile d) = Some f →
  Forall2 (writable (Logfile.rewrites_only (d_logfile d)) (Logfile.disabled (d_logfile d))) ms lss →
  ∃ d' f',
    socket_thread_exec getfl setfl buffer s d =
      Ok (Served flags {| ce_state := d'; ce_reason := ending_reason (sk_ending s); ce_bsize := 0 |}) ∧
    fp (d_logfile d') = Some f' ∧
    view (world (d_logfile d')) f' =
      view (world (d_logfile d)) f ++ concat ((.++ [LF]) <$> concat lss) ∧
    (concat lss ≠ [] → force_flush (d_logfile d) = true →
     content (world (d_logfile d')) (f_ino f) =
       view (world (d_logfile d)) f ++ concat ((.++ [LF]) <$> concat lss)).
Proof.
  intros Hr Hsm Hcat Hun Hd Hf Hw.
  assert (Forall2 (outputs d) ms (file_output <$> lss)) as Ho.
  { apply Forall2_fmap_r. eapply Forall2_impl; [exact Hw|]. intros m ls. by apply file_only_outputs. }
  assert (concat (o_rows <$> (file_output <$> lss)) = []) as Hrows.
  { clear. induction lss; [done|]. by cbn. }
  assert (o_file <$> (file_output <$> lss) = lss) as Hls.
  { rewrite <- list_fmap_compose. apply list_fmap_id. }
  rewrite (thread_emits _ _ _ _ _ _ _ _ _ Hr Hsm Hcat Hun Ho).
  destruct (emit _ d) as [d'|] eqn:He; [|unfold emit in He; by rewrite Hrows in He].
  destruct (emit_logfile _ _ _ _ He Hf) as (f' & Hf' & Hv & Hc). rewrite Hls in *.
  by exists d', f'.
Qed.
End end_to_end.

(** ** The shipped configuration: config/pdns-logger.ini.in *)

Definition shipped_ini : list byte := bs "; Please add something like this:
;  protobufServer(" ++ [x22] ++ bs "127.0.0.1:4242" ++ [x22] ++ bs ", 2, 100, 1, 32, 128, false, true)
; to the LUA configuration file of the recursor.
; Note that the last parameter is supported only in 4.1.0 or later.
; Remove it if you're using a previous version of the recursor

[globals]
allow-root=0
bind-ip=127.0.0.1
bind-port=4242
;foreground=0            ; If set, this will override the CLI -f option


[logfile]
disabled = 0            ; should we disable the log-to-file backend ?
only-rewrites=1         ; log only RPZ rewrites
                        ; what is the path of our log file ?
logfile=/var/log/pdns-logger/pdns.log
force-flush=1           ; flush buffers to disk at each query


[syslog]
disabled = 1            ; Should we disable the syslog backend ?
only-rewrites=1         ; log only RPZ rewrites
ident=pdns-logger       ; the syslog ident
facility=syslog         ; the log facility


[sqlite3]
disabled = 1;           ; should we disable the sqlite3 backend ?
only-rewrites=1         ; log only RPZ rewrites
                        ; what is the path to our sqlite3 database ?
dbfile=/var/lib/pdns-logger/queries.db
autocommit=1            ; should the backend commit to file for every record ?

; NOTES:
;
; When configuring the recursor with the protobufServer() function, the taggedOnly parameter
; works only for 4.1.0 and later versions. This will affect the logger setting 'only-rewrites'
; which will become basically useless.
".

Definition shipped_logfile : list byte := bs "/var/log/pdns-logger/pdns.log".

(** The settings of the daemon itself. *)
Definition shipped_globals : globals_t :=
  Config.set_bind_port 4242 (Config.set_bind_ip (Some (bs "127.0.0.1")) globals_zero).

Section shipped.
Context `{Build, Stdio, Sqlite} {Q : Type} `{!Mailbox Q (list byte)}.

(** The static variables before [main] starts. *)
Definition statics (w : fs) (sq : DB) : daemon Q := {|
  d_logfile := logfile_statics w; d_syslog := syslog_statics; d_sqlite := sqlite_statics sq |}.

Lemma shipped_logfile_init b path w :
  openable w shipped_logfile = true →
  ∃ f w', logfile_init (λ _, Some shipped_ini) (Some (b :: path)) (logfile_statics w) =
      Ok (PDNS_OK, {| fp := Some f; file := Some shipped_logfile; force_flush := true;
            Logfile.rewrites_only := true; Logfile.disabled := false; world := w' |}) ∧
    dir w' !! shipped_logfile = Some (f_ino f) ∧ f_buf f = [].
Proof.
  intros Ho. unfold logfile_init.
  assert (ini_parse Logfile.opt_handler (Some shipped_ini) (logfile_statics w) =
    (0%Z, {| fp := None; file := Some shipped_logfile; force_flush := true;
             Logfile.rewrites_only := true; Logfile.disabled := false; world := w |})) as ->
    by (by vm_compute).
  destruct (fopen_a_ok _ _ Ho) as (f & w' & Hf & Hd & Hb). exists f, w'. split; [|done].
  cbn [Z.eqb negb Logfile.disabled file world].
  assert (shipped_logfile ≠ []) as Hne by done.
  destruct shipped_logfile as [|c name]; [done|]. by rewrite Hf.
Qed.

Lemma shipped_syslog_init b path :
  syslog_init (λ _, Some shipped_ini) (Some (b :: path)) syslog_statics =
    Ok (PDNS_OK, Syslog.set_disabled true syslog_statics).
Proof.
  unfold syslog_init.
  assert (ini_parse Syslog.opt_handler (Some shipped_ini) syslog_statics =
    (0%Z, Syslog.set_disabled true syslog_statics)) as -> by (by vm_compute). done.
Qed.

Lemma shipped_sqlite_init b path sq :
  ∃ s, logsqlite_init (λ _, Some shipped_ini) (Some (b :: path)) (sqlite_statics (Q := Q) sq) =
    Ok (PDNS_OK, s) ∧ Sqlite.disabled s = true.
Proof.
  unfold logsqlite_init.
  assert (ini_parse Sqlite.opt_handler (Some shipped_ini) (sqlite_statics (Q := Q) sq) =
    (0%Z, set_dbfile (Some (bs "/var/lib/pdns-logger/queries.db"))
            (set_flags true true true (sqlite_statics sq)))) as -> by (by vm_compute).
  by eexists.
Qed.

(** C23: The daemon as shipped.  Its configuration file parses without error for every
    reader; the file backend logs rewrites to /var/log/pdns-logger/pdns.log, flushing
    every line, the other two backends are disabled, and the daemon listens on port
    4242. *)
Theorem shipped_config_starts (last : bool) (path : list byte) w sq :
  path ≠ [] → openable w shipped_logfile = true →
  ∃ d f, loggers_initialize (λ _, Some shipped_ini) last (Some path) (statics w sq) =
      Ok (PDNS_OK, d) ∧
    fp (d_logfile d) = Some f ∧ Logfile.file (d_logfile d) = Some shipped_logfile ∧
    dir (world (d_logfile d)) !! shipped_logfile = Some (f_ino f) ∧
    force_flush (d_logfile d) = true ∧ Logfile.rewrites_only (d_logfile d) = true ∧
    Logfile.disabled (d_logfile d) = false ∧ file_only d ∧
    parse_config_file (λ _, Some shipped_ini) (Some path) globals_zero = (PDNS_OK, shipped_globals).
Proof.
  intros Hp Ho. destruct path as [|b path]; [done|].
  destruct (shipped_logfile_init b path w Ho) as (f & w' & E1 & Hd & _).
  destruct (shipped_sqlite_init b path sq) as (s & E3 & Hs).
  rewrite start_each. cbn [d_logfile d_syslog d_sqlite statics].
  rewrite E1, shipped_syslog_init, E3. eexists _, f. split; [reflexivity|].
  unfold file_only. cbn [d_logfile d_syslog d_sqlite fp file world force_flush Logfile.rewrites_only
    Logfile.disabled Syslog.disabled Syslog.set_disabled]. split_and!; [done..|].
  by vm_compute.
Qed.
End shipped.

(** ** Concrete instances *)

(** A decoder for which the payload "m" is a message with one address record. *)
Definition one_decoder : Decoder := {|
  unpack p := if bool_decide (p = bs "m") then Some (demo_msg [demo_a x01]) else None |}.

Definition demo_daemon : @daemon mem_sqlite demo_queue := {|
  d_logfile := demo_log;
  d_syslog := Syslog.set_disabled true syslog_statics;
  d_sqlite := set_flags true true true
    (sqlite_statics (empty_db : @DB mem_sqlite)) |}.

Lemma stream_reaches_logfile_witness :
  ∃ d' f',
    @socket_thread_exec release one_decoder (@daemon mem_sqlite demo_queue)
      (@engine_sink release block_stdio mem_sqlite demo_queue (@fifo_mailbox release _) (λ _, None) true)
      (Some 2%Z) (λ _, true) demo_buffer
      {| sk_chunks := [[x00]; [x01; x6d; x00; x01]; [x6d]]; sk_ending := PeerClosed |} demo_daemon =
      Ok (Served 2 {| ce_state := d'; ce_reason := ReadEof; ce_bsize := 0 |}) ∧
    fp (d_logfile d') = Some f' ∧
    view (world (d_logfile d')) f' =
      bs "old" ++ concat ((.++ [LF]) <$>
        @demo_lines release [demo_a x01] ++ @demo_lines release [demo_a x01]).
Proof.
  destruct (@stream_reaches_logfile release block_stdio mem_sqlite one_decoder demo_queue
    (@fifo_mailbox release _) (λ _, None) true (Some 2%Z) (λ _, true) demo_buffer
    {| sk_chunks := [[x00]; [x01; x6d; x00; x01]; [x6d]]; sk_ending := PeerClosed |} 2%Z
    [bs "m"; bs "m"] [demo_msg [demo_a x01]; demo_msg [demo_a x01]]
    [@demo_lines release [demo_a x01]; @demo_lines release [demo_a x01]] demo_daemon
    {| f_ino := 7; f_buf := [] |}) as (d' & f' & Hrun & Hf & Hv & _).
  - apply demo_ready. repeat constructor; discriminate.
  - apply demo_small. repeat constructor; simpl; lia.
  - reflexivity.
  - repeat constructor.
  - by split.
  - done.
  - repeat apply Forall2_cons_2; [check_writable release [demo_a x01]..|constructor].
  - exists d', f'. split; [exact Hrun|]. split; [exact Hf|].
    rewrite Hv. cbn [concat]. by rewrite app_nil_r.
Defined.

Lemma shipped_config_starts_witness :
  ∃ d f, @loggers_initialize release block_stdio mem_sqlite demo_queue (@fifo_mailbox release _)
      (λ _, Some shipped_ini) true (Some (bs "pdns-logger.ini"))
      (statics (demo_fs shipped_logfile) (empty_db : @DB mem_sqlite)) =
      Ok (PDNS_OK, d) ∧ fp (d_logfile d) = Some f.
Proof.
  destruct (@shipped_config_starts release block_stdio mem_sqlite demo_queue (@fifo_mailbox release _)
    true (bs "pdns-logger.ini") (demo_fs shipped_logfile) empty_db)
    as (d & f & Hi & Hf & _); [discriminate|reflexivity|].
  exists d, f. split; [exact Hi|exact Hf].
Defined.
