(* ===== verification/Pipeline.v ===== *)
(** * The whole path: src/pdns-logger-protobuf.c, src/dnsmessage.pb-c.c, src/pdns-logger.c

    The connection thread with the generated decoder, feeding the engines: from the bytes
    of a client, packed with the generated functions or arbitrary, to what the three
    backends output.  libprotobuf-c and SQLite stay parameters. *)

From S2P Require Import Prelude CLib Common Message Layout Descriptor Codec Wire Config Protobuf.
From S2P Require Import Fifo LogLine Stdio Logfile Syslog Sql Sqlite Engines.

(** The connection's decoder is [pbdnsmessage__unpack]. *)
#[global] Instance codec_decoder `{Abi, ProtobufC} : Decoder := {| unpack := unpack_message |}.

(** A message as a client sends it: packed, with its length in front. *)
Definition packed_frame `{Abi, ProtobufC} (m : PBDNSMessage) : list byte :=
  encode_frame (protobuf_c_message_pack program (store_pbdnsmessage m)).

(** The message fits the connection's buffer with its length. *)
Definition sendable `{Abi, ProtobufC} (m : PBDNSMessage) : Prop :=
  message_ok m = true ∧
  protobuf_c_message_get_packed_size program (store_pbdnsmessage m) + 2 ≤ MAX_BUFFER_SIZE.

Section frames.
Context `{Abi, Build, ProtobufCLaws}.

Lemma frame_decodes m :
  sendable m →
  let p := protobuf_c_message_pack program (store_pbdnsmessage m) in
  length p + 2 ≤ MAX_BUFFER_SIZE ∧ unpack p = Some m.
Proof.
  intros [Hok Hsz] p. rewrite packed_size_law in Hsz. split; [done|].
  apply unpack_packed; [done|]. pose proof MAX_value. unfold p in *. lia.
Qed.

Lemma frame_well_formed p m :
  length p ≤ MAX_BUFFER_SIZE → unpack p = Some m → msg_wf m.
Proof.
  intros Hlen Hp. cbn in Hp. destruct (pbdnsmessage__unpack p) as [raw|] eqn:Hu;
    [|by unfold unpack_message in Hp; rewrite Hu in Hp].
  destruct (unpacked_stored _ _ Hu) as (m' & _ & Hm' & Hok & Hr).
  assert (m' = m) as -> by congruence.
  apply message_ok_wf; [done|]. intros r Hr'. specialize (Hr r Hr'). pose proof MAX_value. lia.
Qed.

Lemma frames_small bytes : Forall (λ p, length p ≤ MAX_BUFFER_SIZE) (frames bytes).1.
Proof.
  induction bytes as [s Hn|s p rest Hn IH] using frames_ind; rewrite frames_eq, Hn; [constructor|].
  destruct (frames rest) as [ps r]. constructor; [|done].
  unfold next_frame in Hn. destruct s as [|hi [|lo s]]; [done..|].
  destruct (_ && _) eqn:E; [|done]. injection Hn as <- _. rewrite length_take.
  apply andb_true_iff in E as [E%Nat.leb_le _]. lia.
Qed.
End frames.

Section pipeline.
Context `{Abi, Build, ProtobufCLaws}.

(** A frame that is a message. *)
Definition decodes (p : list byte) : bool := if unpack_message p is Some _ then true else false.

(** The messages in front of the first frame that is none. *)
Fixpoint leading (ps : list (list byte)) : list PBDNSMessage :=
  match ps with
  | [] => []
  | p :: ps => if unpack_message p is Some m then m :: leading ps else []
  end.

(** The messages that reach the loggers: a debug build does not get past a frame that is no
    message. *)
Definition handed_on (ps : list (list byte)) : list PBDNSMessage :=
  if ndebug then omap unpack_message ps else leading ps.

Lemma handed_on_decoded ps m : m ∈ handed_on ps → ∃ p, p ∈ ps ∧ unpack_message p = Some m.
Proof.
  unfold handed_on. destruct ndebug; [apply list_elem_of_omap|].
  induction ps as [|p ps IH]; simpl; [by intros ?%elem_of_nil|].
  destruct (unpack_message p) as [m'|] eqn:E; [|by intros ?%elem_of_nil].
  rewrite elem_of_cons. intros [->|Hm]; [exists p; split; [left|done]|].
  destruct (IH Hm) as (p' & ? & ?). exists p'. split; [by right|done].
Qed.

Lemma deliver_all {St} `{!LogSink St} ps (st : St) :
  foldM deliver ps st =
    st' ← foldM Protobuf.pdns_loggers_log (handed_on ps) st;
    if ndebug || forallb decodes ps then Ok st' else Fault AssertionFailed.
Proof.
  unfold handed_on, decodes. revert st. induction ps as [|p ps IH]; intros st.
  { destruct ndebug; done. }
  cbn [foldM omap list_omap leading forallb]. change (deliver p st) with (snd <$> protobuf_parse p st).
  unfold protobuf_parse. cbn [unpack codec_decoder]. destruct (unpack_message p) as [m|] eqn:E.
  - cbn [andb]. destruct ndebug; cbn [foldM];
      (destruct (Protobuf.pdns_loggers_log m st); [apply IH|done]).
  - cbn [andb]. unfold assert0. destruct ndebug; [apply IH|done].
Qed.

(** C5: Any client.  Whatever bytes arrive, in whatever pieces, every message handed to the
    loggers is well formed: lengths match their data, numbers are in the range of their
    types, records can be counted.  A release build hands them, in order, all messages
    among the frames of the stream, skipping frames that are none.  A debug build stops at
    the first frame that is no message, by a failed assertion.  There is no other fault but
    a logger's own: no access leaves the receive buffer, and without one of the two the
    thread returns. *)
Theorem any_bytes_well_formed {St} `{!LogSink St} getfl setfl buffer s flags (st : St) :
  thread_ready getfl setfl buffer s flags →
  let '(ps, r) := frames (concat (sk_chunks s)) in
  Forall msg_wf (handed_on ps) ∧
  socket_thread_exec getfl setfl buffer s st =
    st' ← foldM Protobuf.pdns_loggers_log (handed_on ps) st;
    if ndebug || forallb decodes ps then
      Ok (Served flags {|
        ce_state := st';
        ce_reason := if MAX_BUFFER_SIZE <=? length r then BufferFull else ending_reason (sk_ending s);
        ce_bsize := MAX_BUFFER_SIZE `min` length r |})
    else Fault AssertionFailed.
Proof.
  intros Hr. rewrite (thread_conn_spec _ _ _ _ _ _ Hr). unfold conn_spec.
  pose proof (frames_small (concat (sk_chunks s))) as Hsm.
  destruct (frames _) as [ps r]. cbn [fst] in Hsm. split.
  - apply Forall_forall. intros m (p & Hp & Hm)%handed_on_decoded.
    eapply frame_well_formed; [|exact Hm]. by eapply Forall_forall in Hsm.
  - rewrite deliver_all. destruct (foldM _ (handed_on ps) st) as [st'|]; [|done].
    cbn [mbind outcome_bind]. by destruct (ndebug || _).
Qed.
End pipeline.

Section delivery.
Context `{Abi, Build, Stdio, ProtobufCLaws, Sqlite} {Q : Type} `{!Mailbox Q (list byte)}.
Context (files : list byte → option (list byte)) (last : bool).
Implicit Types (d : daemon Q).

#[local] Instance the_sink : LogSink (daemon Q) := engine_sink files last.

(** C1: From the client's messages to the backends.  A client packs messages with the
    generated code and sends them, each with its length in front; the network cuts the
    bytes in any way; any of the three backends are enabled.  Then the log file's stream
    gets exactly the documented lines of the messages, in order (in the file itself when
    [force-flush] is set), the system logger gets its lines in order, and the database's
    queue is offered the rows of the messages in order; the connection ends when the
    client's does.  The only fault is the queue's assertion, in a debug build. *)
Theorem messages_reach_backends getfl setfl buffer s flags ms os d :
  thread_ready getfl setfl buffer s flags → Forall sendable ms →
  concat (sk_chunks s) = concat (packed_frame <$> ms) → Forall2 (outputs d) ms os →
  match foldM push_row (concat (o_rows <$> os)) (d_sqlite d) with
  | Fault e => socket_thread_exec getfl setfl buffer s d = Fault e
  | Ok q =>
      ∃ d', socket_thread_exec getfl setfl buffer s d =
          Ok (Served flags {| ce_state := d'; ce_reason := ending_reason (sk_ending s);
                              ce_bsize := 0 |}) ∧
        d_sqlite d' = q ∧
        sent (d_syslog d') =
          sent (d_syslog d) ++ (message (d_syslog d) LOG_NOTICE <$> concat (o_syslog <$> os)) ∧
        ∀ f, fp (d_logfile d) = Some f →
          let text := view (world (d_logfile d)) f ++
                      concat ((.++ [LF]) <$> concat (o_file <$> os)) in
          ∃ f', fp (d_logfile d') = Some f' ∧ view (world (d_logfile d')) f' = text ∧
            (concat (o_file <$> os) ≠ [] → force_flush (d_logfile d) = true →
             content (world (d_logfile d')) (f_ino f) = text)
  end.
Proof.
  intros Hr Hms Hcat Ho.
  set (ps := (λ m, protobuf_c_message_pack program (store_pbdnsmessage m)) <$> ms).
  assert (Forall (λ p, length p + 2 ≤ MAX_BUFFER_SIZE) ps) as Hps.
  { apply Forall_fmap. eapply Forall_impl; [exact Hms|]. intros m Hm. by apply frame_decodes. }
  assert (Forall2 (λ p m, unpack p = Some m) ps ms) as Hun.
  { apply Forall2_fmap_l, Forall_Forall2_diag. eapply Forall_impl; [exact Hms|].
    intros m Hm. by apply frame_decodes. }
  assert (packed_frame <$> ms = encode_frame <$> ps) as Hfr by (unfold ps; by rewrite <- list_fmap_compose).
  rewrite Hfr in Hcat.
  pose proof (thread_emits (H2 := codec_decoder) files last getfl setfl buffer s flags ps ms os d
    Hr Hps Hcat Hun Ho) as Hrun.
  change (socket_thread_exec getfl setfl buffer s d = emit os d ≫= (λ d', Ok (Served flags
    {| ce_state := d'; ce_reason := ending_reason (sk_ending s); ce_bsize := 0 |}))) in Hrun.
  rewrite Hrun. clear Hrun Hun Hps Hcat Hfr Hr Hms.
  destruct (emit os d) as [d'|e] eqn:He; pose proof He as Hq; unfold emit in Hq;
    destruct (foldM push_row _ _) as [q|]; simplify_eq/=; [|done].
  exists d'. split_and!; [done|by injection Hq as <-|injection Hq as <-; by rewrite send_lines_sent|].
  intros f Hf. by eapply emit_logfile.
Qed.
End delivery.

(** ** Concrete instances *)

Section instances.
#[local] Existing Instance lp64.
#[local] Existing Instance wire.

(** A message with one address record, as it is sent, in two pieces. *)
Definition demo_sent : PBDNSMessage := demo_msg [demo_a x01].

Definition demo_sock : sock := {|
  sk_chunks := [take 5 (packed_frame demo_sent); drop 5 (packed_frame demo_sent)];
  sk_ending := PeerClosed |}.

Lemma demo_sock_ready : thread_ready (Some 2%Z) (λ _, true) demo_buffer demo_sock 2.
Proof. apply demo_ready. refine (bool_decide_unpack _ _). by vm_compute. Qed.

(** All three backends are enabled. *)
Definition demo_all : @daemon mem_sqlite demo_queue := {|
  d_logfile := demo_log; d_syslog := syslog_statics; d_sqlite := demo_sqlite true |}.

Definition demo_output : output := {|
  o_file := @demo_lines release [demo_a x01]; o_syslog := @demo_lines release [demo_a x01];
  o_rows := computed (log_rows true false (Some demo_sent)) |}.

(** A statement is queued. *)
Definition demo_queued (o : outcome (@sqlite_t mem_sqlite demo_queue)) : bool :=
  if o is Ok s then
    if fifo s ≫= @mb_slot _ _ _ (@fifo_mailbox release _) is Some _ then true else false
  else false.

Lemma messages_reach_backends_witness :
  ∃ d', @socket_thread_exec release codec_decoder (@daemon mem_sqlite demo_queue)
      (@engine_sink release block_stdio mem_sqlite demo_queue (@fifo_mailbox release _) (λ _, None) true)
      (Some 2%Z) (λ _, true) demo_buffer demo_sock demo_all =
      Ok (Served 2 {| ce_state := d'; ce_reason := ReadEof; ce_bsize := 0 |}) ∧
    sent (d_syslog d') = message syslog_statics LOG_NOTICE <$> @demo_lines release [demo_a x01] ∧
    demo_queued (Ok (d_sqlite d')) = true.
Proof.
  pose proof (@messages_reach_backends lp64 release block_stdio wire wire_laws mem_sqlite demo_queue
    (@fifo_mailbox release _) (λ _, None) true (Some 2%Z) (λ _, true) demo_buffer demo_sock 2%Z
    [demo_sent] [demo_output] demo_all) as Hrun.
  assert (demo_queued (@foldM _ _ (@push_row release mem_sqlite demo_queue (@fifo_mailbox release _))
    (concat (o_rows <$> [demo_output])) (d_sqlite demo_all)) = true) as Hq by (by vm_compute).
  destruct (foldM push_row _ _) as [q|e].
  - destruct Hrun as (d' & Hrun & Hd & Hs & _).
    + apply demo_sock_ready.
    + constructor; [|constructor]. split; [by vm_compute|]. apply Nat.leb_le. by vm_compute.
    + by vm_compute.
    + constructor; [|constructor]. split_and!; [check_writable release [demo_a x01]..|by vm_compute].
    + exists d'. split; [exact Hrun|]. split; [exact Hs|]. rewrite Hd. exact Hq.
  - discriminate.
Defined.

Lemma any_bytes_well_formed_witness :
  let '(ps, r) := frames (concat (sk_chunks demo_sock)) in
  Forall msg_wf (@handed_on _ debug_build _ ps) ∧
  @socket_thread_exec debug_build codec_decoder nat demo_sink (Some 2%Z) (λ _, true) demo_buffer
      demo_sock 0 =
    st' ← foldM (@Protobuf.pdns_loggers_log nat demo_sink) (@handed_on _ debug_build _ ps) 0;
    if forallb decodes ps then
      Ok (Served 2 {|
        ce_state := st';
        ce_reason := if MAX_BUFFER_SIZE <=? length r then BufferFull else ReadEof;
        ce_bsize := MAX_BUFFER_SIZE `min` length r |})
    else Fault AssertionFailed.
Proof.
  apply (@any_bytes_well_formed lp64 debug_build wire wire_laws nat demo_sink (Some 2%Z) (λ _, true)
    demo_buffer demo_sock 2%Z 0), demo_sock_ready.
Defined.
End instances.
