(* ===== verification/Main.v ===== *)
(** * The daemon: src/pdns-logger.c, lines 83-243

    The command line, going to the background, the signal handlers and [main], which puts
    the parts together.  What the operating system answers and what the client threads do
    while the socket is open are parameters of [main]. *)

From S2P Require Import Prelude CLib Common Message Ini Config Protobuf Server Fifo.
From S2P Require Import LogLine Stdio Logfile Syslog Sqlite Engines.

(** ** The command line *)

(** What [getopt(argc, argv, "hvc:f")] returns, one call after the other: an option without
    an argument, [-c] with its argument, or ['?'] with [optopt]. *)
Inductive getopt_result := OptFlag (c : byte) | OptC (optarg : list byte) | OptErr (optopt : byte).

Definition opt_h : byte := x68.
Definition opt_v : byte := x76.
Definition opt_c : byte := x63.
Definition opt_f : byte := x66.
Definition dash : byte := x2d.

(** The options of one word after its dash; [rest] are the words after it. *)
Fixpoint getopt_word (cs : list byte) (rest : list (list byte)) :
    list getopt_result * list (list byte) :=
  match cs with
  | [] => ([], rest)
  | c :: cs =>
      if Byte.eqb c opt_c then
        match cs, rest with
        | _ :: _, _ => ([OptC cs], rest)
        | [], arg :: rest => ([OptC arg], rest)
        | [], [] => ([OptErr c], [])
        end
      else
        let '(rs, rest) := getopt_word cs rest in
        ((if strchr [opt_h; opt_v; opt_f] c then OptFlag c else OptErr c) :: rs, rest)
  end.

(** Words that are no options are passed over; "--" ends the options.  Every call takes at
    least one word. *)
Fixpoint getopt_loop (fuel : nat) (args : list (list byte)) : list getopt_result :=
  match fuel, args with
  | O, _ | _, [] => []
  | S fuel, word :: rest =>
      match word with
      | d :: c :: cs =>
          if negb (Byte.eqb d dash) then getopt_loop fuel rest
          else if bool_decide (c :: cs = [dash]) then []
          else let '(rs, rest) := getopt_word (c :: cs) rest in rs ++ getopt_loop fuel rest
      | _ => getopt_loop fuel rest
      end
  end.

Definition getopt (args : list (list byte)) : list getopt_result := getopt_loop (length args) args.

Definition set_config_file (v : cstring) (g : globals_t) : globals_t := {|
  g_user := g_user g; g_group := g_group g; g_config_file := v;
  g_bind_ip := g_bind_ip g; g_bind_port := g_bind_port g; g_allow_root := g_allow_root g;
  g_foreground := g_foreground g; g_running := g_running g; g_verbose := g_verbose g;
  g_socket := g_socket g |}.
Definition set_verbose (v : bool) (g : globals_t) : globals_t := {|
  g_user := g_user g; g_group := g_group g; g_config_file := g_config_file g;
  g_bind_ip := g_bind_ip g; g_bind_port := g_bind_port g; g_allow_root := g_allow_root g;
  g_foreground := g_foreground g; g_running := g_running g; g_verbose := v;
  g_socket := g_socket g |}.
Definition set_running (v : bool) (g : globals_t) : globals_t := {|
  g_user := g_user g; g_group := g_group g; g_config_file := g_config_file g;
  g_bind_ip := g_bind_ip g; g_bind_port := g_bind_port g; g_allow_root := g_allow_root g;
  g_foreground := g_foreground g; g_running := v; g_verbose := g_verbose g;
  g_socket := g_socket g |}.

(** The loop of [parse_cli] over the results of [getopt]: [-h] prints the usage and returns
    [PDNS_OK]; an option that is unknown or lacks its argument returns [PDNS_NO]. *)
Fixpoint parse_opts (opts : list getopt_result) (conf : globals_t) : pdns_status * globals_t :=
  match opts with
  | [] => (PDNS_OK, conf)
  | OptC optarg :: opts => parse_opts opts (set_config_file (Some optarg) conf)
  | OptErr _ :: _ => (PDNS_NO, conf)
  | OptFlag c :: opts =>
      if Byte.eqb c opt_h then (PDNS_OK, conf)
      else if Byte.eqb c opt_f then parse_opts opts (Config.set_foreground true conf)
      else if Byte.eqb c opt_v then parse_opts opts (set_verbose true conf)
      else (PDNS_NO, conf)
  end.

(** [args] is [argv] without the program's name. *)
Definition parse_cli (conf : globals_t) (args : list (list byte)) : pdns_status * globals_t :=
  parse_opts (getopt args) conf.

(** ** Going to the background, and the signals *)

(** [fork_and_close_parent], given what [fork] and [setsid] return. *)
Definition fork_and_close_parent (pid sid : Z) : pdns_status :=
  if negb (pid =? 0)%Z then PDNS_OK else if (sid <? 0)%Z then PDNS_NO else PDNS_FORK.

Definition signal_stop (g : globals_t) : globals_t := set_running false g.

(** ** main *)

(** How the process ends, or the state in which [main] returns. *)
Inductive ended (D : Type) :=
  | ExitFailure
  | ExitSuccess                                   (* the parent after [fork] *)
  | Returned (g : globals_t) (d : D).             (* [return 0] *)
Arguments ExitFailure {D}.
Arguments ExitSuccess {D}.
Arguments Returned {D} g d.

Section main.
Context `{Build, Stdio, Sqlite} {Q : Type} `{!Mailbox Q (list byte)}.

(** What happens while the socket is open: a client's message, a turn of the database
    thread, or SIGHUP. *)
Inductive happening := HMessage (m : PBDNSMessage) | HThread | HHangup.

(** The world [main] runs in: what the system answers and what happens meanwhile. *)
Record world_t := {
  w_default_config : list byte;
  w_files : list byte → option (list byte);
  w_fork : Z;
  w_setsid : Z;
  w_net : net;
  w_turns : list turn;
  w_events : list happening;
  w_last : bool;
}.

(** [signal_rotate], the handler of SIGHUP. *)
Definition signal_rotate (w : world_t) (d : daemon Q) : outcome (daemon Q) :=
  snd <$> pdns_loggers_rotate (engines (w_files w) (w_last w)) d.

(** A thread that does not exist does nothing. *)
Definition happen (w : world_t) (h : happening) (d : daemon Q) : outcome (daemon Q) :=
  match h with
  | HMessage m => snd <$> pdns_loggers_log (engines (w_files w) (w_last w)) (Some m) d
  | HThread =>
      if bgthread (d_sqlite d)
      then s ← bg_iteration (d_sqlite d);
           mret {| d_logfile := d_logfile d; d_syslog := d_syslog d; d_sqlite := s |}
      else mret d
  | HHangup => signal_rotate w d
  end.

(** [fork] copies the calling thread only: in the child the database thread does not
    exist. *)
Definition forked (d : daemon Q) : daemon Q := {|
  d_logfile := d_logfile d; d_syslog := d_syslog d;
  d_sqlite := set_thread false (bgrunning (d_sqlite d)) (d_sqlite d) |}.

Definition main (w : world_t) (args : list (list byte)) (d : daemon Q) :
    outcome (ended (daemon Q)) :=
  let '(st, g) := parse_cli globals_zero args in
  if bool_decide (st ≠ PDNS_OK) then mret ExitFailure
  else
    let g := if zstr (g_config_file g) then set_config_file (Some (w_default_config w)) g else g in
    let '(st, g) := parse_config_file (w_files w) (g_config_file g) g in
    if bool_decide (st ≠ PDNS_OK) then mret ExitFailure
    else
      '(_, d) ← loggers_initialize (w_files w) (w_last w) (g_config_file g) d;
      let st := if g_foreground g then PDNS_FORK
                else fork_and_close_parent (w_fork w) (w_setsid w) in
      match st with
      | PDNS_OK => mret ExitSuccess
      | PDNS_FORK =>
          let d := if g_foreground g then d else forked d in
          let g := set_running true g in
          '(st, _, _) ← pdns_socket_run (w_net w) (w_turns w) g;
          if bool_decide (st ≠ PDNS_OK) then mret ExitFailure
          else
            d ← foldM (happen w) (w_events w) d;
            '(_, d) ← loggers_halt (engines (w_files w) (w_last w)) d;
            mret (Returned (signal_stop g) d)
      | _ => mret ExitFailure
      end.
End main.
Arguments world_t : clear implicits.

(** ** Properties of the command line *)

(** The options that change the settings. *)
Inductive cli_option := SetConfig (path : list byte) | Foreground | Verbose.

Definition words_of (o : cli_option) : list (list byte) :=
  match o with
  | SetConfig path => [[dash; opt_c]; path]
  | Foreground => [[dash; opt_f]]
  | Verbose => [[dash; opt_v]]
  end.

Definition apply_option (o : cli_option) (g : globals_t) : globals_t :=
  match o with
  | SetConfig path => set_config_file (Some path) g
  | Foreground => Config.set_foreground true g
  | Verbose => set_verbose true g
  end.

Lemma getopt_word_shorter cs args : length (getopt_word cs args).2 ≤ length args.
Proof.
  revert args; induction cs as [|c cs IH]; intros args; simpl; [lia|].
  destruct (Byte.eqb c opt_c).
  - destruct cs, args; simpl; lia.
  - specialize (IH args). by destruct (getopt_word cs args).
Qed.

Lemma getopt_fuel fuel args : length args ≤ fuel → getopt_loop fuel args = getopt args.
Proof.
  unfold getopt. enough (∀ n m args, length args ≤ n → length args ≤ m →
    getopt_loop n args = getopt_loop m args) by auto. clear fuel args.
  induction n as [|n IH]; intros [|m] [|word args] Hn Hm; simpl in Hn, Hm; try lia; [done..|].
  cbn [getopt_loop]. destruct word as [|b [|c cs]]; [apply IH; lia|apply IH; lia|].
  destruct (negb _); [apply IH; lia|]. case_bool_decide; [done|].
  pose proof (getopt_word_shorter (c :: cs) args).
  destruct (getopt_word (c :: cs) args) as [rs rest]. f_equal. simpl in *. apply IH; lia.
Qed.

(** An option word. *)
Lemma getopt_cons c cs args :
  c :: cs ≠ [dash] →
  getopt ((dash :: c :: cs) :: args) =
    (getopt_word (c :: cs) args).1 ++ getopt (getopt_word (c :: cs) args).2.
Proof.
  intros Hne. unfold getopt at 1. cbn [length].
  change (getopt_loop (S (length args)) ((dash :: c :: cs) :: args)) with (
    if bool_decide (c :: cs = [dash]) then []
    else let '(rs, rest) := getopt_word (c :: cs) args in rs ++ getopt_loop (length args) rest).
  rewrite bool_decide_false by done. pose proof (getopt_word_shorter (c :: cs) args) as Hl.
  destruct (getopt_word (c :: cs) args) as [rs rest]. by rewrite getopt_fuel.
Qed.

(** What [getopt] returns for an option followed by anything. *)
Definition result_of (o : cli_option) : getopt_result :=
  match o with SetConfig path => OptC path | Foreground => OptFlag opt_f | Verbose => OptFlag opt_v end.

Lemma getopt_option o args : getopt (words_of o ++ args) = result_of o :: getopt args.
Proof.
  by destruct o as [path| |]; cbn [words_of app]; rewrite getopt_cons by discriminate.
Qed.

Lemma parse_option o opts g : parse_opts (result_of o :: opts) g = parse_opts opts (apply_option o g).
Proof. by destruct o. Qed.

Lemma parse_cli_prefix opts args g :
  parse_cli g (concat (words_of <$> opts) ++ args) =
    parse_cli (foldl (flip apply_option) g opts) args.
Proof.
  unfold parse_cli. revert g; induction opts as [|o opts IH]; intros g; [done|].
  rewrite fmap_cons. cbn [concat foldl flip].
  by rewrite <- app_assoc, getopt_option, parse_option, IH.
Qed.

Lemma parse_cli_help g args : parse_cli g ([dash; opt_h] :: args) = (PDNS_OK, g).
Proof. unfold parse_cli. by rewrite getopt_cons by discriminate. Qed.

(** C27: The command line, as [parse_cli] treats it.  Any sequence of [-c FILE] (whatever the
    file's name), [-f] and [-v] is accepted and applied in order, the last [-c] winning.
    [-h] prints the usage and returns success at once: the options before it are in force,
    everything after it is ignored, and the daemon goes on.  An unknown option, and [-c] as
    the last word, are refused. *)
Theorem parse_cli_options opts g :
  let line := concat (words_of <$> opts) in
  let g' := foldl (flip apply_option) g opts in
  parse_cli g line = (PDNS_OK, g') ∧
  (∀ args, parse_cli g (line ++ [dash; opt_h] :: args) = (PDNS_OK, g')) ∧
  (∀ c args, c ∉ [dash; opt_h; opt_v; opt_c; opt_f] →
     parse_cli g (line ++ [dash; c] :: args) = (PDNS_NO, g')) ∧
  parse_cli g (line ++ [[dash; opt_c]]) = (PDNS_NO, g').
Proof.
  intros line g'. unfold line, g'. rewrite parse_cli_prefix. split_and!.
  - pose proof (parse_cli_prefix opts [] g) as H. rewrite app_nil_r in H. exact H.
  - intros args. rewrite parse_cli_prefix. apply parse_cli_help.
  - intros c args Hc. rewrite parse_cli_prefix. unfold parse_cli.
    rewrite !not_elem_of_cons in Hc. destruct Hc as (Hd & Hh & Hv & Hcc & Hf & _).
    rewrite getopt_cons by congruence. by destruct c.
  - done.
Qed.

Section main_properties.
Context `{Build, Stdio, Sqlite} {Q : Type} `{!Mailbox Q (list byte)}.
Implicit Types (d : daemon Q).

(** [-h] does not exit, as the usage text says it does: [main] goes on with the
    options before it and ignores everything after it. *)
Theorem help_does_not_exit w opts args d :
  main w (concat (words_of <$> opts) ++ [dash; opt_h] :: args) d =
    main w (concat (words_of <$> opts)) d.
Proof.
  unfold main. rewrite parse_cli_prefix.
  pose proof (parse_cli_prefix opts [] globals_zero) as Hcli.
  rewrite app_nil_r in Hcli. by rewrite Hcli, parse_cli_help.
Qed.

(** A configuration file that cannot be opened or has an error ends the daemon with a
    failure before any backend is started. *)
Theorem bad_config_exits w opts d path :
  g_config_file (foldl (flip apply_option) globals_zero opts) = Some path → path ≠ [] →
  (ini_parse Config.opt_handler (w_files w path) (foldl (flip apply_option) globals_zero opts)).1 ≠ 0%Z →
  main w (concat (words_of <$> opts)) d = Ok ExitFailure.
Proof.
  intros Hp Hne Hini. pose proof (parse_cli_prefix opts [] globals_zero) as Hcli.
  rewrite app_nil_r in Hcli. unfold main. rewrite Hcli.
  change (parse_cli ?g []) with (PDNS_OK, g). cbv iota.
  rewrite bool_decide_false by auto. destruct path as [|b path]; [done|].
  rewrite Hp. cbn [zstr]. unfold parse_config_file. rewrite Hp.
  destruct (ini_parse _ _ _) as [r g']. simpl in Hini.
  rewrite (proj2 (Z.eqb_neq _ _)) by done. by rewrite bool_decide_true.
Qed.
End main_properties.

(** ** The database thread over the daemon's life *)

Section lifetime.
Context `{Build, Stdio, Sqlite} {Q : Type} `{!Mailbox Q (list byte)}.
Implicit Types (s : sqlite_t Q) (d : daemon Q) (w : world_t).

(** Logging touches only the queue. *)
Definition only_fifo s s' : Prop := ∃ q, s' = set_fifo q s.

Lemma push_sql_only_fifo sql s s' : push_sql sql s = Ok s' → only_fifo s s'.
Proof.
  unfold push_sql. intros Hp.
  assert (s' = s → only_fifo s s') as Hid by (intros ->; exists (fifo s); by destruct s).
  destruct (fifo s) as [q|]; [|injection Hp as <-; by apply Hid].
  destruct sql as [v|]; [|injection Hp as <-; by apply Hid].
  apply outcome_bind_ok in Hp as (q' & _ & Hp). injection Hp as <-. by eexists.
Qed.

Lemma only_fifo_trans s1 s2 s3 : only_fifo s1 s2 → only_fifo s2 s3 → only_fifo s1 s3.
Proof. intros [q ->] [q' ->]. by exists q'. Qed.

Lemma log_rrs_only_fifo h rrs c s s' : Sqlite.log_rrs h rrs c s = Ok s' → only_fifo s s'.
Proof.
  revert c s; induction rrs as [|rr rrs IH]; intros c s Hl; simpl in Hl.
  { injection Hl as <-. exists (fifo s). by destruct s. }
  apply outcome_bind_ok in Hl as (c' & _ & Hl). apply outcome_bind_ok in Hl as (sql & _ & Hl).
  apply outcome_bind_ok in Hl as (s1 & Hp & Hl).
  eapply only_fifo_trans; [by eapply push_sql_only_fifo|by eapply IH].
Qed.

Lemma logsqlite_log_only_fifo m s st s' : logsqlite_log m s = Ok (st, s') → only_fifo s s'.
Proof.
  assert (only_fifo s s) as Hid by (exists (fifo s); by destruct s).
  unfold logsqlite_log. destruct (Sqlite.disabled s); [by intros [= _ <-]|].
  destruct m as [m|]; [|by intros [= _ <-]]. destruct (m_response m) as [r|]; [|by intros [= _ <-]].
  destruct (_ && _); [by intros [= _ <-]|]. intros Hl.
  apply outcome_bind_ok in Hl as (h & _ & Hl). destruct (r_rrs r) as [|rr rrs].
  - apply outcome_bind_ok in Hl as (sql & _ & Hl). apply outcome_bind_ok in Hl as (s1 & Hp & Hl).
    injection Hl as _ <-. by eapply push_sql_only_fifo.
  - apply outcome_bind_ok in Hl as (s1 & Hp & Hl). injection Hl as _ <-. by eapply log_rrs_only_fifo.
Qed.

(** No thread is created or destroyed, and no backend enabled or disabled, after the
    start. *)
Definition same_thread s s' : Prop :=
  bgthread s' = bgthread s ∧ Sqlite.disabled s' = Sqlite.disabled s.

Lemma frame_same_thread s s' : frame s s' → same_thread s s'.
Proof. intros (_ & _ & _ & _ & ? & _ & ? & _). by split. Qed.

Lemma rotate_same_thread s st s' : logsqlite_rotate s = Ok (st, s') → same_thread s s'.
Proof.
  unfold logsqlite_rotate. destruct (db s); [|by intros [= _ <-]].
  cbn [db_close mbind outcome_bind mret outcome_ret]. intros Hr. simpl in Hr.
  destruct (dbfile s) as [name|]; [|done].
  apply outcome_bind_ok in Hr as ([st' s1] & Ho & Hr). injection Hr as _ <-.
  apply db_open_frame, frame_same_thread in Ho. exact Ho.
Qed.

Lemma bg_iteration_same_thread s s' : bg_iteration s = Ok s' → same_thread s s'.
Proof.
  unfold bg_iteration. intros Hb. apply outcome_bind_ok in Hb as ([sql s1] & Hg & Hb).
  assert (same_thread s s1) as [E1 E2].
  { destruct (fifo s) as [q|]; [|by injection Hg as _ <-].
    apply outcome_bind_ok in Hg as ([v q'] & _ & Hg). by injection Hg as _ <-. }
  destruct sql as [sql|]; [|by injection Hb as <-].
  rewrite db_exec_is_spec in Hb. injection Hb as <-.
  pose proof (frame_same_thread _ _ (exec_spec_frame sql s1)) as [E3 E4].
  split; congruence.
Qed.

Lemma message_only_fifo w m d d' :
  happen w (HMessage m) d = Ok d' → only_fifo (d_sqlite d) (d_sqlite d').
Proof.
  simpl. rewrite log_each. intros Hm. destruct (_ <$> each _ _ _) as [[st d1]|] eqn:E; [|done].
  injection Hm as <-. apply each_ok in E as (_ & _ & stc & _ & _ & E).
  by apply logsqlite_log_only_fifo in E.
Qed.

Lemma happen_same_thread w h d d' :
  happen w h d = Ok d' → same_thread (d_sqlite d) (d_sqlite d').
Proof.
  destruct h as [m| |]; simpl.
  - intros Hm. by apply message_only_fifo in Hm as [q ->].
  - destruct (bgthread (d_sqlite d)); [|by intros [= <-]]. intros Hb.
    apply outcome_bind_ok in Hb as (s & Hb & Hd). injection Hd as <-.
    by apply bg_iteration_same_thread.
  - unfold signal_rotate. rewrite rotate_each. intros Hr.
    destruct (_ <$> each _ _ _) as [[st d1]|] eqn:E; [|done]. injection Hr as <-.
    apply each_ok in E as (_ & _ & stc & _ & _ & E). by apply rotate_same_thread in E.
Qed.

Lemma happens_same_thread w hs d d' :
  foldM (happen w) hs d = Ok d' → same_thread (d_sqlite d) (d_sqlite d').
Proof.
  revert d; induction hs as [|h hs IH]; intros d Hf; simpl in Hf; [by injection Hf as <-|].
  apply outcome_bind_ok in Hf as (d1 & H1' & Hf). apply happen_same_thread in H1' as [E1 E2].
  apply IH in Hf as [E3 E4]. split; congruence.
Qed.

(** C34: In the background the sqlite backend never writes a row: the child of [fork] has
    no database thread, so whatever messages arrive, the database stays as it was. *)
Theorem background_database_idle w hs d d' :
  Forall (λ h, h ≠ HHangup) hs → foldM (happen w) hs (forked d) = Ok d' →
  sq (d_sqlite d') = sq (d_sqlite d).
Proof.
  intros Hall. change (sq (d_sqlite d)) with (sq (d_sqlite (forked d))).
  assert (bgthread (d_sqlite (forked d)) = false) as Hb by done. revert Hb.
  generalize (forked d) as d0. induction Hall as [|h hs Hh Hall IH]; intros d0 Hb Hf; simpl in Hf.
  { by injection Hf as <-. }
  apply outcome_bind_ok in Hf as (d1 & Hd1 & Hf).
  pose proof (happen_same_thread _ _ _ _ Hd1) as [Hb1 _].
  rewrite (IH d1) by congruence. destruct h as [m| |]; [|by simpl in Hd1; rewrite Hb in Hd1; injection Hd1 as <-|done].
  by apply message_only_fifo in Hd1 as [q ->].
Qed.

(** The start creates the thread only if the backend is enabled. *)
Lemma init_thread files conf s st s' :
  logsqlite_init files conf s = Ok (st, s') → bgthread s = false → bgthread s' = true →
  Sqlite.disabled s' = false.
Proof.
  unfold logsqlite_init. intros Hi Hb Hb'.
  destruct conf as [[|b path]|]; [injection Hi as _ <-; congruence| |injection Hi as _ <-; congruence].
  destruct (files (b :: path)) as [text|]; [|simpl in Hi; injection Hi as _ <-; congruence].
  pose proof (ini_parse_invariant (U := sqlite_t Q) Sqlite.opt_handler
    (λ s, bgthread s = false) text s) as Hinv.
  destruct (ini_parse Sqlite.opt_handler (Some text) s) as [res s1].
  assert (bgthread s1 = false) as Hb1.
  { apply Hinv; [|done]. intros sec n v l u Hu. unfold Sqlite.opt_handler. by repeat case_match. }
  destruct (negb (res =? 0)%Z); [injection Hi as _ <-; congruence|].
  destruct (Sqlite.disabled s1) eqn:Hd; [injection Hi as _ <-; congruence|].
  destruct (dbfile s1) as [[|c name]|]; [injection Hi as _ <-; congruence| |injection Hi as _ <-; congruence].
  apply db_open_frame, frame_same_thread in Hi as [_ ->]. exact Hd.
Qed.

Lemma stop_thread last s st s' :
  logsqlite_stop last s = Ok (st, s') → bgthread s = true ∧ Sqlite.disabled s' = Sqlite.disabled s.
Proof.
  unfold logsqlite_stop, bg_thread_stop. simpl. destruct (bgthread s) eqn:Hb; [|done].
  intros Hs. split; [done|]. apply outcome_bind_ok in Hs as (s1 & Hs1 & Hs). injection Hs as _ <-.
  simpl. destruct last; [|by injection Hs1 as <-].
  apply bg_iteration_same_thread in Hs1 as [_ Hd]. exact Hd.
Qed.

(** C33: The daemon only terminates normally in the foreground and with the sqlite backend
    enabled: otherwise stopping it joins a database thread that does not exist. *)
Theorem clean_shutdown w args d g d' :
  bgthread (d_sqlite d) = false → main w args d = Ok (Returned g d') →
  g_foreground g = true ∧ Sqlite.disabled (d_sqlite d') = false.
Proof.
  intros Hb. unfold main. destruct (parse_cli globals_zero args) as [st0 g0].
  case_bool_decide; [done|].
  destruct (parse_config_file _ _ _) as [st1 g1]. case_bool_decide; [done|]. intros Hm.
  apply outcome_bind_ok in Hm as ([st2 d2] & Hi & Hm). rewrite start_each in Hi.
  apply each_ok in Hi as (_ & _ & sti & _ & _ & Hi).
  destruct (match g_foreground g1 with true => _ | false => _ end) eqn:Hst; try done.
  apply outcome_bind_ok in Hm as ([[st3 fds] calls] & _ & Hm). case_bool_decide; [done|].
  apply outcome_bind_ok in Hm as (d3 & Hev & Hm). apply outcome_bind_ok in Hm as ([st4 d4] & Hh & Hm).
  injection Hm as <- <-. rewrite halt_each in Hh.
  apply each_ok in Hh as (_ & _ & sth & _ & _ & Hh). apply stop_thread in Hh as [Hb3 Hd4].
  apply happens_same_thread in Hev as [Eb Ed]. rewrite Eb in Hb3.
  destruct (g_foreground g1) eqn:Hfg; [|done]. simpl. split; [done|].
  rewrite Hd4, Ed. by eapply init_thread.
Qed.
End lifetime.

(** ** Concrete instances *)

Definition demo_net : net := {|
  n_socket := 3; n_setsockopt := 0; n_bind := 0; n_getfl := 2; n_setfl := 0; n_listen := 0 |}.

Definition demo_ini : list byte := bs "[logfile]
disabled=1
[syslog]
disabled=1
[sqlite3]
dbfile=logs.db
only-rewrites=0
".

Definition demo_world (events : list happening) : world_t := {|
  w_default_config := bs "/etc/pdns-logger.ini";
  w_files := λ p, if bool_decide (p = bs "ini") then Some demo_ini else None;
  w_fork := 0; w_setsid := 1; w_net := demo_net;
  w_turns := [{| t_running := true; t_select := Some [3%Z]; t_accept := 4 |}];
  w_events := events; w_last := false |}.

Definition demo_statics : @daemon mem_sqlite demo_queue :=
  statics (demo_fs (bs "log")) (empty_db : @DB mem_sqlite).

Lemma parse_cli_options_witness :
  parse_cli globals_zero ([[dash; opt_f]; [dash; opt_c]; bs "a.ini"; [dash; x78]; bs "b"]) =
    (PDNS_NO, set_config_file (Some (bs "a.ini")) (Config.set_foreground true globals_zero)).
Proof.
  destruct (parse_cli_options [Foreground; SetConfig (bs "a.ini")] globals_zero) as (_ & _ & Hu & _).
  apply (Hu x78 [bs "b"]). rewrite !not_elem_of_cons. by split_and!; try apply not_elem_of_nil.
Defined.

(** The default configuration file does not exist here. *)
Lemma bad_config_exits_witness :
  @main release block_stdio mem_sqlite demo_queue (@fifo_mailbox release _) (demo_world [])
    (concat (words_of <$> [Foreground; SetConfig (bs "nowhere")])) demo_statics = Ok ExitFailure.
Proof.
  apply (@bad_config_exits release block_stdio mem_sqlite demo_queue (@fifo_mailbox release _)
    (demo_world []) [Foreground; SetConfig (bs "nowhere")] demo_statics (bs "nowhere"));
    [reflexivity|discriminate|].
  assert (ini_parse Config.opt_handler (w_files (demo_world []) (bs "nowhere"))
    (foldl (flip apply_option) globals_zero [Foreground; SetConfig (bs "nowhere")]) =
    ((-1)%Z, foldl (flip apply_option) globals_zero [Foreground; SetConfig (bs "nowhere")])) as ->
    by reflexivity.
  discriminate.
Defined.

Notation demo_main args :=
  (@main release block_stdio mem_sqlite demo_queue (@fifo_mailbox release _)
    (demo_world [HMessage (demo_msg [demo_a x01]); HThread]) args demo_statics).

(** One message is logged in the foreground; its row is in the database at the end. *)
Lemma clean_shutdown_witness :
  ∃ g d', demo_main (words_of Foreground ++ words_of (SetConfig (bs "ini"))) = Ok (Returned g d') ∧
    length (m_durable (sq (d_sqlite d'))) = 1 ∧
    g_foreground g = true ∧ Sqlite.disabled (d_sqlite d') = false.
Proof.
  assert (match demo_main (words_of Foreground ++ words_of (SetConfig (bs "ini"))) with
          | Ok (Returned g d') => bool_decide (length (m_durable (sq (d_sqlite d'))) = 1)
          | _ => false
          end = true) as Hi by (by vm_compute).
  destruct (main _ _ _) as [[| |g d']|f] eqn:E; try discriminate Hi.
  apply bool_decide_eq_true in Hi. exists g, d'. split; [reflexivity|]. split; [exact Hi|].
  exact (@clean_shutdown release block_stdio mem_sqlite demo_queue (@fifo_mailbox release _)
    _ _ demo_statics g d' eq_refl E).
Defined.

(** The same message in the child of [fork]: the statement stays in the queue. *)
Definition demo_enabled : @daemon mem_sqlite demo_queue := {|
  d_logfile := logfile_statics (demo_fs (bs "log")); d_syslog := Syslog.set_disabled true syslog_statics;
  d_sqlite := demo_sqlite true |}.

Definition demo_child : outcome (@daemon mem_sqlite demo_queue) :=
  foldM (@happen release block_stdio mem_sqlite demo_queue (@fifo_mailbox release _) (demo_world []))
    [HMessage (demo_msg [demo_a x01]); HThread] (forked demo_enabled).

Lemma background_database_idle_witness :
  ∃ d', demo_child = Ok d' ∧ sq (d_sqlite d') = sq (d_sqlite demo_enabled).
Proof.
  assert (match demo_child with Ok _ => true | Fault _ => false end = true) as Hi by (by vm_compute).
  destruct demo_child as [d'|f] eqn:E; [|discriminate Hi]. exists d'. split; [reflexivity|].
  apply (@background_database_idle release block_stdio mem_sqlite demo_queue (@fifo_mailbox release _)
    (demo_world []) [HMessage (demo_msg [demo_a x01]); HThread] demo_enabled d'); [|exact E].
  apply Forall_cons_2; [discriminate|]. apply Forall_cons_2; [discriminate|]. apply Forall_nil_2.
Defined.
